(** * Object-image loader, relocation resolver and step controller

    A shallow embedding of [js/unicorn-debugger.js]: the ELF reader
    ([readUint], [getString], [parseELF]), the symbol and boundary resolver
    ([extractFunctionSymbols], [detectFunctionsFromAssembly]), the image
    builder and relocation pass of the [runUnicorn] click handler, and the
    [UnicornDebugger] class.

    Conventions.
    - A JavaScript Number that holds an integer is a [Z].  The source keeps
      addresses and sizes in doubles, which are exact below 2^53; the
      embedding is exact everywhere.
    - An [ArrayBuffer] is a [list Z] of bytes (each in [0, 256)).  A
      [DataView] or typed-array access outside the buffer raises
      [RangeError]; fallible code returns [result].
    - The emulator (Unicorn) and the disassembler (Capstone) are external
      engines: the code is embedded over an interface ([Engine],
      [Disassembler]) and never over their instruction semantics.
    - The page is the console log and the text of the [emuOutput] element,
      as sequences of messages, and the performance-mode flag.  Calls that
      only render (registers, stack, highlighting, button states) are left
      out of the controller; what they compute is embedded on its own
      further down: the stack view ([getStackContents]), the maps behind
      the source highlighting ([extractCFunctions],
      [detectAssemblyFunctionBoundaries], [mapAssemblyToC]), the names
      of the compile step on a linked executable
      ([mapStoredNamesToAddresses]), the listing that
      [disassembleSection] writes, the handler reads back and
      [highlightCurrentLine] lays out, and the markup of the stack panel
      ([updateStack]). *)

From Stdlib Require Import ZArith Lia List Bool Ascii String Sorted Permutation.
From stdpp Require Import base option list gmap strings pretty.

Local Open Scope Z_scope.

(* ------------------------------------------------------------------ *)
(** ** JavaScript values: exceptions, typed-array reads and writes      *)
(* ------------------------------------------------------------------ *)

Module JS.

(** The exceptions the embedded code can raise. *)
Inductive exn : Type :=
| RangeError                 (* DataView / typed array out of bounds *)
| TypeError                  (* property access on undefined or null *)
| Error (msg : string).      (* [throw new Error(msg)] *)

Inductive result (A : Type) : Type :=
| Ok (a : A)
| Throw (e : exn).
Arguments Ok {A} a.
Arguments Throw {A} e.

Definition bind {A B} (m : result A) (k : A -> result B) : result B :=
  match m with
  | Ok a => k a
  | Throw e => Throw e
  end.

Definition is_ok {A} (m : result A) : bool :=
  match m with Ok _ => true | Throw _ => false end.

(** [xs.map(f)] where [f] may throw: the first exception wins. *)
Fixpoint mapM {A B} (f : A -> result B) (l : list A) : result (list B) :=
  match l with
  | [] => Ok []
  | x :: r =>
      bind (f x) (fun y => bind (mapM f r) (fun ys => Ok (y :: ys)))
  end.

(** [view.getUint8(i)]. *)
Definition getUint8 (view : list Z) (i : Z) : result Z :=
  if i <? 0 then Throw RangeError
  else match view !! Z.to_nat i with
       | Some b => Ok b
       | None => Throw RangeError
       end.

(** [view.getUint16(off, le)]. *)
Definition getUint16 (view : list Z) (off : Z) (le : bool) : result Z :=
  bind (getUint8 view off) (fun b0 =>
  bind (getUint8 view (off + 1)) (fun b1 =>
  Ok (if le then b0 + 256 * b1 else 256 * b0 + b1))).

(** [view.getUint32(off, le)]. *)
Definition getUint32 (view : list Z) (off : Z) (le : bool) : result Z :=
  bind (getUint8 view off) (fun b0 =>
  bind (getUint8 view (off + 1)) (fun b1 =>
  bind (getUint8 view (off + 2)) (fun b2 =>
  bind (getUint8 view (off + 3)) (fun b3 =>
  Ok (if le
      then b0 + 256 * b1 + 65536 * b2 + 16777216 * b3
      else 16777216 * b0 + 65536 * b1 + 256 * b2 + b3))))).

(** [Number(view.getBigUint64(off, true))]. *)
Definition getBigUint64 (view : list Z) (off : Z) : result Z :=
  bind (getUint32 view off true) (fun lo =>
  bind (getUint32 view (off + 4) true) (fun hi =>
  Ok (hi * 4294967296 + lo))).

(** [Number(view.getBigInt64(off, true))]. *)
Definition getBigInt64 (view : list Z) (off : Z) : result Z :=
  bind (getBigUint64 view off) (fun u =>
  Ok (if u <? 9223372036854775808 then u else u - 18446744073709551616)).

(** [new Uint8Array(buffer, offset, size)]: a window on the buffer; the
    constructor raises [RangeError] when the window leaves the buffer. *)
Definition Uint8Array (buffer : list Z) (offset size : Z) : result (list Z) :=
  if (offset <? 0) || (size <? 0) || (Z.of_nat (length buffer) <? offset + size)
  then Throw RangeError
  else Ok (take (Z.to_nat size) (drop (Z.to_nat offset) buffer)).

(** [new DataView(buffer, offset)]: the rest of the buffer from [offset]. *)
Definition DataView (buffer : list Z) (offset : Z) : result (list Z) :=
  if (offset <? 0) || (Z.of_nat (length buffer) <? offset)
  then Throw RangeError
  else Ok (drop (Z.to_nat offset) buffer).

(** The four bytes stored by [setInt32(0, v, true)] and by
    [setUint32(0, v, true)]: both convert [v] modulo 2^32 and store the
    low byte first. *)
Definition le32 (v : Z) : list Z :=
  let w := v mod 4294967296 in
  [ w mod 256; (w / 256) mod 256; (w / 65536) mod 256; (w / 16777216) mod 256 ].

Definition setInt32 (v : Z) : list Z := le32 v.
Definition setUint32 (v : Z) : list Z := le32 v.

(** The eight bytes stored by [setBigUint64(0, BigInt(v), true)]. *)
Definition setBigUint64 (v : Z) : list Z :=
  le32 (v mod 18446744073709551616) ++ le32 ((v mod 18446744073709551616) / 4294967296).

(** Reading four bytes back, as [getInt32(0, true)] and [getUint32(0, true)]. *)
Definition decodeUint32 (bs : list Z) : Z :=
  match bs with
  | [b0; b1; b2; b3] => b0 + 256 * b1 + 65536 * b2 + 16777216 * b3
  | _ => 0
  end.

Definition decodeInt32 (bs : list Z) : Z :=
  let u := decodeUint32 bs in
  if u <? 2147483648 then u else u - 4294967296.

(** [Math.ceil(a / b) * b] and [Math.floor(a / b) * b] on integers. *)
Definition ceilTo (a b : Z) : Z := ((a + b - 1) / b) * b.
Definition floorTo (a b : Z) : Z := (a / b) * b.

(** [String.fromCharCode(b)] for a byte. *)
Definition fromCharCode (b : Z) : ascii := ascii_of_N (Z.to_N b).

(** [s.includes(pat)]. *)
Definition includes (s pat : string) : bool :=
  match String.index 0 pat s with
  | Some _ => true
  | None => false
  end.

End JS.

Import JS.

#[global] Instance result_bind : MBind JS.result :=
  fun A B k m => JS.bind m k.

(* ------------------------------------------------------------------ *)
(** ** ELF reader                                                       *)
(* ------------------------------------------------------------------ *)

Module Elf.

Inductive ElfClass := ELF32 | ELF64.
Inductive ElfData := little | big.

Record ElfHeader := {
  class : ElfClass;
  data : ElfData;
  entry : Z;
  phoff : Z;
  shoff : Z;
  phentsz : Z;
  phnum : Z;
  shentsz : Z;
  shnum : Z;
  shstrndx : Z
}.

Record ProgramHeader := {
  p_type : Z;
  p_flags : Z;
  p_offset : Z;
  p_vaddr : Z;
  p_filesz : Z;
  p_memsz : Z;
  p_align : Z
}.

Record SectionHeader := {
  nameOff : Z;
  type : Z;
  flags : Z;
  addr : Z;
  offset : Z;
  size : Z;
  link : Z;
  info : Z;
  addralign : Z;
  entsize : Z;
  name : string
}.

(** What [parseELF] returns: [{elfHeader, programHeaders, sectionHeaders,
    view}], the view being the original bytes. *)
Record Parsed := {
  elfHeader : ElfHeader;
  programHeaders : list ProgramHeader;
  sectionHeaders : list SectionHeader;
  view : list Z
}.

(** [readUint(view, off, size, le)]; an 8-byte read combines two 32-bit
    reads, the word at [off] being the low one whatever [le] is. *)
Definition readUint (view : list Z) (off size : Z) (le : bool) : result Z :=
  if size =? 1 then getUint8 view off
  else if size =? 2 then getUint16 view off le
  else if size =? 4 then getUint32 view off le
  else
    lo ← getUint32 view off le;
    hi ← getUint32 view (off + 4) le;
    Ok (hi * 4294967296 + lo).

(** [getString]'s loop, on the bytes from the start offset on: it stops at
    the first zero byte and raises [RangeError] when the buffer ends
    first. *)
Fixpoint getStringFrom (bytes : list Z) : result string :=
  match bytes with
  | [] => Throw RangeError
  | b :: rest =>
      if b =? 0 then Ok EmptyString
      else s ← getStringFrom rest; Ok (String (fromCharCode b) s)
  end.

(** [getString(view, off)]. *)
Definition getString (view : list Z) (off : Z) : result string :=
  if off <? 0 then Throw RangeError
  else getStringFrom (drop (Z.to_nat off) view).

Definition ELF_MAGIC : list Z := [0x7F; 0x45; 0x4C; 0x46].

(** [[0x7F,0x45,0x4C,0x46].some((v,i) => view.getUint8(i) !== v)]: the
    indices are visited in order; a read outside the buffer raises before
    a later mismatch is seen. *)
Fixpoint magicMismatch (view : list Z) (i : Z) (magic : list Z) : result bool :=
  match magic with
  | [] => Ok false
  | v :: rest =>
      b ← getUint8 view i;
      if negb (b =? v) then Ok true else magicMismatch view (i + 1) rest
  end.

(** The indices [0 .. n-1] of a [for (let i = 0; i < n; i++)] loop. *)
Definition indices (n : Z) : list Z := map Z.of_nat (seq 0 (Z.to_nat n)).

Definition parseProgramHeader (view : list Z) (is32 le : bool) (off : Z)
  : result ProgramHeader :=
  let u32 o := readUint view o 4 le in
  let u64 o := readUint view o 8 le in
  let get o := if is32 then u32 o else u64 o in
  ty ← u32 off;
  fl ← (if is32 then u32 (off + 24) else u32 (off + 4));
  po ← get (off + (if is32 then 4 else 8));
  va ← get (off + (if is32 then 8 else 16));
  fs ← get (off + (if is32 then 16 else 32));
  ms ← get (off + (if is32 then 20 else 40));
  al ← get (off + (if is32 then 28 else 48));
  Ok {| p_type := ty; p_flags := fl; p_offset := po; p_vaddr := va;
        p_filesz := fs; p_memsz := ms; p_align := al |}.

(** A section header as pushed by the second loop, its [name] not yet
    set. *)
Definition parseSectionHeader (view : list Z) (is32 le : bool) (off : Z)
  : result SectionHeader :=
  let u32 o := readUint view o 4 le in
  let u64 o := readUint view o 8 le in
  no ← u32 off;
  ty ← u32 (off + 4);
  fl ← (if is32 then u32 (off + 8) else u64 (off + 8));
  ad ← (if is32 then u32 (off + 12) else u64 (off + 16));
  ofs ← (if is32 then u32 (off + 16) else u64 (off + 24));
  sz ← (if is32 then u32 (off + 20) else u64 (off + 32));
  lk ← u32 (off + (if is32 then 24 else 40));
  inf ← u32 (off + (if is32 then 28 else 44));
  aa ← (if is32 then u32 (off + 32) else u64 (off + 48));
  es ← (if is32 then u32 (off + 36) else u64 (off + 56));
  Ok {| nameOff := no; type := ty; flags := fl; addr := ad; offset := ofs;
        size := sz; link := lk; info := inf; addralign := aa; entsize := es;
        name := EmptyString |}.

Definition setName (s : SectionHeader) (n : string) : SectionHeader :=
  {| nameOff := nameOff s; type := type s; flags := flags s; addr := addr s;
     offset := offset s; size := size s; link := link s; info := info s;
     addralign := addralign s; entsize := entsize s; name := n |}.

(** [const strsh = sh[eh.shstrndx]; sh.forEach(s => s.name =
    getString(view, strsh.offset + s.nameOff))].  With no section the
    callback never runs; with sections and [strsh] undefined its first
    call raises [TypeError]. *)
Definition resolveNames (view : list Z) (shstrndx : Z) (sh : list SectionHeader)
  : result (list SectionHeader) :=
  match sh with
  | [] => Ok []
  | _ =>
      match sh !! Z.to_nat shstrndx with
      | None => Throw TypeError
      | Some strsh =>
          mapM (fun s => n ← getString view (offset strsh + nameOff s);
                         Ok (setName s n)) sh
      end
  end.

(** The head of [parseELF]: the signature test, the class and encoding
    bytes, and the header fields. *)
Definition parseHeader (buf : list Z) : result (bool * bool * ElfHeader) :=
  bad ← magicMismatch buf 0 ELF_MAGIC;
  if (bad : bool) then Throw (Error "Not an ELF file")
  else
    c ← getUint8 buf 4;
    d ← getUint8 buf 5;
    let is32 := c =? 1 in
    let le := d =? 1 in
    let u16 o := readUint buf o 2 le in
    let u32 o := readUint buf o 4 le in
    let u64 o := readUint buf o 8 le in
    let get o := if is32 then u32 o else u64 o in
    e_entry ← get 24;
    e_phoff ← get (if is32 then 28 else 32);
    e_shoff ← get (if is32 then 32 else 40);
    e_phentsz ← u16 (if is32 then 42 else 54);
    e_phnum ← u16 (if is32 then 44 else 56);
    e_shentsz ← u16 (if is32 then 46 else 58);
    e_shnum ← u16 (if is32 then 48 else 60);
    e_shstrndx ← u16 (if is32 then 50 else 62);
    Ok (is32, le,
        {| class := if is32 then ELF32 else ELF64;
           data := if le then little else big;
           entry := e_entry; phoff := e_phoff; shoff := e_shoff;
           phentsz := e_phentsz; phnum := e_phnum;
           shentsz := e_shentsz; shnum := e_shnum;
           shstrndx := e_shstrndx |}).

(** The two table loops of [parseELF]. *)
Definition programTable (buf : list Z) (is32 le : bool) (eh : ElfHeader)
  : result (list ProgramHeader) :=
  mapM (fun i => parseProgramHeader buf is32 le (phoff eh + i * phentsz eh))
       (indices (phnum eh)).

Definition sectionTable (buf : list Z) (is32 le : bool) (eh : ElfHeader)
  : result (list SectionHeader) :=
  mapM (fun i => parseSectionHeader buf is32 le (shoff eh + i * shentsz eh))
       (indices (shnum eh)).

(** [parseELF(buf)]. *)
Definition parseELF (buf : list Z) : result Parsed :=
  '(is32, le, eh) ← parseHeader buf;
  ph ← programTable buf is32 le eh;
  sh ← sectionTable buf is32 le eh;
  sh' ← resolveNames buf (shstrndx eh) sh;
  Ok {| elfHeader := eh; programHeaders := ph; sectionHeaders := sh';
        view := buf |}.

End Elf.

Import Elf.

(* ------------------------------------------------------------------ *)
(** ** Disassembler engine (Capstone)                                   *)
(* ------------------------------------------------------------------ *)

(** One decoded instruction, with the fields the code reads. *)
Record Insn := {
  address : Z;
  insn_size : Z;
  mnemonic : string;
  op_str : string
}.

(** [new cs.Capstone(cs.ARCH_X86, is64bit ? cs.MODE_64 : cs.MODE_32)
      .disasm(bytes, baseAddr, count)]: the decoder is external; it may
    raise.  The optional last argument bounds the number of instructions. *)
Class Disassembler := {
  disasm : bool -> list Z -> Z -> option Z -> result (list Insn)
}.

(* ------------------------------------------------------------------ *)
(** ** Symbol and boundary resolver                                     *)
(* ------------------------------------------------------------------ *)

Module Symbols.

(** An entry of the returned array: [{name, address, offset}]. *)
Record FuncSym := {
  fname : string;
  faddress : Z;
  foffset : Z
}.

(** [sectionHeaders.find(sh => sh.name === n)]. *)
Definition findSection (sh : list SectionHeader) (n : string) : option SectionHeader :=
  List.find (fun s => String.eqb (name s) n) sh.

(** The loop that builds [symbolName] from the string table: the bytes
    from [nameOffset] up to the first zero byte or the end of the table. *)
Fixpoint untilNul (bytes : list Z) : string :=
  match bytes with
  | [] => EmptyString
  | b :: rest => if b =? 0 then EmptyString
                 else String (fromCharCode b) (untilNul rest)
  end.

Definition symbolNameAt (strtabData : list Z) (nameOffset : Z) : string :=
  if nameOffset <? Z.of_nat (length strtabData)
  then untilNul (drop (Z.to_nat nameOffset) strtabData)
  else EmptyString.

(** [new DataView(data.buffer, data.byteOffset + off).getUint32(0, true)]
    and its siblings: the view starts at an absolute offset of the whole
    file buffer and runs to its end. *)
Definition viewUint32 (buffer : list Z) (off : Z) : result Z :=
  v ← DataView buffer off; getUint32 v 0 true.
Definition viewBigUint64 (buffer : list Z) (off : Z) : result Z :=
  v ← DataView buffer off; getBigUint64 v 0.
Definition viewBigInt64 (buffer : list Z) (off : Z) : result Z :=
  v ← DataView buffer off; getBigInt64 v 0.
Definition viewUint8 (buffer : list Z) (off : Z) : result Z :=
  v ← DataView buffer off; getUint8 v 0.

(** The raw fields read from symbol-table entry [i]. *)
Record RawSymbol := {
  st_nameOffset : Z;
  st_value : Z;
  st_info : Z
}.

Definition symbolSize (is64bit : bool) : Z := if is64bit then 24 else 16.

Definition readRawSymbol (buffer : list Z) (byteOffset : Z) (is64bit : bool) (i : Z)
  : result RawSymbol :=
  let symOffset := i * symbolSize is64bit in
  nameOffset ← viewUint32 buffer (byteOffset + symOffset);
  value ← (if is64bit then viewBigUint64 buffer (byteOffset + symOffset + 8)
           else viewUint32 buffer (byteOffset + symOffset + 4));
  info ← viewUint8 buffer (byteOffset + symOffset + (if is64bit then 4 else 12));
  Ok {| st_nameOffset := nameOffset; st_value := value; st_info := info |}.

(** [info & 0xf]. *)
Definition ST_TYPE (info : Z) : Z := Z.land info 0xf.

Definition STT_FUNC : Z := 2.

(** The number of iterations of [for (let i = 0; i < size / entry; i++)]:
    the quotient is a real number, so a trailing partial entry is visited
    too. *)
Definition loopCount (size entry : Z) : Z := (size + entry - 1) / entry.

(** The body of the symbol loop of [extractFunctionSymbols]: the entry it
    pushes, if any. *)
Definition symbolEntry (buffer strtabData : list Z) (byteOffset : Z)
           (is64bit : bool) (textBaseAddr : Z) (i : Z) : result (option FuncSym) :=
  raw ← readRawSymbol buffer byteOffset is64bit i;
  let symbolType := ST_TYPE (st_info raw) in
  let symbolName := symbolNameAt strtabData (st_nameOffset raw) in
  let value := st_value raw in
  if negb (String.eqb symbolName EmptyString) && (symbolType =? STT_FUNC) && (0 <=? value)
  then
    let looksLikeOffset := value <? 0x1000 in
    let actualAddr := if looksLikeOffset then textBaseAddr + value else value in
    Ok (Some {| fname := symbolName; faddress := actualAddr; foffset := value |})
  else Ok None.

(** A loop that pushes onto [functions] until its body raises: what has
    been pushed stays in the array, and the exception is reported. *)
Fixpoint pushLoop {A} (body : Z -> result (option A)) (idxs : list Z) (functions : list A)
  : list A * option exn :=
  match idxs with
  | [] => (functions, None)
  | i :: rest =>
      match body i with
      | Throw e => (functions, Some e)
      | Ok None => pushLoop body rest functions
      | Ok (Some f) => pushLoop body rest (functions ++ [f])
      end
  end.

(** [functions.sort((a, b) => a.address - b.address)]: the sort is stable,
    which fixes its result; a stable insertion sort computes it. *)
Fixpoint insertByAddress {A} (key : A -> Z) (f : A) (sorted : list A) : list A :=
  match sorted with
  | [] => [f]
  | g :: rest => if key g <=? key f then g :: insertByAddress key f rest
                 else f :: g :: rest
  end.

Definition sortByAddress {A} (key : A -> Z) (l : list A) : list A :=
  fold_left (fun acc f => insertByAddress key f acc) l [].

Definition isPushFramePointer (insn : Insn) : bool :=
  String.eqb (mnemonic insn) "push" &&
  (String.eqb (op_str insn) "rbp" || String.eqb (op_str insn) "ebp").

Definition isMovFramePointer (insn : Insn) : bool :=
  String.eqb (mnemonic insn) "mov" &&
  (String.eqb (op_str insn) "rbp, rsp" || String.eqb (op_str insn) "ebp, esp").

(** The scan of [detectFunctionsFromAssembly]: [functionIndex] counts the
    matches so far. *)
Fixpoint scanPrologues (textBaseAddr : Z) (instructions : list Insn) (functionIndex : nat)
  : list FuncSym :=
  match instructions with
  | [] => []
  | insn :: rest =>
      match rest with
      | nextInsn :: _ =>
          if isPushFramePointer insn && isMovFramePointer nextInsn
          then {| fname := "func_" +:+ pretty (S functionIndex);
                  faddress := address insn;
                  foffset := address insn - textBaseAddr |}
               :: scanPrologues textBaseAddr rest (S functionIndex)
          else scanPrologues textBaseAddr rest functionIndex
      | [] => []
      end
  end.

Section WithDisassembler.
Context {D : Disassembler}.

Definition is64 (parsed : Parsed) : bool :=
  match class (elfHeader parsed) with ELF64 => true | ELF32 => false end.

(** [detectFunctionsFromAssembly(parsed, textBaseAddr)]; every exception
    of its body is caught and leaves [functions] empty, the pushes
    coming after the last call that can raise. *)
Definition detectFunctionsFromAssembly (parsed : Parsed) (textBaseAddr : Z)
  : list FuncSym :=
  match findSection (sectionHeaders parsed) ".text" with
  | None => []
  | Some textSection =>
      if size textSection =? 0 then []
      else
        match Uint8Array (view parsed) (offset textSection) (size textSection) with
        | Throw _ => []
        | Ok bytes =>
            match disasm (is64 parsed) bytes textBaseAddr None with
            | Throw _ => []
            | Ok instructions => scanPrologues textBaseAddr instructions 0
            end
        end
  end.

(** The [try] block of [extractFunctionSymbols] once the tables are found,
    up to the sort: the array [functions] and the exception that ended the
    block, if any. *)
Definition tryBlock (parsed : Parsed) (symtabSection strtabSection : SectionHeader)
           (textBaseAddr : Z) : list FuncSym * option exn :=
  match Uint8Array (view parsed) (offset symtabSection) (size symtabSection) with
  | Throw e => ([], Some e)
  | Ok _ =>
      match Uint8Array (view parsed) (offset strtabSection) (size strtabSection) with
      | Throw e => ([], Some e)
      | Ok strtabData =>
          let numSymbols := loopCount (size symtabSection) (symbolSize (is64 parsed)) in
          pushLoop (symbolEntry (view parsed) strtabData (offset symtabSection)
                                (is64 parsed) textBaseAddr)
                   (indices numSymbols) []
      end
  end.

(** [functions] after the [try ... catch]: sorted when the block ran to
    its end, as the exception left it otherwise. *)
Definition symbolTablePath (parsed : Parsed) (symtabSection strtabSection : SectionHeader)
           (textBaseAddr : Z) : list FuncSym :=
  match tryBlock parsed symtabSection strtabSection textBaseAddr with
  | (functions, Some _) => functions
  | (functions, None) => sortByAddress faddress functions
  end.

(** The symbol table and its string table as [extractFunctionSymbols]
    picks them: [.symtab] with [.strtab], else [.dynsym] with
    [.dynstr]. *)
Definition pickTables (sh : list SectionHeader)
  : option SectionHeader * option SectionHeader :=
  match findSection sh ".symtab" with
  | Some s => (Some s, findSection sh ".strtab")
  | None => (findSection sh ".dynsym", findSection sh ".dynstr")
  end.

(** [extractFunctionSymbols(parsed, textBaseAddr)].  The [return
    functions] of the missing-table test sits inside the [try] block and
    leaves the function at once; the fallback test after the block is
    reached only when the tables exist. *)
Definition extractFunctionSymbols (parsed : Parsed) (textBaseAddr : Z) : list FuncSym :=
  match pickTables (sectionHeaders parsed) with
  | (Some symtabSection, Some strtabSection) =>
      if size symtabSection =? 0 then []
      else
        let functions := symbolTablePath parsed symtabSection strtabSection textBaseAddr in
        if (length functions =? 0)%nat
        then detectFunctionsFromAssembly parsed textBaseAddr
        else functions
  | _ => []
  end.

End WithDisassembler.

End Symbols.

(* ------------------------------------------------------------------ *)
(** ** CPU emulation engine (Unicorn)                                   *)
(* ------------------------------------------------------------------ *)

(** The registers the code names. *)
Inductive Reg :=
| X86_REG_RIP | X86_REG_EIP | X86_REG_RSP | X86_REG_ESP
| X86_REG_RAX | X86_REG_EAX | X86_REG_RDI | X86_REG_RSI.

(** What the code hook returns to the engine: [false], or nothing. *)
Inductive HookReturn := ReturnsFalse | ReturnsUndefined.

(** The outcome of [emu_start]: the addresses at which the engine fired the
    [HOOK_CODE] callback, the engine afterwards, and the exception raised,
    if any. *)
Record EmuOutcome (E : Type) := {
  fired : list Z;
  after : E;
  raised : option exn
}.
Arguments fired {E} _.
Arguments after {E} _.
Arguments raised {E} _.

(** The engine as the code uses it.  [emu_start e begin until timeout count
    hook] receives what the registered hook returns at each address. *)
Class Engine (E : Type) := {
  PROT_READ : Z;
  PROT_WRITE : Z;
  PROT_EXEC : Z;
  PROT_ALL : Z;
  mem_map : E -> Z -> Z -> Z -> result E;
  mem_write : E -> Z -> list Z -> result E;
  mem_read : E -> Z -> Z -> result (list Z);
  reg_read_i64 : E -> Reg -> Z;
  reg_read_i32 : E -> Reg -> Z;
  reg_write_i64 : E -> Reg -> Z -> E;
  reg_write_i32 : E -> Reg -> Z -> E;
  emu_start : E -> Z -> Z -> Z -> Z -> (Z -> HookReturn) -> EmuOutcome E
}.

(* ------------------------------------------------------------------ *)
(** ** Execution controller: class [UnicornDebugger]                    *)
(* ------------------------------------------------------------------ *)

(** A line of the execution trace: address, mnemonic, operands and the
    accumulator read after the instruction ran. *)
Record TraceLine := {
  tl_address : Z;
  tl_mnemonic : string;
  tl_operands : string;
  tl_rax : Z
}.

(** [this.pendingTrace]. *)
Record PendingTrace := {
  pt_address : Z;
  pt_mnemonic : string;
  pt_operands : string
}.

(** The messages the controller writes, to the console and to the
    [emuOutput] element; each stands for the template string quoted. *)
Inductive Msg :=
| BreakpointHit (a : Z)           (* `Breakpoint hit at 0x${a} - Program terminated` *)
| CompletedExitBreakpoint         (* 'Program completed successfully (exit breakpoint hit)' *)
| ProgramCompleted                (* '\nProgram completed successfully.\n' *)
| Executing (text : string) (a : Z) (* `Executing: ${text} at 0x${a}` *)
| StepErrorLog (e : exn)          (* console.error('Step error:', e) *)
| InvalidInstructionAt (pc : Z)   (* `Invalid instruction at 0x${pc}\n` *)
| UnmappedFetchAt (pc : Z)        (* `Unmapped instruction fetch at 0x${pc}\n` *)
| StepError (msg : string)        (* `Step error: ${msg}\n` *)
| ProgramFinished (returnValue : Z) (* `\nProgram finished. Return value: ${v} (0x${v})\n` *)
| AlreadyRunning                  (* 'Already running' *)
| StartingContinuous              (* 'Starting continuous execution until HLT...' *)
| RunningUntilHalt                (* 'Running until halt...\n' *)
| LimitReachedLog                 (* 'Maximum instruction limit reached - stopping execution' *)
| LimitReached (max : option Z)   (* `\nExecution stopped: ${max} instruction limit reached\n` *)
| HltEncountered                  (* 'HLT instruction encountered - stopping execution' *)
| HltReached                      (* '\nHLT instruction reached - program terminated\n' *)
| StoppedAfter (n : option Z)     (* `Execution stopped after ${n} instructions` *)
| ExecutionStopped (n : option Z) (* `\nExecution stopped. Instructions executed: ${n}\n` *)
| TraceText (lines : list TraceLine) (* this.executionTrace.join('\n') *)
| DebuggerReset                   (* 'Debugger reset.\n' *)
| DebuggerInitialized             (* 'Debugger initialized. Ready to step through code.\n' *)
| BreakpointAdded (a : Z).        (* `Breakpoint added at 0x${a}` *)

(** The page around the controller: the [window.isPerformanceModeActive]
    flag, the text of the [emuOutput] element as the sequence of messages
    appended to it, and the console log. *)
Record Page := {
  isPerformanceModeActive : bool;
  emuOutput : list Msg;
  console : list Msg
}.

Module Controller.

(** [e.message || e.toString()] of a caught exception.  The texts of the
    two built-in errors are those of the JavaScript runtime. *)
Definition errorMessage (e : exn) : string :=
  match e with
  | Error msg => if String.eqb msg EmptyString then "Error" else msg
  | RangeError => "Offset is outside the bounds of the DataView"
  | TypeError => "Cannot read properties of undefined"
  end.

Definition lowerChar (c : ascii) : ascii :=
  let n := N_of_ascii c in
  if ((65 <=? n) && (n <=? 90))%N then ascii_of_N (n + 32) else c.

(** [s.toLowerCase()] on ASCII text. *)
Fixpoint toLowerCase (s : string) : string :=
  match s with
  | EmptyString => EmptyString
  | String c r => String (lowerChar c) (toLowerCase r)
  end.

Definition consoleLog (p : Page) (m : Msg) : Page :=
  {| isPerformanceModeActive := isPerformanceModeActive p;
     emuOutput := emuOutput p; console := console p ++ [m] |}.

(** [if (!window.isPerformanceModeActive)
      document.getElementById('emuOutput').textContent += m]. *)
Definition emuAppend (p : Page) (m : Msg) : Page :=
  if isPerformanceModeActive p then p
  else {| isPerformanceModeActive := false;
          emuOutput := emuOutput p ++ [m]; console := console p |}.

(** [document.getElementById('emuOutput').textContent = m], not guarded
    by the performance flag. *)
Definition emuAssign (p : Page) (m : Msg) : Page :=
  {| isPerformanceModeActive := isPerformanceModeActive p;
     emuOutput := [m]; console := console p |}.

(** [a >= b] on values that may be [undefined]: false unless both are
    numbers. *)
Definition geNumber (a b : option Z) : bool :=
  match a, b with
  | Some x, Some y => y <=? x
  | _, _ => false
  end.

(** [x++] on a value that may be [undefined]. *)
Definition increment (a : option Z) : option Z :=
  match a with Some x => Some (x + 1) | None => None end.

Section WithEngine.
Context {D : Disassembler} {E : Type} {EN : Engine E}.

(** The fields of a [UnicornDebugger] that the modelled methods read or
    write.  [executionCount] and [maxInstructions] are [undefined]
    until [runUntilHalt] or [reset] assigns them. *)
Record Debugger := {
  engine : E;
  is64bit : bool;
  entryPoint : Z;
  currentAddress : Z;
  breakpoints : gset Z;
  isRunning : bool;
  isPaused : bool;
  executionTrace : list TraceLine;
  lastLoggedAddress : option Z;
  pendingTrace : option PendingTrace;
  executionCount : option Z;
  maxInstructions : option Z
}.

Definition set_engine (d : Debugger) (v : E) : Debugger :=
  {| engine := v; is64bit := is64bit d; entryPoint := entryPoint d;
     currentAddress := currentAddress d; breakpoints := breakpoints d;
     isRunning := isRunning d; isPaused := isPaused d;
     executionTrace := executionTrace d;
     lastLoggedAddress := lastLoggedAddress d; pendingTrace := pendingTrace d;
     executionCount := executionCount d;
     maxInstructions := maxInstructions d |}.

Definition set_currentAddress (d : Debugger) (v : Z) : Debugger :=
  {| engine := engine d; is64bit := is64bit d; entryPoint := entryPoint d;
     currentAddress := v; breakpoints := breakpoints d;
     isRunning := isRunning d; isPaused := isPaused d;
     executionTrace := executionTrace d;
     lastLoggedAddress := lastLoggedAddress d; pendingTrace := pendingTrace d;
     executionCount := executionCount d;
     maxInstructions := maxInstructions d |}.

Definition set_breakpoints (d : Debugger) (v : gset Z) : Debugger :=
  {| engine := engine d; is64bit := is64bit d; entryPoint := entryPoint d;
     currentAddress := currentAddress d; breakpoints := v;
     isRunning := isRunning d; isPaused := isPaused d;
     executionTrace := executionTrace d;
     lastLoggedAddress := lastLoggedAddress d; pendingTrace := pendingTrace d;
     executionCount := executionCount d;
     maxInstructions := maxInstructions d |}.

Definition set_isRunning (d : Debugger) (v : bool) : Debugger :=
  {| engine := engine d; is64bit := is64bit d; entryPoint := entryPoint d;
     currentAddress := currentAddress d; breakpoints := breakpoints d;
     isRunning := v; isPaused := isPaused d;
     executionTrace := executionTrace d;
     lastLoggedAddress := lastLoggedAddress d; pendingTrace := pendingTrace d;
     executionCount := executionCount d;
     maxInstructions := maxInstructions d |}.

Definition set_isPaused (d : Debugger) (v : bool) : Debugger :=
  {| engine := engine d; is64bit := is64bit d; entryPoint := entryPoint d;
     currentAddress := currentAddress d; breakpoints := breakpoints d;
     isRunning := isRunning d; isPaused := v;
     executionTrace := executionTrace d;
     lastLoggedAddress := lastLoggedAddress d; pendingTrace := pendingTrace d;
     executionCount := executionCount d;
     maxInstructions := maxInstructions d |}.

Definition set_executionTrace (d : Debugger) (v : list TraceLine) : Debugger :=
  {| engine := engine d; is64bit := is64bit d; entryPoint := entryPoint d;
     currentAddress := currentAddress d; breakpoints := breakpoints d;
     isRunning := isRunning d; isPaused := isPaused d; executionTrace := v;
     lastLoggedAddress := lastLoggedAddress d; pendingTrace := pendingTrace d;
     executionCount := executionCount d;
     maxInstructions := maxInstructions d |}.

Definition set_lastLoggedAddress (d : Debugger) (v : option Z) : Debugger :=
  {| engine := engine d; is64bit := is64bit d; entryPoint := entryPoint d;
     currentAddress := currentAddress d; breakpoints := breakpoints d;
     isRunning := isRunning d; isPaused := isPaused d;
     executionTrace := executionTrace d; lastLoggedAddress := v;
     pendingTrace := pendingTrace d; executionCount := executionCount d;
     maxInstructions := maxInstructions d |}.

Definition set_pendingTrace (d : Debugger) (v : option PendingTrace) : Debugger :=
  {| engine := engine d; is64bit := is64bit d; entryPoint := entryPoint d;
     currentAddress := currentAddress d; breakpoints := breakpoints d;
     isRunning := isRunning d; isPaused := isPaused d;
     executionTrace := executionTrace d;
     lastLoggedAddress := lastLoggedAddress d; pendingTrace := v;
     executionCount := executionCount d;
     maxInstructions := maxInstructions d |}.

Definition set_executionCount (d : Debugger) (v : option Z) : Debugger :=
  {| engine := engine d; is64bit := is64bit d; entryPoint := entryPoint d;
     currentAddress := currentAddress d; breakpoints := breakpoints d;
     isRunning := isRunning d; isPaused := isPaused d;
     executionTrace := executionTrace d;
     lastLoggedAddress := lastLoggedAddress d; pendingTrace := pendingTrace d;
     executionCount := v; maxInstructions := maxInstructions d |}.

Definition set_maxInstructions (d : Debugger) (v : option Z) : Debugger :=
  {| engine := engine d; is64bit := is64bit d; entryPoint := entryPoint d;
     currentAddress := currentAddress d; breakpoints := breakpoints d;
     isRunning := isRunning d; isPaused := isPaused d;
     executionTrace := executionTrace d;
     lastLoggedAddress := lastLoggedAddress d; pendingTrace := pendingTrace d;
     executionCount := executionCount d; maxInstructions := v |}.

Definition writePC (e : E) (is64 : bool) (v : Z) : E :=
  if is64 then reg_write_i64 e X86_REG_RIP v else reg_write_i32 e X86_REG_EIP v.

(** [constructor(engine, is64bit, entryPoint)]; [setupHooks] registers
    [codeHook] below. *)
Definition constructor (engine0 : E) (is64 : bool) (entry0 : Z) : Debugger :=
  {| engine := writePC engine0 is64 entry0;
     is64bit := is64;
     entryPoint := entry0;
     currentAddress := entry0;
     breakpoints := ∅;
     isRunning := false;
     isPaused := false;
     executionTrace := [];
     lastLoggedAddress := None;
     pendingTrace := None;
     executionCount := None;
     maxInstructions := None |}.

(** [getCurrentPC()]. *)
Definition getCurrentPC (d : Debugger) : Z :=
  if is64bit d then reg_read_i64 (engine d) X86_REG_RIP
  else reg_read_i32 (engine d) X86_REG_EIP.

(** The accumulator, as read in [stepInstruction] and
    [logExecutedInstruction]. *)
Definition readAccumulator (d : Debugger) : Z :=
  if is64bit d then reg_read_i64 (engine d) X86_REG_RAX
  else reg_read_i32 (engine d) X86_REG_EAX.

(** [this.disasm.disasm(this.engine.mem_read(a, 16), a, 1)]. *)
Definition decodeAt (d : Debugger) (a : Z) : result (list Insn) :=
  instrBytes ← mem_read (engine d) a 16;
  disasm (is64bit d) instrBytes a (Some 1).

(** [logToExecutionTrace(address)]. *)
Definition logToExecutionTrace (d : Debugger) (a : Z) : Debugger :=
  match decodeAt d a with
  | Ok (insn :: _) =>
      set_pendingTrace d (Some {| pt_address := a; pt_mnemonic := mnemonic insn;
                                  pt_operands := op_str insn |})
  | _ => d
  end.

(** [!this.lastLoggedAddress || this.lastLoggedAddress !== address]:
    [null] and [0] are both falsy. *)
Definition notYetLogged (last : option Z) (a : Z) : bool :=
  match last with
  | None => true
  | Some l => (l =? 0) || negb (l =? a)
  end.

(** The callback registered by [setupHooks], run at [address]: the page
    and the debugger afterwards, and what it returns to the engine. *)
Definition codeHook (p : Page) (d : Debugger) (a : Z) : Page * Debugger * HookReturn :=
  let d1 := set_currentAddress d a in
  let d2 := if notYetLogged (lastLoggedAddress d1) a
            then set_lastLoggedAddress (logToExecutionTrace d1 a) (Some a)
            else d1 in
  if decide (a ∈ breakpoints d2) then
    let d3 := set_isRunning (set_isPaused d2 true) false in
    let p1 := consoleLog p (BreakpointHit a) in
    let p2 := match mem_read (engine d3) a 1 with
              | Ok (b :: _) =>
                  if b =? 0xF4
                  then emuAppend (consoleLog p1 CompletedExitBreakpoint) ProgramCompleted
                  else p1
              | _ => p1
              end in
    (p2, d3, ReturnsFalse)
  else (p, d2, ReturnsUndefined).

(** What the hook returns at an address; the hook never changes the
    breakpoint set. *)
Definition hookReturn (d : Debugger) (a : Z) : HookReturn :=
  if decide (a ∈ breakpoints d) then ReturnsFalse else ReturnsUndefined.

(** The hook run at each address the engine fired it at, in order. *)
Definition runHooks (p : Page) (d : Debugger) (addrs : list Z) : Page * Debugger :=
  fold_left (fun pd a => let '(p', d', _) := codeHook (fst pd) (snd pd) a in (p', d'))
            addrs (p, d).

(** [logExecutedInstruction()]; [updateExecutionTrace] replaces the text
    of [emuOutput] by the trace. *)
Definition logExecutedInstruction (p : Page) (d : Debugger) : Page * Debugger :=
  match pendingTrace d with
  | None => (p, d)
  | Some pt =>
      let line := {| tl_address := pt_address pt; tl_mnemonic := pt_mnemonic pt;
                     tl_operands := pt_operands pt; tl_rax := readAccumulator d |} in
      let d1 := set_executionTrace d (executionTrace d ++ [line]) in
      (emuAssign p (TraceText (executionTrace d1)), set_pendingTrace d1 None)
  end.

(** The [catch] block of [stepInstruction]. *)
Definition stepFailed (p : Page) (d : Debugger) (e : exn) : Page * Debugger :=
  let p1 := consoleLog p (StepErrorLog e) in
  let errorMsg := errorMessage e in
  let p2 := if includes errorMsg "UC_ERR_INSN_INVALID"
            then emuAppend p1 (InvalidInstructionAt (getCurrentPC d))
            else if includes errorMsg "UC_ERR_FETCH_UNMAPPED"
            then emuAppend p1 (UnmappedFetchAt (getCurrentPC d))
            else emuAppend p1 (StepError errorMsg) in
  let p3 := emuAppend p2 (ProgramFinished (readAccumulator d)) in
  (p3, set_isRunning (set_isPaused d true) false).

(** [instructions[0]] of a one-instruction decode: reading [.size] of
    the missing element of an empty array raises [TypeError]. *)
Definition firstInsn (instructions : list Insn) : result Insn :=
  match instructions with
  | insn :: _ => Ok insn
  | [] => Throw TypeError
  end.

(** [stepInstruction()].  The snapshots of [captureStepState] and the
    rendering calls ([logStepAnalysis], [logDebugState], [updateUI],
    the two highlighters) read the engine and write to the page only;
    they are left out. *)
Definition stepInstruction (p : Page) (d : Debugger) : Page * Debugger :=
  let d0 := set_isPaused d false in
  let startAddr := getCurrentPC d0 in
  match (instructions ← decodeAt d0 startAddr; firstInsn instructions) with
  | Throw e => stepFailed p d0 e
  | Ok insn =>
      let instructionText := mnemonic insn +:+ " " +:+ op_str insn in
      let p1 := consoleLog p (Executing instructionText startAddr) in
      let out := emu_start (engine d0) startAddr (startAddr + insn_size insn) 0 1
                           (hookReturn d0) in
      let '(p2, d1) := runHooks p1 d0 (fired out) in
      let d2 := set_engine d1 (after out) in
      match raised out with
      | Some e => stepFailed p2 d2 e
      | None =>
          let d3 := set_currentAddress d2 (getCurrentPC d2) in
          let '(p3, d4) := logExecutedInstruction p2 d3 in
          (p3, set_lastLoggedAddress d4 None)
      end
  end.

(** [stopExecution()]. *)
Definition stopExecution (p : Page) (d : Debugger) : Page * Debugger :=
  let d1 := set_isPaused (set_isRunning d false) true in
  let p1 := consoleLog p (StoppedAfter (executionCount d1)) in
  (emuAppend p1 (ExecutionStopped (executionCount d1)), d1).

(** [isHaltInstruction(address)]. *)
Definition isHaltInstruction (d : Debugger) (a : Z) : bool :=
  match decodeAt d a with
  | Ok (insn :: _) => String.eqb (toLowerCase (mnemonic insn)) "hlt"
  | _ => false
  end.

(** [continueExecution()]: the state afterwards, and whether it has
    scheduled itself again with [setTimeout].  The calls inside its
    [try] block do not raise ([stepInstruction] catches its own
    exceptions), so its [catch] block is never entered. *)
Definition continueExecution (p : Page) (d : Debugger) : Page * Debugger * bool :=
  if negb (isRunning d) || isPaused d then (p, d, false)
  else if geNumber (executionCount d) (maxInstructions d) then
    let p1 := emuAppend (consoleLog p LimitReachedLog) (LimitReached (maxInstructions d)) in
    (stopExecution p1 d, false)
  else
    let startAddr := getCurrentPC d in
    if isHaltInstruction d startAddr then
      let p1 := emuAppend (consoleLog p HltEncountered) HltReached in
      (stopExecution p1 d, false)
    else
      let '(p1, d1) := stepInstruction p d in
      (p1, set_executionCount d1 (increment (executionCount d1)), true).

(** The timer callbacks of one run, at most [fuel] of them: the state
    afterwards, the number of calls of [stepInstruction], and whether a
    callback is still scheduled. *)
Fixpoint timerLoop (fuel : nat) (p : Page) (d : Debugger) : Page * Debugger * nat * bool :=
  match fuel with
  | O => (p, d, O, true)
  | S fuel' =>
      let '(p1, d1, scheduled) := continueExecution p d in
      if (scheduled : bool) then
        let '(p2, d2, steps, pending) := timerLoop fuel' p1 d1 in
        (p2, d2, S steps, pending)
      else (p1, d1, O, false)
  end.

Definition MAX_INSTRUCTIONS : Z := 10000.

(** [runUntilHalt()] followed by the callbacks it starts. *)
Definition runUntilHalt (fuel : nat) (p : Page) (d : Debugger)
  : Page * Debugger * nat * bool :=
  if isRunning d then (consoleLog p AlreadyRunning, d, O, false)
  else
    let d1 := set_maxInstructions
                (set_executionCount (set_isPaused (set_isRunning d true) false) (Some 0))
                (Some MAX_INSTRUCTIONS) in
    let p1 := emuAppend (consoleLog p StartingContinuous) RunningUntilHalt in
    timerLoop fuel p1 d1.

(** [addBreakpoint(address)]. *)
Definition addBreakpoint (p : Page) (d : Debugger) (a : Z) : Page * Debugger :=
  (consoleLog p (BreakpointAdded a), set_breakpoints d ({[ a ]} ∪ breakpoints d)).

(** [stepBtn], [stopBtn] and a new breakpoint: what other handlers may run
    between two timer callbacks of a run, besides the callbacks themselves.
    ([runBtn] and [resetBtn] start the counter again and are a new run.) *)
Inductive Event :=
| TimerFires
| StepClicked
| StopClicked
| BreakpointSet (a : Z).

(** The event loop while [pending] callbacks of [continueExecution] are
    waiting on their timers: the state after the events, the callbacks
    still waiting, and the number of steps the callbacks have taken.  A
    callback that schedules itself again keeps its place. *)
Fixpoint eventLoop (events : list Event) (p : Page) (d : Debugger) (pending : nat)
  : Page * Debugger * nat * nat :=
  match events with
  | [] => (p, d, pending, O)
  | TimerFires :: rest =>
      match pending with
      | O => eventLoop rest p d O
      | S waiting =>
          let '(p1, d1, scheduled) := continueExecution p d in
          if (scheduled : bool) then
            let '(p2, d2, waiting', steps) := eventLoop rest p1 d1 (S waiting) in
            (p2, d2, waiting', S steps)
          else eventLoop rest p1 d1 waiting
      end
  | StepClicked :: rest =>
      let '(p1, d1) := stepInstruction p d in eventLoop rest p1 d1 pending
  | StopClicked :: rest =>
      let '(p1, d1) := stopExecution p d in eventLoop rest p1 d1 pending
  | BreakpointSet a :: rest =>
      let '(p1, d1) := addBreakpoint p d a in eventLoop rest p1 d1 pending
  end.

(** [reset()]. *)
Definition reset (p : Page) (d : Debugger) : Page * Debugger :=
  let d1 := set_currentAddress d (entryPoint d) in
  let d2 := set_executionTrace d1 [] in
  let d3 := set_lastLoggedAddress d2 None in
  let d4 := set_isRunning d3 false in
  let d5 := set_isPaused d4 false in
  let d6 := set_executionCount d5 (Some 0) in
  let d7 := set_engine d6 (writePC (engine d6) (is64bit d6) (entryPoint d6)) in
  ((if isPerformanceModeActive p then p else emuAssign p DebuggerReset), d7).


End WithEngine.

Arguments Debugger E : clear implicits.

End Controller.

(* ------------------------------------------------------------------ *)
(** ** Image builder and relocation resolver: the [runUnicorn] handler  *)
(* ------------------------------------------------------------------ *)

Module Loader.

Import Symbols Controller.

(** [ToInt32]: what a bitwise operator makes of its operand. *)
Definition toInt32 (v : Z) : Z :=
  let w := v mod 4294967296 in
  if w <? 2147483648 then w else w - 4294967296.

(** [(sh.flags & 0x2) && sh.size > 0]: an allocated section with bytes. *)
Definition allocated (sh : SectionHeader) : bool :=
  negb (Z.land (flags sh) 0x2 =? 0) && (0 <? size sh).

(** [sectionHeaders.some(sh => (sh.flags & 0x2) && sh.size > 0 && sh.addr === 0)]. *)
Definition isObjectFile (sectionHeaders : list SectionHeader) : bool :=
  existsb (fun sh => allocated sh && (addr sh =? 0)) sectionHeaders.

Definition PAGE : Z := 0x1000.
Definition OBJECT_BASE : Z := 0x10000000.
Definition STACK_SIZE : Z := 0x10000.

(** A relocation entry as the loop decodes it. *)
Record RelocationEntry := {
  r_offset : Z;
  r_info : Z;
  r_addend : Z;
  symbolIndex : Z;
  relocType : Z
}.

Definition relaSize (is64bit : bool) : Z := if is64bit then 24 else 12.

(** The fields of relocation entry [i] of [.rela.text]. *)
Definition readRelocation (buffer : list Z) (byteOffset : Z) (is64bit : bool) (i : Z)
  : result RelocationEntry :=
  let relaOffset := i * relaSize is64bit in
  offset ← (if is64bit then viewBigUint64 buffer (byteOffset + relaOffset)
            else viewUint32 buffer (byteOffset + relaOffset));
  info ← (if is64bit then viewBigUint64 buffer (byteOffset + relaOffset + 8)
          else viewUint32 buffer (byteOffset + relaOffset + 4));
  addend ← (if is64bit then viewBigInt64 buffer (byteOffset + relaOffset + 16)
            else Ok 0);
  Ok {| r_offset := offset; r_info := info; r_addend := addend;
        symbolIndex := if is64bit then info / 0x100000000
                       else Z.shiftr (toInt32 info) 8;
        relocType := if is64bit then toInt32 info
                     else Z.land (toInt32 info) 0xff |}.

(** The bytes a relocation of type [relocType] stores at [patchAddr], if
    the type is one of the three the code patches: 4 ([R_X86_64_PLT32]) and
    2 ([R_X86_64_PC32]) store [targetAddr - (patchAddr + 4)] with
    [setInt32], 10 ([R_X86_64_32]) stores [targetAddr] with [setUint32]. *)
Definition patchBytes (relocType targetAddr patchAddr : Z) : option (list Z) :=
  if relocType =? 4 then Some (setInt32 (targetAddr - (patchAddr + 4)))
  else if relocType =? 2 then Some (setInt32 (targetAddr - (patchAddr + 4)))
  else if relocType =? 10 then Some (setUint32 targetAddr)
  else None.

(** The name a relocation refers to: entry [symbolIndex] of the symbol
    table, its name offset looked up in the string table when it is positive
    and inside the table. *)
Definition relocationSymbolName (buffer : list Z)
           (symtabSection strtabSection : option SectionHeader) (is64bit : bool)
           (symbolIndex : Z) : result string :=
  match symtabSection, strtabSection with
  | Some symtab, Some strtab =>
      if 0 <=? symbolIndex then
        let symOffset := symbolIndex * symbolSize is64bit in
        if symOffset <? size symtab then
          _ ← Uint8Array buffer (offset symtab) (size symtab);
          strtabData ← Uint8Array buffer (offset strtab) (size strtab);
          nameOffset ← viewUint32 buffer (offset symtab + symOffset);
          if (nameOffset <? Z.of_nat (length strtabData)) && (0 <? nameOffset)
          then Ok (untilNul (drop (Z.to_nat nameOffset) strtabData))
          else Ok EmptyString
        else Ok EmptyString
      else Ok EmptyString
  | _, _ => Ok EmptyString
  end.

(** The loop that looks for [main]: the value of the first symbol so named,
    whatever its type. *)
Fixpoint findMainLoop (buffer strtabData : list Z) (byteOffset : Z) (is64bit : bool)
         (idxs : list Z) : result (option Z) :=
  match idxs with
  | [] => Ok None
  | i :: rest =>
      let symOffset := i * symbolSize is64bit in
      nameOffset ← viewUint32 buffer (byteOffset + symOffset);
      value ← (if is64bit then viewBigUint64 buffer (byteOffset + symOffset + 8)
               else viewUint32 buffer (byteOffset + symOffset + 4));
      if String.eqb (untilNul (drop (Z.to_nat nameOffset) strtabData)) "main"
      then Ok (Some value)
      else findMainLoop buffer strtabData byteOffset is64bit rest
  end.

Definition findMain (buffer : list Z) (symtabSection strtabSection : option SectionHeader)
           (is64bit : bool) : result (option Z) :=
  match symtabSection, strtabSection with
  | Some symtab, Some strtab =>
      if 0 <? size symtab then
        _ ← Uint8Array buffer (offset symtab) (size symtab);
        strtabData ← Uint8Array buffer (offset strtab) (size strtab);
        findMainLoop buffer strtabData (offset symtab) is64bit
                     (indices (loopCount (size symtab) (symbolSize is64bit)))
      else Ok None
  | _, _ => Ok None
  end.

(** [if (mainAddr && mainAddr > 0)]. *)
Definition mainFound (mainAddr : option Z) : bool :=
  match mainAddr with
  | Some m => negb (m =? 0) && (0 <? m)
  | None => false
  end.

(** The first pass over the symbol table in the handler: name and value of
    every function symbol, in table order.  The loop is not inside a [try]:
    an exception leaves the handler. *)
Definition functionEntry (buffer strtabData : list Z) (byteOffset : Z) (is64bit : bool)
           (i : Z) : result (option (string * Z)) :=
  let symOffset := i * symbolSize is64bit in
  raw ← readRawSymbol buffer byteOffset is64bit i;
  _ ← (if is64bit then viewBigUint64 buffer (byteOffset + symOffset + 16)
       else viewUint32 buffer (byteOffset + symOffset + 8));
  let symbolName := symbolNameAt strtabData (st_nameOffset raw) in
  if negb (String.eqb symbolName EmptyString) && (0 <=? st_value raw)
     && (ST_TYPE (st_info raw) =? STT_FUNC)
  then Ok (Some (symbolName, st_value raw))
  else Ok None.

Definition collectFunctions (buffer : list Z)
           (symtabSection strtabSection : option SectionHeader) (is64bit : bool)
  : result (list (string * Z)) :=
  match symtabSection, strtabSection with
  | Some symtab, Some strtab =>
      _ ← Uint8Array buffer (offset symtab) (size symtab);
      strtabData ← Uint8Array buffer (offset strtab) (size strtab);
      found ← mapM (functionEntry buffer strtabData (offset symtab) is64bit)
                   (indices (loopCount (size symtab) (symbolSize is64bit)));
      Ok (omap id (found : list (option (string * Z))))
  | _, _ => Ok []
  end.

(** [functionMap]: each [functionMap.set(symbolName, textAddr + value)], in
    table order, a later entry replacing an earlier one of the same name. *)
Definition functionMapOf (textAddr : Z) (found : list (string * Z)) : gmap string Z :=
  fold_left (fun m nv => <[ fst nv := textAddr + snd nv ]> m) found ∅.

(** The highest end address over the allocated sections with an address and
    the [PT_LOAD] segments with a size. *)
Definition highestSectionEnd (sectionHeaders : list SectionHeader) (start : Z) : Z :=
  fold_left (fun highestAddr sh =>
               if allocated sh && (0 <? addr sh)
               then (if highestAddr <? addr sh + size sh
                     then addr sh + size sh else highestAddr)
               else highestAddr)
            sectionHeaders start.

Definition highestSegmentEnd (programHeaders : list ProgramHeader) (start : Z) : Z :=
  fold_left (fun highestAddr ph =>
               if (p_type ph =? 1) && (0 <? p_memsz ph)
               then (if highestAddr <? p_vaddr ph + p_memsz ph
                     then p_vaddr ph + p_memsz ph else highestAddr)
               else highestAddr)
            programHeaders start.

(** [STACK_ADDR]: for an object file 1 MiB above the base cursor as the
    section loop left it, for an executable the page at or above 1 MiB past
    the highest end address. *)
Definition stackAddress (isObject : bool) (baseAddr : Z)
           (sectionHeaders : list SectionHeader) (programHeaders : list ProgramHeader) : Z :=
  if isObject then baseAddr + 0x100000
  else
    let highestAddr := highestSegmentEnd programHeaders
                         (highestSectionEnd sectionHeaders 0) in
    ceilTo (highestAddr + 0x100000) PAGE.

Section WithEngine.
Context {D : Disassembler} {E : Type} {EN : Engine E}.

(** The state of the section loop: the engine, the base cursor [baseAddr],
    the set [mappedRegions] (its keys [`${alignedAddr}-${alignedSize}`] as
    pairs) and the map [sectionAddresses]. *)
Record MapState := {
  ms_engine : E;
  baseAddr : Z;
  mappedRegions : gset (Z * Z);
  sectionAddresses : gmap string Z
}.

(** The address a section is loaded at and the cursor afterwards. *)
Definition targetOf (isObject : bool) (baseAddr0 : Z) (sh : SectionHeader) : Z * Z :=
  if isObject && (addr sh =? 0)
  then let targetAddr := ceilTo baseAddr0 PAGE in
       (targetAddr, targetAddr + ceilTo (size sh) PAGE)
  else (addr sh, baseAddr0).

(** The region [engine.mem_map] is asked for. *)
Definition alignedRegion (targetAddr : Z) (sh : SectionHeader) : Z * Z :=
  (floorTo targetAddr PAGE, Z.max PAGE (ceilTo (size sh) PAGE)).

Definition protOf (sh : SectionHeader) : Z :=
  let prot :=
    Z.lor (Z.lor (if Z.land (flags sh) 0x1 =? 0 then 0 else PROT_READ)
                 (if Z.land (flags sh) 0x2 =? 0 then 0 else PROT_WRITE))
          (if Z.land (flags sh) 0x4 =? 0 then 0 else PROT_EXEC) in
  if prot =? 0 then PROT_READ else prot.

(** The body of [sectionHeaders.forEach(sh => ...)] in the handler. *)
Definition mapSection (buffer : list Z) (isObject : bool) (st : MapState)
           (sh : SectionHeader) : MapState :=
  if allocated sh then
    let '(targetAddr, base1) := targetOf isObject (baseAddr st) sh in
    let st1 := {| ms_engine := ms_engine st; baseAddr := base1;
                  mappedRegions := mappedRegions st;
                  sectionAddresses := sectionAddresses st |} in
    if targetAddr =? 0 then st1
    else
      let region := alignedRegion targetAddr sh in
      if decide (region ∈ mappedRegions st1) then st1
      else
        match mem_map (ms_engine st1) (fst region) (snd region) (protOf sh) with
        | Throw _ => st1
        | Ok e1 =>
            let st2 := {| ms_engine := e1; baseAddr := base1;
                          mappedRegions := {[ region ]} ∪ mappedRegions st1;
                          sectionAddresses := <[ name sh := targetAddr ]> (sectionAddresses st1) |} in
            if (0 <? size sh) && (0 <? offset sh) then
              match (bytes ← Uint8Array buffer (offset sh) (size sh);
                     mem_write e1 targetAddr bytes) with
              | Throw _ => st2
              | Ok e2 => {| ms_engine := e2; baseAddr := base1;
                            mappedRegions := mappedRegions st2;
                            sectionAddresses := sectionAddresses st2 |}
              end
            else st2
        end
  else st.

(** The section loop.  [baseAddr] is assigned for object files only and is
    read for object files only; elsewhere the cursor is never used. *)
Definition mapSections (buffer : list Z) (isObject : bool) (engine0 : E)
           (sectionHeaders : list SectionHeader) : MapState :=
  fold_left (mapSection buffer isObject) sectionHeaders
            {| ms_engine := engine0; baseAddr := OBJECT_BASE;
               mappedRegions := ∅; sectionAddresses := ∅ |}.

(** One relocation applied to the image: the engine afterwards.  A failed
    write is caught and leaves the image as it was. *)
Definition applyRelocation (e : E) (textAddr : Z) (functionMap : gmap string Z)
           (symbolName : string) (r : RelocationEntry) : E :=
  if String.eqb symbolName EmptyString then e
  else
    match functionMap !! symbolName with
    | None => e
    | Some targetAddr =>
        let patchAddr := textAddr + r_offset r in
        match patchBytes (relocType r) targetAddr patchAddr with
        | None => e
        | Some bytes =>
            match mem_write e patchAddr bytes with
            | Ok e' => e'
            | Throw _ => e
            end
        end
    end.

(** The relocation loop over the entries [idxs] of [.rela.text]. *)
Fixpoint relocationLoop (buffer : list Z) (byteOffset : Z)
         (symtabSection strtabSection : option SectionHeader) (is64bit : bool)
         (textAddr : Z) (functionMap : gmap string Z) (idxs : list Z) (e : E) : result E :=
  match idxs with
  | [] => Ok e
  | i :: rest =>
      r ← readRelocation buffer byteOffset is64bit i;
      symbolName ← relocationSymbolName buffer symtabSection strtabSection is64bit
                                       (symbolIndex r);
      relocationLoop buffer byteOffset symtabSection strtabSection is64bit
                     textAddr functionMap rest
                     (applyRelocation e textAddr functionMap symbolName r)
  end.

(** [Process relocations to fix function calls]. *)
Definition processRelocations (parsed : Parsed)
           (symtabSection strtabSection : option SectionHeader) (is64bit : bool)
           (textAddr : Z) (functionMap : gmap string Z) (e : E) : result E :=
  match findSection (sectionHeaders parsed) ".rela.text" with
  | Some rela =>
      if (0 <? size rela) && negb (bool_decide (functionMap = ∅)) then
        _ ← Uint8Array (view parsed) (offset rela) (size rela);
        relocationLoop (view parsed) (offset rela) symtabSection strtabSection is64bit
                       textAddr functionMap
                       (indices (loopCount (size rela) (relaSize is64bit))) e
      else Ok e
  | None => Ok e
  end.

(** The call environment of [main]: argc and argv, the halt trampoline one
    page past the stack, and its address pushed as return address. *)
Definition installTrampoline (e : E) (is64bit : bool) (STACK_ADDR : Z) : result (E * Z) :=
  e1 ← (if is64bit
        then Ok (reg_write_i64 (reg_write_i64 e X86_REG_RDI 0) X86_REG_RSI 0)
        else
          let sp := reg_read_i32 e X86_REG_ESP in
          ea ← mem_write e (sp - 4) [0; 0; 0; 0];
          eb ← mem_write ea (sp - 8) [0; 0; 0; 0];
          Ok (reg_write_i32 eb X86_REG_ESP (sp - 8)));
  let exitAddr := STACK_ADDR + STACK_SIZE + 0x1000 in
  e2 ← mem_map e1 exitAddr 0x1000 PROT_ALL;
  e3 ← mem_write e2 exitAddr [0xF4];
  e4 ← (if is64bit
        then
          let sp := reg_read_i64 e3 X86_REG_RSP in
          ea ← mem_write e3 (sp - 8) (setBigUint64 exitAddr);
          Ok (reg_write_i64 ea X86_REG_RSP (sp - 8))
        else
          let sp := reg_read_i32 e3 X86_REG_ESP in
          ea ← mem_write e3 (sp - 4) (setUint32 exitAddr);
          Ok (reg_write_i32 ea X86_REG_ESP (sp - 4)));
  Ok (e4, exitAddr).

(** How the handler ends. *)
Inductive Launch :=
| Launched (page : Page) (debugger : Debugger E) (exitAddr : option Z)
           (STACK_ADDR : Z) (sections : gmap string Z)
| Refused (message : string)     (* written to [emuOutput]; the handler returns *)
| NotFollowed.                   (* [main] found while [.text] has no address:
                                    the source goes on with NaN addresses *)

(** The stack: 64 KiB mapped at [STACK_ADDR], the stack pointer one page
    below its top.  The call is not inside a [try]. *)
Definition mapStack (e : E) (is64bit : bool) (STACK_ADDR : Z) : result E :=
  e1 ← mem_map e STACK_ADDR STACK_SIZE PROT_ALL;
  Ok (if is64bit
      then reg_write_i64 e1 X86_REG_RSP (STACK_ADDR + STACK_SIZE - 0x1000)
      else reg_write_i32 e1 X86_REG_ESP (STACK_ADDR + STACK_SIZE - 0x1000)).

(** The handler from the entry-point test on: relocations, the call
    environment of [main] when [isObjectFile && mainAddr && mainAddr > 0],
    the debugger, the exit breakpoint when an exit address was set, and the
    closing message.  The source-to-assembly mapping and the rendering calls
    in between write to the page only and are left out. *)
Definition launch (page : Page) (parsed : Parsed) (isObject : bool)
           (mainAddr : option Z) (STACK_ADDR : Z) (sections : gmap string Z) (e2 : E)
           (entryPoint : Z) (functionMap : gmap string Z) : result Launch :=
  let sh := sectionHeaders parsed in
  let is64bit := is64 parsed in
  if entryPoint =? 0 then Ok (Refused "Error: No valid entry point found")
  else
    e3 ← processRelocations parsed (findSection sh ".symtab") (findSection sh ".strtab")
                            is64bit (default 0 (sections !! ".text")) functionMap e2;
    '(e4, exitAddr) ← (if isObject && mainFound mainAddr
                       then '(e, x) ← installTrampoline e3 is64bit STACK_ADDR;
                            Ok (e, Some x)
                       else Ok (e3, None));
    let d := constructor e4 is64bit entryPoint in
    let '(p1, d1) := match exitAddr with
                     | Some x => addBreakpoint page d x
                     | None => (page, d)
                     end in
    let p2 := if isPerformanceModeActive p1 then p1
              else emuAssign p1 DebuggerInitialized in
    Ok (Launched p2 d1 exitAddr STACK_ADDR sections).

(** The [runUnicorn] click handler on the global [parsed] and a fresh
    engine.  [Throw] is an exception that leaves the handler. *)
Definition runUnicorn (page : Page) (parsedGlobal : option Parsed) (engine0 : E)
  : result Launch :=
  match parsedGlobal with
  | None => Throw TypeError
  | Some parsed =>
      let sh := sectionHeaders parsed in
      let is64bit := is64 parsed in
      let isObject := isObjectFile sh in
      let st := mapSections (view parsed) isObject engine0 sh in
      let STACK_ADDR := stackAddress isObject (baseAddr st) sh (programHeaders parsed) in
      e2 ← mapStack (ms_engine st) is64bit STACK_ADDR;
      let symtabSection := findSection sh ".symtab" in
      let strtabSection := findSection sh ".strtab" in
      let textAddr := sectionAddresses st !! ".text" in
      mainAddr ← (if isObject then findMain (view parsed) symtabSection strtabSection is64bit
                  else Ok None);
      found ← (if isObject
               then collectFunctions (view parsed) symtabSection strtabSection is64bit
               else Ok []);
      if isObject then
        match textAddr with
        | Some t =>
            if negb (mainFound mainAddr) && (t =? 0)
            then Ok (Refused "Error: No .text section found in object file")
            else
              launch page parsed isObject mainAddr STACK_ADDR (sectionAddresses st) e2
                     (if mainFound mainAddr then t + default 0 mainAddr else t)
                     (functionMapOf t found)
        | None =>
            if mainFound mainAddr then Ok NotFollowed
            else Ok (Refused "Error: No .text section found in object file")
        end
      else launch page parsed isObject mainAddr STACK_ADDR (sectionAddresses st) e2
                  (entry (elfHeader parsed)) ∅
  end.

End WithEngine.

(** The file handlers ([fileInput] change, [autoLoadCompiledFile]) on the
    global [parsed]: the assignment happens only when [parseELF] returns. *)
Definition loadFile (parsedGlobal : option Parsed) (buf : list Z) : option Parsed :=
  match parseELF buf with
  | Ok p => Some p
  | Throw _ => parsedGlobal
  end.

End Loader.

(* ------------------------------------------------------------------ *)
(** ** A reference engine and decoder for the examples                  *)
(* ------------------------------------------------------------------ *)

(** A small engine and a small decoder that implement the two interfaces,
    to run the code on concrete artifacts.  The engine keeps Unicorn's
    memory rules (page-aligned, non-overlapping regions; access to mapped
    memory only) and executes a handful of one-, two- and five-byte x86
    instructions; the decoder knows the same instructions and the
    frame-pointer prologue. *)
Module Sim.

Record Machine := {
  regs : list Z;             (* pc, sp, accumulator, di, si *)
  regions : list (Z * Z);    (* base and size of each mapped region *)
  memory : gmap Z Z
}.

Definition slot (r : Reg) : nat :=
  match r with
  | X86_REG_RIP | X86_REG_EIP => 0
  | X86_REG_RSP | X86_REG_ESP => 1
  | X86_REG_RAX | X86_REG_EAX => 2
  | X86_REG_RDI => 3
  | X86_REG_RSI => 4
  end%nat.

Definition fresh : Machine :=
  {| regs := [0; 0; 0; 0; 0]; regions := []; memory := ∅ |}.

Definition getReg (m : Machine) (r : Reg) : Z := default 0 (regs m !! slot r).

Definition setReg (m : Machine) (r : Reg) (v : Z) : Machine :=
  {| regs := <[ slot r := v ]> (regs m); regions := regions m; memory := memory m |}.

Definition isMapped (m : Machine) (a : Z) : bool :=
  existsb (fun r => (fst r <=? a) && (a <? fst r + snd r)) (regions m).

Definition overlaps (a s : Z) (r : Z * Z) : bool :=
  (a <? fst r + snd r) && (fst r <? a + s).

Definition map (m : Machine) (a s prot : Z) : result Machine :=
  if negb (a mod 0x1000 =? 0) || negb (s mod 0x1000 =? 0) || (s <=? 0)
  then Throw (Error "Invalid argument (UC_ERR_ARG)")
  else if existsb (overlaps a s) (regions m)
  then Throw (Error "Invalid memory mapping (UC_ERR_MAP)")
  else Ok {| regs := regs m; regions := regions m ++ [(a, s)]; memory := memory m |}.

Definition span (a : Z) (n : nat) : list Z := List.map (fun i => a + Z.of_nat i) (seq 0 n).

Fixpoint store (mem : gmap Z Z) (a : Z) (bytes : list Z) : gmap Z Z :=
  match bytes with
  | [] => mem
  | b :: rest => store (<[ a := b ]> mem) (a + 1) rest
  end.

Definition write (m : Machine) (a : Z) (bytes : list Z) : result Machine :=
  if forallb (isMapped m) (span a (length bytes))
  then Ok {| regs := regs m; regions := regions m; memory := store (memory m) a bytes |}
  else Throw (Error "Invalid memory write (UC_ERR_WRITE_UNMAPPED)").

Definition byteAt (m : Machine) (a : Z) : Z := default 0 (memory m !! a).

Definition read (m : Machine) (a n : Z) : result (list Z) :=
  if forallb (isMapped m) (span a (Z.to_nat n))
  then Ok (List.map (byteAt m) (span a (Z.to_nat n)))
  else Throw (Error "Invalid memory read (UC_ERR_READ_UNMAPPED)").

Definition signed8 (b : Z) : Z := if b <? 128 then b else b - 256.

(** One instruction at [pc]: the machine afterwards, or the engine error. *)
Definition execute (m : Machine) (pc : Z) : result Machine :=
  let op := byteAt m pc in
  if (op =? 0x90) || (op =? 0xF4) then Ok (setReg m X86_REG_RIP (pc + 1))
  else if op =? 0xEB then Ok (setReg m X86_REG_RIP (pc + 2 + signed8 (byteAt m (pc + 1))))
  else if op =? 0xB8 then
    Ok (setReg (setReg m X86_REG_RAX
                       (decodeUint32 (List.map (byteAt m) (span (pc + 1) 4))))
               X86_REG_RIP (pc + 5))
  else if op =? 0xC3 then
    let sp := getReg m X86_REG_RSP in
    bytes ← read m sp 8;
    Ok (setReg (setReg m X86_REG_RIP (decodeUint32 (take 4 bytes)
                                      + 4294967296 * decodeUint32 (drop 4 bytes)))
               X86_REG_RSP (sp + 8))
  else if op =? 0xE8 then
    let sp := getReg m X86_REG_RSP in
    let rel := decodeInt32 (List.map (byteAt m) (span (pc + 1) 4)) in
    m1 ← write m (sp - 8) (setBigUint64 (pc + 5));
    Ok (setReg (setReg m1 X86_REG_RSP (sp - 8)) X86_REG_RIP (pc + 5 + rel))
  else Throw (Error "Invalid instruction (UC_ERR_INSN_INVALID)").

(** [emu_start] for one instruction: the hook fires at [begin] when the
    fetch succeeds, and a hook that returns [false] stops the run before
    the instruction executes. *)
Definition start (m : Machine) (begin until timeout count : Z) (hook : Z -> HookReturn)
  : EmuOutcome Machine :=
  let m0 := setReg m X86_REG_RIP begin in
  if negb (isMapped m begin)
  then {| fired := []; after := m0;
          raised := Some (Error "Invalid memory fetch (UC_ERR_FETCH_UNMAPPED)") |}
  else
    match hook begin with
    | ReturnsFalse => {| fired := [begin]; after := m0; raised := None |}
    | ReturnsUndefined =>
        match execute m0 begin with
        | Ok m1 => {| fired := [begin]; after := m1; raised := None |}
        | Throw e => {| fired := [begin]; after := m0; raised := Some e |}
        end
    end.

Definition engine : Engine Machine := {|
  PROT_READ := 1;
  PROT_WRITE := 2;
  PROT_EXEC := 4;
  PROT_ALL := 7;
  mem_map := map;
  mem_write := write;
  mem_read := read;
  reg_read_i64 := getReg;
  reg_read_i32 := getReg;
  reg_write_i64 := setReg;
  reg_write_i32 := setReg;
  emu_start := start
|}.

Definition insn (a sz : Z) (mn ops : string) : Insn :=
  {| address := a; insn_size := sz; mnemonic := mn; op_str := ops |}.

(** The decoder: instructions are decoded until the bytes end or an unknown
    opcode is met. *)
Fixpoint decode (fuel : nat) (is64bit : bool) (bytes : list Z) (a : Z) : list Insn :=
  match fuel with
  | O => []
  | S fuel' =>
      match bytes with
      | 0x90 :: rest => insn a 1 "nop" "" :: decode fuel' is64bit rest (a + 1)
      | 0xF4 :: rest => insn a 1 "hlt" "" :: decode fuel' is64bit rest (a + 1)
      | 0xC3 :: rest => insn a 1 "ret" "" :: decode fuel' is64bit rest (a + 1)
      | 0x55 :: rest =>
          insn a 1 "push" (if is64bit then "rbp" else "ebp")
          :: decode fuel' is64bit rest (a + 1)
      | 0x48 :: 0x89 :: 0xE5 :: rest =>
          if is64bit then insn a 3 "mov" "rbp, rsp" :: decode fuel' is64bit rest (a + 3)
          else []
      | 0x89 :: 0xE5 :: rest =>
          insn a 2 "mov" "ebp, esp" :: decode fuel' is64bit rest (a + 2)
      | 0xEB :: _ :: rest => insn a 2 "jmp" "" :: decode fuel' is64bit rest (a + 2)
      | 0x0F :: 0x0B :: rest => insn a 2 "ud2" "" :: decode fuel' is64bit rest (a + 2)
      | 0xB8 :: _ :: _ :: _ :: _ :: rest =>
          insn a 5 "mov" "eax, imm32" :: decode fuel' is64bit rest (a + 5)
      | 0xE8 :: _ :: _ :: _ :: _ :: rest =>
          insn a 5 "call" "rel32" :: decode fuel' is64bit rest (a + 5)
      | _ => []
      end
  end.

Definition disassembler : Disassembler := {|
  disasm is64bit bytes a count :=
    let all := decode (length bytes) is64bit bytes a in
    Ok (match count with
        | Some n => take (Z.to_nat n) all
        | None => all
        end)
|}.

End Sim.

(* ------------------------------------------------------------------ *)
(** ** Concrete artifacts                                               *)
(* ------------------------------------------------------------------ *)

Module Artifacts.

Import Symbols Controller Loader.

Definition bytesOf (s : string) : list Z :=
  List.map (fun c => Z.of_N (N_of_ascii c)) (list_ascii_of_string s).

Definition le64 (v : Z) : list Z := setBigUint64 v.

(** A 64-bit symbol-table entry: name offset, info, other, section index,
    value, size. *)
Definition sym64 (nameOffset info value sz : Z) : list Z :=
  le32 nameOffset ++ [info; 0; 1; 0] ++ le64 value ++ le64 sz.

(** A 64-bit relocation entry with addend. *)
Definition rela64 (off symbol ty addend : Z) : list Z :=
  le64 off ++ le64 (symbol * 0x100000000 + ty) ++ le64 addend.

Definition section (n : string) (fl ad off sz : Z) : SectionHeader :=
  {| nameOff := 0; type := 1; flags := fl; addr := ad; offset := off; size := sz;
     link := 0; info := 0; addralign := 1; entsize := 0; name := n |}.

Definition header64 : ElfHeader :=
  {| class := ELF64; data := little; entry := 0; phoff := 0; shoff := 0;
     phentsz := 0; phnum := 0; shentsz := 0; shnum := 0; shstrndx := 0 |}.

(** A 64-bit relocatable object as [parseELF] presents it: 64 header bytes,
    then the text, the string table, the symbol table and the relocation
    table, each with its section header; address 0 everywhere. *)
Definition object (text strtab symtab rela : list Z) : Parsed :=
  let lt := Z.of_nat (length text) in
  let ls := Z.of_nat (length strtab) in
  let ly := Z.of_nat (length symtab) in
  let lr := Z.of_nat (length rela) in
  {| elfHeader := header64;
     programHeaders := [];
     sectionHeaders :=
       [ section ".text" 6 0 64 lt ]
       ++ (if ls =? 0 then [] else [ section ".strtab" 0 0 (64 + lt) ls ])
       ++ (if ly =? 0 then [] else [ section ".symtab" 0 0 (64 + lt + ls) ly ])
       ++ (if lr =? 0 then [] else [ section ".rela.text" 0 0 (64 + lt + ls + ly) lr ]);
     view := replicate 64 0 ++ text ++ strtab ++ symtab ++ rela |}.

(** [push rbp; mov rbp, rsp; ret]. *)
Definition prologueText : list Z := [0x55; 0x48; 0x89; 0xE5; 0xC3].

(** An object with no symbol table at all. *)
Definition strippedObject : Parsed := object prologueText [] [] [].

(** An object whose symbol table holds the null symbol and one [NOTYPE]
    symbol [start], and no function symbol. *)
Definition untypedObject : Parsed :=
  object prologueText (0 :: bytesOf "start" ++ [0])
         (sym64 0 0 0 0 ++ sym64 1 0x10 0 0) [].

(** A buffer that ends inside the third entry of its symbol table: two
    function symbols [b] at 8 and [a] at 0, then one stray byte. *)
Definition truncatedSymtabObject : Parsed :=
  object prologueText (0 :: bytesOf "b" ++ [0] ++ bytesOf "a" ++ [0])
         (sym64 1 0x12 8 0 ++ sym64 3 0x12 0 0 ++ [0]) [].

(** [add: mov eax, 40; ret; nop; nop] and [main: call add; ret], with the
    call displacement left to the relocation. *)
Definition callText : list Z :=
  [0xB8; 40; 0; 0; 0; 0xC3; 0x90; 0x90; 0xE8; 0; 0; 0; 0; 0xC3].

Definition callStrtab : list Z := 0 :: bytesOf "add" ++ [0] ++ bytesOf "main" ++ [0].

(** Two function symbols, [add] at 0 and [main] at 8, and the [PLT32]
    relocation of the call. *)
Definition callObject : Parsed :=
  object callText callStrtab
         (sym64 0 0 0 0 ++ sym64 1 0x12 0 6 ++ sym64 5 0x12 8 6)
         (rela64 9 1 4 (-4)).


(** An artifact that mixes a section at address 0 with a section that
    carries an address. *)
Definition mixedObject : Parsed :=
  {| elfHeader := header64;
     programHeaders := [];
     sectionHeaders := [ section ".text" 6 0 64 5; section ".data" 3 0x10101000 64 5 ];
     view := replicate 64 0 ++ prologueText |}.

(** A linked executable: one section and one segment at 0x401000. *)
Definition executable : Parsed :=
  {| elfHeader := {| class := ELF64; data := little; entry := 0x401000; phoff := 0;
                     shoff := 0; phentsz := 0; phnum := 0; shentsz := 0; shnum := 0;
                     shstrndx := 0 |};
     programHeaders := [ {| p_type := 1; p_flags := 5; p_offset := 64; p_vaddr := 0x401000;
                            p_filesz := 6; p_memsz := 6; p_align := 0x1000 |} ];
     sectionHeaders := [ section ".text" 6 0x401000 64 6 ];
     view := replicate 64 0 ++ [0xB8; 7; 0; 0; 0; 0xF4] |}.

(** The smallest buffer [parseELF] accepts: a 64-bit little-endian header
    with empty tables. *)
Definition minimalHeader : list Z := ELF_MAGIC ++ [2; 1] ++ replicate 58 0.

Definition le16 (v : Z) : list Z := [v mod 256; (v / 256) mod 256].

Definition sectionHeader64 (nameOffset ty fl ad off sz : Z) : list Z :=
  le32 nameOffset ++ le32 ty ++ le64 fl ++ le64 ad ++ le64 off ++ le64 sz
  ++ le32 0 ++ le32 0 ++ le64 1 ++ le64 0.

(** A 64-bit little-endian file with a section table: the header, the
    section-name table [\0.shstrtab\0] at offset 64, and at offset 80 the
    null section header and the header of [.shstrtab]. *)
Definition smallElf : list Z :=
  ELF_MAGIC ++ [2; 1; 1; 0] ++ replicate 8 0
  ++ le16 1 ++ le16 62 ++ le32 1                 (* type, machine, version *)
  ++ le64 0 ++ le64 0 ++ le64 80                 (* entry, phoff, shoff *)
  ++ le32 0 ++ le16 64 ++ le16 0 ++ le16 0       (* flags, ehsize, phentsize, phnum *)
  ++ le16 64 ++ le16 2 ++ le16 1                 (* shentsize, shnum, shstrndx *)
  ++ (0 :: bytesOf ".shstrtab" ++ [0]) ++ replicate 5 0
  ++ sectionHeader64 0 0 0 0 0 0
  ++ sectionHeader64 1 3 0 0 64 11.

Definition blankPage : Page :=
  {| isPerformanceModeActive := false; emuOutput := []; console := [] |}.

Definition quietPage : Page :=
  {| isPerformanceModeActive := true; emuOutput := []; console := [] |}.

(** A machine with one page of code at 0x1000 and a stack page. *)
Definition machineWith (code : list Z) : Sim.Machine :=
  match (m1 ← Sim.map Sim.fresh 0x1000 0x1000 7;
         m2 ← Sim.map m1 0x8000 0x1000 7;
         Sim.write m2 0x1000 code) with
  | Ok m => Sim.setReg m X86_REG_RSP 0x8800
  | Throw _ => Sim.fresh
  end.

Definition debuggerOn (code : list Z) : Debugger Sim.Machine :=
  @constructor Sim.Machine Sim.engine (machineWith code) true 0x1000.

(** [ud2]: decoded, and rejected by the engine. *)
Definition faultingDebugger : Debugger Sim.Machine := debuggerOn [0x0F; 0x0B].

(** [jmp] to itself. *)
Definition spinningDebugger : Debugger Sim.Machine := debuggerOn [0xEB; 0xFE].

(** [nop; hlt] with a breakpoint on the [hlt]. *)
Definition haltingDebugger : Debugger Sim.Machine :=
  snd (addBreakpoint blankPage (debuggerOn [0x90; 0xF4]) 0x1001).

(** [nop; nop] with a breakpoint on the second [nop]. *)
Definition pausingDebugger : Debugger Sim.Machine :=
  snd (addBreakpoint blankPage (debuggerOn [0x90; 0x90; 0xF4]) 0x1001).

End Artifacts.

(* ------------------------------------------------------------------ *)
(** ** Vocabulary of the statements                                     *)
(* ------------------------------------------------------------------ *)

Module Spec.

Import Symbols Controller Loader.

(** The bytes read for the ELF header, for one program header and for one
    section header, by class. *)
Definition ehSpan (is32 : bool) : Z := if is32 then 52 else 64.
Definition phSpan (is32 : bool) : Z := if is32 then 32 else 56.
Definition shSpan (is32 : bool) : Z := if is32 then 40 else 64.

(** The [n] bytes from [off] on lie inside the buffer. *)
Definition inBuffer (buf : list Z) (off n : Z) : Prop :=
  0 <= off /\ off + n <= Z.of_nat (length buf).

(** A zero byte occurs at or after [off]. *)
Definition terminatedAt (buf : list Z) (off : Z) : Prop :=
  0 <= off /\ In 0 (drop (Z.to_nat off) buf).

(** Every section name can be read: there is no section, or the string-table
    index names a section and every name is terminated inside the buffer. *)
Definition namesResolvable (buf : list Z) (shstrndx : Z) (sh : list SectionHeader) : Prop :=
  sh = [] \/
  exists strsh, sh !! Z.to_nat shstrndx = Some strsh /\
                Forall (fun s => terminatedAt buf (offset strsh + nameOff s)) sh.

(** The tables announced by the header lie inside the buffer. *)
Definition tablesFit (buf : list Z) (is32 le : bool) (eh : ElfHeader) : Prop :=
  (forall i, 0 <= i < phnum eh ->
             inBuffer buf (phoff eh + i * phentsz eh) (phSpan is32)) /\
  (forall i, 0 <= i < shnum eh ->
             inBuffer buf (shoff eh + i * shentsz eh) (shSpan is32)) /\
  (forall sh, sectionTable buf is32 le eh = Ok sh ->
              namesResolvable buf (shstrndx eh) sh).

(** [f] is a function-type symbol of the table: some entry of the symbol
    table has type [STT_FUNC], the name of [f] and the raw value recorded as
    its offset. *)
Definition isFunctionTypeSymbol (parsed : Parsed) (symtabSection strtabSection : SectionHeader)
           (f : FuncSym) : bool :=
  match Uint8Array (view parsed) (offset strtabSection) (size strtabSection) with
  | Throw _ => false
  | Ok strtabData =>
      existsb (fun i =>
                 match readRawSymbol (view parsed) (offset symtabSection) (is64 parsed) i with
                 | Ok raw =>
                     (ST_TYPE (st_info raw) =? STT_FUNC)
                     && String.eqb (symbolNameAt strtabData (st_nameOffset raw)) (fname f)
                     && (st_value raw =? foffset f)
                 | Throw _ => false
                 end)
              (indices (loopCount (size symtabSection) (symbolSize (is64 parsed))))
  end.

(** The address rule of the symbol-table path. *)
Definition resolvedAddress (loadBias rawValue : Z) : Z :=
  if rawValue <? 0x1000 then loadBias + rawValue else rawValue.

Definition ascendingByAddress (l : list FuncSym) : Prop :=
  Sorted (fun a b => faddress a <= faddress b) l.

(** What the claim about the resolver asks of a returned sequence. *)
Definition resolverContract (parsed : Parsed) (symtabSection strtabSection : SectionHeader)
           (loadBias : Z) (l : list FuncSym) : Prop :=
  Forall (fun f => isFunctionTypeSymbol parsed symtabSection strtabSection f = true
                   /\ faddress f = resolvedAddress loadBias (foffset f)) l
  /\ ascendingByAddress l.

(** Two address ranges [base, base + size) share an address. *)
Definition rangesOverlap (r1 r2 : Z * Z) : Prop :=
  fst r1 < fst r2 + snd r2 /\ fst r2 < fst r1 + snd r1.

(** The stack region lies strictly above [limit]. *)
Definition stackAbove (STACK_ADDR limit : Z) : Prop := limit < STACK_ADDR.

(** Addresses and sizes are unsigned in the file. *)
Definition unsignedSections (sh : list SectionHeader) : Prop :=
  Forall (fun s => 0 <= addr s /\ 0 <= size s) sh.

(** Every mapped section of the artifact carries address 0. *)
Definition allAtZero (sh : list SectionHeader) : Prop :=
  Forall (fun s => allocated s = true -> addr s = 0) sh.

(** A method leaves the settings of the debugger alone: the breakpoint
    set, the entry point, the mode and the two counters of the run loop. *)
Definition keepsSettings {E : Type} (d d' : Debugger E) : Prop :=
  breakpoints d' = breakpoints d
  /\ entryPoint d' = entryPoint d
  /\ is64bit d' = is64bit d
  /\ executionCount d' = executionCount d
  /\ maxInstructions d' = maxInstructions d.

(** The controller is stopped: not running, and paused. *)
Definition stopped {E : Type} (d : Debugger E) : Prop :=
  isRunning d = false /\ isPaused d = true.

(** The two's-complement bytes of [v], low byte first. *)
Definition littleEndian32 (v : Z) : list Z :=
  [ v mod 256; (v / 256) mod 256; (v / 65536) mod 256; (v / 16777216) mod 256 ].

End Spec.

(* ------------------------------------------------------------------ *)
(** ** Stack view: [getStackContents]                                   *)
(* ------------------------------------------------------------------ *)

Module Inspector.

Import Symbols Controller Loader.

(** [a << n] and [a | b]: the operands go through [ToInt32], the shift
    count is taken modulo 32, and the result is an int32 again. *)
Definition shiftLeft (a n : Z) : Z :=
  toInt32 (Z.shiftl (toInt32 a) (Z.land n 31)).

Definition bitOr (a b : Z) : Z :=
  toInt32 (Z.lor (toInt32 a) (toInt32 b)).

(** An entry of the returned array: [{address, value}]. *)
Record StackItem := {
  s_address : Z;
  s_value : Z
}.

(** [for (j = 0; j < wordSize; j++) value |= bytes[j] << (j * 8)]; an
    element the array does not have is [undefined], which the shift
    turns into 0. *)
Fixpoint wordLoop (bytes : list Z) (js : list Z) (value : Z) : Z :=
  match js with
  | [] => value
  | j :: rest =>
      wordLoop bytes rest
               (bitOr value (shiftLeft (default 0 (bytes !! Z.to_nat j)) (j * 8)))
  end.

Definition wordValue (bytes : list Z) (wordSize : Z) : Z :=
  wordLoop bytes (indices wordSize) 0.

Section WithEngine.
Context {E : Type} {EN : Engine E}.

(** The outer loop: the first read the engine refuses ends it. *)
Fixpoint stackLoop (e : E) (sp wordSize : Z) (idxs : list Z) : list StackItem :=
  match idxs with
  | [] => []
  | i :: rest =>
      let addr := sp + i * wordSize in
      match mem_read e addr wordSize with
      | Throw _ => []
      | Ok bytes =>
          {| s_address := addr; s_value := wordValue bytes wordSize |}
          :: stackLoop e sp wordSize rest
      end
  end.

(** [getStackContents(count)]. *)
Definition getStackContents (d : Debugger E) (count : Z) : list StackItem :=
  let sp := if is64bit d then reg_read_i64 (engine d) X86_REG_RSP
            else reg_read_i32 (engine d) X86_REG_ESP in
  let wordSize := if is64bit d then 8 else 4 in
  stackLoop (engine d) sp wordSize (indices count).

End WithEngine.

End Inspector.

(* ------------------------------------------------------------------ *)
(** ** Text: [trim], [split] and regular expressions                    *)
(* ------------------------------------------------------------------ *)

(** Source text and disassembly text are strings of code units below
    256. *)
Module Text.

Definition inRange (lo hi : N) (c : ascii) : bool :=
  ((lo <=? N_of_ascii c) && (N_of_ascii c <=? hi))%N.

(** White space and line terminators: what [trim] strips and [\s]
    matches (tab, line feed, vertical tab, form feed, carriage return,
    space, no-break space). *)
Definition isWhiteSpace (c : ascii) : bool :=
  inRange 9 13 c || inRange 32 32 c || inRange 160 160 c.

(** [\w]. *)
Definition isWordChar (c : ascii) : bool :=
  inRange 48 57 c || inRange 65 90 c || inRange 97 122 c || inRange 95 95 c.

(** [[0-9a-fA-F]]. *)
Definition isHexDigit (c : ascii) : bool :=
  inRange 48 57 c || inRange 97 102 c || inRange 65 70 c.

(** [.]: any character but a line terminator. *)
Definition isDot (c : ascii) : bool :=
  negb (inRange 10 10 c || inRange 13 13 c).

Fixpoint trimStart (s : string) : string :=
  match s with
  | EmptyString => EmptyString
  | String c r => if isWhiteSpace c then trimStart r else s
  end.

Fixpoint trimEnd (s : string) : string :=
  match s with
  | EmptyString => EmptyString
  | String c r =>
      match trimEnd r with
      | EmptyString => if isWhiteSpace c then EmptyString else String c EmptyString
      | r' => String c r'
      end
  end.

(** [s.trim()]. *)
Definition trim (s : string) : string := trimEnd (trimStart s).

(** [(s.match(/c/g) || []).length] for a one-character pattern. *)
Fixpoint countChar (c : ascii) (s : string) : Z :=
  match s with
  | EmptyString => 0
  | String c' r => (if Ascii.eqb c c' then 1 else 0) + countChar c r
  end.

(** [s.split('\n')]. *)
Fixpoint splitLines (s : string) : list string :=
  match s with
  | EmptyString => [EmptyString]
  | String c r =>
      if Ascii.eqb c "010" then EmptyString :: splitLines r
      else match splitLines r with
           | l :: ls => String c l :: ls
           | [] => [String c EmptyString]
           end
  end.

(** The regular expressions the code uses: literal characters, a
    character class repeated ([+], [*], [+?]), concatenation and capturing
    groups. *)
Inductive Re :=
| Lit (c : ascii)
| Rep (p : ascii -> bool) (min : nat) (greedy : bool)
| Cat (r1 r2 : Re)
| Group (r : Re).

(** A repeated class by backtracking: a greedy repetition tries one more
    character before it tries the rest of the pattern, a lazy one tries
    the rest of the pattern first. *)
Fixpoint rep (p : ascii -> bool) (greedy : bool) (min : nat) (s : string)
         (k : string -> option (list string)) : option (list string) :=
  let more := match s with
              | String c r => if p c then rep p greedy (Nat.pred min) r k else None
              | EmptyString => None
              end in
  match min with
  | S _ => more
  | O => if greedy
         then match more with Some caps => Some caps | None => k s end
         else match k s with Some caps => Some caps | None => more end
  end.

(** Matching at the start of [s]; [k] is the rest of the pattern, called
    with what is left of [s] and the groups captured so far. *)
Fixpoint matchRe (r : Re) (s : string) (caps : list string)
         (k : string -> list string -> option (list string)) : option (list string) :=
  match r with
  | Lit c =>
      match s with
      | String c' r' => if Ascii.eqb c c' then k r' caps else None
      | EmptyString => None
      end
  | Rep p min greedy => rep p greedy min s (fun s' => k s' caps)
  | Cat r1 r2 => matchRe r1 s caps (fun s' caps' => matchRe r2 s' caps' k)
  | Group r1 =>
      matchRe r1 s caps
              (fun s' caps' =>
                 k s' (caps' ++ [substring 0 (String.length s - String.length s') s]))
  end.

(** [s.match(re)] without the [g] flag: the leftmost match, as the list
    of its captured groups [match[1], match[2], ...]. *)
Fixpoint search (r : Re) (s : string) : option (list string) :=
  match matchRe r s [] (fun _ caps => Some caps) with
  | Some caps => Some caps
  | None =>
      match s with
      | String _ rest => search r rest
      | EmptyString => None
      end
  end.

End Text.

(* ------------------------------------------------------------------ *)
(** ** Source highlighting: C functions and assembly blocks             *)
(* ------------------------------------------------------------------ *)

Module Highlight.

Import Text.

(** An entry of [extractCFunctions]: [{name, startLine, endLine}]. *)
Record CFunction := {
  cf_name : string;
  startLine : Z;
  endLine : Z
}.

(** [/(\w+)\s*\(/]. *)
Definition functionNameRe : Re :=
  Cat (Group (Rep isWordChar 1 true)) (Cat (Rep isWhiteSpace 0 true) (Lit "(")).

(** [extractFunctionName(functionLine)]. *)
Definition extractFunctionName (functionLine : string) : string :=
  match search functionNameRe functionLine with
  | Some (name :: _) => name
  | _ => "unknown"
  end.

(** The test that opens a function in [extractCFunctions]. *)
Definition startsFunction (trimmed : string) : bool :=
  includes trimmed "(" && includes trimmed "{"
  && negb (includes trimmed "if") && negb (includes trimmed "while")
  && negb (includes trimmed "for") && negb (includes trimmed "switch").

(** The variables of the scan: the array [functions], [braceDepth], and
    [currentFunction], a reference to an element of the array (its index)
    or [null]. *)
Record Scan := {
  functions : list CFunction;
  braceDepth : Z;
  currentFunction : option nat
}.

Definition setEndLine (lineNum : Z) (f : CFunction) : CFunction :=
  {| cf_name := cf_name f; startLine := startLine f; endLine := lineNum |}.

(** The callback of [lines.forEach((line, index) => ...)]. *)
Definition scanLine (st : Scan) (index : nat) (line : string) : Scan :=
  let lineNum := Z.of_nat index + 1 in
  let trimmed := trim line in
  if startsFunction trimmed then
    {| functions := functions st
                    ++ [ {| cf_name := extractFunctionName trimmed;
                            startLine := lineNum; endLine := lineNum |} ];
       braceDepth := 1;
       currentFunction := Some (length (functions st)) |}
  else
    match currentFunction st with
    | Some current =>
        let depth := braceDepth st + countChar "{" line - countChar "}" line in
        if depth =? 0
        then {| functions := alter (setEndLine lineNum) current (functions st);
                braceDepth := depth; currentFunction := None |}
        else {| functions := functions st; braceDepth := depth;
                currentFunction := Some current |}
    | None => st
    end.

Fixpoint scanLines (lines : list string) (index : nat) (st : Scan) : Scan :=
  match lines with
  | [] => st
  | line :: rest => scanLines rest (S index) (scanLine st index line)
  end.

(** [extractCFunctions(lines)]. *)
Definition extractCFunctions (lines : list string) : list CFunction :=
  functions (scanLines lines 0 {| functions := []; braceDepth := 0;
                                  currentFunction := None |}).

(** An element of [assemblyInstructions] as the [runUnicorn] handler
    builds it: [{address, instruction}]. *)
Record AsmInstruction := {
  i_address : Z;
  i_instruction : string
}.

(** [getInstructionAddress(instruction)] on such an element: its
    [address] unless that is falsy, then [null]. *)
Definition getInstructionAddress (instruction : AsmInstruction) : option Z :=
  if i_address instruction =? 0 then None else Some (i_address instruction).

(** [instruction.assembly || instruction.instruction || 'unknown']. *)
Definition asmTextOf (instruction : AsmInstruction) : string :=
  if String.eqb (i_instruction instruction) EmptyString then "unknown"
  else i_instruction instruction.

Definition pushesFramePointer (instruction : AsmInstruction) : bool :=
  includes (asmTextOf instruction) "push rbp"
  || includes (asmTextOf instruction) "push ebp".

(** An entry of [boundaries]: [{startAddr, endAddr}]. *)
Record Boundary := {
  startAddr : Z;
  endAddr : Z
}.

(** The loop of [detectAssemblyFunctionBoundaries]; [prev] is
    [assemblyInstructions[i - 1]], absent when [i] is 0. *)
Fixpoint boundaryLoop (prev : option AsmInstruction) (instructions : list AsmInstruction)
         (currentFunctionStart : option Z) (boundaries : list Boundary)
  : option Z * list Boundary :=
  match instructions with
  | [] => (currentFunctionStart, boundaries)
  | instruction :: rest =>
      if pushesFramePointer instruction then
        let boundaries' :=
          match currentFunctionStart, prev with
          | Some start, Some prevInstruction =>
              match getInstructionAddress prevInstruction with
              | Some prevAddress =>
                  boundaries ++ [ {| startAddr := start; endAddr := prevAddress |} ]
              | None => boundaries
              end
          | _, _ => boundaries
          end in
        boundaryLoop (Some instruction) rest (getInstructionAddress instruction) boundaries'
      else boundaryLoop (Some instruction) rest currentFunctionStart boundaries
  end.

(** [detectAssemblyFunctionBoundaries(assemblyInstructions)]. *)
Definition detectAssemblyFunctionBoundaries (assemblyInstructions : list AsmInstruction)
  : list Boundary :=
  let '(currentFunctionStart, boundaries) :=
    boundaryLoop None assemblyInstructions None [] in
  match currentFunctionStart, last assemblyInstructions with
  | Some start, Some lastInstruction =>
      match getInstructionAddress lastInstruction with
      | Some lastAddress =>
          boundaries ++ [ {| startAddr := start; endAddr := lastAddress |} ]
      | None => boundaries
      end
  | _, _ => boundaries
  end.

(** A value of [lineMapping]: [{functionName, functionStart, functionEnd,
    type: 'function'}]. *)
Record FunctionInfo := {
  functionName : string;
  functionStart : Z;
  functionEnd : Z
}.

Definition infoOf (cFunc : CFunction) : FunctionInfo :=
  {| functionName := cf_name cFunc; functionStart := startLine cFunc;
     functionEnd := endLine cFunc |}.

(** The callback of [assemblyInstructions.forEach] in
    [createSimpleFunctionMapping].  The key is the address, or [null];
    in the comparisons [null] counts as 0. *)
Definition mapInstruction (cFunc : CFunction) (asmFunc : Boundary)
           (lineMapping : gmap (option Z) FunctionInfo) (instruction : AsmInstruction)
  : gmap (option Z) FunctionInfo :=
  let address := getInstructionAddress instruction in
  if (startAddr asmFunc <=? default 0 address) && (default 0 address <=? endAddr asmFunc)
  then <[ address := infoOf cFunc ]> lineMapping
  else lineMapping.

(** [createSimpleFunctionMapping(cFunctions, asmFunctions,
    assemblyInstructions)]: the pairs [i < Math.min(...)], in order. *)
Fixpoint createSimpleFunctionMapping (cFunctions : list CFunction)
         (asmFunctions : list Boundary) (assemblyInstructions : list AsmInstruction)
         (lineMapping : gmap (option Z) FunctionInfo) : gmap (option Z) FunctionInfo :=
  match cFunctions, asmFunctions with
  | cFunc :: cs, asmFunc :: bs =>
      createSimpleFunctionMapping cs bs assemblyInstructions
        (fold_left (mapInstruction cFunc asmFunc) assemblyInstructions lineMapping)
  | _, _ => lineMapping
  end.

(** [mapAssemblyToC(cCodeContent, assemblyInstructions)] on
    [this.lineMapping]. *)
Definition mapAssemblyToC (lineMapping : gmap (option Z) FunctionInfo)
           (cCodeContent : string) (assemblyInstructions : list AsmInstruction)
  : gmap (option Z) FunctionInfo :=
  if String.eqb cCodeContent EmptyString then lineMapping
  else
    let lines := splitLines cCodeContent in
    let cFunctions := extractCFunctions lines in
    let asmFunctions := detectAssemblyFunctionBoundaries assemblyInstructions in
    if (length asmFunctions =? length cFunctions)%nat
    then createSimpleFunctionMapping cFunctions asmFunctions assemblyInstructions lineMapping
    else if (0 <? length cFunctions)%nat && (0 <? length asmFunctions)%nat
    then createSimpleFunctionMapping cFunctions asmFunctions assemblyInstructions lineMapping
    else lineMapping.

End Highlight.
(* ------------------------------------------------------------------ *)
(** ** Names of the compile step on a linked executable                 *)
(* ------------------------------------------------------------------ *)

Module Linked.

Import Symbols.

(** The loop [for (i = 0; i < Math.min(storedFunctions.length,
    detectedFunctions.length); i++)]: the name of the stored entry with
    the address and offset of the detected one. *)
Fixpoint pairByOrder (storedFunctions detectedFunctions : list FuncSym) : list FuncSym :=
  match storedFunctions, detectedFunctions with
  | stored :: ss, detected :: ds =>
      {| fname := fname stored; faddress := faddress detected;
         foffset := foffset detected |} :: pairByOrder ss ds
  | _, _ => []
  end.

Section WithDisassembler.
Context {D : Disassembler}.

(** [mapStoredNamesToAddresses(storedFunctions, linkedParsed,
    textBaseAddr)]. *)
Definition mapStoredNamesToAddresses (storedFunctions : list FuncSym)
           (linkedParsed : Parsed) (textBaseAddr : Z) : list FuncSym :=
  let detectedFunctions := detectFunctionsFromAssembly linkedParsed textBaseAddr in
  let mappedFunctions := pairByOrder storedFunctions detectedFunctions in
  if (length storedFunctions <? length detectedFunctions)%nat then
    match last detectedFunctions with
    | Some startFunction =>
        mappedFunctions
        ++ [ {| fname := "_start"; faddress := faddress startFunction;
                foffset := foffset startFunction |} ]
    | None => mappedFunctions
    end
  else mappedFunctions.

End WithDisassembler.

End Linked.

(* ------------------------------------------------------------------ *)
(** ** Vocabulary of the further statements                             *)
(* ------------------------------------------------------------------ *)

Module Props.

Import Symbols Controller Loader Inspector Text Highlight Linked.

(** [n] bytes, each in [0, 256): what a [Uint8Array] of that length
    holds. *)
Definition bytesOfLength (n : nat) (bytes : list Z) : Prop :=
  length bytes = n /\ Forall (fun b => 0 <= b < 256) bytes.

(** Every character of [s] satisfies [p]. *)
Fixpoint allChars (p : ascii -> bool) (s : string) : bool :=
  match s with
  | EmptyString => true
  | String c r => p c && allChars p r
  end.

(** [s] ends with a word character. *)
Fixpoint endsWithWord (s : string) : bool :=
  match s with
  | EmptyString => false
  | String c EmptyString => isWordChar c
  | String _ r => endsWithWord r
  end.

Definition notParen (c : ascii) : bool := negb (Ascii.eqb "(" c).

(** The lines that open a function, with their numbers (from 1) and the
    names read from them. *)
Fixpoint headerLines (lines : list string) (index : nat) : list (Z * string) :=
  match lines with
  | [] => []
  | line :: rest =>
      if startsFunction (trim line)
      then (Z.of_nat index + 1, extractFunctionName (trim line))
           :: headerLines rest (S index)
      else headerLines rest (S index)
  end.

(** The addresses of a listing are above [low] and strictly ascending;
    with [low] 0, positive and strictly ascending, as a disassembly lists
    them. *)
Fixpoint ascendingFrom (low : Z) (l : list AsmInstruction) : Prop :=
  match l with
  | [] => True
  | x :: rest => low < i_address x /\ ascendingFrom (i_address x) rest
  end.

Definition ascendingAddresses (l : list AsmInstruction) : Prop := ascendingFrom 0 l.

(** The blocks a listing falls into: a block opens at each frame-pointer
    push and runs to the instruction before the next push, the last block
    to the end of the listing.  [blocksFrom start lastAddr l] continues a
    block opened at [start] whose last instruction so far is at
    [lastAddr]. *)
Fixpoint blocksFrom (start lastAddr : Z) (l : list AsmInstruction) : list Boundary :=
  match l with
  | [] => [ {| startAddr := start; endAddr := lastAddr |} ]
  | x :: rest =>
      if pushesFramePointer x
      then {| startAddr := start; endAddr := lastAddr |}
           :: blocksFrom (i_address x) (i_address x) rest
      else blocksFrom start (i_address x) rest
  end.

Fixpoint blocks (l : list AsmInstruction) : list Boundary :=
  match l with
  | [] => []
  | x :: rest =>
      if pushesFramePointer x then blocksFrom (i_address x) (i_address x) rest
      else blocks rest
  end.

(** An instruction lies in a block. *)
Definition inBlock (b : Boundary) (x : AsmInstruction) : Prop :=
  startAddr b <= i_address x <= endAddr b.

(** The unsigned integer a sequence of bytes spells, low byte first and
    high byte first. *)
Definition littleEndian (bytes : list Z) : Z :=
  fold_right (fun b acc => b + 256 * acc) 0 bytes.

Definition bigEndian (bytes : list Z) : Z :=
  fold_left (fun acc b => 256 * acc + b) bytes 0.

(** An integer in the range where every integer is a Number: sums and
    products of the source that stay in it are exact. *)
Definition exactNumber (v : Z) : Prop := 0 <= v < 2 ^ 53.

(** The bytes of a string, and a string without a zero character. *)
Definition codes (s : string) : list Z :=
  List.map (fun c => Z.of_N (N_of_ascii c)) (list_ascii_of_string s).

Definition noNul (s : string) : bool := allChars (fun c => negb (Ascii.eqb c "000")) s.

(** What a handler may do to the trace and, in performance mode, to the
    output element: the trace grows by the lines [new], and the element
    keeps its text when no line was added and shows the whole trace
    otherwise. *)
Definition tracedBy {E : Type} (p : Page) (d : Debugger E) (p' : Page) (d' : Debugger E)
           (new : list TraceLine) : Prop :=
  executionTrace d' = executionTrace d ++ new
  /\ (isPerformanceModeActive p = true ->
      isPerformanceModeActive p' = true
      /\ emuOutput p' = match new with
                        | [] => emuOutput p
                        | _ => [TraceText (executionTrace d')]
                        end).

(** The instructions the pattern detector looks at: the decoded [.text]
    section, when there is one, it is not empty, it lies inside the buffer
    and the decoder accepts it. *)
Definition decodedText {D : Disassembler} (parsed : Parsed) (textBaseAddr : Z)
  : option (list Insn) :=
  match findSection (sectionHeaders parsed) ".text" with
  | None => None
  | Some textSection =>
      if size textSection =? 0 then None
      else match Uint8Array (view parsed) (offset textSection) (size textSection) with
           | Throw _ => None
           | Ok bytes =>
               match disasm (is64 parsed) bytes textBaseAddr None with
               | Throw _ => None
               | Ok instructions => Some instructions
               end
           end
  end.

(** [insn] opens a function: it pushes the frame pointer and the next
    instruction sets it up. *)
Definition prologueAt (instructions : list Insn) (a : Z) : Prop :=
  exists before insn nextInsn rest,
    instructions = before ++ insn :: nextInsn :: rest
    /\ address insn = a
    /\ isPushFramePointer insn = true /\ isMovFramePointer nextInsn = true.

End Props.

(* ------------------------------------------------------------------ *)
(** ** Further concrete artifacts                                       *)
(* ------------------------------------------------------------------ *)

Module Samples.

Import Symbols Controller Loader Artifacts Inspector Text Highlight Props.

(** A machine whose stack holds the bytes 1 to 8 and then four bytes
    [F0 FF FF FF] at the stack pointer 0x8800. *)
Definition stackedMachine (bytes : list Z) : Sim.Machine :=
  match Sim.write (machineWith [0x90]) 0x8800 bytes with
  | Ok m => m
  | Throw _ => Sim.fresh
  end.

Definition wideDebugger : Debugger Sim.Machine :=
  @constructor Sim.Machine Sim.engine (stackedMachine [1; 2; 3; 4; 5; 6; 7; 8]) true 0x1000.

Definition narrowDebugger : Debugger Sim.Machine :=
  @constructor Sim.Machine Sim.engine (stackedMachine [0xF0; 0xFF; 0xFF; 0xFF]) false 0x1000.

(** A listing of two functions behind a stray instruction. *)
Definition sampleListing : list AsmInstruction :=
  [ {| i_address := 0x10000000; i_instruction := "nop " |};
    {| i_address := 0x10000001; i_instruction := "push rbp" |};
    {| i_address := 0x10000002; i_instruction := "89 e5                    mov rbp, rsp" |};
    {| i_address := 0x10000005; i_instruction := "ret " |};
    {| i_address := 0x10000006; i_instruction := "push rbp" |};
    {| i_address := 0x10000007; i_instruction := "89 e5                    mov rbp, rsp" |};
    {| i_address := 0x1000000a; i_instruction := "ret " |} ].

(** A source text with two functions. *)
Definition sampleSource : list string :=
  [ "int add(int a, int b) {"; "    return a + b;"; "}"; "";
    "int main() {"; "    return add(15, 25);"; "}" ]%string.

Definition sampleCode : string :=
  fold_right (fun line rest => (line +:+ String "010" rest)%string) EmptyString sampleSource.

(** [main: call puts; ret], where [puts] is an undefined symbol: the
    relocation of the call names a symbol outside the function map. *)
Definition externCallObject : Parsed :=
  object [0xE8; 0; 0; 0; 0; 0xC3]
         (0 :: bytesOf "main" ++ [0] ++ bytesOf "puts" ++ [0])
         (sym64 0 0 0 0 ++ sym64 1 0x12 0 6 ++ sym64 6 0x10 0 0)
         (rela64 1 2 4 (-4)).

End Samples.

(* ------------------------------------------------------------------ *)
(** ** Invariants and auxiliary notions of the proofs                   *)
(* ------------------------------------------------------------------ *)

Module Invariants.

Import Symbols Controller Loader Spec Text Highlight Props.

(** The continuation of a literal character. *)
Definition litK (c : ascii) (k : string -> option (list string)) (s : string)
  : option (list string) :=
  match s with
  | String c' r' => if Ascii.eqb c c' then k r' else None
  | EmptyString => None
  end.

Definition headFails (p : ascii -> bool) (s : string) : bool :=
  match s with
  | EmptyString => true
  | String c _ => negb (p c)
  end.

Definition keyOf (f : CFunction) : Z * string := (startLine f, cf_name f).

(** What the scan keeps true after [i] lines. *)
Definition scanned (st : Scan) (i : nat) : Prop :=
  Forall (fun f => 1 <= startLine f <= endLine f /\ endLine f <= Z.of_nat i) (functions st)
  /\ (forall j k f g, (j < k)%nat -> functions st !! j = Some f -> functions st !! k = Some g ->
                      endLine f < startLine g)
  /\ (forall current, currentFunction st = Some current ->
                      S current = length (functions st)).

(** The closing step of [detectAssemblyFunctionBoundaries]. *)
Definition close (currentFunctionStart : option Z) (lastInstruction : option AsmInstruction)
           (boundaries : list Boundary) : list Boundary :=
  match currentFunctionStart, lastInstruction with
  | Some start, Some lastInstruction =>
      match getInstructionAddress lastInstruction with
      | Some lastAddress => boundaries ++ [ {| startAddr := start; endAddr := lastAddress |} ]
      | None => boundaries
      end
  | _, _ => boundaries
  end.

(** Blocks in a chain: each is a range, and ends below the start of every
    later one. *)
Fixpoint chained (bs : list Boundary) : Prop :=
  match bs with
  | [] => True
  | b :: rest => startAddr b <= endAddr b
                 /\ Forall (fun c => endAddr b < startAddr c) rest
                 /\ chained rest
  end.

(** Some instruction of the listing has key [key] and lies in the
    block. *)
Definition hits (asmFunc : Boundary) (instrs : list AsmInstruction) (key : option Z) : bool :=
  existsb (fun instr => bool_decide (getInstructionAddress instr = key)
                        && (startAddr asmFunc <=? default 0 key)
                        && (default 0 key <=? endAddr asmFunc)) instrs.

Section WithEngine.
Context {E : Type} {EN : Engine E}.

(** What the section loop keeps true on an object file. *)
Definition laidOut (st : @MapState E) : Prop :=
  baseAddr st mod PAGE = 0
  /\ OBJECT_BASE <= baseAddr st
  /\ (forall region, region ∈ mappedRegions st ->
        fst region mod PAGE = 0 /\ snd region mod PAGE = 0 /\ 0 < snd region
        /\ OBJECT_BASE <= fst region /\ fst region + snd region <= baseAddr st)
  /\ (forall r1 r2, r1 ∈ mappedRegions st -> r2 ∈ mappedRegions st -> r1 <> r2 ->
                    ~ rangesOverlap r1 r2)
  /\ (forall n a, sectionAddresses st !! n = Some a ->
                  exists size, (a, size) ∈ mappedRegions st).

End WithEngine.

End Invariants.

(* ------------------------------------------------------------------ *)
(** ** The listing: [disassembleSection] and the lines read back        *)
(* ------------------------------------------------------------------ *)

(** The text of the [disassembly] element is written by
    [disassembleSection] and read back, line by line, by the [runUnicorn]
    handler, which hands the instructions it finds to [mapAssemblyToC].
    Text is [string]; the one literal of the source with characters
    outside the one-byte range, the annotation mark, stands as the bytes
    the source file spells it with: it only ever meets the class [.]. *)

Module Listing.

Import Symbols Text Highlight.

Local Open Scope string_scope.

(** The line feed, [\n]. *)
Definition LF : string := String "010" EmptyString.

(** [c.repeat(n)], [s.padStart(n, c)] and [s.padEnd(n)]. *)
Fixpoint repeatChar (n : nat) (c : ascii) : string :=
  match n with
  | O => EmptyString
  | S k => String c (repeatChar k c)
  end.

Definition padStart (targetLength : nat) (c : ascii) (s : string) : string :=
  repeatChar (targetLength - String.length s) c ++ s.

Definition padEnd (targetLength : nat) (s : string) : string :=
  s ++ repeatChar (targetLength - String.length s) " ".

(** [s.startsWith(p)] and [s.endsWith(p)]. *)
Definition startsWith (s p : string) : bool := String.prefix p s.

Definition endsWith (s p : string) : bool :=
  (String.length p <=? String.length s)%nat
  && String.eqb (substring (String.length s - String.length p) (String.length p) s) p.

(** One hexadecimal digit, lower case. *)
Definition hexDigit (d : Z) : ascii :=
  (if d <? 10 then ascii_of_N (Z.to_N (48 + d)) else ascii_of_N (Z.to_N (87 + d)))%Z.

(** The digits of [n], most significant first, in front of [acc]. *)
Fixpoint hexLoop (fuel : nat) (n : Z) (acc : string) : string :=
  match fuel with
  | O => acc
  | S fuel' =>
      let acc' := String (hexDigit (n mod 16)%Z) acc in
      if (n / 16 =? 0)%Z then acc' else hexLoop fuel' (n / 16)%Z acc'
  end.

(** [n.toString(16)] for an integer [n]: no leading zero, a minus sign in
    front of a negative number.  A number has no more digits than bits. *)
Definition toString16 (n : Z) : string :=
  if (n <? 0)%Z then String "-" (hexLoop (S (Z.to_nat (Z.log2 (- n)))) (- n)%Z EmptyString)
  else hexLoop (S (Z.to_nat (Z.log2 n))) n EmptyString.

(** The value of a hexadecimal digit of either case. *)
Definition digitValue (c : ascii) : option Z :=
  let code := Z.of_N (N_of_ascii c) in
  if inRange 48 57 c then Some (code - 48)%Z
  else if inRange 97 102 c then Some (code - 87)%Z
  else if inRange 65 70 c then Some (code - 55)%Z
  else None.

Fixpoint parseDigits (s : string) (acc : Z) : Z :=
  match s with
  | String c r =>
      match digitValue c with
      | Some d => parseDigits r (acc * 16 + d)%Z
      | None => acc
      end
  | EmptyString => acc
  end.

(** [parseInt(s, 16)] on a text that starts with a hexadecimal digit, as
    the group [[0-9a-fA-F]+] of a pattern does: the value of the digits up
    to the first other character. *)
Definition parseInt16 (s : string) : Z := parseDigits s 0%Z.

(** [xs.findIndex(f)], -1 when no element passes. *)
Fixpoint findIndexFrom {A} (f : A -> bool) (l : list A) (i : Z) : Z :=
  match l with
  | [] => (-1)%Z
  | x :: rest => if f x then i else findIndexFrom f rest (i + 1)%Z
  end.

Definition findIndex {A} (f : A -> bool) (l : list A) : Z := findIndexFrom f l 0%Z.

(** [/0x([0-9a-fA-F]+)/], the target of a call. *)
Definition callTargetRe : Re :=
  Cat (Lit "0") (Cat (Lit "x") (Group (Rep isHexDigit 1 true))).

(** [/0x([0-9a-fA-F]+):\s+(.+?)\s+(.+)/], a line of the listing. *)
Definition listingRe : Re :=
  Cat (Lit "0") (Cat (Lit "x") (Cat (Group (Rep isHexDigit 1 true))
  (Cat (Lit ":") (Cat (Rep isWhiteSpace 1 true) (Cat (Group (Rep isDot 1 false))
  (Cat (Rep isWhiteSpace 1 true) (Group (Rep isDot 1 true)))))))).

(** [functionMap] and [callTargetMap]: both are filled by the same loop,
    a later symbol of an address replaces an earlier one; without symbols
    ([null]) they stay empty. *)
Definition symbolMap (functionSymbols : option (list FuncSym)) : gmap Z string :=
  match functionSymbols with
  | Some symbols => fold_left (fun m func => <[faddress func := fname func]> m) symbols ∅
  | None => ∅
  end.

(** [b.toString(16).padStart(2, '0')]. *)
Definition byteText (b : Z) : string := padStart 2 "0" (toString16 b).

Section WithDisassembler.
Context {D : Disassembler}.

(** The field [bytes] of a decoded instruction and the [message] of an
    exception. *)
Variable insn_bytes : Insn -> list Z.
Variable message : exn -> string.

(** The line of an instruction before its annotation. *)
Definition instructionLine (insn : Insn) : string :=
  "0x" ++ padStart 8 "0" (toString16 (address insn)) ++ ": "
  ++ padEnd 24 (String.concat " " (List.map byteText (insn_bytes insn)))
  ++ " " ++ mnemonic insn ++ " " ++ op_str insn.

(** What [line += ...] adds for a call and for a return. *)
Definition annotation (functionMap callTargetMap : gmap Z string)
           (instructions : list Insn) (insn : Insn) : string :=
  if String.eqb (mnemonic insn) "call" then
    match search callTargetRe (op_str insn) with
    | Some (target :: _) =>
        let targetAddr := parseInt16 target in
        match callTargetMap !! targetAddr with
        | Some name => " ; â†’ " ++ name ++ "()"
        | None => EmptyString
        end
    | _ => EmptyString
    end
  else if String.eqb (mnemonic insn) "ret" then
    let nextInstIndex :=
      (findIndex (fun i => address i =? address insn) instructions + 1)%Z in
    let nextStartsFunction :=
      match instructions !! Z.to_nat nextInstIndex with
      | Some next => bool_decide (is_Some (functionMap !! address next))
      | None => false
      end in
    if (nextInstIndex <? Z.of_nat (length instructions))%Z && nextStartsFunction
    then " ; â†’ exit"
    else if (Z.of_nat (length instructions) <=? nextInstIndex)%Z then " ; â†’ exit"
    else EmptyString
  else EmptyString.

(** The body of [instructions.forEach(insn => ...)]. *)
Definition listInstruction (functionMap callTargetMap : gmap Z string)
           (instructions : list Insn) (output : string) (insn : Insn) : string :=
  let output :=
    match functionMap !! address insn with
    | Some functionName => output ++ LF ++ "<" ++ functionName ++ ">:" ++ LF
    | None => output
    end in
  let line := instructionLine insn ++ annotation functionMap callTargetMap instructions insn in
  output ++ line ++ LF.

(** [disassembleSection(bytes, arch, mode, baseAddr, sectionName,
    functionSymbols)]; [arch] is always x86, [mode] is the word size. *)
Definition disassembleSection (bytes : list Z) (is64bit : bool) (baseAddr : Z)
           (sectionName : string) (functionSymbols : option (list FuncSym)) : string :=
  match disasm is64bit bytes baseAddr None with
  | Ok instructions =>
      let output := LF ++ "=== " ++ sectionName ++ " Section Disassembly ===" ++ LF in
      let functionMap := symbolMap functionSymbols in
      let callTargetMap := symbolMap functionSymbols in
      fold_left (listInstruction functionMap callTargetMap instructions) instructions output
  | Throw e => LF ++ "Disassembly error for " ++ sectionName ++ ": " ++ message e ++ LF
  end.

End WithDisassembler.

(** The loop of the [runUnicorn] handler over the lines of the listing:
    label lines are skipped, a line that matches gives an instruction. *)
Definition isLabelLine (line : string) : bool :=
  startsWith (trim line) "<" && endsWith (trim line) ">:".

Definition parseLine (assemblyInstructions : list AsmInstruction) (line : string)
  : list AsmInstruction :=
  if isLabelLine line then assemblyInstructions
  else match search listingRe line with
       | Some [m1; m2; m3] =>
           assemblyInstructions
             ++ [ {| i_address := parseInt16 m1;
                     i_instruction := if String.eqb m3 EmptyString then m2 else m3 |} ]
       | _ => assemblyInstructions
       end.

Definition parseListing (disasmText : string) : list AsmInstruction :=
  fold_left parseLine (splitLines disasmText) [].

End Listing.

(* ------------------------------------------------------------------ *)
(** ** Vocabulary of the statements on the listing                      *)
(* ------------------------------------------------------------------ *)

Module Listed.

Import Symbols Text Highlight Props Listing.

Local Open Scope string_scope.

(** Two hexadecimal digits. *)
Definition twoDigits (s : string) : bool :=
  match s with
  | String x (String y EmptyString) => isHexDigit x && isHexDigit y
  | _ => false
  end.

(** A text without a line terminator, and one that has no colon
    either. *)
Definition oneLine (s : string) : bool := allChars isDot s.

Definition notColon (c : ascii) : bool := negb (Ascii.eqb ":" c).

Definition plainName (s : string) : bool := oneLine s && allChars notColon s.

(** A text that starts with a character that is no white space. *)
Definition startsVisible (s : string) : bool :=
  match s with
  | String c _ => negb (isWhiteSpace c)
  | EmptyString => false
  end.

(** An instruction as a decoder gives it: an address that is an exact
    number, at least one byte, a mnemonic that starts with a visible
    character, and a mnemonic and operands without a line terminator. *)
Definition listable (insn_bytes : Insn -> list Z) (insn : Insn) : Prop :=
  exactNumber (address insn)
  /\ insn_bytes insn <> []
  /\ Forall (fun b => (0 <= b < 256)%Z) (insn_bytes insn)
  /\ startsVisible (mnemonic insn) = true
  /\ oneLine (mnemonic insn) = true
  /\ oneLine (op_str insn) = true.

(** The names of the symbols have no line terminator. *)
Definition namesOneLine (functionSymbols : option (list FuncSym)) : Prop :=
  match functionSymbols with
  | Some symbols => Forall (fun func => oneLine (fname func) = true) symbols
  | None => True
  end.

(** The bytes after the first as the line shows them, with the padding
    and the blank that follow; nothing for a one-byte instruction. *)
Definition remainingBytes (bytes : list Z) : string :=
  match bytes with
  | _ :: (_ :: _) as more => padEnd 21 (String.concat " " (List.map byteText more)) ++ " "
  | _ => EmptyString
  end.

(** The instruction the handler reads from the line of [insn]. *)
Definition listed (insn_bytes : Insn -> list Z) (functionSymbols : option (list FuncSym))
           (instructions : list Insn) (insn : Insn) : AsmInstruction :=
  {| i_address := address insn;
     i_instruction :=
       remainingBytes (insn_bytes insn) ++ mnemonic insn ++ " " ++ op_str insn
       ++ annotation (symbolMap functionSymbols) (symbolMap functionSymbols)
                     instructions insn |}.

(** The addresses of decoded instructions are above [low] and strictly
    ascending. *)
Fixpoint risingFrom (low : Z) (instructions : list Insn) : Prop :=
  match instructions with
  | [] => True
  | insn :: rest => (low < address insn)%Z /\ risingFrom (address insn) rest
  end.

(** The handler reads the instructions [acc] from the text [out],
    whatever follows it. *)
Definition readsAs (out : string) (acc : list AsmInstruction) : Prop :=
  forall rest,
    fold_left parseLine (splitLines (out ++ rest)) []
    = fold_left parseLine (splitLines rest) acc.

End Listed.

(* ------------------------------------------------------------------ *)
(** ** A listed function                                                *)
(* ------------------------------------------------------------------ *)

Module ListingSamples.

Import Symbols Listing Listed.

(** [nop; push rbp; mov rbp, rsp; ret] at the base of an object file,
    with the symbol [main] on the push. *)
Definition sampleText : list Z := [0x90; 0x55; 0x48; 0x89; 0xe5; 0xc3].

Definition sampleBase : Z := 0x10000000.

Definition sampleInsnBytes (insn : Insn) : list Z :=
  take (Z.to_nat (insn_size insn)) (drop (Z.to_nat (address insn - sampleBase)) sampleText).

Definition sampleMessage (e : exn) : string :=
  match e with
  | Error msg => msg
  | _ => "invalid"
  end.

Definition sampleSymbols : option (list FuncSym) :=
  Some [ {| fname := "main"; faddress := 0x10000001; foffset := 1 |} ].

Definition sampleInstructions : list Insn :=
  [ Sim.insn 0x10000000 1 "nop" ""; Sim.insn 0x10000001 1 "push" "rbp";
    Sim.insn 0x10000002 3 "mov" "rbp, rsp"; Sim.insn 0x10000005 1 "ret" "" ].

End ListingSamples.

(* ------------------------------------------------------------------ *)
(** ** The listing on the page: [highlightCurrentLine]                  *)
(* ------------------------------------------------------------------ *)

(** The [disassembly] element holds a text, after an assignment to
    [textContent], or one [div] for each line, after the assignment to
    [innerHTML] in [highlightCurrentLine]: [Divs] records, for each [div],
    whether it has the class [highlighted-line] and the line handed to
    [escapeHtml].  The element carries the attribute [data-original-text].
    Reading [textContent] back from the [div]s gives the lines one after
    the other; a line comes back from [escapeHtml] and the parser of the
    browser as it was when it has no carriage return and no NUL character,
    and statements on the text read back are about such lines. *)

Module View.

Import Controller Text Listing.

Local Open Scope string_scope.

Inductive Content :=
| Plain (text : string)
| Divs (lines : list (bool * string)).

Record Element := {
  content : Content;
  dataOriginalText : option string
}.

(** [el.textContent]. *)
Definition textContent (el : Element) : string :=
  match content el with
  | Plain text => text
  | Divs lines => String.concat "" (List.map snd lines)
  end.

(** [if (!window.isPerformanceModeActive)
      document.getElementById('disassembly').textContent =
        disasmOutput || 'No executable sections found'], as the two handlers
    that load a file do. *)
Definition showListing (p : Page) (disasmOutput : string) (disasmDiv : Element) : Element :=
  if isPerformanceModeActive p then disasmDiv
  else {| content := Plain (if String.eqb disasmOutput "" then "No executable sections found"
                            else disasmOutput);
          dataOriginalText := dataOriginalText disasmDiv |}.

(** The text [highlightCurrentLine] works on: the attribute when it is
    set and not empty, the text content otherwise. *)
Definition originalTextOf (disasmDiv : Element) : string :=
  match dataOriginalText disasmDiv with
  | Some text => if String.eqb text "" then textContent disasmDiv else text
  | None => textContent disasmDiv
  end.

(** The mark in front of the line of the program counter. *)
Definition pcMark (pc : Z) : string := "0x" ++ padStart 8 "0" (toString16 pc) ++ ":".

Section WithEngine.
Context {E : Type} {EN : Engine E}.

(** [highlightCurrentLine()]. *)
Definition highlightCurrentLine (d : Debugger E) (disasmDiv : Element) : Element :=
  let pc := getCurrentPC d in
  let originalText := originalTextOf disasmDiv in
  let lines := splitLines originalText in
  let htmlLines := List.map (fun line => (includes line (pcMark pc), line)) lines in
  {| content := Divs htmlLines;
     dataOriginalText :=
       match dataOriginalText disasmDiv with
       | Some text => if String.eqb text "" then Some originalText else Some text
       | None => Some originalText
       end |}.

(** What is done to the element: a text is assigned to it (a file is
    loaded, or the panel is reset to its placeholder), or the current line
    is highlighted. *)
Inductive Event :=
| Loaded (p : Page) (disasmOutput : string)
| Highlighted (d : Debugger E).

Definition after (disasmDiv : Element) (ev : Event) : Element :=
  match ev with
  | Loaded p disasmOutput => showListing p disasmOutput disasmDiv
  | Highlighted d => highlightCurrentLine d disasmDiv
  end.

End WithEngine.

(** A colon directly after a hexadecimal digit, as in the mark of a
    line. *)
Fixpoint hexColon (s : string) : bool :=
  match s with
  | String c ((String c' _) as r) => (isHexDigit c && Ascii.eqb ":" c') || hexColon r
  | _ => false
  end.

Fixpoint endsHex (s : string) : bool :=
  match s with
  | EmptyString => false
  | String c EmptyString => isHexDigit c
  | String _ r => endsHex r
  end.

Definition startsColon (s : string) : bool :=
  match s with
  | String c _ => Ascii.eqb ":" c
  | EmptyString => false
  end.

(** The lines of a listing: for each instruction its line, behind a
    blank line and a label when a symbol sits at its address. *)
Section Lines.
Variable insn_bytes : Insn -> list Z.
Variable functionSymbols : option (list Symbols.FuncSym).
Variable instructions : list Insn.

Definition lineOf (insn : Insn) : string :=
  instructionLine insn_bytes insn
  ++ annotation (symbolMap functionSymbols) (symbolMap functionSymbols) instructions insn.

Definition labelLines (insn : Insn) : list string :=
  match symbolMap functionSymbols !! address insn with
  | Some functionName => [EmptyString; "<" ++ functionName ++ ">:"]
  | None => []
  end.

Definition listingLines (insns : list Insn) : list string :=
  flat_map (fun insn => labelLines insn ++ [lineOf insn])%list insns.

End Lines.

(** The text [out] ends a line and splits into the lines [lines]. *)
Definition splitsAs (out : string) (lines : list string) : Prop :=
  forall rest, splitLines (out ++ rest) = (lines ++ splitLines rest)%list.

(** No symbol name, and no mnemonic or operand text, has a colon directly
    after a hexadecimal digit. *)
Definition namesUnmarked (functionSymbols : option (list Symbols.FuncSym)) : Prop :=
  match functionSymbols with
  | Some symbols => Forall (fun func => hexColon (Symbols.fname func) = false) symbols
  | None => True
  end.

Definition unmarked (insn : Insn) : Prop :=
  hexColon (mnemonic insn) = false /\ hexColon (op_str insn) = false.

(** A text without a carriage return and without a NUL character. *)
Definition keptByMarkup (s : string) : bool :=
  Props.allChars (fun c => negb (Ascii.eqb c "013") && negb (Ascii.eqb c "000")) s.

Definition notLineFeed (c : ascii) : bool := negb (Ascii.eqb c "010").

End View.

Module ViewSamples.

Import Controller View.

(** A debugger that stands on the [push rbp] of the listed function, and
    an element that nothing has been written to. *)
Definition standingDebugger : Debugger Sim.Machine :=
  @constructor Sim.Machine Sim.engine Sim.fresh true 0x10000001.

Definition freshElement : Element :=
  {| content := Plain EmptyString; dataOriginalText := None |}.

End ViewSamples.

(* ------------------------------------------------------------------ *)
(** ** The stack panel and the listing of a loaded file                 *)
(* ------------------------------------------------------------------ *)

Module Panels.

Import Symbols Controller Loader Inspector Text Listing.

Local Open Scope string_scope.

(** The double quote of the markup. *)
Definition quote : string := String "034" EmptyString.

(** [v.toString(16).padStart(this.is64bit ? 16 : 8, '0')]. *)
Definition hexPadded (is64bit : bool) (v : Z) : string :=
  padStart (if is64bit then 16 else 8) "0" (toString16 v).

(** The markup of one entry of the stack, as the template of
    [updateStack] spells it. *)
Definition stackItemHTML (is64bit : bool) (item : StackItem) : string :=
  "<div class=" ++ quote ++ "stack-item" ++ quote ++ ">" ++ LF
  ++ "            <span class=" ++ quote ++ "stack-addr" ++ quote ++ ">0x"
  ++ hexPadded is64bit (s_address item) ++ ":</span>" ++ LF
  ++ "            <span class=" ++ quote ++ "stack-value" ++ quote ++ ">0x"
  ++ hexPadded is64bit (s_value item) ++ "</span>" ++ LF
  ++ "          </div>".

Section WithEngine.
Context {E : Type} {EN : Engine E}.

(** [updateStack()]: the markup of the [stackView] element afterwards. *)
Definition updateStack (p : Page) (d : Debugger E) (stackView : string) : string :=
  let stack := getStackContents d 16 in
  let stackHTML := String.concat "" (List.map (stackItemHTML (is64bit d)) stack) in
  if isPerformanceModeActive p then stackView else stackHTML.

End WithEngine.

Section WithDisassembler.
Context {D : Disassembler}.
Variable insn_bytes : Insn -> list Z.
Variable message : exn -> string.

(** The base address of the listing of a section: the base of object
    files when some allocated section sits at address 0, the address of
    the section otherwise. *)
Definition disasmBaseAddr (sectionHeaders : list SectionHeader) (sh : SectionHeader) : Z :=
  if isObjectFile sectionHeaders then 0x10000000 else addr sh.

(** The body of [sectionHeaders.forEach(sh => ...)] in the handler of
    the file input: the listing of a [.text] section is added to
    [disasmOutput]. *)
Definition listSection (parsed : Parsed) (disasmOutput : string) (sh : SectionHeader)
  : result string :=
  if String.eqb (name sh) ".text" && (0 <? size sh)%Z && (0 <? offset sh)%Z then
    bytes ← Uint8Array (view parsed) (offset sh) (size sh);
    let base := disasmBaseAddr (sectionHeaders parsed) sh in
    let functionSymbols := extractFunctionSymbols parsed base in
    Ok (disasmOutput
        ++ disassembleSection insn_bytes message bytes (is64 parsed) base (name sh)
                              (Some functionSymbols))
  else Ok disasmOutput.

Fixpoint listSections (parsed : Parsed) (disasmOutput : string)
         (sectionHeaders : list SectionHeader) : result string :=
  match sectionHeaders with
  | [] => Ok disasmOutput
  | sh :: rest =>
      disasmOutput' ← listSection parsed disasmOutput sh;
      listSections parsed disasmOutput' rest
  end.

(** [Generate disassembly]: the text the handler assigns to the
    [disassembly] element. *)
Definition generateDisassembly (parsed : Parsed) : result string :=
  listSections parsed EmptyString (sectionHeaders parsed).

End WithDisassembler.

End Panels.

Module PanelSamples.

Import Symbols Controller Loader Artifacts Inspector.

(** The entry of the stack of [Samples.narrowDebugger]: the word
    [F0 FF FF FF] at the stack pointer. *)
Definition signedItem : StackItem := {| s_address := 0x8800; s_value := -16 |}.

(** The section table of an object file: the null section, [.text] and a
    string table. *)
Definition nullSection : SectionHeader := section "" 0 0 0 0.

Definition textSection : SectionHeader := section ".text" 6 0 64 6.

Definition tableSection : SectionHeader := section ".strtab" 0 0 70 11.

End PanelSamples.

(* ------------------------------------------------------------------ *)
(** ** The symbol and relocation tables as the handler reads them       *)
(* ------------------------------------------------------------------ *)

(** The vocabulary of the statements about the passes over the symbol
    table and over [.rela.text]: the entries a pass meets, in table order,
    and the range of values in which the Numbers of the source hold the
    integers of the file. *)
Module Tables.

Import Symbols Controller Loader Artifacts Spec Props.

(** The signature bytes a buffer holds at all agree with the signature:
    the buffer is the signature cut short, or starts with it. *)
Definition agreesWithSignature (buf : list Z) : Prop :=
  take (length buf) ELF_MAGIC = take 4 buf.

(** What [parseELF] asks of a buffer that carries the signature: bytes 4
    and 5 are there, the header of the class they give lies inside the
    buffer, and so do the tables the header announces. *)
Definition wellFormedImage (buf : list Z) : Prop :=
  exists c d,
    buf !! 4%nat = Some c /\ buf !! 5%nat = Some d
    /\ ehSpan (c =? 1) <= Z.of_nat (length buf)
    /\ forall is32 le eh, parseHeader buf = Ok (is32, le, eh) -> tablesFit buf is32 le eh.

(** The raw values of the symbol table and the load bias are in the range
    where a Number holds its integer, so that [Number(getBigUint64)] and
    [textBaseAddr + value] are exact. *)
Definition exactSymbols (parsed : Parsed) (symtabSection : SectionHeader) (loadBias : Z)
  : Prop :=
  exactNumber loadBias /\ exactNumber (loadBias + 0x1000)
  /\ forall i raw,
       0 <= i < loopCount (size symtabSection) (symbolSize (is64 parsed)) ->
       readRawSymbol (view parsed) (offset symtabSection) (is64 parsed) i = Ok raw ->
       exactNumber (st_value raw).

(** What the function-map pass keeps of entry [i] of the symbol table: name
    and value, when the entry is a function symbol ([STT_FUNC]) with a
    name. *)
Definition functionSymbolAt (buffer strtabData : list Z) (byteOffset : Z) (is64bit : bool)
           (i : Z) : option (string * Z) :=
  match readRawSymbol buffer byteOffset is64bit i with
  | Ok raw =>
      let symbolName := symbolNameAt strtabData (st_nameOffset raw) in
      if (ST_TYPE (st_info raw) =? STT_FUNC) && negb (String.eqb symbolName EmptyString)
         && (0 <=? st_value raw)
      then Some (symbolName, st_value raw)
      else None
  | Throw _ => None
  end.

(** Entry [i] is a function symbol called [symbolName]. *)
Definition functionNamed (buffer strtabData : list Z) (byteOffset : Z) (is64bit : bool)
           (symbolName : string) (i : Z) : bool :=
  match functionSymbolAt buffer strtabData byteOffset is64bit i with
  | Some nv => String.eqb (fst nv) symbolName
  | None => false
  end.

(** The values of the function symbols and the addresses made of them are
    exact. *)
Definition exactFunctions (buffer strtabData : list Z) (symtabSection : SectionHeader)
           (is64bit : bool) (textAddr : Z) : Prop :=
  exactNumber textAddr
  /\ forall i nv,
       0 <= i < loopCount (size symtabSection) (symbolSize is64bit) ->
       functionSymbolAt buffer strtabData (offset symtabSection) is64bit i = Some nv ->
       exactNumber (snd nv) /\ exactNumber (textAddr + snd nv).

(** The entries of [.rela.text] in table order, each with the name of the
    symbol it refers to. *)
Definition relocationTable (buffer : list Z) (rela : SectionHeader)
           (symtabSection strtabSection : option SectionHeader) (is64bit : bool)
  : result (list (RelocationEntry * string)) :=
  mapM (fun i =>
          r ← readRelocation buffer (offset rela) is64bit i;
          symbolName ← relocationSymbolName buffer symtabSection strtabSection is64bit
                                           (symbolIndex r);
          Ok (r, symbolName))
       (indices (loopCount (size rela) (relaSize is64bit))).

(** The patch the relocation rule prescribes for an entry: nothing when
    the name is not in the function-address table; else, at
    [patchAddress = textBase + offset], the little-endian 32-bit encoding
    of [targetAddress - (patchAddress + 4)] for the types 4 and 2, that of
    [targetAddress] for type 10, and nothing for any other type. *)
Definition prescribedPatch (textBase : Z) (functionMap : gmap string Z)
           (entry : RelocationEntry * string) : option (Z * list Z) :=
  match functionMap !! snd entry with
  | None => None
  | Some targetAddress =>
      let patchAddress := textBase + r_offset (fst entry) in
      if (relocType (fst entry) =? 4) || (relocType (fst entry) =? 2)
      then Some (patchAddress, littleEndian32 (targetAddress - (patchAddress + 4)))
      else if relocType (fst entry) =? 10
      then Some (patchAddress, littleEndian32 targetAddress)
      else None
  end.

(** The offsets and info words of the table, the addresses of the
    function-address table and the patch addresses are exact. *)
Definition exactPatches (textBase : Z) (functionMap : gmap string Z)
           (entries : list (RelocationEntry * string)) : Prop :=
  exactNumber textBase
  /\ map_Forall (fun _ targetAddress => exactNumber targetAddress) functionMap
  /\ Forall (fun entry => exactNumber (r_offset (fst entry))
                          /\ exactNumber (r_info (fst entry))
                          /\ exactNumber (textBase + r_offset (fst entry) + 4)) entries.

Section WithEngine.
Context {E : Type} {EN : Engine E}.

(** The image after a patch: the engine after the write of the bytes, or
    the image as it was when there is no patch or the engine refuses the
    write. *)
Definition patched (image : E) (patch : option (Z * list Z)) : E :=
  match patch with
  | Some (patchAddress, bytes) =>
      match mem_write image patchAddress bytes with
      | Ok image' => image'
      | Throw _ => image
      end
  | None => image
  end.

End WithEngine.

(** An object with two function symbols of one name, [f] at 0 and [f] at
    4. *)
Definition twiceNamedObject : Parsed :=
  object [0xC3; 0x90; 0x90; 0x90; 0xC3] (0 :: bytesOf "f" ++ [0])
         (sym64 0 0 0 0 ++ sym64 1 0x12 0 1 ++ sym64 1 0x12 4 1) [].

(** The two-function object with four relocations: the call to [add]
    (type 4), the address of [main] stored in the [mov] of [add] (type
    10), an entry of a type the handler does not know (7), and an entry
    that names the null symbol. *)
Definition relocatedObject : Parsed :=
  object callText callStrtab
         (sym64 0 0 0 0 ++ sym64 1 0x12 0 6 ++ sym64 5 0x12 8 6)
         (rela64 9 1 4 (-4) ++ rela64 1 2 10 0 ++ rela64 3 1 7 0 ++ rela64 5 0 4 0).

End Tables.

Import Symbols Controller Loader Artifacts Spec.

(** Reduce a [bind] whose first argument is a value. *)
Ltac step_bind := cbn [mbind result_bind JS.bind].
Ltac step_bind_in H := cbn [mbind result_bind JS.bind] in H.

(* ------------------------------------------------------------------ *)
(** ** Typed-array reads                                                *)
(* ------------------------------------------------------------------ *)

Module ReadFacts.

Lemma getUint8_in view i :
  0 <= i < Z.of_nat (length view) -> exists b, getUint8 view i = Ok b.
Proof.
  intros [Hlo Hhi]. unfold getUint8.
  destruct (Z.ltb_spec i 0) as [?|_]; [lia|].
  destruct (lookup_lt_is_Some_2 view (Z.to_nat i)) as [b Hb]; [lia|].
  rewrite Hb. eauto.
Qed.

Lemma getUint8_lookup view i b :
  0 <= i -> view !! Z.to_nat i = Some b -> getUint8 view i = Ok b.
Proof.
  intros Hlo Hb. unfold getUint8.
  destruct (Z.ltb_spec i 0) as [?|_]; [lia|]. now rewrite Hb.
Qed.

Lemma getUint16_in view off le :
  0 <= off -> off + 2 <= Z.of_nat (length view) ->
  exists v, getUint16 view off le = Ok v.
Proof.
  intros Hlo Hhi. unfold getUint16.
  destruct (getUint8_in view off) as [b0 ->]; [lia|].
  destruct (getUint8_in view (off + 1)) as [b1 ->]; [lia|].
  simpl. eauto.
Qed.

Lemma getUint32_in view off le :
  0 <= off -> off + 4 <= Z.of_nat (length view) ->
  exists v, getUint32 view off le = Ok v.
Proof.
  intros Hlo Hhi. unfold getUint32.
  destruct (getUint8_in view off) as [b0 ->]; [lia|].
  destruct (getUint8_in view (off + 1)) as [b1 ->]; [lia|].
  destruct (getUint8_in view (off + 2)) as [b2 ->]; [lia|].
  destruct (getUint8_in view (off + 3)) as [b3 ->]; [lia|].
  simpl. eauto.
Qed.

Lemma readUint_in view off size le :
  0 <= off -> 0 < size <= 8 -> off + 8 <= Z.of_nat (length view) \/
                              (size <= 4 /\ off + size <= Z.of_nat (length view)) ->
  (size = 1 \/ size = 2 \/ size = 4 \/ size = 8) ->
  exists v, readUint view off size le = Ok v.
Proof.
  intros Hlo Hs Hhi Hcase. unfold readUint.
  destruct Hcase as [-> | [-> | [-> | ->]]]; simpl.
  - apply getUint8_in. lia.
  - apply getUint16_in; lia.
  - apply getUint32_in; lia.
  - destruct (getUint32_in view off le) as [lo ->]; [lia | lia |].
    destruct (getUint32_in view (off + 4) le) as [hi ->]; [lia | lia |].
    simpl. eauto.
Qed.

Lemma mapM_total {A B} (f : A -> result B) (l : list A) :
  (forall x, In x l -> exists y, f x = Ok y) ->
  exists ys, mapM f l = Ok ys /\ length ys = length l.
Proof.
  induction l as [|x r IH]; intros H; simpl.
  - exists []. split; reflexivity.
  - destruct (H x) as [y Hy]; [now left|].
    destruct IH as (ys & Hys & Hlen); [intros; apply H; now right|].
    rewrite Hy, Hys. simpl. exists (y :: ys). split; [reflexivity | simpl; congruence].
Qed.

Lemma in_indices n i : In i (indices n) <-> 0 <= i < n.
Proof.
  unfold indices. rewrite in_map_iff. split.
  - intros (k & <- & Hk). apply in_seq in Hk. lia.
  - intros H. exists (Z.to_nat i). split; [lia|]. apply in_seq. lia.
Qed.

Lemma getStringFrom_total bytes :
  In 0 bytes -> exists s, getStringFrom bytes = Ok s.
Proof.
  induction bytes as [|b r IH]; simpl; [tauto|].
  intros H. destruct (Z.eqb_spec b 0) as [->|Hb]; [eauto|].
  destruct IH as [s ->]; [destruct H; [congruence | assumption]|].
  simpl. eauto.
Qed.

Lemma getString_total buf off :
  terminatedAt buf off -> exists s, getString buf off = Ok s.
Proof.
  intros [Hlo Hin]. unfold getString.
  destruct (Z.ltb_spec off 0); [lia|]. now apply getStringFrom_total.
Qed.

End ReadFacts.

Module ReaderFacts.
Import ReadFacts.

Lemma magicMismatch_match buf :
  take 4 buf = ELF_MAGIC -> magicMismatch buf 0 ELF_MAGIC = Ok false.
Proof.
  destruct buf as [|b0 [|b1 [|b2 [|b3 r]]]]; try discriminate.
  unfold ELF_MAGIC. simpl. intros [= -> -> -> ->]. reflexivity.
Qed.

Lemma magicMismatch_differ buf :
  take 4 buf <> ELF_MAGIC ->
  (magicMismatch buf 0 ELF_MAGIC = Ok true \/ magicMismatch buf 0 ELF_MAGIC = Throw RangeError)
  /\ (4 <= Z.of_nat (length buf) -> magicMismatch buf 0 ELF_MAGIC = Ok true).
Proof.
  intros Hne. unfold ELF_MAGIC in *.
  destruct buf as [|b0 r]; [split; [now right | simpl; lia]|].
  simpl magicMismatch. step_bind. unfold getUint8 at 1. simpl.
  destruct (Z.eqb_spec b0 127) as [->|?]; simpl; [|split; auto].
  destruct r as [|b1 r]; [split; [now right | simpl; lia]|].
  unfold getUint8 at 1. simpl.
  destruct (Z.eqb_spec b1 69) as [->|?]; simpl; [|split; auto].
  destruct r as [|b2 r]; [split; [now right | simpl; lia]|].
  unfold getUint8 at 1. simpl.
  destruct (Z.eqb_spec b2 76) as [->|?]; simpl; [|split; auto].
  destruct r as [|b3 r]; [split; [now right | simpl; lia]|].
  unfold getUint8 at 1. simpl.
  destruct (Z.eqb_spec b3 70) as [->|?]; simpl; [|split; auto].
  exfalso. apply Hne. reflexivity.
Qed.

Lemma parseHeader_rejects buf :
  take 4 buf <> ELF_MAGIC ->
  is_ok (parseHeader buf) = false
  /\ (4 <= Z.of_nat (length buf) -> parseHeader buf = Throw (Error "Not an ELF file")).
Proof.
  intros Hne. destruct (magicMismatch_differ buf Hne) as [[H|H] Hlen];
    unfold parseHeader.
  - rewrite H. step_bind. split; [reflexivity | auto].
  - rewrite H. step_bind. split; [reflexivity|].
    intros Hl. rewrite (Hlen Hl) in H. discriminate.
Qed.

Lemma parseELF_rejects buf :
  take 4 buf <> ELF_MAGIC ->
  is_ok (parseELF buf) = false
  /\ (4 <= Z.of_nat (length buf) -> parseELF buf = Throw (Error "Not an ELF file")).
Proof.
  intros Hne. destruct (parseHeader_rejects buf Hne) as [H1 H2]. unfold parseELF. split.
  - destruct (parseHeader buf); [discriminate | reflexivity].
  - intros Hl. rewrite (H2 Hl). reflexivity.
Qed.

Ltac next_read :=
  match goal with
  | |- context [readUint ?v ?o ?s ?le] =>
      let x := fresh "x" in
      let Hx := fresh "Hx" in
      destruct (readUint_in v o s le) as [x Hx];
      [ lia | lia | lia | tauto | rewrite Hx; step_bind ]
  end.

Lemma parseHeader_accepts buf c d :
  take 4 buf = ELF_MAGIC -> buf !! 4%nat = Some c -> buf !! 5%nat = Some d ->
  ehSpan (c =? 1) <= Z.of_nat (length buf) ->
  exists eh, parseHeader buf = Ok (c =? 1, d =? 1, eh)
             /\ class eh = (if c =? 1 then ELF32 else ELF64)
             /\ data eh = (if d =? 1 then little else big).
Proof.
  intros Hm Hc Hd Hlen. unfold parseHeader.
  rewrite (magicMismatch_match buf Hm). step_bind.
  rewrite (getUint8_lookup buf 4 c), (getUint8_lookup buf 5 d) by (assumption || lia).
  step_bind. unfold ehSpan in Hlen.
  destruct (c =? 1); repeat next_read; eexists; (split; [reflexivity | split; reflexivity]).
Qed.

Lemma parseProgramHeader_in buf is32 le off :
  inBuffer buf off (phSpan is32) -> exists ph, parseProgramHeader buf is32 le off = Ok ph.
Proof.
  intros [Hlo Hhi]. unfold phSpan in Hhi. unfold parseProgramHeader. cbv zeta.
  destruct is32; repeat next_read; eauto.
Qed.

Lemma parseSectionHeader_in buf is32 le off :
  inBuffer buf off (shSpan is32) -> exists sh, parseSectionHeader buf is32 le off = Ok sh.
Proof.
  intros [Hlo Hhi]. unfold shSpan in Hhi. unfold parseSectionHeader. cbv zeta.
  destruct is32; repeat next_read; eauto.
Qed.

Lemma resolveNames_total buf idx sh :
  namesResolvable buf idx sh -> exists sh', resolveNames buf idx sh = Ok sh'.
Proof.
  intros [-> | (strsh & Hidx & Hall)]; [simpl; eauto|].
  unfold resolveNames. destruct sh as [|s0 r] eqn:Hsh; [eauto|]. rewrite <- Hsh in *.
  rewrite Hidx.
  destruct (mapM_total (fun s => n ← getString buf (offset strsh + nameOff s); Ok (setName s n)) sh)
    as (ys & Hys & _); [|eauto].
  intros s Hs. rewrite Forall_forall in Hall.
  destruct (getString_total buf (offset strsh + nameOff s)) as [n Hn].
  - apply Hall. now apply list_elem_of_In.
  - rewrite Hn. step_bind. eauto.
Qed.

Lemma parseELF_accepts buf c d :
  take 4 buf = ELF_MAGIC -> buf !! 4%nat = Some c -> buf !! 5%nat = Some d ->
  ehSpan (c =? 1) <= Z.of_nat (length buf) ->
  (forall is32 le eh, parseHeader buf = Ok (is32, le, eh) -> tablesFit buf is32 le eh) ->
  exists img, parseELF buf = Ok img
              /\ class (elfHeader img) = (if c =? 1 then ELF32 else ELF64)
              /\ data (elfHeader img) = (if d =? 1 then little else big)
              /\ view img = buf.
Proof.
  intros Hm Hc Hd Hlen Hfit.
  destruct (parseHeader_accepts buf c d Hm Hc Hd Hlen) as (eh & Hh & Hclass & Hdata).
  destruct (Hfit _ _ _ Hh) as (Hph & Hsh & Hnames).
  unfold parseELF. rewrite Hh. step_bind.
  destruct (mapM_total (fun i => parseProgramHeader buf (c =? 1) (d =? 1)
                                   (phoff eh + i * phentsz eh)) (indices (phnum eh)))
    as (ph & Hpht & _).
  { intros i Hi. apply parseProgramHeader_in, Hph, in_indices, Hi. }
  destruct (mapM_total (fun i => parseSectionHeader buf (c =? 1) (d =? 1)
                                   (shoff eh + i * shentsz eh)) (indices (shnum eh)))
    as (sh & Hsht & _).
  { intros i Hi. apply parseSectionHeader_in, Hsh, in_indices, Hi. }
  unfold programTable. rewrite Hpht. step_bind.
  pose proof (Hnames sh Hsht) as Hn. unfold sectionTable in *. rewrite Hsht. step_bind.
  destruct (resolveNames_total buf (shstrndx eh) sh Hn) as [sh' ->]. step_bind.
  eexists. split; [reflexivity|]. simpl. auto.
Qed.

End ReaderFacts.

Module ReaderConverse.
Import ReadFacts ReaderFacts Tables.

(** A read that returns lies inside the buffer, and a read that raises
    raises [RangeError]. *)
Lemma getUint8_ok view i b :
  getUint8 view i = Ok b -> 0 <= i < Z.of_nat (length view).
Proof.
  unfold getUint8. destruct (Z.ltb_spec i 0); [discriminate|].
  destruct (view !! Z.to_nat i) eqn:Hb; [|discriminate].
  intros _. apply lookup_lt_Some in Hb. lia.
Qed.

Lemma getUint8_value view i b :
  getUint8 view i = Ok b -> view !! Z.to_nat i = Some b.
Proof.
  unfold getUint8. destruct (i <? 0); [discriminate|].
  destruct (view !! Z.to_nat i); congruence.
Qed.

Lemma getUint8_throws view i ex : getUint8 view i = Throw ex -> ex = RangeError.
Proof.
  unfold getUint8. destruct (i <? 0); [congruence|].
  destruct (view !! Z.to_nat i); congruence.
Qed.

Lemma getUint16_ok view off le v :
  getUint16 view off le = Ok v -> 0 <= off /\ off + 2 <= Z.of_nat (length view).
Proof.
  unfold getUint16.
  destruct (getUint8 view off) eqn:H0; [|discriminate].
  destruct (getUint8 view (off + 1)) eqn:H1; [|discriminate].
  apply getUint8_ok in H0, H1. intros _. lia.
Qed.

Lemma getUint16_throws view off le ex : getUint16 view off le = Throw ex -> ex = RangeError.
Proof.
  unfold getUint16.
  destruct (getUint8 view off) eqn:H0; simpl;
    [|intros [= <-]; eapply getUint8_throws; eassumption].
  destruct (getUint8 view (off + 1)) eqn:H1; simpl;
    [discriminate | intros [= <-]; eapply getUint8_throws; eassumption].
Qed.

Lemma getUint32_ok view off le v :
  getUint32 view off le = Ok v -> 0 <= off /\ off + 4 <= Z.of_nat (length view).
Proof.
  unfold getUint32.
  destruct (getUint8 view off) eqn:H0; [|discriminate].
  destruct (getUint8 view (off + 1)) eqn:H1; [|discriminate].
  destruct (getUint8 view (off + 2)) eqn:H2; [|discriminate].
  destruct (getUint8 view (off + 3)) eqn:H3; [|discriminate].
  apply getUint8_ok in H0, H3. intros _. lia.
Qed.

Lemma getUint32_throws view off le ex : getUint32 view off le = Throw ex -> ex = RangeError.
Proof.
  unfold getUint32.
  destruct (getUint8 view off) eqn:H0; simpl;
    [|intros [= <-]; eapply getUint8_throws; eassumption].
  destruct (getUint8 view (off + 1)) eqn:H1; simpl;
    [|intros [= <-]; eapply getUint8_throws; eassumption].
  destruct (getUint8 view (off + 2)) eqn:H2; simpl;
    [|intros [= <-]; eapply getUint8_throws; eassumption].
  destruct (getUint8 view (off + 3)) eqn:H3; simpl;
    [discriminate | intros [= <-]; eapply getUint8_throws; eassumption].
Qed.

Lemma readUint_ok view off size le v :
  size = 2 \/ size = 4 \/ size = 8 ->
  readUint view off size le = Ok v -> 0 <= off /\ off + size <= Z.of_nat (length view).
Proof.
  unfold readUint. intros [-> | [-> | ->]]; simpl.
  - apply getUint16_ok.
  - apply getUint32_ok.
  - destruct (getUint32 view off le) eqn:H0; [|discriminate]. step_bind.
    destruct (getUint32 view (off + 4) le) eqn:H1; [|discriminate].
    apply getUint32_ok in H0, H1. intros _. lia.
Qed.

Lemma readUint_throws view off size le ex :
  readUint view off size le = Throw ex -> ex = RangeError.
Proof.
  unfold readUint.
  destruct (size =? 1); [apply getUint8_throws|].
  destruct (size =? 2); [apply getUint16_throws|].
  destruct (size =? 4); [apply getUint32_throws|].
  destruct (getUint32 view off le) eqn:H0; step_bind;
    [|intros [= <-]; eapply getUint32_throws; eassumption].
  destruct (getUint32 view (off + 4) le) eqn:H1; step_bind;
    [discriminate | intros [= <-]; eapply getUint32_throws; eassumption].
Qed.

(** Split the next read of a sequence of reads that is known to return, or
    known to raise. *)
Ltac read_returned H :=
  match type of H with
  | context [readUint ?v ?o ?s ?le] =>
      let Hr := fresh "Hr" in
      destruct (readUint v o s le) eqn:Hr; step_bind_in H; [|discriminate H]
  end.

Ltac read_raised H :=
  match type of H with
  | context [readUint ?v ?o ?s ?le] =>
      let Hr := fresh "Hr" in
      destruct (readUint v o s le) eqn:Hr; step_bind_in H;
      [|injection H as <-; exact (readUint_throws _ _ _ _ _ Hr)]
  end.

Lemma magicMismatch_throws buf i magic ex :
  magicMismatch buf i magic = Throw ex -> ex = RangeError.
Proof.
  revert i. induction magic as [|v rest IH]; intros i; simpl; [discriminate|].
  destruct (getUint8 buf i) eqn:Hb; step_bind;
    [|intros [= <-]; eapply getUint8_throws; eassumption].
  destruct (negb (a =? v)); [discriminate | apply IH].
Qed.

(** The signature test, case by case: it raises [RangeError] exactly on a
    buffer that is the signature cut short, and reports a mismatch as soon
    as a byte that is there differs. *)
Lemma magicMismatch_cases buf :
  take 4 buf <> ELF_MAGIC ->
  (agreesWithSignature buf -> magicMismatch buf 0 ELF_MAGIC = Throw RangeError)
  /\ (~ agreesWithSignature buf -> magicMismatch buf 0 ELF_MAGIC = Ok true).
Proof.
  intros Hne. unfold agreesWithSignature, ELF_MAGIC in *.
  destruct buf as [|b0 r]; [split; [reflexivity | intros H; exfalso; apply H; reflexivity]|].
  simpl magicMismatch. step_bind. unfold getUint8 at 1. simpl.
  destruct (Z.eqb_spec b0 127) as [->|?]; simpl;
    [|split; [intros [= ?]; congruence | reflexivity]].
  destruct r as [|b1 r]; [split; [reflexivity | intros H; exfalso; apply H; reflexivity]|].
  try unfold getUint8 at 1; simpl.
  destruct (Z.eqb_spec b1 69) as [->|?]; simpl;
    [|split; [intros [= ?]; congruence | reflexivity]].
  destruct r as [|b2 r]; [split; [reflexivity | intros H; exfalso; apply H; reflexivity]|].
  try unfold getUint8 at 1; simpl.
  destruct (Z.eqb_spec b2 76) as [->|?]; simpl;
    [|split; [intros [= ?]; congruence | reflexivity]].
  destruct r as [|b3 r]; [split; [reflexivity | intros H; exfalso; apply H; reflexivity]|].
  try unfold getUint8 at 1; simpl.
  destruct (Z.eqb_spec b3 70) as [->|?]; simpl;
    [|split; [intros [= ?]; congruence | reflexivity]].
  exfalso. apply Hne. reflexivity.
Qed.

Lemma parseELF_rejects_exactly buf :
  take 4 buf <> ELF_MAGIC ->
  (agreesWithSignature buf -> parseELF buf = Throw RangeError)
  /\ (~ agreesWithSignature buf -> parseELF buf = Throw (Error "Not an ELF file")).
Proof.
  intros Hne. destruct (magicMismatch_cases buf Hne) as [Hcut Hdiff].
  unfold parseELF, parseHeader. split; intros H.
  - rewrite (Hcut H). reflexivity.
  - rewrite (Hdiff H). reflexivity.
Qed.

Lemma parseHeader_ok buf is32 le eh :
  parseHeader buf = Ok (is32, le, eh) ->
  exists c d, buf !! 4%nat = Some c /\ buf !! 5%nat = Some d
              /\ is32 = (c =? 1) /\ le = (d =? 1)
              /\ ehSpan is32 <= Z.of_nat (length buf).
Proof.
  unfold parseHeader. intros H.
  destruct (magicMismatch buf 0 ELF_MAGIC) as [[|]|]; step_bind_in H; try discriminate H.
  destruct (getUint8 buf 4) as [c|] eqn:Hc; step_bind_in H; [|discriminate H].
  destruct (getUint8 buf 5) as [d|] eqn:Hd; step_bind_in H; [|discriminate H].
  apply getUint8_value in Hc, Hd.
  cbv zeta in H. exists c, d. split; [exact Hc|]. split; [exact Hd|].
  destruct (c =? 1); repeat read_returned H; injection H as <- <- <-;
    (split; [reflexivity|]); (split; [reflexivity|]);
    match goal with
    | Hr : readUint _ 50 _ _ = Ok _ |- _ => apply readUint_ok in Hr; [|tauto]
    | Hr : readUint _ 62 _ _ = Ok _ |- _ => apply readUint_ok in Hr; [|tauto]
    end; unfold ehSpan; lia.
Qed.

Lemma parseHeader_throws buf ex :
  take 4 buf = ELF_MAGIC -> parseHeader buf = Throw ex -> ex = RangeError.
Proof.
  intros Hm. unfold parseHeader. rewrite (magicMismatch_match buf Hm). step_bind.
  intros H.
  destruct (getUint8 buf 4) eqn:Hc; step_bind_in H;
    [|injection H as <-; eapply getUint8_throws; eassumption].
  destruct (getUint8 buf 5) eqn:Hd; step_bind_in H;
    [|injection H as <-; eapply getUint8_throws; eassumption].
  cbv zeta in H.
  destruct (a =? 1); repeat read_raised H; discriminate H.
Qed.

Lemma parseProgramHeader_ok buf is32 le off ph :
  parseProgramHeader buf is32 le off = Ok ph -> inBuffer buf off (phSpan is32).
Proof.
  unfold parseProgramHeader. cbv zeta. intros H.
  destruct is32; repeat read_returned H;
    repeat match goal with
           | Hr : readUint _ _ _ _ = Ok _ |- _ => apply readUint_ok in Hr; [|tauto]
           end;
    unfold inBuffer, phSpan; lia.
Qed.

Lemma parseProgramHeader_throws buf is32 le off ex :
  parseProgramHeader buf is32 le off = Throw ex -> ex = RangeError.
Proof.
  unfold parseProgramHeader. cbv zeta. intros H.
  destruct is32; repeat read_raised H; discriminate H.
Qed.

Lemma parseSectionHeader_ok buf is32 le off sh :
  parseSectionHeader buf is32 le off = Ok sh -> inBuffer buf off (shSpan is32).
Proof.
  unfold parseSectionHeader. cbv zeta. intros H.
  destruct is32; repeat read_returned H;
    repeat match goal with
           | Hr : readUint _ _ _ _ = Ok _ |- _ => apply readUint_ok in Hr; [|tauto]
           end;
    unfold inBuffer, shSpan; lia.
Qed.

Lemma parseSectionHeader_throws buf is32 le off ex :
  parseSectionHeader buf is32 le off = Throw ex -> ex = RangeError.
Proof.
  unfold parseSectionHeader. cbv zeta. intros H.
  destruct is32; repeat read_raised H; discriminate H.
Qed.

Lemma mapM_ok {A B} (f : A -> result B) l ys :
  mapM f l = Ok ys -> forall x, In x l -> exists y, f x = Ok y.
Proof.
  revert ys. induction l as [|x0 r IH]; intros ys; simpl; [tauto|].
  destruct (f x0) as [y|] eqn:Hy; simpl; [|discriminate].
  destruct (mapM f r) as [ys'|]; simpl; [|discriminate].
  intros _ x [<- | Hx]; [eauto | eapply IH; [reflexivity | exact Hx]].
Qed.

Lemma mapM_throws {A B} (f : A -> result B) l ex :
  mapM f l = Throw ex -> exists x, In x l /\ f x = Throw ex.
Proof.
  induction l as [|x r IH]; simpl; [discriminate|].
  destruct (f x) as [y|e] eqn:Hy; simpl.
  - destruct (mapM f r) as [ys'|e]; simpl; [discriminate|].
    intros [= <-]. destruct IH as (x' & Hin & Hx); [reflexivity|]. eauto.
  - intros [= <-]. eauto.
Qed.

Lemma getStringFrom_ok bytes s : getStringFrom bytes = Ok s -> In 0 bytes.
Proof.
  revert s. induction bytes as [|b r IH]; intros s; simpl; [discriminate|].
  destruct (Z.eqb_spec b 0) as [->|_]; [now left|].
  destruct (getStringFrom r) eqn:Hr; [|discriminate]. intros _. right. eauto.
Qed.

Lemma getStringFrom_throws bytes ex : getStringFrom bytes = Throw ex -> ex = RangeError.
Proof.
  induction bytes as [|b r IH]; simpl; [congruence|].
  destruct (b =? 0); [discriminate|].
  destruct (getStringFrom r); step_bind; [discriminate|].
  intros [= <-]. now apply IH.
Qed.

Lemma getString_ok buf off s : getString buf off = Ok s -> terminatedAt buf off.
Proof.
  unfold getString, terminatedAt. destruct (Z.ltb_spec off 0) as [|Hlo]; [discriminate|].
  intros Hs. split; [assumption | eapply getStringFrom_ok; eassumption].
Qed.

Lemma getString_throws buf off ex : getString buf off = Throw ex -> ex = RangeError.
Proof.
  unfold getString. destruct (off <? 0); [congruence | apply getStringFrom_throws].
Qed.

Lemma resolveNames_ok buf idx sh sh' :
  resolveNames buf idx sh = Ok sh' -> namesResolvable buf idx sh.
Proof.
  unfold resolveNames, namesResolvable. destruct sh as [|s0 r] eqn:Hsh; [now left|].
  rewrite <- Hsh. clear Hsh.
  destruct (sh !! Z.to_nat idx) as [strsh|]; [|discriminate].
  intros Hm. right. exists strsh. split; [reflexivity|].
  apply Forall_forall. intros s Hs. apply list_elem_of_In in Hs.
  destruct (mapM_ok _ _ _ Hm s Hs) as [y Hy].
  destruct (getString buf (offset strsh + nameOff s)) eqn:Hg; [|discriminate].
  eapply getString_ok; eassumption.
Qed.

Lemma resolveNames_throws buf idx sh ex :
  resolveNames buf idx sh = Throw ex -> ex = RangeError \/ ex = TypeError.
Proof.
  unfold resolveNames. destruct sh as [|s0 r] eqn:Hsh; [discriminate|].
  rewrite <- Hsh. clear Hsh.
  destruct (sh !! Z.to_nat idx) as [strsh|]; [|intros [= <-]; now right].
  intros Hm. left. apply mapM_throws in Hm as (s & _ & Hs).
  destruct (getString buf (offset strsh + nameOff s)) eqn:Hg; [discriminate|].
  injection Hs as <-. eapply getString_throws; eassumption.
Qed.

(** [parseELF] returns on no other buffer than a well-formed one. *)
Lemma parseELF_ok buf img : parseELF buf = Ok img -> wellFormedImage buf.
Proof.
  unfold parseELF. intros H.
  destruct (parseHeader buf) as [[[is32 le] eh]|] eqn:Hh; step_bind_in H; [|discriminate H].
  destruct (programTable buf is32 le eh) as [ph|] eqn:Hph; step_bind_in H; [|discriminate H].
  destruct (sectionTable buf is32 le eh) as [sh|] eqn:Hsh; step_bind_in H; [|discriminate H].
  destruct (resolveNames buf (shstrndx eh) sh) as [sh'|] eqn:Hn; step_bind_in H;
    [|discriminate H].
  destruct (parseHeader_ok _ _ _ _ Hh) as (c & d & Hc & Hd & -> & -> & Hspan).
  exists c, d. split; [exact Hc|]. split; [exact Hd|]. split; [exact Hspan|].
  intros is32' le' eh' Heq. rewrite Hh in Heq. injection Heq as <- <- <-.
  split; [|split].
  - intros i Hi. apply in_indices in Hi.
    destruct (mapM_ok _ _ _ Hph i Hi) as [y Hy].
    eapply parseProgramHeader_ok; eassumption.
  - intros i Hi. apply in_indices in Hi.
    destruct (mapM_ok _ _ _ Hsh i Hi) as [y Hy].
    eapply parseSectionHeader_ok; eassumption.
  - intros sh0 Hsh0. rewrite Hsh in Hsh0. injection Hsh0 as <-.
    eapply resolveNames_ok; eassumption.
Qed.

(** Past the signature test, [parseELF] raises nothing but the errors of a
    read outside the buffer and of a section-name table that is not
    there. *)
Lemma parseELF_throws buf ex :
  take 4 buf = ELF_MAGIC -> parseELF buf = Throw ex -> ex = RangeError \/ ex = TypeError.
Proof.
  intros Hm. unfold parseELF. intros H.
  destruct (parseHeader buf) as [[[is32 le] eh]|] eqn:Hh; step_bind_in H;
    [|injection H as <-; left; eapply parseHeader_throws; eassumption].
  destruct (programTable buf is32 le eh) as [ph|] eqn:Hph; step_bind_in H.
  2:{ injection H as <-. left. apply mapM_throws in Hph as (i & _ & Hi).
      eapply parseProgramHeader_throws; eassumption. }
  destruct (sectionTable buf is32 le eh) as [sh|] eqn:Hsh; step_bind_in H.
  2:{ injection H as <-. left. apply mapM_throws in Hsh as (i & _ & Hi).
      eapply parseSectionHeader_throws; eassumption. }
  destruct (resolveNames buf (shstrndx eh) sh) as [sh'|] eqn:Hn; step_bind_in H;
    [discriminate H|].
  injection H as <-. eapply resolveNames_throws; eassumption.
Qed.

End ReaderConverse.

Module ReaderClaims.
Import ReadFacts ReaderFacts ReaderConverse Tables.

(** C3, as stated, fails on a buffer that carries the signature and nothing
    else: the first four bytes match, and the class byte cannot be read. *)
Lemma signature_alone_is_no_image :
  take 4 ELF_MAGIC = ELF_MAGIC
  /\ parseELF ELF_MAGIC = Throw RangeError
  /\ ~ (forall buf, take 4 buf = ELF_MAGIC -> exists img, parseELF buf = Ok img).
Proof.
  split; [reflexivity|]. split; [reflexivity|].
  intros H. destruct (H ELF_MAGIC eq_refl) as [img Himg]. discriminate Himg.
Qed.

(** C3 (amended).  A buffer whose first four bytes are not the ELF signature
    is rejected: [parseELF] raises the error ['Not an ELF file'] when one of
    the bytes that are there differs from the signature, and [RangeError]
    when the buffer is the signature cut short; the global [parsed] keeps
    its value, and from a fresh session the run handler raises before any
    engine call.  A buffer whose first four bytes are the signature has its
    class and encoding read from bytes 4 and 5, and is parsed to an image
    with that class and encoding whenever the header and the tables it
    announces lie inside the buffer and the section names can be resolved;
    on no other buffer does [parseELF] return: there it raises [RangeError]
    or [TypeError], and the global [parsed] keeps its value. *)
Theorem parseELF_signature_gate (buf : list Z) :
  (take 4 buf <> ELF_MAGIC ->
     (agreesWithSignature buf -> parseELF buf = Throw RangeError)
     /\ (~ agreesWithSignature buf -> parseELF buf = Throw (Error "Not an ELF file"))
     /\ is_ok (parseELF buf) = false
     /\ (4 <= Z.of_nat (length buf) -> parseELF buf = Throw (Error "Not an ELF file"))
     /\ (forall parsedGlobal, loadFile parsedGlobal buf = parsedGlobal)
     /\ (forall (E : Type) (EN : Engine E) page (engine0 : E),
           runUnicorn page (loadFile None buf) engine0 = Throw TypeError))
  /\ (take 4 buf = ELF_MAGIC ->
      (forall c d, buf !! 4%nat = Some c -> buf !! 5%nat = Some d ->
         ehSpan (c =? 1) <= Z.of_nat (length buf) ->
         (forall is32 le eh, parseHeader buf = Ok (is32, le, eh) -> tablesFit buf is32 le eh) ->
         exists img, parseELF buf = Ok img
                     /\ class (elfHeader img) = (if c =? 1 then ELF32 else ELF64)
                     /\ data (elfHeader img) = (if d =? 1 then little else big)
                     /\ view img = buf)
      /\ (forall img, parseELF buf = Ok img -> wellFormedImage buf)
      /\ (~ wellFormedImage buf ->
          (parseELF buf = Throw RangeError \/ parseELF buf = Throw TypeError)
          /\ forall parsedGlobal, loadFile parsedGlobal buf = parsedGlobal)).
Proof.
  split.
  - intros Hne. destruct (parseELF_rejects buf Hne) as [H1 H2].
    destruct (parseELF_rejects_exactly buf Hne) as [H3 H4].
    assert (Hload : forall g, loadFile g buf = g).
    { intros g. unfold loadFile. destruct (parseELF buf); [discriminate | reflexivity]. }
    repeat split; auto.
    intros E EN page engine0. rewrite Hload. reflexivity.
  - intros Hm. split; [|split].
    + intros c d Hc Hd Hlen Hfit. now apply (parseELF_accepts buf c d).
    + intros img Himg. eapply parseELF_ok; eassumption.
    + intros Hnot. destruct (parseELF buf) as [img|ex] eqn:Hp.
      * exfalso. apply Hnot. eapply parseELF_ok; eassumption.
      * split.
        -- destruct (parseELF_throws buf ex Hm Hp) as [-> | ->]; auto.
        -- intros g. unfold loadFile. rewrite Hp. reflexivity.
Qed.

Lemma parseELF_signature_gate_witness :
  (parseELF [0x4D; 0x5A; 0x90; 0x00] = Throw (Error "Not an ELF file")
   /\ parseELF [0x4D] = Throw (Error "Not an ELF file")
   /\ parseELF [0x7F; 0x45] = Throw RangeError)
  /\ (exists img, parseELF minimalHeader = Ok img
                  /\ class (elfHeader img) = ELF64
                  /\ data (elfHeader img) = little
                  /\ view img = minimalHeader)
  /\ (exists img, parseELF smallElf = Ok img
                  /\ class (elfHeader img) = ELF64
                  /\ data (elfHeader img) = little
                  /\ view img = smallElf)
  /\ (parseELF (ELF_MAGIC ++ [2]) = Throw RangeError
      \/ parseELF (ELF_MAGIC ++ [2]) = Throw TypeError).
Proof.
  split; [|split; [|split]].
  - split; [|split].
    + destruct (parseELF_signature_gate [0x4D; 0x5A; 0x90; 0x00]) as [H _].
      destruct H as (_ & H & _); [discriminate|]. apply H. discriminate.
    + destruct (parseELF_signature_gate [0x4D]) as [H _].
      destruct H as (_ & H & _); [discriminate|]. apply H. discriminate.
    + destruct (parseELF_signature_gate [0x7F; 0x45]) as [H _].
      destruct H as (H & _); [discriminate|]. apply H. reflexivity.
  - destruct (parseELF_signature_gate minimalHeader) as [_ H].
    destruct (H eq_refl) as [Hacc _].
    apply (Hacc 2 1); [reflexivity | reflexivity | vm_compute; discriminate |].
    intros is32 le eh Heh. vm_compute in Heh.
    injection Heh as <- <- <-.
    split; [|split].
    + simpl. intros i Hi. lia.
    + simpl. intros i Hi. lia.
    + intros sh Hsh. vm_compute in Hsh. injection Hsh as <-. now left.
  - destruct (parseELF_signature_gate smallElf) as [_ H].
    destruct (H eq_refl) as [Hacc _].
    apply (Hacc 2 1); [reflexivity | reflexivity | vm_compute; discriminate |].
    intros is32 le eh Heh. vm_compute in Heh.
    injection Heh as <- <- <-.
    split; [|split].
    + simpl. intros i Hi. lia.
    + simpl. intros i Hi. unfold inBuffer, shSpan. simpl. lia.
    + intros sh Hsh. vm_compute in Hsh. injection Hsh as <-. right.
      eexists. split; [reflexivity|].
      apply List.Forall_cons; [|apply List.Forall_cons; [|apply List.Forall_nil]];
        (split; [vm_compute; discriminate|]);
        apply list_elem_of_In, (bool_decide_unpack _); vm_compute; exact I.
  - destruct (parseELF_signature_gate (ELF_MAGIC ++ [2])) as [_ H].
    destruct (H eq_refl) as (_ & _ & Hrej).
    apply Hrej. intros (c & d & _ & Hd & _). discriminate Hd.
Defined.

(** The sections of the small file, as parsed: the null section and the
    name table, their names read through the name table itself. *)
Lemma smallElf_sections :
  match parseELF smallElf with
  | Ok img =>
      List.map name (sectionHeaders img) = [EmptyString; ".shstrtab"%string]
      /\ List.map offset (sectionHeaders img) = [0; 64]
      /\ List.map size (sectionHeaders img) = [0; 11]
      /\ shstrndx (elfHeader img) = 1
  | Throw _ => False
  end.
Proof. vm_compute. repeat split; reflexivity. Qed.

End ReaderClaims.

(* ------------------------------------------------------------------ *)
(** ** Symbol and boundary resolver                                     *)
(* ------------------------------------------------------------------ *)

Module ResolverFacts.

Section Sorting.
Context {A : Type} (key : A -> Z).

Let le (a b : A) : Prop := key a <= key b.

Lemma insertByAddress_perm f l : Permutation (f :: l) (insertByAddress key f l).
Proof.
  induction l as [|g r IH]; simpl; [reflexivity|].
  destruct (key g <=? key f); [|reflexivity].
  rewrite perm_swap. now constructor.
Qed.

Lemma insertByAddress_head f l x :
  HdRel le x l -> le x f -> HdRel le x (insertByAddress key f l).
Proof.
  intros Hl Hf. destruct l as [|g r]; simpl; [now constructor|].
  destruct (key g <=? key f); constructor; [now inversion Hl | assumption].
Qed.

Lemma insertByAddress_sorted f l : Sorted le l -> Sorted le (insertByAddress key f l).
Proof.
  induction 1 as [|g r Hr IH Hhd]; simpl; [repeat constructor|].
  destruct (Z.leb_spec (key g) (key f)) as [Hle|Hgt].
  - constructor; [assumption|]. now apply insertByAddress_head.
  - constructor; [now constructor|]. constructor. unfold le. lia.
Qed.

Lemma sortByAddress_from acc l :
  Sorted le acc ->
  Sorted le (fold_left (fun acc f => insertByAddress key f acc) l acc)
  /\ Permutation (acc ++ l) (fold_left (fun acc f => insertByAddress key f acc) l acc).
Proof.
  revert acc. induction l as [|f r IH]; intros acc Hacc; simpl.
  - rewrite app_nil_r. split; [assumption | reflexivity].
  - destruct (IH (insertByAddress key f acc)) as [Hs Hp];
      [now apply insertByAddress_sorted|].
    split; [assumption|].
    rewrite <- Hp. rewrite <- insertByAddress_perm.
    simpl. symmetry. apply Permutation_middle.
Qed.

Lemma sortByAddress_sorted l : Sorted le (sortByAddress key l).
Proof. apply (sortByAddress_from [] l). constructor. Qed.

Lemma sortByAddress_perm l : Permutation l (sortByAddress key l).
Proof. apply (sortByAddress_from [] l). constructor. Qed.

End Sorting.

Lemma pushLoop_completed {A} (body : Z -> result (option A)) idxs acc fs :
  pushLoop body idxs acc = (fs, None) ->
  exists pushed, fs = acc ++ pushed
                 /\ Forall (fun f => exists i, In i idxs /\ body i = Ok (Some f)) pushed.
Proof.
  revert acc. induction idxs as [|i r IH]; intros acc; simpl.
  - intros [= <-]. exists []. rewrite app_nil_r. split; [reflexivity | constructor].
  - destruct (body i) as [[f|]|e] eqn:Hb; [| |discriminate].
    + intros H. destruct (IH _ H) as (pushed & -> & Hall).
      exists (f :: pushed). rewrite <- app_assoc. split; [reflexivity|].
      constructor; [exists i; split; [now left | assumption]|].
      eapply Forall_impl; [exact Hall|]. intros g (j & Hj & Hg). exists j. split; [now right | assumption].
    + intros H. destruct (IH _ H) as (pushed & -> & Hall).
      exists pushed. split; [reflexivity|].
      eapply Forall_impl; [exact Hall|]. intros g (j & Hj & Hg). exists j. split; [now right | assumption].
Qed.

Lemma symbolEntry_pushes buffer strtabData byteOffset is64bit textBaseAddr i f :
  symbolEntry buffer strtabData byteOffset is64bit textBaseAddr i = Ok (Some f) ->
  exists raw, readRawSymbol buffer byteOffset is64bit i = Ok raw
              /\ ST_TYPE (st_info raw) = STT_FUNC
              /\ symbolNameAt strtabData (st_nameOffset raw) = fname f
              /\ fname f <> EmptyString
              /\ st_value raw = foffset f
              /\ faddress f = resolvedAddress textBaseAddr (foffset f).
Proof.
  unfold symbolEntry.
  destruct (readRawSymbol buffer byteOffset is64bit i) as [raw|e]; [|discriminate].
  step_bind. cbv zeta.
  destruct (String.eqb_spec (symbolNameAt strtabData (st_nameOffset raw)) EmptyString) as [|Hn];
    [discriminate|].
  destruct (Z.eqb_spec (ST_TYPE (st_info raw)) STT_FUNC) as [Ht|]; [|discriminate].
  destruct (0 <=? st_value raw); [|discriminate].
  simpl. intros [= <-]. exists raw. simpl. unfold resolvedAddress. auto 10.
Qed.


(** The scan opens a boundary exactly at the instructions that push the
    frame pointer and are followed at once by the move that sets it. *)
Lemma scanPrologues_boundaries textBaseAddr instructions k a :
  In a (List.map faddress (scanPrologues textBaseAddr instructions k)) <->
  exists before insn nextInsn rest,
    instructions = before ++ insn :: nextInsn :: rest
    /\ address insn = a
    /\ isPushFramePointer insn = true /\ isMovFramePointer nextInsn = true.
Proof.
  revert k. induction instructions as [|i0 r IH]; intros k.
  - simpl. split; [tauto|]. intros (b & i & n & t & H & _). now destruct b.
  - cbn [scanPrologues]. destruct r as [|i1 r'].
    + simpl. split; [tauto|].
      intros (b & i & n & t & H & _). destruct b as [|? [|? ?]]; discriminate.
    + destruct (isPushFramePointer i0 && isMovFramePointer i1) eqn:Hm.
      * apply andb_prop in Hm as [Hp Hv]. cbn [List.map In faddress]. rewrite IH. split.
        -- intros [<- | (b & i & n & t & H & Ha & Hpi & Hvn)].
           ++ exists [], i0, i1, r'. auto.
           ++ exists (i0 :: b), i, n, t. rewrite H. auto.
        -- intros (b & i & n & t & H & Ha & Hpi & Hvn). destruct b as [|b0 b'].
           ++ injection H as -> -> ->. now left.
           ++ injection H as -> H. right. exists b', i, n, t. auto.
      * rewrite IH. split.
        -- intros (b & i & n & t & H & Ha & Hpi & Hvn).
           exists (i0 :: b), i, n, t. rewrite H. auto.
        -- intros (b & i & n & t & H & Ha & Hpi & Hvn). destruct b as [|b0 b'].
           ++ injection H as -> -> ->. rewrite Hpi, Hvn in Hm. discriminate.
           ++ injection H as -> H. exists b', i, n, t. auto.
Qed.

Section Detector.
Context {D : Disassembler}.

(** Run on a text section that decodes, the detector finds a boundary as
    soon as the idiom occurs. *)
Lemma detector_finds_prologue parsed textBaseAddr textSection bytes instructions
      before insn nextInsn rest :
  findSection (sectionHeaders parsed) ".text" = Some textSection ->
  size textSection <> 0 ->
  Uint8Array (view parsed) (offset textSection) (size textSection) = Ok bytes ->
  disasm (is64 parsed) bytes textBaseAddr None = Ok instructions ->
  instructions = before ++ insn :: nextInsn :: rest ->
  isPushFramePointer insn = true -> isMovFramePointer nextInsn = true ->
  In (address insn) (List.map faddress (detectFunctionsFromAssembly parsed textBaseAddr)).
Proof.
  intros Ht Hs Hb Hd Hi Hp Hm. unfold detectFunctionsFromAssembly.
  rewrite Ht. destruct (Z.eqb_spec (size textSection) 0); [contradiction|].
  rewrite Hb, Hd. apply scanPrologues_boundaries. exists before, insn, nextInsn, rest. auto.
Qed.

(** With no symbol table or no string table, [extractFunctionSymbols]
    returns the empty array whatever the text section holds. *)
Lemma missing_table_returns_empty parsed textBaseAddr :
  fst (pickTables (sectionHeaders parsed)) = None
  \/ snd (pickTables (sectionHeaders parsed)) = None ->
  extractFunctionSymbols parsed textBaseAddr = [].
Proof.
  unfold extractFunctionSymbols.
  destruct (pickTables (sectionHeaders parsed)) as [[sym|] [str|]]; simpl;
    intros [H|H]; try discriminate; reflexivity.
Qed.

End Detector.

End ResolverFacts.

Module ResolverClaims.
Import ResolverFacts.

(** C4, as stated, fails on an object whose symbol table holds no function
    symbol: the resolver answers with a pattern-detected entry [func_1],
    which is no symbol of the table. *)
Lemma fallback_entry_is_no_symbol :
  exists symtabSection strtabSection,
    pickTables (sectionHeaders untypedObject) = (Some symtabSection, Some strtabSection)
    /\ @extractFunctionSymbols Sim.disassembler untypedObject OBJECT_BASE
       = [ {| fname := "func_1"; faddress := OBJECT_BASE; foffset := 0 |} ]
    /\ ~ resolverContract untypedObject symtabSection strtabSection OBJECT_BASE
           (@extractFunctionSymbols Sim.disassembler untypedObject OBJECT_BASE).
Proof.
  eexists _, _. split; [reflexivity|]. split; [reflexivity|].
  intros [Hall _]. apply Forall_inv in Hall as [Hsym _].
  vm_compute in Hsym. discriminate.
Qed.

(** A second way out of the contract: an exception inside the symbol loop
    is caught after the pushes and before the sort, so the entries come back
    in table order. *)
Lemma interrupted_loop_skips_sort :
  List.map faddress (@extractFunctionSymbols Sim.disassembler truncatedSymtabObject OBJECT_BASE)
  = [OBJECT_BASE + 8; OBJECT_BASE]
  /\ ~ ascendingByAddress
         (@extractFunctionSymbols Sim.disassembler truncatedSymtabObject OBJECT_BASE).
Proof.
  split; [reflexivity|]. intros H.
  assert (Hv : @extractFunctionSymbols Sim.disassembler truncatedSymtabObject OBJECT_BASE
               = [ {| fname := "b"; faddress := OBJECT_BASE + 8; foffset := 8 |};
                   {| fname := "a"; faddress := OBJECT_BASE; foffset := 0 |} ])
    by reflexivity.
  rewrite Hv in H. apply Sorted_inv in H as [_ Hhd]. apply HdRel_inv in Hhd.
  vm_compute in Hhd. now apply Hhd.
Qed.

Import ReadFacts Props Tables.

Section Resolver.
Context {D : Disassembler}.

(** C4 (amended).  When the symbol and string tables exist, the symbol loop
    runs to its end and pushes at least one entry, and the raw values of the
    table and the load bias are in the range where Numbers are exact, the
    resolver returns the pushed entries sorted by address: each is a
    function-type symbol of the table with a name that is not empty, with
    address [loadBias + rawValue] when [rawValue < 0x1000] and [rawValue]
    otherwise, and the addresses ascend. *)
Theorem symbol_table_path_contract parsed loadBias symtabSection strtabSection functions :
  pickTables (sectionHeaders parsed) = (Some symtabSection, Some strtabSection) ->
  size symtabSection <> 0 ->
  tryBlock parsed symtabSection strtabSection loadBias = (functions, None) ->
  functions <> [] ->
  exactSymbols parsed symtabSection loadBias ->
  extractFunctionSymbols parsed loadBias = sortByAddress faddress functions
  /\ Permutation functions (extractFunctionSymbols parsed loadBias)
  /\ resolverContract parsed symtabSection strtabSection loadBias
                      (extractFunctionSymbols parsed loadBias)
  /\ Forall (fun f => fname f <> EmptyString
                      /\ exactNumber (foffset f) /\ exactNumber (faddress f))
            (extractFunctionSymbols parsed loadBias).
Proof.
  intros Htab Hsz Htry Hne (Hbias & Hbias' & Hexact).
  pose proof (sortByAddress_perm faddress functions) as Hperm.
  assert (Hres : extractFunctionSymbols parsed loadBias = sortByAddress faddress functions).
  { unfold extractFunctionSymbols, symbolTablePath. rewrite Htab.
    destruct (Z.eqb_spec (size symtabSection) 0); [contradiction|].
    rewrite Htry. destruct (sortByAddress faddress functions) as [|f r] eqn:Hs; [|reflexivity].
    apply Permutation_sym, Permutation_nil in Hperm. contradiction. }
  rewrite Hres. split; [reflexivity|]. split; [assumption|].
  assert (Hall : Forall (fun f => exists i raw,
                           0 <= i < loopCount (size symtabSection) (symbolSize (is64 parsed))
                           /\ readRawSymbol (view parsed) (offset symtabSection) (is64 parsed) i
                              = Ok raw
                           /\ ST_TYPE (st_info raw) = STT_FUNC
                           /\ (exists strtabData,
                                  Uint8Array (view parsed) (offset strtabSection)
                                             (size strtabSection) = Ok strtabData
                                  /\ symbolNameAt strtabData (st_nameOffset raw) = fname f)
                           /\ fname f <> EmptyString
                           /\ st_value raw = foffset f
                           /\ faddress f = resolvedAddress loadBias (foffset f))
                        functions).
  { unfold tryBlock in Htry.
    destruct (Uint8Array (view parsed) (offset symtabSection) (size symtabSection))
      as [symtabData|]; [|discriminate].
    destruct (Uint8Array (view parsed) (offset strtabSection) (size strtabSection))
      as [strtabData|] eqn:Hstr; [|discriminate].
    apply pushLoop_completed in Htry as (pushed & -> & Hall). simpl.
    eapply Forall_impl; [exact Hall|].
    intros f (i & Hi & Hf).
    apply symbolEntry_pushes in Hf as (raw & Hraw & Hty & Hname & Hn & Hval & Haddr).
    exists i, raw. apply in_indices in Hi. eauto 12. }
  split; [split|].
  - eapply Permutation_Forall; [exact Hperm|].
    eapply Forall_impl; [exact Hall|].
    intros f (i & raw & Hi & Hraw & Hty & (strtabData & Hstr & Hname) & _ & Hval & Haddr).
    split; [|assumption].
    unfold isFunctionTypeSymbol. rewrite Hstr. apply existsb_exists.
    exists i. split; [now apply in_indices|]. rewrite Hraw, Hty, Hname, Hval.
    rewrite String.eqb_refl, !Z.eqb_refl. reflexivity.
  - apply sortByAddress_sorted.
  - eapply Permutation_Forall; [exact Hperm|].
    eapply Forall_impl; [exact Hall|].
    intros f (i & raw & Hi & Hraw & _ & _ & Hn & Hval & Haddr).
    pose proof (Hexact i raw Hi Hraw) as Hv. rewrite Hval in Hv.
    split; [assumption|]. split; [assumption|].
    rewrite Haddr. unfold resolvedAddress, exactNumber in *.
    destruct (Z.ltb_spec (foffset f) 4096); lia.
Qed.

End Resolver.

Lemma symbol_table_path_contract_witness :
  exists symtabSection strtabSection,
    List.map fname (@extractFunctionSymbols Sim.disassembler callObject OBJECT_BASE)
    = ["add"; "main"]
    /\ resolverContract callObject symtabSection strtabSection OBJECT_BASE
                        (@extractFunctionSymbols Sim.disassembler callObject OBJECT_BASE)
    /\ Forall (fun f => fname f <> EmptyString
                        /\ exactNumber (foffset f) /\ exactNumber (faddress f))
              (@extractFunctionSymbols Sim.disassembler callObject OBJECT_BASE).
Proof.
  eexists _, _. split; [reflexivity|].
  refine (proj2 (proj2 (@symbol_table_path_contract Sim.disassembler callObject OBJECT_BASE
            _ _ _ _ _ _ _ _))).
  - reflexivity.
  - vm_compute. discriminate.
  - vm_compute. reflexivity.
  - discriminate.
  - split; [|split].
    + unfold exactNumber. vm_compute. split; [discriminate | reflexivity].
    + unfold exactNumber. vm_compute. split; [discriminate | reflexivity].
    + intros i raw Hi Hraw. change (loopCount _ _) with 3 in Hi.
      assert (Hcase : i = 0 \/ i = 1 \/ i = 2) by lia.
      destruct Hcase as [-> | [-> | ->]]; vm_compute in Hraw; injection Hraw as <-;
        unfold exactNumber; vm_compute; split; (discriminate || reflexivity).
Defined.

(** C5 at its failing input: an object with no symbol table whose text
    starts with [push rbp; mov rbp, rsp].  The detector, run on it, finds
    the boundary; the resolver returns before it calls the detector. *)
Lemma missing_table_skips_detector :
  pickTables (sectionHeaders strippedObject) = (None, None)
  /\ @detectFunctionsFromAssembly Sim.disassembler strippedObject OBJECT_BASE
     = [ {| fname := "func_1"; faddress := OBJECT_BASE; foffset := 0 |} ]
  /\ @extractFunctionSymbols Sim.disassembler strippedObject OBJECT_BASE = [].
Proof. repeat split; reflexivity. Qed.

End ResolverClaims.

(* ------------------------------------------------------------------ *)
(** ** Image builder: sections and stack                                *)
(* ------------------------------------------------------------------ *)

Module BuilderFacts.

Lemma ceilTo_bounds a b : 0 < b -> a <= ceilTo a b < a + b.
Proof.
  intros Hb. unfold ceilTo.
  pose proof (Z.div_mod (a + b - 1) b ltac:(lia)) as Hdm.
  pose proof (Z.mod_pos_bound (a + b - 1) b Hb) as Hm. nia.
Qed.

Lemma floorTo_bounds a b : 0 < b -> a - b < floorTo a b <= a.
Proof.
  intros Hb. unfold floorTo.
  pose proof (Z.div_mod a b ltac:(lia)) as Hdm.
  pose proof (Z.mod_pos_bound a b Hb) as Hm. nia.
Qed.

Lemma floorTo_ceilTo a b : 0 < b -> floorTo (ceilTo a b) b = ceilTo a b.
Proof.
  intros Hb. unfold floorTo, ceilTo. rewrite Z.div_mul by lia. reflexivity.
Qed.

Lemma ceilTo_page_of_positive n : 0 < n -> Z.max PAGE (ceilTo n PAGE) = ceilTo n PAGE.
Proof.
  intros Hn. apply Z.max_r. unfold ceilTo, PAGE.
  pose proof (Z.div_mod (n + 4096 - 1) 4096 ltac:(lia)) as Hdm.
  pose proof (Z.mod_pos_bound (n + 4096 - 1) 4096 ltac:(lia)) as Hm.
  assert (0 < (n + 4096 - 1) / 4096) by (apply Z.div_str_pos; lia). lia.
Qed.

Lemma allocated_size sh : allocated sh = true -> 0 < size sh.
Proof. unfold allocated. intros H. apply andb_prop in H as [_ H]. lia. Qed.

Lemma fold_left_invariant {S X} (P : S -> Prop) (f : S -> X -> S) (l : list X) (s : S) :
  P s -> (forall s x, In x l -> P s -> P (f s x)) -> P (fold_left f l s).
Proof.
  revert s. induction l as [|x r IH]; intros s Hs Hstep; simpl; [assumption|].
  apply IH; [apply Hstep; [now left | assumption]|].
  intros s' y Hy. apply Hstep. now right.
Qed.

Lemma highestSectionEnd_ge sh start :
  start <= highestSectionEnd sh start
  /\ forall s, In s sh -> allocated s = true -> 0 < addr s ->
               addr s + size s <= highestSectionEnd sh start.
Proof.
  unfold highestSectionEnd. revert start.
  induction sh as [|s0 r IH]; intros start; simpl; [split; [lia | tauto]|].
  set (next := if allocated s0 && (0 <? addr s0)
               then if start <? addr s0 + size s0 then addr s0 + size s0 else start
               else start).
  assert (Hn : start <= next).
  { subst next. destruct (allocated s0 && (0 <? addr s0)); [|lia].
    destruct (Z.ltb_spec start (addr s0 + size s0)); lia. }
  destruct (IH next) as [Hge Hall]. split; [lia|].
  intros s [<- | Hin] Ha Hp; [|now apply Hall].
  assert (addr s0 + size s0 <= next); [|lia].
  subst next. rewrite Ha. destruct (Z.ltb_spec 0 (addr s0)) as [_|?]; [|lia]. simpl.
  destruct (Z.ltb_spec start (addr s0 + size s0)); lia.
Qed.

Lemma highestSegmentEnd_ge ph start :
  start <= highestSegmentEnd ph start
  /\ forall p, In p ph -> p_type p = 1 -> 0 < p_memsz p ->
               p_vaddr p + p_memsz p <= highestSegmentEnd ph start.
Proof.
  unfold highestSegmentEnd. revert start.
  induction ph as [|p0 r IH]; intros start; simpl; [split; [lia | tauto]|].
  set (next := if (p_type p0 =? 1) && (0 <? p_memsz p0)
               then if start <? p_vaddr p0 + p_memsz p0 then p_vaddr p0 + p_memsz p0 else start
               else start).
  assert (Hn : start <= next).
  { subst next. destruct ((p_type p0 =? 1) && (0 <? p_memsz p0)); [|lia].
    destruct (Z.ltb_spec start (p_vaddr p0 + p_memsz p0)); lia. }
  destruct (IH next) as [Hge Hall]. split; [lia|].
  intros p [<- | Hin] Ht Hp; [|now apply Hall].
  assert (p_vaddr p0 + p_memsz p0 <= next); [|lia].
  subst next. rewrite Ht. destruct (Z.ltb_spec 0 (p_memsz p0)) as [_|?]; [|lia]. simpl.
  destruct (Z.ltb_spec start (p_vaddr p0 + p_memsz p0)); lia.
Qed.

Section WithEngine.
Context {E : Type} {EN : Engine E}.

(** What one section adds to the set of mapped regions and does to the
    cursor. *)
Lemma mapSection_shape buffer isObject (st : MapState) sh :
  (allocated sh = false -> mapSection buffer isObject st sh = st)
  /\ (allocated sh = true ->
      baseAddr (mapSection buffer isObject st sh) = snd (targetOf isObject (baseAddr st) sh)
      /\ forall region, region ∈ mappedRegions (mapSection buffer isObject st sh) ->
           region ∈ mappedRegions st
           \/ (region = alignedRegion (fst (targetOf isObject (baseAddr st) sh)) sh
               /\ fst (targetOf isObject (baseAddr st) sh) <> 0)).
Proof.
  unfold mapSection. destruct (allocated sh); split; try discriminate; try reflexivity.
  intros _. destruct (targetOf isObject (baseAddr st) sh) as [targetAddr base1]. simpl.
  destruct (Z.eqb_spec targetAddr 0) as [|Hnz]; [simpl; auto|].
  destruct (decide (alignedRegion targetAddr sh ∈ mappedRegions st)); [simpl; auto|].
  destruct (mem_map (ms_engine st) _ _ _) as [e1|]; [|simpl; auto].
  assert (Hreg : forall region : Z * Z,
             region ∈ ({[alignedRegion targetAddr sh]} ∪ mappedRegions st : gset (Z * Z)) ->
             region ∈ mappedRegions st \/ (region = alignedRegion targetAddr sh /\ targetAddr <> 0)).
  { intros region Hin. apply elem_of_union in Hin as [Hin|Hin]; [|now left].
    apply elem_of_singleton in Hin. right. auto. }
  destruct ((0 <? size sh) && (0 <? offset sh)); [|simpl; auto].
  destruct (Uint8Array buffer (offset sh) (size sh)) as [bytes|]; [|simpl; auto].
  step_bind. destruct (mem_write e1 targetAddr bytes); simpl; auto.
Qed.

(** Executables: every mapped region is the aligned region of an allocated
    section at its own, non-zero address. *)
Lemma mapSections_executable buffer (engine0 : E) sh region :
  region ∈ mappedRegions (mapSections buffer false engine0 sh) ->
  exists s, In s sh /\ allocated s = true /\ addr s <> 0
            /\ region = alignedRegion (addr s) s.
Proof.
  unfold mapSections. revert region.
  apply (fold_left_invariant
           (fun st => forall region, region ∈ mappedRegions st ->
              exists s, In s sh /\ allocated s = true /\ addr s <> 0
                        /\ region = alignedRegion (addr s) s)).
  - simpl. intros region Hin. now apply elem_of_empty in Hin.
  - intros st s Hs IH region Hin.
    destruct (mapSection_shape buffer false st s) as [Hno Hyes].
    destruct (allocated s) eqn:Ha.
    + destruct (Hyes eq_refl) as [_ Hreg].
      destruct (Hreg region Hin) as [Hold | [-> Hnz]]; [now apply IH|].
      exists s. simpl in *. auto.
    + rewrite (Hno eq_refl) in Hin. now apply IH.
Qed.

(** Objects whose mapped sections all carry address 0: every mapped region
    ends at or below the cursor. *)
Lemma mapSections_object buffer (engine0 : E) sh region :
  allAtZero sh ->
  region ∈ mappedRegions (mapSections buffer true engine0 sh) ->
  fst region + snd region <= baseAddr (mapSections buffer true engine0 sh).
Proof.
  intros Hzero. unfold mapSections. revert region.
  apply (fold_left_invariant
           (fun st => forall region, region ∈ mappedRegions st ->
                                     fst region + snd region <= baseAddr st)).
  - simpl. intros region Hin. now apply elem_of_empty in Hin.
  - intros st s Hs IH region Hin.
    destruct (mapSection_shape buffer true st s) as [Hno Hyes].
    destruct (allocated s) eqn:Ha.
    + destruct (Hyes eq_refl) as [Hbase Hreg]. rewrite Hbase.
      unfold allAtZero in Hzero. rewrite Forall_forall in Hzero.
      assert (Hz : addr s = 0) by (apply Hzero; [now apply list_elem_of_In | assumption]).
      unfold targetOf in *. rewrite Hz in *. simpl in *.
      pose proof (ceilTo_bounds (baseAddr st) PAGE ltac:(unfold PAGE; lia)) as Hc.
      pose proof (ceilTo_bounds (size s) PAGE ltac:(unfold PAGE; lia)) as Hsz.
      pose proof (allocated_size s Ha) as Hpos.
      destruct (Hreg region Hin) as [Hold | [-> _]].
      * specialize (IH region Hold). lia.
      * unfold alignedRegion. simpl.
        rewrite floorTo_ceilTo by (unfold PAGE; lia).
        rewrite ceilTo_page_of_positive by assumption. lia.
    + rewrite (Hno eq_refl) in *. now apply IH.
Qed.

End WithEngine.

End BuilderFacts.

(* ------------------------------------------------------------------ *)
(** ** The handler taken apart                                          *)
(* ------------------------------------------------------------------ *)

Module LaunchFacts.


Section WithEngine.
Context {E : Type} {EN : Engine E}.

Lemma installTrampoline_exit (e e' : E) is64bit STACK_ADDR exitAddr :
  installTrampoline e is64bit STACK_ADDR = Ok (e', exitAddr) ->
  exitAddr = STACK_ADDR + STACK_SIZE + 0x1000.
Proof.
  unfold installTrampoline. cbv zeta.
  repeat match goal with
         | |- context [match ?x with _ => _ end] => destruct x; step_bind; try discriminate
         | |- context [mbind _ ?x] => destruct x; step_bind; try discriminate
         end; now intros [= _ <-].
Qed.

(** A launch that ends with a debugger, taken apart. *)
Lemma launch_launched page parsed isObject mainAddr STACK_ADDR sections (e2 : E)
      entryPoint functionMap p d exitAddr STACK_ADDR' sections' :
  launch page parsed isObject mainAddr STACK_ADDR sections e2 entryPoint functionMap
  = Ok (Launched p d exitAddr STACK_ADDR' sections') ->
  STACK_ADDR' = STACK_ADDR /\ sections' = sections /\ entryPoint <> 0
  /\ exists e3,
      processRelocations parsed (findSection (sectionHeaders parsed) ".symtab")
                         (findSection (sectionHeaders parsed) ".strtab") (is64 parsed)
                         (default 0 (sections !! ".text")) functionMap e2 = Ok e3
      /\ ((isObject && mainFound mainAddr = true
           /\ exitAddr = Some (STACK_ADDR + STACK_SIZE + 0x1000)
           /\ exists e4,
               installTrampoline e3 (is64 parsed) STACK_ADDR
               = Ok (e4, STACK_ADDR + STACK_SIZE + 0x1000)
               /\ d = snd (addBreakpoint page (constructor e4 (is64 parsed) entryPoint)
                                         (STACK_ADDR + STACK_SIZE + 0x1000))
               /\ console p
                  = console page ++ [BreakpointAdded (STACK_ADDR + STACK_SIZE + 0x1000)])
          \/ (isObject && mainFound mainAddr = false
              /\ exitAddr = None /\ console p = console page
              /\ d = constructor e3 (is64 parsed) entryPoint)).
Proof.
  unfold launch. cbv zeta.
  destruct (Z.eqb_spec entryPoint 0) as [|Hnz]; [discriminate|].
  destruct (processRelocations _ _ _ _ _ _ _) as [e3|]; step_bind; [|discriminate].
  destruct (isObject && mainFound mainAddr) eqn:Hcond.
  - destruct (installTrampoline e3 (is64 parsed) STACK_ADDR) as [[e4 x]|] eqn:Hinst;
      step_bind; [|discriminate].
    pose proof (installTrampoline_exit _ _ _ _ _ Hinst) as ->.
    cbn [addBreakpoint]. intros [= <- <- <- <- <-].
    repeat split; try assumption. exists e3. split; [reflexivity|]. left.
    repeat split. exists e4. split; [assumption|]. split; [reflexivity|].
    simpl. now destruct (isPerformanceModeActive page).
  - step_bind. intros [= <- <- <- <- <-].
    repeat split; try assumption. exists e3. split; [reflexivity|]. right.
    repeat split. now destruct (isPerformanceModeActive page).
Qed.

(** A run of the handler that ends with a debugger has mapped the stack:
    64 KiB at the address [stackAddress] gives. *)
Lemma runUnicorn_launched_stack page (parsed : Parsed) (engine0 : E)
      p d exitAddr STACK_ADDR sections :
  runUnicorn page (Some parsed) engine0 = Ok (Launched p d exitAddr STACK_ADDR sections) ->
  let sh := sectionHeaders parsed in
  let st := mapSections (view parsed) (isObjectFile sh) engine0 sh in
  STACK_ADDR = stackAddress (isObjectFile sh) (baseAddr st) sh (programHeaders parsed)
  /\ sections = sectionAddresses st
  /\ exists e1, mem_map (ms_engine st) STACK_ADDR STACK_SIZE PROT_ALL = Ok e1.
Proof.
  intros Hrun sh st. subst sh st. unfold runUnicorn in Hrun. cbv zeta in Hrun.
  destruct (mapStack _ _ _) as [e2|] eqn:Hstack; [|discriminate].
  cbn [mbind result_bind JS.bind] in Hrun.
  unfold mapStack in Hstack.
  destruct (mem_map _ _ STACK_SIZE PROT_ALL) as [e1|] eqn:Hmap; [|discriminate].
  assert (Hl : forall mainAddr e entryPoint functionMap,
             launch page parsed (isObjectFile (sectionHeaders parsed)) mainAddr
                    (stackAddress (isObjectFile (sectionHeaders parsed))
                       (baseAddr (mapSections (view parsed) (isObjectFile (sectionHeaders parsed))
                                              engine0 (sectionHeaders parsed)))
                       (sectionHeaders parsed) (programHeaders parsed))
                    (sectionAddresses (mapSections (view parsed)
                                         (isObjectFile (sectionHeaders parsed))
                                         engine0 (sectionHeaders parsed)))
                    e entryPoint functionMap
             = Ok (Launched p d exitAddr STACK_ADDR sections) ->
             STACK_ADDR = stackAddress (isObjectFile (sectionHeaders parsed))
                            (baseAddr (mapSections (view parsed)
                                         (isObjectFile (sectionHeaders parsed))
                                         engine0 (sectionHeaders parsed)))
                            (sectionHeaders parsed) (programHeaders parsed)
             /\ sections = sectionAddresses (mapSections (view parsed)
                                               (isObjectFile (sectionHeaders parsed))
                                               engine0 (sectionHeaders parsed))).
  { intros mainAddr e entryPoint functionMap H.
    apply launch_launched in H as (-> & -> & _). split; reflexivity. }
  destruct (isObjectFile (sectionHeaders parsed)) eqn:Hobj.
  - destruct (findMain _ _ _ _) as [mainAddr|]; [|discriminate].
    cbn [mbind result_bind JS.bind] in Hrun.
    destruct (collectFunctions _ _ _ _) as [found|]; [|discriminate].
    cbn [mbind result_bind JS.bind] in Hrun.
    destruct (sectionAddresses _ !! ".text") as [t|];
      [|destruct (mainFound mainAddr); discriminate].
    destruct (negb (mainFound mainAddr) && (t =? 0)); [discriminate|].
    destruct (Hl _ _ _ _ Hrun) as [-> ->]. eauto.
  - cbn [mbind result_bind JS.bind] in Hrun.
    destruct (Hl _ _ _ _ Hrun) as [-> ->]. eauto.
Qed.

End WithEngine.

End LaunchFacts.

(* ------------------------------------------------------------------ *)
(** ** Image builder: the stack                                         *)
(* ------------------------------------------------------------------ *)

Module BuilderClaims.
Import BuilderFacts LaunchFacts.

(** C6, as stated, fails on an artifact that mixes a section at address 0
    with a section that carries an address: the first makes it an object
    file, so the stack goes 1 MiB above the cursor, which is where the
    second has been mapped. *)
Lemma stack_lands_on_addressed_section :
  let sh := sectionHeaders mixedObject in
  let st := @mapSections _ Sim.engine (view mixedObject) (isObjectFile sh) Sim.fresh sh in
  let STACK_ADDR := stackAddress (isObjectFile sh) (baseAddr st) sh (programHeaders mixedObject) in
  isObjectFile sh = true
  /\ STACK_ADDR = 0x10101000
  /\ (0x10101000, 0x1000) ∈ mappedRegions st
  /\ rangesOverlap (0x10101000, 0x1000) (STACK_ADDR, STACK_SIZE)
  /\ ~ stackAbove STACK_ADDR (0x10101000 + 0x1000)
  /\ @runUnicorn _ Sim.engine blankPage (Some mixedObject) Sim.fresh
     = Throw (Error "Invalid memory mapping (UC_ERR_MAP)").
Proof.
  cbv zeta. split; [reflexivity|]. split; [reflexivity|]. split.
  { apply (bool_decide_unpack _). vm_compute. exact I. }
  split; [vm_compute; split; reflexivity|].
  split; [vm_compute; discriminate | reflexivity].
Qed.

Section WithEngine.
Context {E : Type} {EN : Engine E}.

(** C6 (amended).  The stack region is 64 KiB at [STACK_ADDR].  For an
    executable (no allocated section at address 0) [STACK_ADDR] is the page
    at or above 1 MiB past the highest end of the allocated sections and of
    the non-empty [PT_LOAD] segments, hence strictly above each of these
    ends and above every mapped region.  For an object file all of whose
    mapped sections carry address 0, [STACK_ADDR] is 1 MiB above the base
    cursor, and every mapped region ends at or below the cursor.  In both
    cases the stack region overlaps no mapped section region, and a run of
    the handler that ends with a debugger has mapped 64 KiB at
    [STACK_ADDR]. *)
Theorem stack_clear_of_mapped_sections (parsed : Parsed) (engine0 : E) :
  let sh := sectionHeaders parsed in
  let st := mapSections (view parsed) (isObjectFile sh) engine0 sh in
  let STACK_ADDR := stackAddress (isObjectFile sh) (baseAddr st) sh (programHeaders parsed) in
  unsignedSections sh ->
  (isObjectFile sh = true -> allAtZero sh) ->
  STACK_SIZE = 64 * 1024
  /\ (forall region, region ∈ mappedRegions st ->
        stackAbove STACK_ADDR (fst region + snd region)
        /\ ~ rangesOverlap region (STACK_ADDR, STACK_SIZE))
  /\ (isObjectFile sh = false ->
        (forall s, In s sh -> allocated s = true ->
                   stackAbove STACK_ADDR (addr s + size s))
        /\ (forall ph, In ph (programHeaders parsed) -> p_type ph = 1 -> 0 < p_memsz ph ->
                       stackAbove STACK_ADDR (p_vaddr ph + p_memsz ph)))
  /\ (isObjectFile sh = true -> STACK_ADDR = baseAddr st + 0x100000)
  /\ (forall page p d exitAddr S sections,
        runUnicorn page (Some parsed) engine0 = Ok (Launched p d exitAddr S sections) ->
        S = STACK_ADDR
        /\ exists e1, mem_map (ms_engine st) STACK_ADDR STACK_SIZE PROT_ALL = Ok e1).
Proof.
  intros sh st STACK_ADDR Huns Hobj. split; [reflexivity|].
  assert (Hpage : 0 < PAGE) by (unfold PAGE; lia).
  assert (Hexe : isObjectFile sh = false ->
                 forall s, In s sh -> allocated s = true ->
                           0 < addr s /\ addr s + size s + 0x100000 <= STACK_ADDR).
  { intros Hno s Hs Ha.
    assert (Hnz : addr s <> 0).
    { intros Hz. unfold isObjectFile in Hno.
      assert (Hex : existsb (fun sh0 => allocated sh0 && (addr sh0 =? 0)) sh = true).
      { apply existsb_exists. exists s. split; [assumption|]. rewrite Ha, Hz. reflexivity. }
      congruence. }
    unfold unsignedSections in Huns. rewrite Forall_forall in Huns.
    destruct (Huns s) as [Hge _]; [now apply list_elem_of_In|].
    split; [lia|].
    subst STACK_ADDR. unfold stackAddress. rewrite Hno.
    destruct (highestSectionEnd_ge sh 0) as [_ Hsec].
    destruct (highestSegmentEnd_ge (programHeaders parsed) (highestSectionEnd sh 0)) as [Hseg _].
    specialize (Hsec s Hs Ha ltac:(lia)).
    pose proof (ceilTo_bounds
                  (highestSegmentEnd (programHeaders parsed) (highestSectionEnd sh 0) + 0x100000)
                  PAGE Hpage). lia. }
  split; [|split].
  - intros region Hin.
    assert (Hend : fst region + snd region < STACK_ADDR).
    { destruct (isObjectFile sh) eqn:Hkind.
      - pose proof (mapSections_object (view parsed) engine0 sh region (Hobj eq_refl) Hin) as Hle.
        subst STACK_ADDR st. unfold stackAddress. lia.
      - apply mapSections_executable in Hin as (s & Hs & Ha & Hnz & ->).
        destruct (Hexe eq_refl s Hs Ha) as [Hpos Hle].
        pose proof (allocated_size s Ha) as Hsz.
        unfold alignedRegion. simpl. rewrite ceilTo_page_of_positive by assumption.
        pose proof (floorTo_bounds (addr s) PAGE Hpage).
        pose proof (ceilTo_bounds (size s) PAGE Hpage). unfold PAGE in *. lia. }
    split; [exact Hend|]. unfold rangesOverlap. simpl. lia.
  - intros Hno. split.
    + intros s Hs Ha. destruct (Hexe Hno s Hs Ha). unfold stackAbove. lia.
    + intros ph Hph Ht Hm. unfold stackAbove. subst STACK_ADDR. unfold stackAddress.
      rewrite Hno.
      destruct (highestSegmentEnd_ge (programHeaders parsed) (highestSectionEnd sh 0)) as [_ Hseg].
      specialize (Hseg ph Hph Ht Hm).
      pose proof (ceilTo_bounds
                    (highestSegmentEnd (programHeaders parsed) (highestSectionEnd sh 0) + 0x100000)
                    PAGE Hpage). lia.
  - split.
    + intros Hyes. subst STACK_ADDR. unfold stackAddress. rewrite Hyes. reflexivity.
    + intros page p d exitAddr S sections Hrun.
      apply runUnicorn_launched_stack in Hrun as (-> & _ & Hmap). split; [reflexivity | exact Hmap].
Qed.

End WithEngine.

Lemma stack_clear_of_mapped_sections_witness :
  (forall region,
      region ∈ mappedRegions (@mapSections _ Sim.engine (view executable) false Sim.fresh
                                (sectionHeaders executable)) ->
      stackAbove 0x502000 (fst region + snd region)
      /\ ~ rangesOverlap region (0x502000, STACK_SIZE))
  /\ (forall region,
      region ∈ mappedRegions (@mapSections _ Sim.engine (view callObject) true Sim.fresh
                                (sectionHeaders callObject)) ->
      stackAbove 0x10101000 (fst region + snd region)
      /\ ~ rangesOverlap region (0x10101000, STACK_SIZE)).
Proof.
  split.
  - refine (proj1 (proj2 (@stack_clear_of_mapped_sections _ Sim.engine executable Sim.fresh _ _))).
    + repeat constructor; simpl; lia.
    + intros H. vm_compute in H. discriminate.
  - refine (proj1 (proj2 (@stack_clear_of_mapped_sections _ Sim.engine callObject Sim.fresh _ _))).
    + repeat constructor; simpl; lia.
    + intros _. repeat constructor; simpl; intros; reflexivity.
Defined.

End BuilderClaims.

(* ------------------------------------------------------------------ *)
(** ** Relocation resolver                                              *)
(* ------------------------------------------------------------------ *)

Module RelocationFacts.

Lemma le32_littleEndian32 v : le32 v = littleEndian32 v.
Proof.
  unfold le32, littleEndian32. cbv zeta.
  set (q := v / 4294967296).
  assert (Hw : v mod 4294967296 = v + (- q) * 4294967296).
  { subst q. pose proof (Z.div_mod v 4294967296 ltac:(lia)). lia. }
  rewrite Hw.
  replace ((v + - q * 4294967296) mod 256) with (v mod 256)
    by (replace (- q * 4294967296) with ((- q * 16777216) * 256) by lia;
        now rewrite Z.mod_add by lia).
  replace ((v + - q * 4294967296) / 256) with (v / 256 + (- q * 65536) * 256)
    by (replace (- q * 4294967296) with ((- q * 16777216) * 256) by lia;
        rewrite Z.div_add by lia; lia).
  replace ((v + - q * 4294967296) / 65536) with (v / 65536 + (- q * 256) * 256)
    by (replace (- q * 4294967296) with ((- q * 65536) * 65536) by lia;
        rewrite Z.div_add by lia; lia).
  replace ((v + - q * 4294967296) / 16777216) with (v / 16777216 + (- q) * 256)
    by (replace (- q * 4294967296) with ((- q * 256) * 16777216) by lia;
        rewrite Z.div_add by lia; lia).
  rewrite !Z.mod_add by lia. reflexivity.
Qed.

Lemma decodeUint32_littleEndian32 v :
  decodeUint32 (littleEndian32 v) = v mod 4294967296.
Proof.
  unfold decodeUint32, littleEndian32.
  pose proof (Z.div_mod v 256 ltac:(lia)) as H0.
  pose proof (Z.div_mod (v / 256) 256 ltac:(lia)) as H1.
  pose proof (Z.div_mod (v / 65536) 256 ltac:(lia)) as H2.
  pose proof (Z.div_mod (v / 16777216) 256 ltac:(lia)) as H3.
  replace (v / 256 / 256) with (v / 65536) in H1 by (rewrite Z.div_div by lia; reflexivity).
  replace (v / 65536 / 256) with (v / 16777216) in H2 by (rewrite Z.div_div by lia; reflexivity).
  replace (v / 16777216 / 256) with (v / 4294967296) in H3
    by (rewrite Z.div_div by lia; reflexivity).
  pose proof (Z.mod_pos_bound v 256 ltac:(lia)).
  pose proof (Z.mod_pos_bound (v / 256) 256 ltac:(lia)).
  pose proof (Z.mod_pos_bound (v / 65536) 256 ltac:(lia)).
  pose proof (Z.mod_pos_bound (v / 16777216) 256 ltac:(lia)).
  apply Z.mod_unique_pos with (q := v / 4294967296); lia.
Qed.

Lemma decodeInt32_littleEndian32 v : decodeInt32 (littleEndian32 v) = toInt32 v.
Proof. unfold decodeInt32, toInt32. now rewrite decodeUint32_littleEndian32. Qed.

Lemma toInt32_in_range v : -2147483648 <= v < 2147483648 -> toInt32 v = v.
Proof.
  intros Hv. unfold toInt32. cbv zeta.
  destruct (Z_lt_le_dec v 0) as [Hneg|Hpos].
  - replace (v mod 4294967296) with (v + 4294967296)
      by (apply Z.mod_unique_pos with (q := -1); lia).
    destruct (Z.ltb_spec (v + 4294967296) 2147483648); lia.
  - rewrite Z.mod_small by lia. destruct (Z.ltb_spec v 2147483648); lia.
Qed.

End RelocationFacts.

Module RelocationPassFacts.
Import ReadFacts RelocationFacts Tables.

Lemma mapM_pairs {A B} (f : A -> result B) l ys :
  mapM f l = Ok ys -> Forall2 (fun x y => f x = Ok y) l ys.
Proof.
  revert ys. induction l as [|x r IH]; intros ys; simpl.
  - intros [= <-]. constructor.
  - destruct (f x) as [y|] eqn:Hy; simpl; [|discriminate].
    destruct (mapM f r) as [ys'|]; simpl; [|discriminate].
    intros [= <-]. constructor; [assumption | now apply IH].
Qed.

Lemma indices_lookup_lt n i : (i < Z.to_nat n)%nat -> indices n !! i = Some (Z.of_nat i).
Proof.
  intros Hi. unfold indices. rewrite list_lookup_fmap, lookup_seq_lt by exact Hi.
  reflexivity.
Qed.

Lemma indices_length n : length (indices n) = Z.to_nat n.
Proof. unfold indices. now rewrite length_map, length_seq. Qed.

Lemma loopCount_nonneg size entry : 0 < size -> 0 < entry -> 0 <= loopCount size entry.
Proof. intros Hs He. unfold loopCount. apply Z.div_pos; lia. Qed.

Section WithEngine.
Context {E : Type} {EN : Engine E}.

(** The body of the loop does to the image what the rule prescribes. *)
Lemma applyRelocation_prescribed (e : E) textAddr (functionMap : gmap string Z) symbolName r :
  functionMap !! EmptyString = None ->
  applyRelocation e textAddr functionMap symbolName r
  = patched e (prescribedPatch textAddr functionMap (r, symbolName)).
Proof.
  intros Hempty. unfold applyRelocation, prescribedPatch, patched. cbn [fst snd].
  destruct (String.eqb_spec symbolName EmptyString) as [->|_].
  { rewrite Hempty. reflexivity. }
  destruct (functionMap !! symbolName) as [targetAddr|]; [|reflexivity]. cbv zeta.
  unfold patchBytes, setInt32, setUint32. rewrite !le32_littleEndian32.
  destruct (relocType r =? 4); [reflexivity|].
  destruct (relocType r =? 2); [reflexivity|].
  destruct (relocType r =? 10); reflexivity.
Qed.

(** The loop applies the prescribed patches in table order. *)
Lemma relocationLoop_table buffer (rela : SectionHeader) symtabSection strtabSection is64bit
      textAddr (functionMap : gmap string Z) idxs entries (e : E) :
  functionMap !! EmptyString = None ->
  mapM (fun i =>
          r ← readRelocation buffer (offset rela) is64bit i;
          symbolName ← relocationSymbolName buffer symtabSection strtabSection is64bit
                                           (symbolIndex r);
          Ok (r, symbolName)) idxs = Ok entries ->
  relocationLoop buffer (offset rela) symtabSection strtabSection is64bit textAddr
                 functionMap idxs e
  = Ok (fold_left (fun image entry => patched image (prescribedPatch textAddr functionMap entry))
                  entries e).
Proof.
  intros Hempty. revert entries e.
  induction idxs as [|i rest IH]; intros entries e; simpl.
  - intros [= <-]. reflexivity.
  - destruct (readRelocation buffer (offset rela) is64bit i) as [r|]; step_bind;
      [|discriminate].
    destruct (relocationSymbolName buffer symtabSection strtabSection is64bit (symbolIndex r))
      as [symbolName|]; step_bind; [|discriminate].
    destruct (mapM _ rest) as [entries'|] eqn:Hrest; simpl; [|discriminate].
    intros [= <-]. simpl.
    rewrite (IH entries' _ eq_refl), applyRelocation_prescribed by exact Hempty.
    reflexivity.
Qed.

End WithEngine.

End RelocationPassFacts.

Module RelocationClaims.
Import ReadFacts RelocationFacts RelocationPassFacts Props Tables.

Section WithEngine.
Context {E : Type} {EN : Engine E}.

(** C1.  The relocation pass, run on a [.rela.text] table all of whose
    entries can be read (with values in the range where Numbers are exact),
    applies to the image, entry after entry in table order, the patch the
    rule prescribes.  The entries are those of the table, each with the name
    of the symbol its info word selects.  For an entry whose name is in the
    function-address table, with [patchAddress = textAddr + offset]: types
    4 and 2 write at [patchAddress] four bytes that read back, as a signed
    little-endian word, as [targetAddress - (patchAddress + 4)] (the value
    itself when it fits 32 bits); type 10 writes four bytes that read back,
    unsigned, as [targetAddress]; any other type, and an entry whose name is
    not in the table, write nothing.  A write the engine refuses is caught
    and leaves the image as it was. *)
Theorem relocation_pass_patches_table (parsed : Parsed) (rela : SectionHeader)
        (symtabSection strtabSection : option SectionHeader) (is64bit : bool)
        (textAddr : Z) (functionMap : gmap string Z)
        (entries : list (RelocationEntry * string)) (e : E) :
  findSection (sectionHeaders parsed) ".rela.text" = Some rela ->
  0 < size rela ->
  inBuffer (view parsed) (offset rela) (size rela) ->
  functionMap <> ∅ ->
  functionMap !! EmptyString = None ->
  relocationTable (view parsed) rela symtabSection strtabSection is64bit = Ok entries ->
  exactPatches textAddr functionMap entries ->
  processRelocations parsed symtabSection strtabSection is64bit textAddr functionMap e
  = Ok (fold_left (fun image entry => patched image (prescribedPatch textAddr functionMap entry))
                  entries e)
  /\ Z.of_nat (length entries) = loopCount (size rela) (relaSize is64bit)
  /\ (forall i r symbolName,
        entries !! i = Some (r, symbolName) ->
        readRelocation (view parsed) (offset rela) is64bit (Z.of_nat i) = Ok r
        /\ relocationSymbolName (view parsed) symtabSection strtabSection is64bit
                                (symbolIndex r) = Ok symbolName)
  /\ (forall i r symbolName,
        entries !! i = Some (r, symbolName) ->
        let patchAddress := textAddr + r_offset r in
        match functionMap !! symbolName with
        | Some targetAddress =>
            let relativeAddr := targetAddress - (patchAddress + 4) in
            (relocType r = 4 \/ relocType r = 2 ->
               exists bytes,
                 prescribedPatch textAddr functionMap (r, symbolName)
                 = Some (patchAddress, bytes)
                 /\ length bytes = 4%nat
                 /\ decodeInt32 bytes = toInt32 relativeAddr
                 /\ (-2147483648 <= relativeAddr < 2147483648 ->
                     decodeInt32 bytes = relativeAddr))
            /\ (relocType r = 10 ->
                exists bytes,
                  prescribedPatch textAddr functionMap (r, symbolName)
                  = Some (patchAddress, bytes)
                  /\ length bytes = 4%nat
                  /\ decodeUint32 bytes = targetAddress mod 4294967296
                  /\ (targetAddress < 4294967296 -> decodeUint32 bytes = targetAddress))
            /\ (relocType r <> 4 -> relocType r <> 2 -> relocType r <> 10 ->
                prescribedPatch textAddr functionMap (r, symbolName) = None)
        | None => prescribedPatch textAddr functionMap (r, symbolName) = None
        end).
Proof.
  intros Hrela Hsize [Hlo Hhi] Hmap Hempty Htable (_ & Htargets & _).
  split; [|split; [|split]].
  - unfold processRelocations. rewrite Hrela.
    destruct (Z.ltb_spec 0 (size rela)) as [_|]; [|lia].
    rewrite bool_decide_eq_false_2 by exact Hmap. simpl.
    unfold Uint8Array.
    destruct (Z.ltb_spec (offset rela) 0) as [|_]; [lia|].
    destruct (Z.ltb_spec (size rela) 0) as [|_]; [lia|].
    destruct (Z.ltb_spec (Z.of_nat (length (view parsed))) (offset rela + size rela))
      as [|_]; [lia|].
    step_bind. simpl.
    now apply relocationLoop_table.
  - apply mapM_pairs, Forall2_length in Htable.
    rewrite <- Htable, indices_length.
    apply Z2Nat.id, loopCount_nonneg; [assumption | destruct is64bit; reflexivity].
  - intros i r symbolName Hi.
    pose proof (mapM_pairs _ _ _ Htable) as Hpairs.
    destruct (Forall2_lookup_r _ _ _ _ _ Hpairs Hi) as (j & Hj & Hread).
    assert (Hlt : (i < Z.to_nat (loopCount (size rela) (relaSize is64bit)))%nat).
    { apply lookup_lt_Some in Hj. now rewrite indices_length in Hj. }
    rewrite (indices_lookup_lt _ _ Hlt) in Hj. injection Hj as <-.
    destruct (readRelocation (view parsed) (offset rela) is64bit (Z.of_nat i)) as [r'|];
      step_bind_in Hread; [|discriminate].
    destruct (relocationSymbolName (view parsed) symtabSection strtabSection is64bit
                                   (symbolIndex r')) as [n'|] eqn:Hn;
      step_bind_in Hread; [|discriminate].
    injection Hread as -> ->. split; [reflexivity | exact Hn].
  - intros i r symbolName _ patchAddress.
    unfold prescribedPatch. cbn [fst snd].
    destruct (functionMap !! symbolName) as [targetAddress|] eqn:Htarget; [|reflexivity].
    cbv zeta. fold patchAddress.
    pose proof (Htargets symbolName targetAddress Htarget) as [Ht0 _].
    split; [|split].
    + intros Hty. eexists. split.
      { destruct Hty as [-> | ->]; reflexivity. }
      split; [reflexivity|]. split; [apply decodeInt32_littleEndian32|].
      intros Hr. rewrite decodeInt32_littleEndian32. now apply toInt32_in_range.
    + intros ->. eexists. split; [reflexivity|]. split; [reflexivity|].
      split; [apply decodeUint32_littleEndian32|].
      intros Hr. rewrite decodeUint32_littleEndian32. apply Z.mod_small. lia.
    + intros H4 H2 H10.
      destruct (Z.eqb_spec (relocType r) 4); [contradiction|].
      destruct (Z.eqb_spec (relocType r) 2); [contradiction|].
      destruct (Z.eqb_spec (relocType r) 10); [contradiction|]. reflexivity.
Qed.

End WithEngine.

Lemma relocation_pass_patches_table_witness :
  let sh := sectionHeaders relocatedObject in
  let e := ms_engine (@mapSections _ Sim.engine (view relocatedObject) true Sim.fresh sh) in
  let functionMap := functionMapOf OBJECT_BASE [("add"%string, 0); ("main"%string, 8)] in
  exists entries e',
    relocationTable (view relocatedObject) (section ".rela.text" 0 0 160 96)
                    (findSection sh ".symtab") (findSection sh ".strtab") true = Ok entries
    /\ List.map (fun entry => (r_offset (fst entry), symbolIndex (fst entry),
                               relocType (fst entry), snd entry)) entries
       = [ (9, 1, 4, "add"%string); (1, 2, 10, "main"%string);
           (3, 1, 7, "add"%string); (5, 0, 4, EmptyString) ]
    /\ @processRelocations _ Sim.engine relocatedObject
          (findSection sh ".symtab") (findSection sh ".strtab") true OBJECT_BASE functionMap e
       = Ok e'
    /\ Sim.read e OBJECT_BASE 14 = Ok callText
    /\ Sim.read e' OBJECT_BASE 14
       = Ok [0xB8; 0x08; 0x00; 0x00; 0x10; 0xC3; 0x90; 0x90; 0xE8; 0xF3; 0xFF; 0xFF; 0xFF; 0xC3].
Proof.
  intros sh e functionMap.
  eexists. eexists. split; [vm_compute; reflexivity|]. split; [reflexivity|].
  split; [|split].
  - refine (proj1 (@relocation_pass_patches_table _ Sim.engine relocatedObject
                     (section ".rela.text" 0 0 160 96)
                     (findSection sh ".symtab") (findSection sh ".strtab") true OBJECT_BASE
                     functionMap _ e _ _ _ _ _ _ _)).
    + reflexivity.
    + reflexivity.
    + split; vm_compute; discriminate.
    + intros Hnone. assert (Hadd : functionMap !! "add"%string = None)
        by (rewrite Hnone; apply lookup_empty).
      vm_compute in Hadd. discriminate Hadd.
    + vm_compute. reflexivity.
    + vm_compute. reflexivity.
    + split; [|split].
      * unfold exactNumber. vm_compute. split; [discriminate | reflexivity].
      * unfold functionMap, functionMapOf. simpl.
        repeat apply map_Forall_insert_2; try apply map_Forall_empty;
          unfold exactNumber; vm_compute; split; (discriminate || reflexivity).
      * repeat (apply List.Forall_cons;
                [unfold exactNumber; vm_compute; repeat split; (discriminate || reflexivity)|]).
        apply List.Forall_nil.
  - vm_compute. reflexivity.
  - vm_compute. reflexivity.
Defined.

(** The relocation table of the two-function object read and applied: the
    entry decodes to offset 9, symbol 1 ([add]), type 4, and the call in
    [main] gets the displacement -13, which leads back to [add]. *)
Lemma call_relocation_applied :
  readRelocation (view callObject) 160 true 0
  = Ok {| r_offset := 9; r_info := 0x100000004; r_addend := -4;
          symbolIndex := 1; relocType := 4 |}
  /\ match @runUnicorn _ Sim.engine blankPage (Some callObject) Sim.fresh with
     | Ok (Launched _ d _ _ _) => Sim.read (engine d) (OBJECT_BASE + 8) 5
     | _ => Throw TypeError
     end = Ok [0xE8; 0xF3; 0xFF; 0xFF; 0xFF].
Proof. split; vm_compute; reflexivity. Qed.

End RelocationClaims.

(* ------------------------------------------------------------------ *)
(** ** Entry point and halt trampoline                                  *)
(* ------------------------------------------------------------------ *)

Module LaunchClaims.
Import LaunchFacts.

Section WithEngine.
Context {E : Type} {EN : Engine E}.


End WithEngine.


End LaunchClaims.

(* ------------------------------------------------------------------ *)
(** ** Execution controller                                             *)
(* ------------------------------------------------------------------ *)

Module ControllerFacts.

Lemma emuAppend_perf p m :
  isPerformanceModeActive (emuAppend p m) = isPerformanceModeActive p.
Proof. unfold emuAppend. destruct (isPerformanceModeActive p) eqn:H; [assumption | reflexivity]. Qed.

Lemma emuAppend_loud p m :
  isPerformanceModeActive p = false -> emuOutput (emuAppend p m) = emuOutput p ++ [m].
Proof. unfold emuAppend. now intros ->. Qed.

Lemma emuAppend_quiet p m :
  isPerformanceModeActive p = true -> emuAppend p m = p.
Proof. unfold emuAppend. now intros ->. Qed.

Lemma emuAppend_console p m : console (emuAppend p m) = console p.
Proof. unfold emuAppend. now destruct (isPerformanceModeActive p). Qed.

Section WithEngine.
Context {D : Disassembler} {E : Type} {EN : Engine E}.

Lemma keepsSettings_refl (d : Debugger E) : keepsSettings d d.
Proof. repeat split. Qed.

Lemma keepsSettings_trans (d1 d2 d3 : Debugger E) :
  keepsSettings d1 d2 -> keepsSettings d2 d3 -> keepsSettings d1 d3.
Proof.
  unfold keepsSettings. intros (?&?&?&?&?) (?&?&?&?&?). repeat split; congruence.
Qed.

Lemma logToExecutionTrace_keeps (d : Debugger E) a :
  keepsSettings d (logToExecutionTrace d a)
  /\ isRunning (logToExecutionTrace d a) = isRunning d
  /\ isPaused (logToExecutionTrace d a) = isPaused d
  /\ engine (logToExecutionTrace d a) = engine d.
Proof.
  unfold logToExecutionTrace. destruct (decodeAt d a) as [[|insn rest]|];
    repeat split; reflexivity.
Qed.

(** The hook: what it keeps, and that it only ever stops the controller. *)
Lemma codeHook_keeps p (d : Debugger E) a :
  let '(p', d', _) := codeHook p d a in
  keepsSettings d d' /\ engine d' = engine d
  /\ isPerformanceModeActive p' = isPerformanceModeActive p
  /\ (isPerformanceModeActive p = true -> emuOutput p' = emuOutput p)
  /\ (stopped d -> stopped d')
  /\ (a ∈ breakpoints d -> stopped d')
  /\ (a ∉ breakpoints d -> isRunning d' = isRunning d /\ isPaused d' = isPaused d).
Proof.
  unfold codeHook. cbv zeta.
  set (d2 := if notYetLogged _ a then _ else _).
  assert (H2 : keepsSettings d d2 /\ isRunning d2 = isRunning d
               /\ isPaused d2 = isPaused d /\ engine d2 = engine d).
  { subst d2. destruct (notYetLogged _ a); [|repeat split; reflexivity].
    destruct (logToExecutionTrace_keeps (set_currentAddress d a) a) as (Hk & Hr & Hp & He).
    destruct Hk as (?&?&?&?&?). simpl in *. repeat split; assumption. }
  destruct H2 as ((Hb & Hk) & Hr & Hp & He).
  destruct (decide (a ∈ breakpoints d2)) as [Hin|Hnin].
  - split; [repeat split; simpl; tauto|]. split; [exact He|]. split.
    { destruct (mem_read _ a 1) as [[|b rest]|]; try reflexivity.
      destruct (b =? 0xF4); [|reflexivity]. now rewrite emuAppend_perf. }
    split.
    { intros Hq. destruct (mem_read _ a 1) as [[|b rest]|]; try reflexivity.
      destruct (b =? 0xF4); [|reflexivity]. now rewrite emuAppend_quiet. }
    repeat split; reflexivity || (rewrite Hb in Hin; contradiction).
  - split; [repeat split; tauto|]. split; [exact He|]. split; [reflexivity|].
    split; [reflexivity|]. unfold stopped. rewrite Hr, Hp. split; [tauto|]. split.
    + intros Hin. rewrite Hb in Hnin. contradiction.
    + auto.
Qed.

Lemma runHooks_keeps addrs p (d : Debugger E) :
  let '(p', d') := runHooks p d addrs in
  keepsSettings d d' /\ engine d' = engine d
  /\ isPerformanceModeActive p' = isPerformanceModeActive p
  /\ (isPerformanceModeActive p = true -> emuOutput p' = emuOutput p)
  /\ (stopped d -> stopped d')
  /\ ((exists a, In a addrs /\ a ∈ breakpoints d) -> stopped d')
  /\ ((forall a, In a addrs -> a ∉ breakpoints d) ->
      isRunning d' = isRunning d /\ isPaused d' = isPaused d).
Proof.
  unfold runHooks. revert p d. induction addrs as [|a r IH]; intros p d; simpl.
  - split; [apply keepsSettings_refl|]. do 3 (split; [reflexivity|]).
    split; [tauto|]. split; [intros (a & [] & _) | auto].
  - pose proof (codeHook_keeps p d a) as Hh.
    destruct (codeHook p d a) as [[p1 d1] ret]. simpl.
    destruct Hh as (Hk1 & He1 & Hf1 & Hq1 & Hs1 & Hb1 & Hn1).
    specialize (IH p1 d1).
    destruct (fold_left _ r (p1, d1)) as [p2 d2].
    destruct IH as (Hk2 & He2 & Hf2 & Hq2 & Hs2 & Hb2 & Hn2).
    assert (Hbp : breakpoints d1 = breakpoints d) by apply Hk1.
    split; [eapply keepsSettings_trans; eassumption|].
    split; [congruence|]. split; [congruence|].
    split; [intros Hq; rewrite Hq2 by congruence; auto|].
    split; [auto|]. split.
    + intros (b & [<- | Hin] & Hb); [auto|].
      apply Hb2. exists b. rewrite Hbp. auto.
    + intros Hall.
      destruct Hn1 as [Hr1 Hp1]; [apply Hall; now left|].
      destruct Hn2 as [Hr2 Hp2]; [intros b Hb; rewrite Hbp; apply Hall; now right|].
      split; congruence.
Qed.

Lemma logExecutedInstruction_keeps p (d : Debugger E) :
  let '(p', d') := logExecutedInstruction p d in
  keepsSettings d d' /\ engine d' = engine d
  /\ isRunning d' = isRunning d /\ isPaused d' = isPaused d
  /\ isPerformanceModeActive p' = isPerformanceModeActive p
  /\ console p' = console p.
Proof.
  unfold logExecutedInstruction. destruct (pendingTrace d); repeat split; reflexivity.
Qed.

(** The [catch] block: the controller is stopped, and outside performance
    mode the output ends with the report and the accumulator. *)
Lemma stepFailed_reports p (d : Debugger E) e :
  let '(p', d') := stepFailed p d e in
  keepsSettings d d' /\ engine d' = engine d /\ stopped d'
  /\ isPerformanceModeActive p' = isPerformanceModeActive p
  /\ console p' = console p ++ [StepErrorLog e]
  /\ (isPerformanceModeActive p = true -> emuOutput p' = emuOutput p)
  /\ (isPerformanceModeActive p = false ->
      emuOutput p'
      = emuOutput p
        ++ [ if includes (errorMessage e) "UC_ERR_INSN_INVALID"
             then InvalidInstructionAt (getCurrentPC d)
             else if includes (errorMessage e) "UC_ERR_FETCH_UNMAPPED"
                  then UnmappedFetchAt (getCurrentPC d)
                  else StepError (errorMessage e);
             ProgramFinished (readAccumulator d) ]).
Proof.
  unfold stepFailed. cbv zeta.
  split; [repeat split|]. split; [reflexivity|]. split; [split; reflexivity|].
  split.
  { rewrite emuAppend_perf.
    destruct (includes _ "UC_ERR_INSN_INVALID"); [|destruct (includes _ "UC_ERR_FETCH_UNMAPPED")];
      now rewrite emuAppend_perf. }
  split.
  { rewrite emuAppend_console.
    destruct (includes _ "UC_ERR_INSN_INVALID"); [|destruct (includes _ "UC_ERR_FETCH_UNMAPPED")];
      now rewrite emuAppend_console. }
  split.
  - intros Hq.
    assert (Hq1 : isPerformanceModeActive (consoleLog p (StepErrorLog e)) = true) by exact Hq.
    destruct (includes _ "UC_ERR_INSN_INVALID"); [|destruct (includes _ "UC_ERR_FETCH_UNMAPPED")];
      rewrite !emuAppend_quiet by (rewrite ?emuAppend_quiet; assumption); reflexivity.
  - intros Hl.
    assert (Hl1 : isPerformanceModeActive (consoleLog p (StepErrorLog e)) = false) by exact Hl.
    destruct (includes _ "UC_ERR_INSN_INVALID"); [|destruct (includes _ "UC_ERR_FETCH_UNMAPPED")];
      rewrite !emuAppend_loud by (rewrite ?emuAppend_perf; assumption);
      simpl; rewrite <- app_assoc; reflexivity.
Qed.

(** [stepInstruction] never looks at the pause flag it is given. *)
Lemma stepInstruction_ignores_pause p (d : Debugger E) b :
  stepInstruction p (set_isPaused d b) = stepInstruction p d.
Proof. reflexivity. Qed.

(** One step, by cases on the decode and on what the engine raised. *)
Lemma stepInstruction_outcome p (d : Debugger E) :
  let pc := getCurrentPC d in
  let '(p', d') := stepInstruction p d in
  keepsSettings d d'
  /\ isPerformanceModeActive p' = isPerformanceModeActive p
  /\ match (instructions ← decodeAt d pc; firstInsn instructions) with
     | Throw e =>
         engine d' = engine d /\ stopped d'
         /\ console p' = console p ++ [StepErrorLog e]
     | Ok insn =>
         let out := emu_start (engine d) pc (pc + insn_size insn) 0 1 (hookReturn d) in
         engine d' = after out
         /\ match raised out with
            | Some e =>
                stopped d'
                /\ (exists earlier, console p' = earlier ++ [StepErrorLog e])
                /\ (isPerformanceModeActive p = true -> emuOutput p' = emuOutput p)
                /\ (isPerformanceModeActive p = false ->
                    exists earlier,
                      emuOutput p'
                      = earlier
                        ++ [ if includes (errorMessage e) "UC_ERR_INSN_INVALID"
                             then InvalidInstructionAt (getCurrentPC d')
                             else if includes (errorMessage e) "UC_ERR_FETCH_UNMAPPED"
                                  then UnmappedFetchAt (getCurrentPC d')
                                  else StepError (errorMessage e);
                             ProgramFinished (readAccumulator d') ])
            | None =>
                ((exists a, In a (fired out) /\ a ∈ breakpoints d) -> stopped d')
                /\ ((forall a, In a (fired out) -> a ∉ breakpoints d) ->
                    isRunning d' = isRunning d /\ isPaused d' = false)
            end
     end.
Proof.
  intros pc. unfold stepInstruction. cbv zeta.
  change (getCurrentPC (set_isPaused d false)) with pc.
  change (decodeAt (set_isPaused d false) pc) with (decodeAt d pc).
  destruct (instructions ← decodeAt d pc; firstInsn instructions) as [insn|e] eqn:Hdec.
  - change (engine (set_isPaused d false)) with (engine d).
    change (hookReturn (set_isPaused d false)) with (hookReturn d).
    set (out := emu_start (engine d) pc (pc + insn_size insn) 0 1 (hookReturn d)).
    set (p1 := consoleLog p _).
    pose proof (runHooks_keeps (fired out) p1 (set_isPaused d false)) as Hh.
    destruct (runHooks p1 (set_isPaused d false) (fired out)) as [p2 d1].
    destruct Hh as (Hk & He & Hf & Hq & Hs & Hb & Hn).
    assert (Hk0 : keepsSettings d (set_isPaused d false)) by (repeat split).
    pose proof (keepsSettings_trans _ _ _ Hk0 Hk) as Hk1.
    destruct (raised out) as [e|] eqn:Hr.
    + pose proof (stepFailed_reports p2 (set_engine d1 (after out)) e) as Hfail.
      destruct (stepFailed p2 (set_engine d1 (after out)) e) as [p3 d3].
      destruct Hfail as (Hk3 & He3 & Hs3 & Hf3 & Hc3 & Hq3 & Hl3).
      assert (Hke : keepsSettings d1 (set_engine d1 (after out))) by (repeat split).
      split; [eauto using keepsSettings_trans|].
      split; [rewrite Hf3, Hf; reflexivity|].
      split; [rewrite He3; reflexivity|].
      split; [exact Hs3|]. split; [eauto|]. split.
      * intros Hperf. rewrite Hq3 by (rewrite Hf; exact Hperf). now apply Hq.
      * intros Hperf. exists (emuOutput p2). rewrite Hl3 by (rewrite Hf; exact Hperf).
        unfold getCurrentPC, readAccumulator.
        destruct Hk3 as (_ & _ & -> & _). rewrite He3. reflexivity.
    + set (d3 := set_currentAddress (set_engine d1 (after out)) _).
      pose proof (logExecutedInstruction_keeps p2 d3) as Hlog.
      destruct (logExecutedInstruction p2 d3) as [p3 d4].
      destruct Hlog as (Hk4 & He4 & Hr4 & Hp4 & Hf4 & Hc4).
      assert (Hk3 : keepsSettings d1 d3) by (repeat split).
      split.
      { eapply keepsSettings_trans; [exact Hk1|].
        eapply keepsSettings_trans; [exact Hk3|].
        destruct Hk4 as (?&?&?&?&?). repeat split; assumption. }
      split; [rewrite Hf4, Hf; reflexivity|].
      split; [simpl; rewrite He4; reflexivity|].
      split.
      * intros Hex. destruct (Hb Hex) as [Hrun Hpause].
        subst d3. simpl in Hr4, Hp4. split; simpl; congruence.
      * intros Hall. destruct (Hn Hall) as [Hrun Hpause].
        subst d3. simpl in Hr4, Hp4, Hrun, Hpause. split; simpl; congruence.
  - pose proof (stepFailed_reports p (set_isPaused d false) e) as Hfail.
    destruct (stepFailed p (set_isPaused d false) e) as [p3 d3].
    destruct Hfail as (Hk3 & He3 & Hs3 & Hf3 & Hc3 & _).
    split; [destruct Hk3 as (?&?&?&?&?); repeat split; assumption|].
    split; [exact Hf3|]. split; [exact He3|]. split; [exact Hs3 | exact Hc3].
Qed.

Lemma stopExecution_stops p (d : Debugger E) :
  stopped (snd (stopExecution p d))
  /\ breakpoints (snd (stopExecution p d)) = breakpoints d
  /\ executionCount (snd (stopExecution p d)) = executionCount d
  /\ maxInstructions (snd (stopExecution p d)) = maxInstructions d.
Proof. repeat split. Qed.

(** The four ways through [continueExecution]. *)
Lemma continueExecution_cases p (d : Debugger E) :
  (isRunning d = false \/ isPaused d = true -> continueExecution p d = (p, d, false))
  /\ (isRunning d = true -> isPaused d = false ->
      geNumber (executionCount d) (maxInstructions d) = true ->
      continueExecution p d
      = (stopExecution (emuAppend (consoleLog p LimitReachedLog)
                                  (LimitReached (maxInstructions d))) d, false))
  /\ (isRunning d = true -> isPaused d = false ->
      geNumber (executionCount d) (maxInstructions d) = false ->
      isHaltInstruction d (getCurrentPC d) = true ->
      continueExecution p d
      = (stopExecution (emuAppend (consoleLog p HltEncountered) HltReached) d, false))
  /\ (isRunning d = true -> isPaused d = false ->
      geNumber (executionCount d) (maxInstructions d) = false ->
      isHaltInstruction d (getCurrentPC d) = false ->
      continueExecution p d
      = (fst (stepInstruction p d),
         set_executionCount (snd (stepInstruction p d))
                            (increment (executionCount (snd (stepInstruction p d)))),
         true)).
Proof.
  unfold continueExecution. repeat split.
  - intros [-> | ->]; [reflexivity|]. now rewrite orb_true_r.
  - intros -> -> ->. reflexivity.
  - intros -> -> -> ->. reflexivity.
  - intros -> -> -> ->. simpl. now destruct (stepInstruction p d).
Qed.

Lemma continueExecution_keeps_breakpoints p (d : Debugger E) :
  breakpoints (snd (fst (continueExecution p d))) = breakpoints d.
Proof.
  unfold continueExecution.
  destruct (negb (isRunning d) || isPaused d); [reflexivity|].
  destruct (geNumber _ _); [reflexivity|].
  destruct (isHaltInstruction _ _); [reflexivity|].
  pose proof (stepInstruction_outcome p d) as H. cbv zeta in H.
  destruct (stepInstruction p d) as [p1 d1]. simpl. apply H.
Qed.

Lemma timerLoop_keeps_breakpoints fuel p (d : Debugger E) :
  breakpoints (snd (fst (fst (timerLoop fuel p d)))) = breakpoints d.
Proof.
  revert p d. induction fuel as [|fuel IH]; intros p d; simpl; [reflexivity|].
  pose proof (continueExecution_keeps_breakpoints p d) as Hc.
  destruct (continueExecution p d) as [[p1 d1] scheduled]. simpl in Hc.
  destruct scheduled; [|exact Hc].
  specialize (IH p1 d1). destruct (timerLoop fuel p1 d1) as [[[p2 d2] steps] pending].
  simpl in *. congruence.
Qed.

(** The page and the return value of the hook at a breakpoint. *)
Lemma codeHook_at_breakpoint p (d : Debugger E) a :
  a ∈ breakpoints d ->
  fst (fst (codeHook p d a))
  = match mem_read (engine d) a 1 with
    | Ok (b :: _) =>
        if b =? 0xF4
        then emuAppend (consoleLog (consoleLog p (BreakpointHit a)) CompletedExitBreakpoint)
                       ProgramCompleted
        else consoleLog p (BreakpointHit a)
    | _ => consoleLog p (BreakpointHit a)
    end
  /\ snd (codeHook p d a) = ReturnsFalse.
Proof.
  intros Hin. unfold codeHook. cbv zeta.
  set (d2 := if notYetLogged _ a then _ else _).
  assert (Hd2 : breakpoints d2 = breakpoints d /\ engine d2 = engine d).
  { subst d2. destruct (notYetLogged _ a); [|split; reflexivity].
    destruct (logToExecutionTrace_keeps (set_currentAddress d a) a) as ((Hb & _) & _ & _ & He).
    split; assumption. }
  destruct Hd2 as [Hb He].
  destruct (decide (a ∈ breakpoints d2)) as [_|Hn]; [|rewrite Hb in Hn; contradiction].
  simpl. rewrite He. split; reflexivity.
Qed.

(** The run loop under a ceiling [M]: with more fuel than instructions left,
    it ends by itself, after at most [M - c] steps, not running or paused. *)
Lemma timerLoop_bounded M fuel p (d : Debugger E) c :
  executionCount d = Some c -> maxInstructions d = Some M ->
  c <= M -> M - c < Z.of_nat fuel ->
  let '(_, d', steps, pending) := timerLoop fuel p d in
  pending = false /\ Z.of_nat steps <= M - c
  /\ (isRunning d' = false \/ isPaused d' = true).
Proof.
  revert p d c. induction fuel as [|fuel IH]; intros p d c Hc Hm Hle Hfuel; [simpl in *; lia|].
  cbn [timerLoop].
  destruct (continueExecution_cases p d) as (Hidle & Hlimit & Hhalt & Hstep).
  destruct (isRunning d) eqn:Hrun; [|rewrite Hidle by auto; simpl; split; [|split]; auto; lia].
  destruct (isPaused d) eqn:Hpause; [rewrite Hidle by auto; simpl; split; [|split]; auto; lia|].
  destruct (geNumber (executionCount d) (maxInstructions d)) eqn:Hge.
  { rewrite Hlimit by auto. simpl. split; [|split]; auto; lia. }
  destruct (isHaltInstruction d (getCurrentPC d)) eqn:Hh.
  { rewrite Hhalt by auto. simpl. split; [|split]; auto; lia. }
  rewrite Hstep by auto.
  pose proof (stepInstruction_outcome p d) as Hout. cbv zeta in Hout.
  destruct (stepInstruction p d) as [p1 d1]. simpl.
  destruct Hout as ((_ & _ & _ & Hc1 & Hm1) & _).
  rewrite Hc, Hm in Hge. simpl in Hge. apply Z.leb_gt in Hge.
  specialize (IH p1 (set_executionCount d1 (increment (executionCount d1))) (c + 1)).
  destruct (timerLoop fuel p1 _) as [[[p2 d2] steps] pending].
  destruct IH as (Hp & Hs & Hf); simpl; try lia.
  - rewrite Hc1, Hc. reflexivity.
  - congruence.
  - split; [assumption|]. split; [lia | assumption].
Qed.

(** The counters across one callback: the ceiling stays, and the counter
    goes up by one exactly when the callback has taken a step, which it
    does only below the ceiling. *)
Lemma continueExecution_counts M p (d : Debugger E) c :
  executionCount d = Some c -> maxInstructions d = Some M ->
  let '(_, d1, scheduled) := continueExecution p d in
  maxInstructions d1 = Some M
  /\ (scheduled = true -> c < M /\ executionCount d1 = Some (c + 1))
  /\ (scheduled = false -> executionCount d1 = Some c).
Proof.
  intros Hc Hm. unfold continueExecution.
  destruct (negb (isRunning d) || isPaused d); [repeat split; auto; discriminate|].
  destruct (geNumber (executionCount d) (maxInstructions d)) eqn:Hge;
    [repeat split; auto; discriminate|].
  destruct (isHaltInstruction d (getCurrentPC d)); [repeat split; auto; discriminate|].
  pose proof (stepInstruction_outcome p d) as Hout. cbv zeta in Hout.
  destruct (stepInstruction p d) as [p1 d1].
  destruct Hout as ((_ & _ & _ & Hc1 & Hm1) & _).
  rewrite Hc, Hm in Hge. simpl in Hge. apply Z.leb_gt in Hge.
  simpl. split; [congruence|]. split; [|discriminate].
  intros _. split; [assumption|]. rewrite Hc1, Hc. reflexivity.
Qed.

(** However the callbacks of a run are interleaved with steps, stops and
    new breakpoints, and however many callbacks are waiting, the callbacks
    take at most [M - c] steps. *)
Lemma eventLoop_bounded M events p (d : Debugger E) pending c :
  executionCount d = Some c -> maxInstructions d = Some M -> c <= M ->
  let '(_, _, _, steps) := eventLoop events p d pending in
  Z.of_nat steps <= M - c.
Proof.
  revert p d pending c.
  induction events as [|ev rest IH]; intros p d pending c Hc Hm Hle; [simpl; lia|].
  destruct ev as [| | |a]; cbn [eventLoop].
  - destruct pending as [|waiting]; [now apply IH|].
    pose proof (continueExecution_counts M p d c Hc Hm) as Hcnt.
    destruct (continueExecution p d) as [[p1 d1] scheduled].
    destruct Hcnt as (Hm1 & Hyes & Hno).
    destruct scheduled.
    + destruct (Hyes eq_refl) as [Hlt Hc1].
      specialize (IH p1 d1 (S waiting) (c + 1) Hc1 Hm1 ltac:(lia)).
      destruct (eventLoop rest p1 d1 (S waiting)) as [[[p2 d2] waiting'] steps]. lia.
    + exact (IH p1 d1 waiting c (Hno eq_refl) Hm1 Hle).
  - pose proof (stepInstruction_outcome p d) as Hout. cbv zeta in Hout.
    destruct (stepInstruction p d) as [p1 d1].
    destruct Hout as ((_ & _ & _ & Hc1 & Hm1) & _).
    apply IH; congruence.
  - apply IH; assumption.
  - apply IH; assumption.
Qed.

End WithEngine.

End ControllerFacts.

Module ControllerClaims.
Import ControllerFacts.

(** C8, as stated, fails on two counts.  A controller that has faulted
    takes the next step without any reset: the engine is started again and
    the fault is reported a second time.  And with the performance flag set
    the fault is not reported at all: the output element stays empty. *)
Lemma faulted_controller_steps_again :
  let step := @stepInstruction Sim.disassembler _ Sim.engine in
  let '(p1, d1) := step blankPage faultingDebugger in
  let '(p2, d2) := step p1 d1 in
  let '(p3, d3) := step quietPage faultingDebugger in
  stopped d1
  /\ emuOutput p1 = [InvalidInstructionAt 0x1000; ProgramFinished 0]
  /\ console p2 = console p1 ++ [Executing "ud2 " 0x1000;
                                 StepErrorLog (Error "Invalid instruction (UC_ERR_INSN_INVALID)")]
  /\ emuOutput p2 = emuOutput p1 ++ [InvalidInstructionAt 0x1000; ProgramFinished 0]
  /\ step p1 d1 <> (p1, d1)
  /\ stopped d3 /\ emuOutput p3 = [].
Proof.
  vm_compute. repeat split; try reflexivity. discriminate.
Qed.

Section WithEngine.
Context {D : Disassembler} {E : Type} {EN : Engine E}.

(** C10.  [reset] writes the entry address to the program counter and to
    [currentAddress], empties the trace, zeroes the instruction counter,
    clears the last-logged marker and both flags, and leaves the breakpoint
    set as it was.  A new debugger starts with no breakpoint; stepping,
    stopping and running keep the set, and [addBreakpoint] only adds. *)
Theorem reset_keeps_breakpoints p (d : Debugger E) :
  let '(_, d') := reset p d in
  breakpoints d' = breakpoints d
  /\ entryPoint d' = entryPoint d
  /\ currentAddress d' = entryPoint d
  /\ engine d' = writePC (engine d) (is64bit d) (entryPoint d)
  /\ executionTrace d' = []
  /\ executionCount d' = Some 0
  /\ lastLoggedAddress d' = None
  /\ isRunning d' = false
  /\ isPaused d' = false
  /\ (forall (e : E) is64 entry0, breakpoints (constructor e is64 entry0) = ∅)
  /\ (forall q (x : Debugger E), breakpoints (snd (stepInstruction q x)) = breakpoints x)
  /\ (forall q (x : Debugger E), breakpoints (snd (stopExecution q x)) = breakpoints x)
  /\ (forall fuel q (x : Debugger E),
        breakpoints (snd (fst (fst (runUntilHalt fuel q x)))) = breakpoints x)
  /\ (forall q (x : Debugger E) a, breakpoints x ⊆ breakpoints (snd (addBreakpoint q x a))).
Proof.
  cbn [reset]. do 9 (split; [reflexivity|]). split; [reflexivity|]. split; [|split; [|split]].
  - intros q x. pose proof (stepInstruction_outcome q x) as H. cbv zeta in H.
    destruct (stepInstruction q x) as [q1 x1]. apply H.
  - reflexivity.
  - intros fuel q x. unfold runUntilHalt. destruct (isRunning x); [reflexivity|].
    now rewrite timerLoop_keeps_breakpoints.
  - intros q x a. simpl. apply union_subseteq_r.
Qed.

(** C2.  One [runUntilHalt] with more than 10,000 callbacks allowed ends by
    itself: no callback is left scheduled, at most 10,000 steps have been
    taken, and the controller is not running or is paused.  The bound on
    the steps holds as well when the callbacks are interleaved with the
    Step and Stop handlers and with new breakpoints.  Each callback
    returns at once when the controller is not running or is paused; stops
    with the limit messages when the counter has reached the ceiling; stops
    with the halt messages when the instruction at the program counter is
    [hlt]; and otherwise takes exactly one step, adds one to the counter
    and schedules itself again. *)
Theorem run_stops_within_limit (fuel : nat) p (d : Debugger E) :
  10000 < Z.of_nat fuel ->
  let '(_, d', steps, pending) := runUntilHalt fuel p d in
  pending = false
  /\ Z.of_nat steps <= 10000
  /\ (isRunning d = false -> isRunning d' = false \/ isPaused d' = true)
  /\ MAX_INSTRUCTIONS = 10000
  /\ (forall events q pending,
        let '(_, _, _, taken) :=
          eventLoop events q
                    (set_maxInstructions
                       (set_executionCount (set_isPaused (set_isRunning d true) false) (Some 0))
                       (Some MAX_INSTRUCTIONS))
                    pending in
        Z.of_nat taken <= 10000)
  /\ forall q (x : Debugger E),
      (isRunning x = false \/ isPaused x = true -> continueExecution q x = (q, x, false))
      /\ (isRunning x = true -> isPaused x = false ->
          geNumber (executionCount x) (maxInstructions x) = true ->
          continueExecution q x
          = (stopExecution (emuAppend (consoleLog q LimitReachedLog)
                                      (LimitReached (maxInstructions x))) x, false))
      /\ (isRunning x = true -> isPaused x = false ->
          geNumber (executionCount x) (maxInstructions x) = false ->
          isHaltInstruction x (getCurrentPC x) = true ->
          continueExecution q x
          = (stopExecution (emuAppend (consoleLog q HltEncountered) HltReached) x, false))
      /\ (isRunning x = true -> isPaused x = false ->
          geNumber (executionCount x) (maxInstructions x) = false ->
          isHaltInstruction x (getCurrentPC x) = false ->
          continueExecution q x
          = (fst (stepInstruction q x),
             set_executionCount (snd (stepInstruction q x))
                                (increment (executionCount (snd (stepInstruction q x)))),
             true)).
Proof.
  intros Hfuel. unfold runUntilHalt.
  destruct (isRunning d) eqn:Hrun.
  - split; [reflexivity|]. split; [lia|]. split; [discriminate|]. split; [reflexivity|].
    split; [|exact continueExecution_cases].
    intros events q waiting.
    exact (eventLoop_bounded MAX_INSTRUCTIONS events q
             (set_maxInstructions
                (set_executionCount (set_isPaused (set_isRunning d true) false) (Some 0))
                (Some MAX_INSTRUCTIONS))
             waiting 0 eq_refl eq_refl ltac:(unfold MAX_INSTRUCTIONS; lia)).
  - set (d1 := set_maxInstructions _ _). set (p1 := emuAppend _ _).
    pose proof (timerLoop_bounded MAX_INSTRUCTIONS fuel p1 d1 0 eq_refl eq_refl) as Hb.
    destruct (timerLoop fuel p1 d1) as [[[p2 d2] steps] pending].
    destruct Hb as (Hp & Hs & Hf); [unfold MAX_INSTRUCTIONS; lia..|].
    unfold MAX_INSTRUCTIONS in Hs.
    split; [assumption|]. split; [lia|]. split; [auto|]. split; [reflexivity|].
    split; [|exact continueExecution_cases].
    intros events q waiting.
    exact (eventLoop_bounded MAX_INSTRUCTIONS events q
             (set_maxInstructions
                (set_executionCount (set_isPaused (set_isRunning d true) false) (Some 0))
                (Some MAX_INSTRUCTIONS))
             waiting 0 eq_refl eq_refl ltac:(unfold MAX_INSTRUCTIONS; lia)).
Qed.

(** C7.  When the hook runs at an address of the breakpoint set it returns
    [false] to the engine and leaves the controller stopped; a stopped
    controller's next callback returns at once, so the run takes no further
    step; the same holds after a whole step in which the engine fired the
    hook at a breakpoint.  When the byte at the address is 0xF4 the console
    gets the completion message after the breakpoint message, and the
    output element gets the completion line unless the performance flag is
    set; with any other byte only the breakpoint message is logged.  A run
    that arrives at a [hlt] (the trampoline of an object file) stops before
    the step, with the halt messages. *)
Theorem breakpoint_hook_stops_run p (d : Debugger E) (a : Z) :
  a ∈ breakpoints d ->
  let '(p', d', ret) := codeHook p d a in
  ret = ReturnsFalse
  /\ stopped d'
  /\ (forall q (x : Debugger E), stopped x -> continueExecution q x = (q, x, false))
  /\ (forall rest, mem_read (engine d) a 1 = Ok (0xF4 :: rest) ->
        console p' = console p ++ [BreakpointHit a; CompletedExitBreakpoint]
        /\ (isPerformanceModeActive p = false -> emuOutput p' = emuOutput p ++ [ProgramCompleted]))
  /\ (forall b rest, mem_read (engine d) a 1 = Ok (b :: rest) -> b <> 0xF4 ->
        console p' = console p ++ [BreakpointHit a] /\ emuOutput p' = emuOutput p)
  /\ (forall q (x : Debugger E) insn rest,
        decodeAt x (getCurrentPC x) = Ok (insn :: rest) ->
        In a (fired (emu_start (engine x) (getCurrentPC x)
                               (getCurrentPC x + insn_size insn) 0 1 (hookReturn x))) ->
        a ∈ breakpoints x ->
        stopped (snd (stepInstruction q x)))
  /\ (forall q (x : Debugger E),
        isRunning x = true -> isPaused x = false ->
        geNumber (executionCount x) (maxInstructions x) = false ->
        isHaltInstruction x (getCurrentPC x) = true ->
        continueExecution q x
        = (stopExecution (emuAppend (consoleLog q HltEncountered) HltReached) x, false)).
Proof.
  intros Hin.
  pose proof (codeHook_keeps p d a) as Hk.
  pose proof (codeHook_at_breakpoint p d a Hin) as [Hp' Hret].
  destruct (codeHook p d a) as [[p' d'] ret].
  destruct Hk as (_ & _ & _ & _ & _ & Hstop & _).
  simpl in Hp', Hret.
  split; [assumption|]. split; [auto|]. split.
  { intros q x [Hr Hpz]. apply continueExecution_cases. now left. }
  split.
  { intros rest Hread. rewrite Hread in Hp'. simpl in Hp'. subst p'.
    split; [rewrite emuAppend_console; simpl; now rewrite <- app_assoc|].
    intros Hl. now rewrite emuAppend_loud. }
  split.
  { intros b rest Hread Hb. rewrite Hread in Hp'.
    destruct (Z.eqb_spec b 0xF4); [contradiction|]. subst p'. split; reflexivity. }
  split.
  { intros q x insn rest Hdec Hfired Hbp.
    pose proof (stepInstruction_outcome q x) as Hout. cbv zeta in Hout.
    destruct (stepInstruction q x) as [q1 x1]. simpl.
    destruct Hout as (_ & _ & Hcase). rewrite Hdec in Hcase. simpl in Hcase.
    destruct Hcase as [_ Hcase].
    destruct (raised _); [apply Hcase|]. apply Hcase. eauto. }
  intros q x. apply continueExecution_cases.
Qed.

(** C8 (amended).  When the decoded instruction is started and the engine
    raises an error whose message carries [UC_ERR_INSN_INVALID] or
    [UC_ERR_FETCH_UNMAPPED], the step ends with the controller stopped (not
    running, paused) and the error on the console; outside performance mode
    the output ends with the report, which names the program counter the
    engine holds after the failure, followed by the accumulator the engine
    holds; in performance mode the output is left as it was.  Nothing
    blocks further stepping: [stepInstruction] clears the pause flag and
    runs the same whatever the flag was, and [runUntilHalt] starts a new
    run from a stopped controller. *)
Theorem step_fault_stops_and_reports p (d : Debugger E) insn rest e :
  decodeAt d (getCurrentPC d) = Ok (insn :: rest) ->
  raised (emu_start (engine d) (getCurrentPC d) (getCurrentPC d + insn_size insn) 0 1
                    (hookReturn d)) = Some e ->
  includes (errorMessage e) "UC_ERR_INSN_INVALID" = true
  \/ includes (errorMessage e) "UC_ERR_FETCH_UNMAPPED" = true ->
  let '(p', d') := stepInstruction p d in
  stopped d'
  /\ (exists earlier, console p' = earlier ++ [StepErrorLog e])
  /\ (isPerformanceModeActive p = false ->
      exists earlier,
        emuOutput p'
        = earlier ++ [ if includes (errorMessage e) "UC_ERR_INSN_INVALID"
                       then InvalidInstructionAt (getCurrentPC d')
                       else UnmappedFetchAt (getCurrentPC d');
                       ProgramFinished (readAccumulator d') ])
  /\ (isPerformanceModeActive p = true -> emuOutput p' = emuOutput p)
  /\ (forall q (x : Debugger E) b, stepInstruction q (set_isPaused x b) = stepInstruction q x)
  /\ (forall fuel q (x : Debugger E),
        stopped x ->
        runUntilHalt fuel q x
        = timerLoop fuel (emuAppend (consoleLog q StartingContinuous) RunningUntilHalt)
                    (set_maxInstructions
                       (set_executionCount (set_isPaused (set_isRunning x true) false) (Some 0))
                       (Some MAX_INSTRUCTIONS))).
Proof.
  intros Hdec Hraised Htag.
  pose proof (stepInstruction_outcome p d) as Hout. cbv zeta in Hout.
  destruct (stepInstruction p d) as [p' d'].
  destruct Hout as (_ & _ & Hcase). rewrite Hdec in Hcase. simpl in Hcase.
  destruct Hcase as [_ Hcase]. rewrite Hraised in Hcase.
  destruct Hcase as (Hstop & Hcons & Hquiet & Hloud).
  split; [assumption|]. split; [assumption|]. split.
  - intros Hl. destruct (Hloud Hl) as [earlier Hout]. exists earlier. rewrite Hout.
    destruct (includes (errorMessage e) "UC_ERR_INSN_INVALID"); [reflexivity|].
    destruct Htag as [Habs | ->]; [discriminate | reflexivity].
  - split; [assumption|]. split; [intros q x b; apply stepInstruction_ignores_pause|].
    intros fuel q x [Hrun _]. unfold runUntilHalt. now rewrite Hrun.
Qed.

End WithEngine.

#[local] Existing Instance Sim.engine.
#[local] Existing Instance Sim.disassembler.

Lemma run_stops_within_limit_witness :
  let '(_, d', steps, pending) :=
    @runUntilHalt Sim.disassembler _ Sim.engine (Z.to_nat 10001) blankPage haltingDebugger in
  pending = false /\ Z.of_nat steps <= 10000.
Proof.
  pose proof (@run_stops_within_limit Sim.disassembler _ Sim.engine (Z.to_nat 10001) blankPage
                haltingDebugger ltac:(lia)) as H.
  destruct (runUntilHalt (Z.to_nat 10001) blankPage haltingDebugger)
    as [[[p d'] steps] pending].
  destruct H as (Hp & Hs & _). split; assumption.
Defined.

Lemma breakpoint_hook_stops_run_witness :
  let '(p', d', ret) :=
    @codeHook Sim.disassembler _ Sim.engine blankPage haltingDebugger 0x1001 in
  ret = ReturnsFalse /\ stopped d'
  /\ console p' = [BreakpointHit 0x1001; CompletedExitBreakpoint]
  /\ emuOutput p' = [ProgramCompleted].
Proof.
  assert (Hin : 0x1001 ∈ breakpoints haltingDebugger)
    by (apply (bool_decide_unpack _); vm_compute; exact I).
  pose proof (@breakpoint_hook_stops_run Sim.disassembler _ Sim.engine blankPage
                haltingDebugger 0x1001 Hin) as H.
  destruct (codeHook blankPage haltingDebugger 0x1001) as [[p' d'] ret].
  destruct H as (Hret & Hstop & _ & Hhlt & _).
  destruct (Hhlt [] ltac:(vm_compute; reflexivity)) as [Hc He].
  split; [assumption|]. split; [assumption|]. split; [exact Hc | exact (He eq_refl)].
Defined.

Lemma step_fault_stops_and_reports_witness :
  let '(p', d') := @stepInstruction Sim.disassembler _ Sim.engine blankPage faultingDebugger in
  stopped d'
  /\ exists earlier, emuOutput p' = earlier ++ [InvalidInstructionAt (getCurrentPC d');
                                                ProgramFinished (readAccumulator d')].
Proof.
  pose proof (@step_fault_stops_and_reports Sim.disassembler _ Sim.engine blankPage
                faultingDebugger (Sim.insn 0x1000 2 "ud2" "") []
                (Error "Invalid instruction (UC_ERR_INSN_INVALID)")
                ltac:(vm_compute; reflexivity) ltac:(vm_compute; reflexivity)
                ltac:(left; vm_compute; reflexivity)) as H.
  destruct (stepInstruction blankPage faultingDebugger) as [p' d'].
  destruct H as (Hstop & _ & Hloud & _).
  split; [assumption|]. exact (Hloud eq_refl).
Defined.

(** The run of the two-function object, end to end: loaded, relocated and
    launched with the exit breakpoint on the trampoline, it takes four steps
    ([call], [mov], [ret], [ret]), arrives at the trampoline with 40 in the
    accumulator and stops there with the halt messages; the breakpoint
    message is never logged. *)
Lemma nostdlib_run_completes :
  match @runUnicorn _ Sim.engine blankPage (Some callObject) Sim.fresh with
  | Ok (Launched p d (Some exitAddr) _ _) =>
      let '(p', d', steps, pending) :=
        @runUntilHalt Sim.disassembler _ Sim.engine 100 p d in
      pending = false /\ steps = 4%nat /\ stopped d'
      /\ getCurrentPC d' = exitAddr
      /\ readAccumulator d' = 40
      /\ drop 1 (emuOutput p') = [HltReached; ExecutionStopped (Some 4)]
      /\ existsb (fun m => match m with BreakpointHit _ => true | _ => false end)
                 (console p') = false
  | _ => False
  end.
Proof. vm_compute. repeat split; reflexivity. Qed.

(** A breakpoint on an instruction other than [hlt]: the run stops after
    the step that meets it, with the breakpoint message alone. *)
Lemma plain_breakpoint_pauses :
  let '(p', d', steps, pending) := runUntilHalt 100 blankPage pausingDebugger in
  pending = false /\ steps = 2%nat /\ stopped d'
  /\ console p' = [StartingContinuous; Executing "nop " 0x1000; Executing "nop " 0x1001;
                   BreakpointHit 0x1001].
Proof. vm_compute. repeat split; reflexivity. Qed.

(** A program that jumps to itself never stops by itself: after fifty
    callbacks the fifty-first is scheduled. *)
Lemma spinning_program_keeps_running :
  let '(_, d', steps, pending) := runUntilHalt 50 quietPage spinningDebugger in
  pending = true /\ steps = 50%nat /\ isRunning d' = true
  /\ executionCount d' = Some 50.
Proof. vm_compute. repeat split; reflexivity. Qed.

End ControllerClaims.

Import Invariants.

(* ------------------------------------------------------------------ *)
(** ** Stack view                                                       *)
(* ------------------------------------------------------------------ *)

Module InspectorFacts.

Import Inspector Props.

Lemma toInt32_mod a : toInt32 a mod 4294967296 = a mod 4294967296.
Proof.
  unfold toInt32. cbv zeta.
  destruct (a mod 4294967296 <? 2147483648).
  - apply Z.mod_mod. lia.
  - rewrite <- (Z.mod_add _ 1) by lia.
    replace (a mod 4294967296 - 4294967296 + 1 * 4294967296) with (a mod 4294967296) by lia.
    apply Z.mod_mod. lia.
Qed.

Lemma toInt32_congr a b :
  a mod 4294967296 = b mod 4294967296 -> toInt32 a = toInt32 b.
Proof. unfold toInt32. intros ->. reflexivity. Qed.

Lemma toInt32_range a : -2147483648 <= toInt32 a < 2147483648.
Proof.
  unfold toInt32. cbv zeta.
  pose proof (Z.mod_pos_bound a 4294967296 ltac:(lia)).
  destruct (a mod 4294967296 <? 2147483648) eqn:H0; lia.
Qed.

Lemma lor_mod a b :
  Z.lor a b mod 4294967296 = Z.lor (a mod 4294967296) (b mod 4294967296).
Proof.
  change 4294967296 with (2 ^ 32).
  rewrite <- !Z.land_ones by lia. apply Z.land_lor_distr_l.
Qed.

Lemma bitOr_lor a b : bitOr a b = toInt32 (Z.lor a b).
Proof.
  unfold bitOr. apply toInt32_congr.
  rewrite !lor_mod, !toInt32_mod. reflexivity.
Qed.

Lemma toInt32_lor_l a b : toInt32 (Z.lor (toInt32 a) b) = toInt32 (Z.lor a b).
Proof.
  apply toInt32_congr. rewrite !lor_mod, toInt32_mod. reflexivity.
Qed.

Lemma bitOr_both a b : bitOr (toInt32 a) (toInt32 b) = toInt32 (Z.lor a b).
Proof.
  rewrite bitOr_lor. apply toInt32_congr.
  rewrite !lor_mod, !toInt32_mod. reflexivity.
Qed.

Lemma bitOr_toInt32_l a b : bitOr (toInt32 a) b = toInt32 (Z.lor a b).
Proof.
  rewrite bitOr_lor. apply toInt32_congr.
  rewrite !lor_mod, toInt32_mod. reflexivity.
Qed.

Lemma bitOr_toInt32_r a b : bitOr a (toInt32 b) = toInt32 (Z.lor a b).
Proof.
  rewrite bitOr_lor. apply toInt32_congr.
  rewrite !lor_mod, toInt32_mod. reflexivity.
Qed.

Lemma shiftLeft_byte b k :
  0 <= b < 256 -> shiftLeft b k = toInt32 (Z.shiftl b (Z.land k 31)).
Proof.
  intros Hb. unfold shiftLeft. rewrite (RelocationFacts.toInt32_in_range b); [reflexivity | lia].
Qed.

Lemma lor_lane a b k :
  0 <= k -> 0 <= a < 2 ^ k -> Z.lor a (Z.shiftl b k) = a + b * 2 ^ k.
Proof.
  intros Hk Ha.
  assert (Hland : Z.land a (Z.shiftl b k) = 0).
  { apply Z.bits_inj'. intros n Hn. rewrite Z.land_spec, Z.bits_0.
    destruct (Z.lt_ge_cases n k) as [Hlt | Hge].
    - rewrite (Z.shiftl_spec_low b k n Hlt). apply andb_false_r.
    - assert (Z.testbit a n = false) as ->; [| reflexivity].
      destruct (Z.eq_dec a 0) as [-> | Hne]; [apply Z.bits_0 |].
      apply Z.bits_above_log2; [lia |].
      assert (Z.log2 a < k) by (apply Z.log2_lt_pow2; lia). lia. }
  rewrite <- Z.lxor_lor by exact Hland.
  rewrite <- Z.add_nocarry_lxor by exact Hland.
  rewrite Z.shiftl_mul_pow2 by lia. reflexivity.
Qed.

Lemma lanes b0 b1 b2 b3 :
  0 <= b0 < 256 -> 0 <= b1 < 256 -> 0 <= b2 < 256 -> 0 <= b3 < 256 ->
  Z.lor (Z.lor (Z.lor b0 (Z.shiftl b1 8)) (Z.shiftl b2 16)) (Z.shiftl b3 24)
  = decodeUint32 [b0; b1; b2; b3].
Proof.
  intros H0 H1 H2 H3. unfold decodeUint32.
  rewrite (lor_lane b0 b1 8) by lia.
  rewrite (lor_lane _ b2 16) by lia.
  rewrite (lor_lane _ b3 24) by lia.
  lia.
Qed.

Lemma wordLoop_nil bytes value : wordLoop bytes [] value = value.
Proof. reflexivity. Qed.

Lemma wordLoop_cons bytes j rest value :
  wordLoop bytes (j :: rest) value
  = wordLoop bytes rest (bitOr value (shiftLeft (default 0 (bytes !! Z.to_nat j)) (j * 8))).
Proof. reflexivity. Qed.

Lemma wordValue_4 b0 b1 b2 b3 :
  0 <= b0 < 256 -> 0 <= b1 < 256 -> 0 <= b2 < 256 -> 0 <= b3 < 256 ->
  wordValue [b0; b1; b2; b3] 4 = decodeInt32 [b0; b1; b2; b3].
Proof.
  intros H0 H1 H2 H3.
  unfold wordValue. change (indices 4) with [0; 1; 2; 3].
  rewrite !wordLoop_cons, wordLoop_nil.
  change (default 0 ([b0; b1; b2; b3] !! Z.to_nat 0)) with b0.
  change (default 0 ([b0; b1; b2; b3] !! Z.to_nat 1)) with b1.
  change (default 0 ([b0; b1; b2; b3] !! Z.to_nat 2)) with b2.
  change (default 0 ([b0; b1; b2; b3] !! Z.to_nat 3)) with b3.
  rewrite !shiftLeft_byte by assumption.
  change (Z.land (0 * 8) 31) with 0. change (Z.land (1 * 8) 31) with 8.
  change (Z.land (2 * 8) 31) with 16. change (Z.land (3 * 8) 31) with 24.
  rewrite (bitOr_toInt32_r 0), !bitOr_both.
  rewrite Z.lor_0_l, Z.shiftl_0_r, (lanes b0 b1 b2 b3) by assumption.
  unfold decodeInt32, toInt32. cbv zeta.
  assert (0 <= decodeUint32 [b0; b1; b2; b3] < 4294967296) by (unfold decodeUint32; lia).
  rewrite Z.mod_small by assumption. reflexivity.
Qed.

Lemma wordValue_8 b0 b1 b2 b3 b4 b5 b6 b7 :
  0 <= b0 < 256 -> 0 <= b1 < 256 -> 0 <= b2 < 256 -> 0 <= b3 < 256 ->
  0 <= b4 < 256 -> 0 <= b5 < 256 -> 0 <= b6 < 256 -> 0 <= b7 < 256 ->
  wordValue [b0; b1; b2; b3; b4; b5; b6; b7] 8
  = toInt32 (Z.lor (decodeUint32 [b0; b1; b2; b3]) (decodeUint32 [b4; b5; b6; b7])).
Proof.
  intros H0 H1 H2 H3 H4 H5 H6 H7.
  unfold wordValue. change (indices 8) with [0; 1; 2; 3; 4; 5; 6; 7].
  rewrite !wordLoop_cons, wordLoop_nil.
  change (default 0 ([b0; b1; b2; b3; b4; b5; b6; b7] !! Z.to_nat 0)) with b0.
  change (default 0 ([b0; b1; b2; b3; b4; b5; b6; b7] !! Z.to_nat 1)) with b1.
  change (default 0 ([b0; b1; b2; b3; b4; b5; b6; b7] !! Z.to_nat 2)) with b2.
  change (default 0 ([b0; b1; b2; b3; b4; b5; b6; b7] !! Z.to_nat 3)) with b3.
  change (default 0 ([b0; b1; b2; b3; b4; b5; b6; b7] !! Z.to_nat 4)) with b4.
  change (default 0 ([b0; b1; b2; b3; b4; b5; b6; b7] !! Z.to_nat 5)) with b5.
  change (default 0 ([b0; b1; b2; b3; b4; b5; b6; b7] !! Z.to_nat 6)) with b6.
  change (default 0 ([b0; b1; b2; b3; b4; b5; b6; b7] !! Z.to_nat 7)) with b7.
  rewrite !shiftLeft_byte by assumption.
  change (Z.land (0 * 8) 31) with 0. change (Z.land (1 * 8) 31) with 8.
  change (Z.land (2 * 8) 31) with 16. change (Z.land (3 * 8) 31) with 24.
  change (Z.land (4 * 8) 31) with 0. change (Z.land (5 * 8) 31) with 8.
  change (Z.land (6 * 8) 31) with 16. change (Z.land (7 * 8) 31) with 24.
  rewrite (bitOr_toInt32_r 0), !bitOr_both.
  rewrite Z.lor_0_l, !Z.shiftl_0_r.
  rewrite <- (lanes b0 b1 b2 b3), <- (lanes b4 b5 b6 b7) by assumption.
  f_equal. rewrite !Z.lor_assoc. reflexivity.
Qed.

Section WithEngine.
Context {E : Type} {EN : Engine E}.

Lemma stackLoop_items (e : E) sp w idxs item :
  In item (stackLoop e sp w idxs) ->
  exists bytes, mem_read e (s_address item) w = Ok bytes
                /\ s_value item = wordValue bytes w.
Proof.
  induction idxs as [| i rest IH]; simpl; [tauto |].
  destruct (mem_read e (sp + i * w) w) as [bytes |] eqn:Hread; simpl; [| tauto].
  intros [<- | Hin]; [| exact (IH Hin)].
  exists bytes. simpl. split; [exact Hread | reflexivity].
Qed.

Lemma stackLoop_shape (e : E) sp w k n :
  let items := stackLoop e sp w (List.map Z.of_nat (seq k n)) in
  (length items <= n)%nat
  /\ List.map s_address items
     = List.map (fun i => sp + Z.of_nat i * w) (seq k (length items))
  /\ Forall (fun item => exists bytes, mem_read e (s_address item) w = Ok bytes
                                       /\ s_value item = wordValue bytes w) items
  /\ ((length items < n)%nat ->
      is_ok (mem_read e (sp + Z.of_nat (k + length items) * w) w) = false).
Proof.
  revert k. induction n as [| n IH]; intros k; simpl.
  - split; [lia |]. split; [reflexivity |]. split; [constructor | lia].
  - destruct (mem_read e (sp + Z.of_nat k * w) w) as [bytes |] eqn:Hread; simpl.
    + destruct (IH (S k)) as (Hlen & Haddr & Hall & Hstop).
      split; [lia |]. split; [| split].
      * f_equal. exact Haddr.
      * constructor; [| exact Hall]. exists bytes. simpl. split; [exact Hread | reflexivity].
      * intros Hlt. replace (k + S (length (stackLoop e sp w (List.map Z.of_nat (seq (S k) n)))))%nat
          with (S k + length (stackLoop e sp w (List.map Z.of_nat (seq (S k) n))))%nat by lia.
        apply Hstop. lia.
    + split; [lia |]. split; [reflexivity |]. split; [constructor |].
      intros _. rewrite Nat.add_0_r, Hread. reflexivity.
Qed.

End WithEngine.

End InspectorFacts.

Module InspectorProps.

Import Inspector Props InspectorFacts.

Section WithEngine.
Context {E : Type} {EN : Engine E}.

(** X1.  [getStackContents] returns at most [count] entries; they sit at the
    consecutive word addresses from the stack pointer on, each holds the word
    value of the bytes the engine returned for its address, and when fewer
    than [count] entries come back the word after the last one is the first
    the engine refused to read: nothing beyond it is looked at. *)
Theorem stack_view_stops_at_first_unreadable_word (d : Debugger E) (count : Z) :
  let sp := if is64bit d then reg_read_i64 (engine d) X86_REG_RSP
            else reg_read_i32 (engine d) X86_REG_ESP in
  let wordSize := if is64bit d then 8 else 4 in
  let items := getStackContents d count in
  Z.of_nat (length items) <= Z.max 0 count
  /\ List.map s_address items
     = List.map (fun i => sp + Z.of_nat i * wordSize) (seq 0 (length items))
  /\ Forall (fun item => exists bytes,
                 mem_read (engine d) (s_address item) wordSize = Ok bytes
                 /\ s_value item = wordValue bytes wordSize) items
  /\ (Z.of_nat (length items) < count ->
      is_ok (mem_read (engine d) (sp + Z.of_nat (length items) * wordSize) wordSize) = false).
Proof.
  intros sp wordSize items.
  pose proof (stackLoop_shape (engine d) sp wordSize 0 (Z.to_nat count)) as H.
  cbv zeta in H. fold (indices count) in H.
  change (stackLoop (engine d) sp wordSize (indices count)) with items in H.
  destruct H as (Hlen & Haddr & Hall & Hstop).
  split; [lia |]. split; [exact Haddr |]. split; [exact Hall |].
  intros Hlt. apply Hstop. lia.
Qed.

(** X2.  In 32-bit mode a stack entry holds the signed 32-bit little-endian
    word of the four bytes at its address. *)
Theorem stack_word_32_is_little_endian (d : Debugger E) (count : Z) item bytes :
  is64bit d = false ->
  In item (getStackContents d count) ->
  mem_read (engine d) (s_address item) 4 = Ok bytes ->
  bytesOfLength 4 bytes ->
  s_value item = decodeInt32 bytes.
Proof.
  intros H32 Hin Hread [Hlen Hall].
  unfold getStackContents in Hin. rewrite H32 in Hin.
  destruct (stackLoop_items _ _ _ _ _ Hin) as (bytes' & Hread' & ->).
  rewrite Hread in Hread'. injection Hread' as <-.
  destruct bytes as [| b0 [| b1 [| b2 [| b3 [| ? ?]]]]]; try discriminate.
  inversion Hall as [| ? ? H0 Hall1]; subst.
  inversion Hall1 as [| ? ? H1 Hall2]; subst.
  inversion Hall2 as [| ? ? H2 Hall3]; subst.
  inversion Hall3 as [| ? ? H3 _]; subst.
  apply wordValue_4; assumption.
Qed.

(** X3.  In 64-bit mode a stack entry does not hold the 64-bit word at its
    address: the shift count of [<<] wraps at 32, so the high four bytes are
    or-ed onto the low four, and the entry is the signed 32-bit reading of
    that.  It always lies in the int32 range, and it is the low word exactly
    when the high bytes add no bit to it. *)
Theorem stack_word_64_folds_high_half (d : Debugger E) (count : Z) item bytes :
  is64bit d = true ->
  In item (getStackContents d count) ->
  mem_read (engine d) (s_address item) 8 = Ok bytes ->
  bytesOfLength 8 bytes ->
  s_value item = toInt32 (Z.lor (decodeUint32 (take 4 bytes)) (decodeUint32 (drop 4 bytes)))
  /\ -2147483648 <= s_value item < 2147483648
  /\ (drop 4 bytes = [0; 0; 0; 0] -> s_value item = decodeInt32 (take 4 bytes)).
Proof.
  intros H64 Hin Hread [Hlen Hall].
  unfold getStackContents in Hin. rewrite H64 in Hin.
  destruct (stackLoop_items _ _ _ _ _ Hin) as (bytes' & Hread' & Hval).
  rewrite Hread in Hread'. injection Hread' as <-.
  destruct bytes as [| b0 [| b1 [| b2 [| b3 [| b4 [| b5 [| b6 [| b7 [| ? ?]]]]]]]]];
    try discriminate.
  inversion Hall as [| ? ? H0 Hall1]; subst.
  inversion Hall1 as [| ? ? H1 Hall2]; subst.
  inversion Hall2 as [| ? ? H2 Hall3]; subst.
  inversion Hall3 as [| ? ? H3 Hall4]; subst.
  inversion Hall4 as [| ? ? H4 Hall5]; subst.
  inversion Hall5 as [| ? ? H5 Hall6]; subst.
  inversion Hall6 as [| ? ? H6 Hall7]; subst.
  inversion Hall7 as [| ? ? H7 _]; subst.
  rewrite Hval, wordValue_8 by assumption.
  cbn [take drop].
  split; [reflexivity |]. split; [apply toInt32_range |].
  intros Hhigh. injection Hhigh as -> -> -> ->.
  change (decodeUint32 [0; 0; 0; 0]) with 0. rewrite Z.lor_0_r.
  unfold decodeInt32, toInt32. cbv zeta.
  assert (0 <= decodeUint32 [b0; b1; b2; b3] < 4294967296) by (unfold decodeUint32; lia).
  rewrite Z.mod_small by assumption. reflexivity.
Qed.

End WithEngine.

Lemma stack_word_32_is_little_endian_witness :
  let item := {| s_address := 0x8800; s_value := -16 |} in
  In item (@getStackContents _ Sim.engine Samples.narrowDebugger 2)
  /\ s_value item = decodeInt32 [0xF0; 0xFF; 0xFF; 0xFF].
Proof.
  intros item.
  assert (Hin : In item (@getStackContents _ Sim.engine Samples.narrowDebugger 2))
    by (vm_compute; left; reflexivity).
  split; [exact Hin |].
  apply (@stack_word_32_is_little_endian _ Sim.engine Samples.narrowDebugger 2 item
           [0xF0; 0xFF; 0xFF; 0xFF]).
  - reflexivity.
  - exact Hin.
  - reflexivity.
  - split; [reflexivity |].
    repeat (apply List.Forall_cons; [lia |]). apply List.Forall_nil.
Defined.

Lemma stack_word_64_folds_high_half_witness :
  let item := {| s_address := 0x8800; s_value := 0x0C070605 |} in
  In item (@getStackContents _ Sim.engine Samples.wideDebugger 2)
  /\ s_value item = toInt32 (Z.lor (decodeUint32 [1; 2; 3; 4]) (decodeUint32 [5; 6; 7; 8]))
  /\ s_value item <> littleEndian [1; 2; 3; 4; 5; 6; 7; 8].
Proof.
  intros item.
  assert (Hin : In item (@getStackContents _ Sim.engine Samples.wideDebugger 2))
    by (vm_compute; left; reflexivity).
  split; [exact Hin |]. split; [| vm_compute; discriminate].
  apply (@stack_word_64_folds_high_half _ Sim.engine Samples.wideDebugger 2 item
           [1; 2; 3; 4; 5; 6; 7; 8]).
  - reflexivity.
  - exact Hin.
  - reflexivity.
  - split; [reflexivity |].
    repeat (apply List.Forall_cons; [lia |]). apply List.Forall_nil.
Defined.

End InspectorProps.

(* ------------------------------------------------------------------ *)
(** ** Regular expressions on text                                      *)
(* ------------------------------------------------------------------ *)

Module TextFacts.

Import Text Props.

Local Open Scope string_scope.

Lemma rep_unfold p greedy min s k :
  rep p greedy min s k
  = let more := match s with
                | String c r => if p c then rep p greedy (Nat.pred min) r k else None
                | EmptyString => None
                end in
    match min with
    | S _ => more
    | O => if greedy
           then match more with Some caps => Some caps | None => k s end
           else match k s with Some caps => Some caps | None => more end
    end.
Proof. destruct s; reflexivity. Qed.

Lemma search_unfold r s :
  search r s
  = match matchRe r s [] (fun _ caps => Some caps) with
    | Some caps => Some caps
    | None => match s with
              | String _ rest => search r rest
              | EmptyString => None
              end
    end.
Proof. destruct s; reflexivity. Qed.

Lemma append_nil (b : string) : "" ++ b = b.
Proof. reflexivity. Qed.

Lemma append_cons x (a b : string) : String x a ++ b = String x (a ++ b).
Proof. reflexivity. Qed.

Lemma append_assoc (a b c : string) : (a ++ b) ++ c = a ++ (b ++ c).
Proof.
  induction a as [| x a IH]; [reflexivity |].
  rewrite !append_cons, IH. reflexivity.
Qed.

Lemma length_append (a b : string) :
  String.length (a ++ b) = (String.length a + String.length b)%nat.
Proof.
  induction a as [| x a IH]; [reflexivity |].
  rewrite append_cons. simpl. rewrite IH. reflexivity.
Qed.

Lemma substring_prefix (a b : string) :
  substring 0 (String.length (a ++ b) - String.length b) (a ++ b) = a.
Proof.
  rewrite length_append.
  replace (String.length a + String.length b - String.length b)%nat
    with (String.length a) by lia.
  induction a as [| x a IH].
  - rewrite append_nil. destruct b; reflexivity.
  - rewrite append_cons. simpl. rewrite IH. reflexivity.
Qed.

(** A greedy repetition takes the whole run when the rest of the pattern
    matches after it. *)
Lemma rep_greedy_max p w tail min k caps :
  allChars p w = true -> headFails p tail = true ->
  (min <= String.length w)%nat -> k tail = Some caps ->
  rep p true min (w ++ tail) k = Some caps.
Proof.
  revert min. induction w as [| c w IH]; intros min Hall Hhead Hmin Hk.
  - simpl in Hmin. assert (min = 0%nat) as -> by lia. rewrite append_nil.
    rewrite rep_unfold. cbv zeta.
    destruct tail as [| c t]; simpl in *; [rewrite Hk; reflexivity |].
    apply negb_true_iff in Hhead. rewrite Hhead, Hk. reflexivity.
  - simpl in Hall. apply andb_true_iff in Hall as [Hc Hall].
    rewrite append_cons, rep_unfold. cbv zeta. rewrite Hc.
    rewrite (IH (Nat.pred min) Hall Hhead ltac:(simpl in Hmin; lia) Hk).
    destruct min; reflexivity.
Qed.

(** White space followed by a literal fails on text that reaches a
    character that is neither before the literal is seen. *)
Lemma rep_ws_then_lit_fails c q tail k :
  allChars (fun x => negb (Ascii.eqb c x)) q = true ->
  headFails isWhiteSpace tail = true ->
  headFails (Ascii.eqb c) tail = true ->
  rep isWhiteSpace true 0 (q ++ tail) (litK c k) = None.
Proof.
  intros Hq Hws Hlit. induction q as [| x q IH].
  - rewrite append_nil, rep_unfold. cbv zeta.
    destruct tail as [| y t]; simpl in *; [reflexivity |].
    apply negb_true_iff in Hws, Hlit. rewrite Hws, Hlit. reflexivity.
  - simpl in Hq. apply andb_true_iff in Hq as [Hx Hq].
    rewrite append_cons, rep_unfold. cbv zeta. simpl Nat.pred.
    rewrite (IH Hq). apply negb_true_iff in Hx.
    destruct (isWhiteSpace x); simpl; rewrite Hx; reflexivity.
Qed.

Lemma word_not_space c : isWordChar c = true -> isWhiteSpace c = false.
Proof.
  destruct c as [[] [] [] [] [] [] [] []]; vm_compute; congruence.
Qed.

Lemma space_not_word c : isWhiteSpace c = true -> isWordChar c = false.
Proof.
  destruct c as [[] [] [] [] [] [] [] []]; vm_compute; congruence.
Qed.

Lemma word_not_paren c : isWordChar c = true -> Ascii.eqb "(" c = false.
Proof.
  destruct c as [[] [] [] [] [] [] [] []]; vm_compute; congruence.
Qed.

End TextFacts.

(* ------------------------------------------------------------------ *)
(** ** Source highlighting                                              *)
(* ------------------------------------------------------------------ *)

Module NameFacts.

Import Text Props Highlight TextFacts.

Local Open Scope string_scope.

(** [functionNameRe] at the start of [s], as the two repetitions and the
    literal it is made of. *)
Lemma functionNameRe_unfold s k :
  matchRe functionNameRe s [] k
  = rep isWordChar true 1 s
        (fun s' => rep isWhiteSpace true 0 s'
                       (litK "(" (fun r' => k r' [substring 0 (String.length s - String.length s') s]))).
Proof. reflexivity. Qed.

(** No match starts inside text that holds no parenthesis and ends with a
    character that is no word character, when a word follows. *)
Lemma word_run_fails q tail min (F : string -> string -> option (list string)) :
  q <> "" ->
  allChars notParen q = true -> endsWithWord q = false ->
  headFails isWordChar tail = false ->
  rep isWordChar true min (q ++ tail)
      (fun s' => rep isWhiteSpace true 0 s' (litK "(" (F s'))) = None.
Proof.
  intros Hne Hq Hend Htail. revert min.
  assert (Htail_ws : headFails isWhiteSpace tail = true).
  { destruct tail as [| y t]; [discriminate |]. unfold headFails in *.
    apply negb_false_iff in Htail. rewrite (word_not_space _ Htail). reflexivity. }
  assert (Htail_lit : headFails (Ascii.eqb "(") tail = true).
  { destruct tail as [| y t]; [discriminate |]. unfold headFails in *.
    apply negb_false_iff in Htail. rewrite (word_not_paren _ Htail). reflexivity. }
  induction q as [| c q IH]; [congruence |]. intros min.
  simpl in Hq. apply andb_true_iff in Hq as [Hc Hq].
  rewrite append_cons, rep_unfold. cbv zeta.
  assert (Hhere : rep isWhiteSpace true 0 (String c (q ++ tail))
                      (litK "(" (F (String c (q ++ tail)))) = None).
  { rewrite <- append_cons. apply rep_ws_then_lit_fails; [| assumption | assumption].
    change (notParen c && allChars notParen q = true). rewrite Hc, Hq. reflexivity. }
  destruct (isWordChar c) eqn:Hword.
  - destruct q as [| c' q'].
    + simpl in Hend. congruence.
    + rewrite IH; [| discriminate | assumption | exact Hend].
      destruct min; [exact Hhere | reflexivity].
  - destruct min; [exact Hhere | reflexivity].
Qed.

Lemma functionNameRe_fails_before q tail k :
  q <> "" ->
  allChars notParen q = true -> endsWithWord q = false ->
  headFails isWordChar tail = false ->
  matchRe functionNameRe (q ++ tail) [] k = None.
Proof.
  intros. rewrite functionNameRe_unfold.
  apply (word_run_fails q tail 1
           (fun s' r' => k r' [substring 0 (String.length (q ++ tail) - String.length s')
                                         (q ++ tail)])); assumption.
Qed.

Lemma functionNameRe_matches name ws post :
  name <> "" -> allChars isWordChar name = true -> allChars isWhiteSpace ws = true ->
  matchRe functionNameRe (name ++ ws ++ "(" ++ post) [] (fun _ caps => Some caps)
  = Some [name].
Proof.
  intros Hne Hname Hws. rewrite functionNameRe_unfold.
  apply rep_greedy_max.
  - exact Hname.
  - destruct ws as [| c ws']; [reflexivity |].
    simpl in Hws. apply andb_true_iff in Hws as [Hc _].
    rewrite append_cons. simpl. rewrite (space_not_word _ Hc). reflexivity.
  - destruct name; [congruence | simpl; lia].
  - apply rep_greedy_max; [exact Hws | reflexivity | lia |].
    simpl. rewrite substring_prefix. reflexivity.
Qed.

Lemma search_skips_prefix q name ws post :
  allChars notParen q = true -> endsWithWord q = false ->
  name <> "" -> allChars isWordChar name = true -> allChars isWhiteSpace ws = true ->
  search functionNameRe (q ++ name ++ ws ++ "(" ++ post) = Some [name].
Proof.
  intros Hq Hend Hne Hname Hws.
  induction q as [| c q IH].
  - rewrite append_nil, search_unfold, functionNameRe_matches by assumption. reflexivity.
  - rewrite search_unfold.
    rewrite functionNameRe_fails_before; [| discriminate | assumption | assumption |].
    + rewrite append_cons. apply IH.
      * simpl in Hq. apply andb_true_iff in Hq as [_ Hq]. exact Hq.
      * destruct q; [reflexivity | exact Hend].
    + destruct name as [| x name']; [congruence |].
      simpl in Hname. apply andb_true_iff in Hname as [Hx _].
      rewrite append_cons. simpl. rewrite Hx. reflexivity.
Qed.

End NameFacts.

Module NameProps.

Import Text Props Highlight TextFacts NameFacts.

Local Open Scope string_scope.

(** X4.  On a line [before name ( ...] the name extracted is [name], the word
    in front of the first parenthesis: [name] is a non-empty run of word
    characters, white space may separate it from the parenthesis, and [before]
    holds no parenthesis and does not end in a word character, so that the run
    is whole.  Return types and qualifiers in [before] do not matter. *)
Theorem function_name_is_word_before_first_parenthesis (before name ws rest : string) :
  allChars notParen before = true ->
  endsWithWord before = false ->
  name <> "" ->
  allChars isWordChar name = true ->
  allChars isWhiteSpace ws = true ->
  extractFunctionName (before ++ name ++ ws ++ "(" ++ rest) = name.
Proof.
  intros Hq Hend Hne Hname Hws. unfold extractFunctionName.
  rewrite search_skips_prefix by assumption. reflexivity.
Qed.

Lemma function_name_is_word_before_first_parenthesis_witness :
  extractFunctionName ("static inline int " ++ "add" ++ " " ++ "(" ++ "int a, int b) {")
  = "add".
Proof.
  apply function_name_is_word_before_first_parenthesis;
    [reflexivity | reflexivity | discriminate | reflexivity | reflexivity].
Defined.

End NameProps.

Module ScanFacts.

Import Text Props Highlight.

Lemma keyOf_alter lineNum current fs :
  List.map keyOf (alter (setEndLine lineNum) current fs) = List.map keyOf fs.
Proof.
  revert current. induction fs as [| f fs IH]; intros [| current]; simpl; try reflexivity.
  f_equal. apply IH.
Qed.

Lemma scanLine_keys st i line :
  List.map keyOf (functions (scanLine st i line))
  = List.map keyOf (functions st)
    ++ (if startsFunction (trim line)
        then [(Z.of_nat i + 1, extractFunctionName (trim line))] else []).
Proof.
  unfold scanLine. cbv zeta.
  destruct (startsFunction (trim line)); simpl.
  - rewrite List.map_app. reflexivity.
  - rewrite app_nil_r. destruct (currentFunction st) as [current |]; [| reflexivity].
    destruct (_ =? 0); simpl; [apply keyOf_alter | reflexivity].
Qed.

Lemma scanLine_scanned st i line : scanned st i -> scanned (scanLine st i line) (S i).
Proof.
  intros (Hall & Hpair & Hcur).
  assert (Hall' : Forall (fun f => 1 <= startLine f <= endLine f
                                   /\ endLine f <= Z.of_nat (S i)) (functions st)).
  { eapply List.Forall_impl; [| exact Hall]. simpl. intros f ?. lia. }
  unfold scanLine. cbv zeta.
  destruct (startsFunction (trim line)).
  - split; [| split]; simpl.
    + apply Forall_app. split; [exact Hall' |].
      constructor; [simpl; lia | constructor].
    + intros j k f g Hjk Hf Hg.
      apply lookup_app_Some in Hg as [Hg | [Hlen Hg]].
      * apply lookup_app_Some in Hf as [Hf | [Hlen' _]];
          [exact (Hpair j k f g Hjk Hf Hg) |].
        apply lookup_lt_Some in Hg. lia.
      * destruct (k - length (functions st))%nat eqn:Hk; [| discriminate].
        apply lookup_app_Some in Hf as [Hf | [Hlen' _]]; [| lia].
        injection Hg as <-. simpl.
        rewrite Forall_lookup in Hall. specialize (Hall j f Hf). simpl in Hall. lia.
    + intros current [= <-]. rewrite length_app. simpl. lia.
  - destruct (currentFunction st) as [current |] eqn:Hc.
    2: { split; [exact Hall' | split; [exact Hpair |]]. rewrite Hc. discriminate. }
    specialize (Hcur current eq_refl).
    destruct (_ =? 0); simpl.
    + split; [| split]; simpl.
      * apply Forall_alter; [exact Hall' |].
        intros f Hf [H1 H2]. simpl. rewrite Forall_lookup in Hall.
        specialize (Hall current f Hf). simpl in Hall. lia.
      * intros j k f g Hjk Hf Hg.
        assert (k < length (functions st))%nat.
        { apply lookup_lt_Some in Hg. rewrite length_alter in Hg. exact Hg. }
        rewrite list_lookup_alter_ne in Hf by lia.
        rewrite list_lookup_alter in Hg.
        destruct (decide (current = k)) as [-> | Hne].
        -- destruct (functions st !! k) as [g0 |] eqn:Hg0; [| discriminate].
           injection Hg as <-. simpl. exact (Hpair j k f g0 Hjk Hf Hg0).
        -- exact (Hpair j k f g Hjk Hf Hg).
      * discriminate.
    + split; [exact Hall' | split; [exact Hpair |]].
      simpl. intros ? [= <-]. exact Hcur.
Qed.

Lemma scanLines_scanned lines i st :
  scanned st i ->
  scanned (scanLines lines i st) (i + length lines)
  /\ List.map keyOf (functions (scanLines lines i st))
     = List.map keyOf (functions st) ++ headerLines lines i.
Proof.
  revert i st. induction lines as [| line rest IH]; intros i st Hst; simpl.
  - rewrite Nat.add_0_r, app_nil_r. split; [exact Hst | reflexivity].
  - destruct (IH (S i) _ (scanLine_scanned st i line Hst)) as [Hs Hk].
    replace (i + S (length rest))%nat with (S i + length rest)%nat by lia.
    split; [exact Hs |]. rewrite Hk, scanLine_keys, <- app_assoc.
    destruct (startsFunction (trim line)); reflexivity.
Qed.

End ScanFacts.

Module ScanProps.

Import Text Props Highlight ScanFacts.

(** X5.  [extractCFunctions] returns one entry for each line that opens a
    function, in order, with the number of that line and the name read from
    it.  Each entry is a range of lines inside the text that starts at its
    opening line, and the ranges follow one another without overlap: every
    entry ends before the next one starts. *)
Theorem c_function_ranges_follow_header_lines (lines : list string) :
  let fs := extractCFunctions lines in
  List.map (fun f => (startLine f, cf_name f)) fs = headerLines lines 0
  /\ Forall (fun f => 1 <= startLine f <= endLine f
                      /\ endLine f <= Z.of_nat (length lines)) fs
  /\ (forall j k f g, (j < k)%nat -> fs !! j = Some f -> fs !! k = Some g ->
                      endLine f < startLine g).
Proof.
  intros fs.
  assert (Hinit : scanned {| functions := []; braceDepth := 0; currentFunction := None |} 0).
  { split; [constructor | split; [intros ? ? ? ? ? Hf; discriminate Hf | discriminate]]. }
  destruct (scanLines_scanned lines 0 _ Hinit) as [(Hall & Hpair & _) Hkeys].
  split; [exact Hkeys |]. split; [exact Hall | exact Hpair].
Qed.

End ScanProps.

Module BlockFacts.

Import Text Props Highlight.

Lemma detect_close l :
  detectAssemblyFunctionBoundaries l
  = close (fst (boundaryLoop None l None [])) (last l) (snd (boundaryLoop None l None [])).
Proof.
  unfold detectAssemblyFunctionBoundaries, close.
  destruct (boundaryLoop None l None []) as [cur bs]. reflexivity.
Qed.

Lemma address_of_nonzero x : i_address x <> 0 -> getInstructionAddress x = Some (i_address x).
Proof.
  intros H. unfold getInstructionAddress.
  destruct (i_address x =? 0) eqn:E; [apply Z.eqb_eq in E; congruence | reflexivity].
Qed.

Lemma ascendingFrom_above low l x : ascendingFrom low l -> In x l -> low < i_address x.
Proof.
  revert low. induction l as [| y rest IH]; intros low Hasc Hin; [destruct Hin |].
  destruct Hasc as [Hy Hrest]. destruct Hin as [<- | Hin]; [exact Hy |].
  specialize (IH _ Hrest Hin). lia.
Qed.

Lemma ascendingFrom_weaken low low' l : low' <= low -> ascendingFrom low l -> ascendingFrom low' l.
Proof. destruct l; simpl; [tauto |]. intros ? [? ?]. split; [lia | assumption]. Qed.

(** Inside an open block the loop and its closing step produce the blocks
    of the rest of the listing. *)
Lemma loop_open l p s bs :
  0 < i_address p -> ascendingFrom (i_address p) l ->
  close (fst (boundaryLoop (Some p) l (Some s) bs)) (last (p :: l))
        (snd (boundaryLoop (Some p) l (Some s) bs))
  = bs ++ blocksFrom s (i_address p) l.
Proof.
  revert p s bs. induction l as [| x rest IH]; intros p s bs Hp Hasc.
  - simpl. unfold close. rewrite address_of_nonzero by lia. reflexivity.
  - destruct Hasc as [Hx Hrest]. rewrite last_cons_cons. simpl.
    destruct (pushesFramePointer x).
    + rewrite (address_of_nonzero p), (address_of_nonzero x) by lia.
      rewrite IH by (assumption || lia). rewrite <- app_assoc. reflexivity.
    + apply IH; [lia | assumption].
Qed.

Lemma loop_closed l prev bs low :
  0 <= low -> ascendingFrom low l ->
  close (fst (boundaryLoop prev l None bs)) (last l) (snd (boundaryLoop prev l None bs))
  = bs ++ blocks l.
Proof.
  revert prev low. induction l as [| x rest IH]; intros prev low Hlow Hasc.
  - simpl. rewrite app_nil_r. reflexivity.
  - destruct Hasc as [Hx Hrest]. simpl.
    destruct (pushesFramePointer x).
    + rewrite (address_of_nonzero x) by lia.
      apply loop_open; [lia | assumption].
    + rewrite last_cons.
      destruct rest as [| y rest'].
      * simpl. rewrite app_nil_r. reflexivity.
      * rewrite <- (IH (Some x) (i_address x)) by (assumption || lia).
        destruct (last (y :: rest')) eqn:Hlast; [reflexivity |].
        apply last_None in Hlast. discriminate.
Qed.

Lemma detect_blocks l : ascendingAddresses l -> detectAssemblyFunctionBoundaries l = blocks l.
Proof.
  intros Hasc. rewrite detect_close.
  rewrite (loop_closed l None [] 0) by (assumption || lia). reflexivity.
Qed.

Lemma chained_pairwise bs :
  chained bs ->
  Forall (fun b => startAddr b <= endAddr b) bs
  /\ forall j k b c, (j < k)%nat -> bs !! j = Some b -> bs !! k = Some c ->
                     endAddr b < startAddr c.
Proof.
  induction bs as [| a rest IH]; intros Hch.
  - split; [constructor | intros ? ? ? ? ? Hb; discriminate Hb].
  - destruct Hch as (Ha & Hlater & Hrest). destruct (IH Hrest) as [Hall Hpair].
    split; [constructor; assumption |].
    intros j k b c Hjk Hb Hc. destruct k as [| k]; [lia |]. simpl in Hc.
    destruct j as [| j].
    + injection Hb as <-. rewrite Forall_lookup in Hlater. exact (Hlater k c Hc).
    + simpl in Hb. apply (Hpair j k b c); [lia | assumption | assumption].
Qed.

Lemma blocksFrom_shape l s a :
  s <= a -> ascendingFrom a l ->
  exists e rest, blocksFrom s a l = {| startAddr := s; endAddr := e |} :: rest
                 /\ a <= e
                 /\ Forall (fun c => e < startAddr c) rest
                 /\ chained rest.
Proof.
  revert s a. induction l as [| x l IH]; intros s a Hsa Hasc.
  - exists a, []. simpl. repeat split; [lia | constructor].
  - destruct Hasc as [Hx Hrest]. simpl. destruct (pushesFramePointer x).
    + destruct (IH (i_address x) (i_address x) ltac:(lia) Hrest)
        as (e & rest & -> & He & Hlater & Hch).
      exists a, ({| startAddr := i_address x; endAddr := e |} :: rest).
      split; [reflexivity |]. split; [lia |]. split.
      * constructor; [simpl; lia |].
        eapply List.Forall_impl; [| exact Hlater]. simpl. intros c ?. lia.
      * simpl. split; [lia | split; assumption].
    + destruct (IH s (i_address x) ltac:(lia) Hrest) as (e & rest & -> & He & Hlater & Hch).
      exists e, rest. split; [reflexivity |]. split; [lia |]. split; assumption.
Qed.

Lemma blocksFrom_chained l s a : s <= a -> ascendingFrom a l -> chained (blocksFrom s a l).
Proof.
  intros Hsa Hasc.
  destruct (blocksFrom_shape l s a Hsa Hasc) as (e & rest & -> & He & Hlater & Hch).
  simpl. split; [lia | split; assumption].
Qed.

Lemma blocks_chained l low : ascendingFrom low l -> chained (blocks l).
Proof.
  revert low. induction l as [| x l IH]; intros low Hasc; [exact I |].
  destruct Hasc as [Hx Hrest]. simpl. destruct (pushesFramePointer x).
  - apply blocksFrom_chained; [lia | assumption].
  - exact (IH _ Hrest).
Qed.

Lemma blocksFrom_starts l s a :
  List.map startAddr (blocksFrom s a l)
  = s :: List.map i_address (List.filter pushesFramePointer l).
Proof.
  revert s a. induction l as [| x l IH]; intros s a; [reflexivity |].
  simpl. destruct (pushesFramePointer x); simpl; rewrite IH; reflexivity.
Qed.

Lemma blocks_starts l :
  List.map startAddr (blocks l) = List.map i_address (List.filter pushesFramePointer l).
Proof.
  induction l as [| x l IH]; [reflexivity |].
  simpl. destruct (pushesFramePointer x); simpl; [apply blocksFrom_starts | exact IH].
Qed.

(** The open block and the later ones cover the rest of the listing. *)
Lemma blocksFrom_cover l s a x :
  s <= a -> ascendingFrom a l -> In x l ->
  exists b, In b (blocksFrom s a l) /\ inBlock b x.
Proof.
  revert s a. induction l as [| y l IH]; intros s a Hsa Hasc Hin; [destruct Hin |].
  destruct Hasc as [Hy Hrest]. simpl. destruct Hin as [-> | Hin].
  - destruct (pushesFramePointer x).
    + destruct (blocksFrom_shape l (i_address x) (i_address x) ltac:(lia) Hrest)
        as (e & rest & -> & He & _).
      eexists. split; [right; left; reflexivity |]. unfold inBlock. simpl. lia.
    + destruct (blocksFrom_shape l s (i_address x) ltac:(lia) Hrest)
        as (e & rest & -> & He & _).
      eexists. split; [left; reflexivity |]. unfold inBlock. simpl. lia.
  - destruct (pushesFramePointer y).
    + destruct (IH (i_address y) (i_address y) ltac:(lia) Hrest Hin) as (b & Hb & Hx).
      exists b. split; [right; exact Hb | exact Hx].
    + exact (IH s (i_address y) ltac:(lia) Hrest Hin).
Qed.

Lemma blocks_cover l low p x :
  ascendingFrom low l ->
  In p l -> pushesFramePointer p = true -> In x l -> i_address p <= i_address x ->
  exists b, In b (blocks l) /\ inBlock b x.
Proof.
  revert low. induction l as [| y l IH]; intros low Hasc Hp Hpush Hx Hle; [destruct Hp |].
  destruct Hasc as [Hy Hrest]. simpl.
  destruct (pushesFramePointer y) eqn:Hpy.
  - destruct Hx as [-> | Hx].
    + destruct (blocksFrom_shape l (i_address x) (i_address x) ltac:(lia) Hrest)
        as (e & rest & -> & He & _).
      eexists. split; [left; reflexivity |]. unfold inBlock. simpl. lia.
    + apply blocksFrom_cover; [lia | assumption | assumption].
  - destruct Hp as [-> | Hp]; [congruence |].
    destruct Hx as [-> | Hx].
    + pose proof (ascendingFrom_above _ _ _ Hrest Hp). lia.
    + exact (IH _ Hrest Hp Hpush Hx Hle).
Qed.

End BlockFacts.

Module BlockProps.

Import Text Props Highlight BlockFacts.

(** X6.  On a listing with positive, ascending addresses
    [detectAssemblyFunctionBoundaries] cuts the instructions from the first
    frame-pointer push on into consecutive blocks: one block per push, in
    order, starting at the address of the push; each block is a range; a block
    ends below the start of every later block; and every instruction at or
    after a push lies in one of the blocks. *)
Theorem assembly_blocks_partition_listing (l : list AsmInstruction) :
  ascendingAddresses l ->
  let bs := detectAssemblyFunctionBoundaries l in
  List.map startAddr bs = List.map i_address (List.filter pushesFramePointer l)
  /\ Forall (fun b => startAddr b <= endAddr b) bs
  /\ (forall j k b c, (j < k)%nat -> bs !! j = Some b -> bs !! k = Some c ->
                      endAddr b < startAddr c)
  /\ (forall p x, In p l -> pushesFramePointer p = true -> In x l ->
                  i_address p <= i_address x ->
                  exists b, In b bs /\ inBlock b x).
Proof.
  intros Hasc bs. subst bs. rewrite (detect_blocks l Hasc).
  split; [apply blocks_starts |].
  destruct (chained_pairwise _ (blocks_chained l 0 Hasc)) as [Hall Hpair].
  split; [exact Hall |]. split; [exact Hpair |].
  intros p x Hp Hpush Hx Hle. exact (blocks_cover l 0 p x Hasc Hp Hpush Hx Hle).
Qed.

Lemma assembly_blocks_partition_listing_witness :
  ascendingAddresses Samples.sampleListing
  /\ List.map startAddr (detectAssemblyFunctionBoundaries Samples.sampleListing)
     = [0x10000001; 0x10000006]
  /\ Forall (fun b => startAddr b <= endAddr b)
            (detectAssemblyFunctionBoundaries Samples.sampleListing).
Proof.
  assert (Hasc : ascendingAddresses Samples.sampleListing)
    by (unfold ascendingAddresses; simpl; lia).
  destruct (assembly_blocks_partition_listing Samples.sampleListing Hasc)
    as (Hstarts & Hrange & _).
  split; [exact Hasc |]. split; [rewrite Hstarts; reflexivity | exact Hrange].
Defined.

End BlockProps.

Module MappingFacts.

Import Text Props Highlight BlockFacts.

Lemma fold_mapInstruction_lookup cFunc asmFunc instrs m key :
  fold_left (mapInstruction cFunc asmFunc) instrs m !! key
  = if hits asmFunc instrs key then Some (infoOf cFunc) else m !! key.
Proof.
  revert m. induction instrs as [| instr rest IH]; intros m; [reflexivity |].
  simpl. rewrite IH. unfold mapInstruction. cbv zeta.
  destruct (hits asmFunc rest key); [rewrite orb_true_r; reflexivity |].
  rewrite orb_false_r.
  destruct (bool_decide (getInstructionAddress instr = key)) eqn:Hkey.
  - apply bool_decide_eq_true in Hkey. rewrite Hkey. simpl.
    destruct ((startAddr asmFunc <=? default 0 key) && (default 0 key <=? endAddr asmFunc)).
    + apply lookup_insert_eq.
    + reflexivity.
  - apply bool_decide_eq_false in Hkey. simpl.
    destruct ((startAddr asmFunc <=? default 0 (getInstructionAddress instr))
              && (default 0 (getInstructionAddress instr) <=? endAddr asmFunc)).
    + apply lookup_insert_ne. exact Hkey.
    + reflexivity.
Qed.

Lemma create_lookup_missed cs bs instrs m key :
  (forall j c b, cs !! j = Some c -> bs !! j = Some b -> hits b instrs key = false) ->
  createSimpleFunctionMapping cs bs instrs m !! key = m !! key.
Proof.
  revert bs m. induction cs as [| c cs IH]; intros [| b bs] m Hmiss; try reflexivity.
  simpl. rewrite IH.
  - rewrite fold_mapInstruction_lookup, (Hmiss 0%nat c b eq_refl eq_refl). reflexivity.
  - intros j c' b' Hc Hb. exact (Hmiss (S j) c' b' Hc Hb).
Qed.

Lemma create_lookup_hit cs bs instrs m key i c b :
  cs !! i = Some c -> bs !! i = Some b -> hits b instrs key = true ->
  (forall j c' b', j <> i -> cs !! j = Some c' -> bs !! j = Some b' ->
                   hits b' instrs key = false) ->
  createSimpleFunctionMapping cs bs instrs m !! key = Some (infoOf c).
Proof.
  revert bs m i. induction cs as [| c0 cs IH]; intros [| b0 bs] m i Hc Hb Hhit Hothers;
    try discriminate.
  simpl. destruct i as [| i].
  - injection Hc as ->. injection Hb as ->.
    rewrite create_lookup_missed.
    + rewrite fold_mapInstruction_lookup, Hhit. reflexivity.
    + intros j c' b' Hc' Hb'. exact (Hothers (S j) c' b' ltac:(lia) Hc' Hb').
  - apply (IH bs _ i); [exact Hc | exact Hb | exact Hhit |].
    intros j c' b' Hne Hc' Hb'. exact (Hothers (S j) c' b' ltac:(lia) Hc' Hb').
Qed.

(** A key that the mapping holds was hit by some pair. *)
Lemma create_lookup_Some cs bs instrs key info :
  createSimpleFunctionMapping cs bs instrs ∅ !! key = Some info ->
  exists i c b, cs !! i = Some c /\ bs !! i = Some b /\ hits b instrs key = true.
Proof.
  intros Hlook.
  destruct (existsb (fun cb => hits (snd cb) instrs key) (zip cs bs)) eqn:Hex.
  - apply existsb_exists in Hex as ([c b] & Hin & Hhit).
    apply list_elem_of_In, list_elem_of_lookup in Hin as [i Hi].
    apply lookup_zip_Some in Hi as [Hc Hb].
    exists i, c, b. split; [exact Hc | split; [exact Hb | exact Hhit]].
  - rewrite create_lookup_missed in Hlook; [rewrite lookup_empty in Hlook; discriminate |].
    intros j c b Hc Hb.
    destruct (hits b instrs key) eqn:Hhit; [| reflexivity].
    assert (existsb (fun cb => hits (snd cb) instrs key) (zip cs bs) = true);
      [| congruence].
    apply existsb_exists. exists (c, b). split; [| exact Hhit].
    apply list_elem_of_In, list_elem_of_lookup. exists j.
    apply lookup_zip_Some. split; assumption.
Qed.

Lemma hits_spec b instrs key :
  hits b instrs key = true <->
  exists instr, In instr instrs /\ getInstructionAddress instr = key
                /\ startAddr b <= default 0 key <= endAddr b.
Proof.
  unfold hits. rewrite existsb_exists. split.
  - intros (instr & Hin & H). apply andb_true_iff in H as [H H2].
    apply andb_true_iff in H as [H0 H1]. apply bool_decide_eq_true in H0.
    exists instr. split; [exact Hin | split; [exact H0 | lia]].
  - intros (instr & Hin & H0 & H1). exists instr. split; [exact Hin |].
    apply andb_true_iff. split; [apply andb_true_iff; split |];
      [apply bool_decide_eq_true; exact H0 | lia | lia].
Qed.

Lemma mapAssemblyToC_creates m code instrs i c b :
  code <> EmptyString ->
  extractCFunctions (splitLines code) !! i = Some c ->
  detectAssemblyFunctionBoundaries instrs !! i = Some b ->
  mapAssemblyToC m code instrs
  = createSimpleFunctionMapping (extractCFunctions (splitLines code))
                                (detectAssemblyFunctionBoundaries instrs) instrs m.
Proof.
  intros Hcode Hc Hb. unfold mapAssemblyToC.
  destruct (String.eqb code EmptyString) eqn:E; [apply String.eqb_eq in E; congruence |].
  cbv zeta. destruct (_ =? _)%nat; [reflexivity |].
  apply lookup_lt_Some in Hc, Hb.
  destruct (0 <? length (extractCFunctions (splitLines code)))%nat eqn:E1;
    [| apply Nat.ltb_ge in E1; lia].
  destruct (0 <? length (detectAssemblyFunctionBoundaries instrs))%nat eqn:E2;
    [| apply Nat.ltb_ge in E2; lia].
  reflexivity.
Qed.

End MappingFacts.

Module MappingProps.

Import Text Props Highlight BlockFacts MappingFacts.

(** X7.  [mapAssemblyToC] pairs C functions and assembly blocks by rank.  On a
    listing with positive, ascending addresses, every instruction that lies in
    the block of rank [i] is mapped to the name and the line range of the C
    function of rank [i], whatever the names are; a block without a C function
    of its rank, and the instructions before the first block, stay unmapped.
    *)
Theorem instruction_maps_to_function_of_same_rank
        (code : string) (instrs : list AsmInstruction) (i : nat)
        (cFunc : CFunction) (asmFunc : Boundary) (instr : AsmInstruction) :
  code <> EmptyString ->
  ascendingAddresses instrs ->
  extractCFunctions (splitLines code) !! i = Some cFunc ->
  detectAssemblyFunctionBoundaries instrs !! i = Some asmFunc ->
  In instr instrs ->
  inBlock asmFunc instr ->
  mapAssemblyToC ∅ code instrs !! Some (i_address instr) = Some (infoOf cFunc)
  /\ forall key info,
       mapAssemblyToC ∅ code instrs !! key = Some info ->
       exists j c b x,
         extractCFunctions (splitLines code) !! j = Some c
         /\ detectAssemblyFunctionBoundaries instrs !! j = Some b
         /\ In x instrs /\ inBlock b x
         /\ key = Some (i_address x) /\ info = infoOf c.
Proof.
  intros Hcode Hasc Hc Hb Hin Hblock.
  rewrite (mapAssemblyToC_creates ∅ code instrs i cFunc asmFunc Hcode Hc Hb).
  assert (Hpair : forall j k b c, (j < k)%nat ->
             detectAssemblyFunctionBoundaries instrs !! j = Some b ->
             detectAssemblyFunctionBoundaries instrs !! k = Some c ->
             endAddr b < startAddr c).
  { rewrite (detect_blocks instrs Hasc).
    exact (proj2 (chained_pairwise _ (blocks_chained instrs 0 Hasc))). }
  assert (Haddr : forall x, In x instrs -> getInstructionAddress x = Some (i_address x)).
  { intros x Hx. apply address_of_nonzero.
    pose proof (ascendingFrom_above 0 instrs x Hasc Hx). lia. }
  assert (Hunique : forall key j j' b b',
             detectAssemblyFunctionBoundaries instrs !! j = Some b ->
             detectAssemblyFunctionBoundaries instrs !! j' = Some b' ->
             hits b instrs key = true -> hits b' instrs key = true -> j = j').
  { intros key j j' b b' Hj Hj' Hh Hh'.
    apply hits_spec in Hh as (x & Hx & Hkx & Hrx).
    apply hits_spec in Hh' as (x' & Hx' & Hkx' & Hrx').
    destruct (Nat.lt_trichotomy j j') as [Hlt | [Heq | Hgt]]; [| exact Heq |].
    - pose proof (Hpair j j' b b' Hlt Hj Hj'). lia.
    - pose proof (Hpair j' j b' b Hgt Hj' Hj). lia. }
  split.
  - apply (create_lookup_hit _ _ instrs ∅ _ i cFunc asmFunc Hc Hb).
    + apply hits_spec. exists instr. split; [exact Hin |]. split; [exact (Haddr _ Hin) |].
      exact Hblock.
    + intros j c' b' Hne Hc' Hb'.
      destruct (hits b' instrs (Some (i_address instr))) eqn:Hh; [| reflexivity].
      exfalso. apply Hne. apply (Hunique (Some (i_address instr)) j i b' asmFunc Hb' Hb Hh).
      apply hits_spec. exists instr. split; [exact Hin |]. split; [exact (Haddr _ Hin) |].
      exact Hblock.
  - intros key info Hlook.
    destruct (create_lookup_Some _ _ _ _ _ Hlook) as (j & c & b & Hcj & Hbj & Hh).
    assert (Hinfo : createSimpleFunctionMapping (extractCFunctions (splitLines code))
                      (detectAssemblyFunctionBoundaries instrs) instrs ∅ !! key
                    = Some (infoOf c)).
    { apply (create_lookup_hit _ _ instrs ∅ key j c b Hcj Hbj Hh).
      intros j' c' b' Hne Hc' Hb'.
      destruct (hits b' instrs key) eqn:Hh'; [| reflexivity].
      exfalso. apply Hne. exact (Hunique key j' j b' b Hb' Hbj Hh' Hh). }
    rewrite Hinfo in Hlook. injection Hlook as <-.
    apply hits_spec in Hh as (x & Hx & Hkx & Hrx).
    exists j, c, b, x. rewrite (Haddr _ Hx) in Hkx. subst key.
    repeat split; try assumption; simpl in Hrx; lia.
Qed.

Lemma instruction_maps_to_function_of_same_rank_witness :
  mapAssemblyToC ∅ Samples.sampleCode Samples.sampleListing !! Some 0x10000007
  = Some {| functionName := "main"; functionStart := 5; functionEnd := 7 |}.
Proof.
  apply (instruction_maps_to_function_of_same_rank
           Samples.sampleCode Samples.sampleListing 1
           {| cf_name := "main"; startLine := 5; endLine := 7 |}
           {| startAddr := 0x10000006; endAddr := 0x1000000a |}
           {| i_address := 0x10000007;
              i_instruction := "89 e5                    mov rbp, rsp" |}).
  - discriminate.
  - unfold ascendingAddresses. simpl. lia.
  - reflexivity.
  - reflexivity.
  - simpl. tauto.
  - unfold inBlock. simpl. lia.
Defined.

End MappingProps.

(* ------------------------------------------------------------------ *)
(** ** ELF reader: words, names and tables                              *)
(* ------------------------------------------------------------------ *)

Module WordFacts.

Import Props ReadFacts.

Lemma window_lookup (view : list Z) (n k : nat) (bytes : list Z) (i : nat) (b : Z) :
  take k (drop n view) = bytes -> bytes !! i = Some b -> view !! (n + i)%nat = Some b.
Proof.
  intros <- Hb. apply lookup_take_Some in Hb as [Hb _].
  rewrite lookup_drop in Hb. exact Hb.
Qed.

Lemma getUint8_window (view : list Z) off (k : nat) bytes (i : nat) b :
  0 <= off -> take k (drop (Z.to_nat off) view) = bytes -> bytes !! i = Some b ->
  getUint8 view (off + Z.of_nat i) = Ok b.
Proof.
  intros Hoff Hw Hb. apply getUint8_lookup; [lia |].
  replace (Z.to_nat (off + Z.of_nat i)) with (Z.to_nat off + i)%nat by lia.
  exact (window_lookup view _ k bytes i b Hw Hb).
Qed.

Lemma getUint32_window (view : list Z) off (k : nat) bytes (i : nat) b0 b1 b2 b3 le :
  0 <= off -> take k (drop (Z.to_nat off) view) = bytes ->
  bytes !! i = Some b0 -> bytes !! S i = Some b1 ->
  bytes !! S (S i) = Some b2 -> bytes !! S (S (S i)) = Some b3 ->
  getUint32 view (off + Z.of_nat i) le
  = Ok (if le then b0 + 256 * b1 + 65536 * b2 + 16777216 * b3
        else 16777216 * b0 + 65536 * b1 + 256 * b2 + b3).
Proof.
  intros Hoff Hw H0 H1 H2 H3. unfold getUint32.
  rewrite (getUint8_window view off k bytes i b0 Hoff Hw H0).
  replace (off + Z.of_nat i + 1) with (off + Z.of_nat (S i)) by lia.
  rewrite (getUint8_window view off k bytes (S i) b1 Hoff Hw H1).
  replace (off + Z.of_nat i + 2) with (off + Z.of_nat (S (S i))) by lia.
  rewrite (getUint8_window view off k bytes (S (S i)) b2 Hoff Hw H2).
  replace (off + Z.of_nat i + 3) with (off + Z.of_nat (S (S (S i)))) by lia.
  rewrite (getUint8_window view off k bytes (S (S (S i))) b3 Hoff Hw H3).
  reflexivity.
Qed.

End WordFacts.

Module WordProps.

Import Props ReadFacts WordFacts.

(** X8.  [readUint] builds an 8-byte value from two 4-byte reads and always
    takes the word at the lower offset as the low half.  For a little-endian
    file that is the little-endian value of the eight bytes.  For a big-endian
    file the two halves come out swapped: the result is the big-endian value
    of the eight bytes only when both halves hold the same bytes. (Values are
    taken in the range where Numbers are exact.) *)
Theorem readUint_64_takes_low_half_first (view : list Z) (off : Z) (bytes : list Z) :
  0 <= off ->
  take 8 (drop (Z.to_nat off) view) = bytes ->
  bytesOfLength 8 bytes ->
  let swapped := bigEndian (drop 4 bytes) * 4294967296 + bigEndian (take 4 bytes) in
  (exactNumber (littleEndian bytes) -> readUint view off 8 true = Ok (littleEndian bytes))
  /\ (exactNumber swapped -> readUint view off 8 false = Ok swapped)
  /\ (exactNumber swapped -> exactNumber (bigEndian bytes) ->
      (readUint view off 8 false = Ok (bigEndian bytes) <-> take 4 bytes = drop 4 bytes)).
Proof.
  intros Hoff Hw [Hlen Hall].
  destruct bytes as [| b0 [| b1 [| b2 [| b3 [| b4 [| b5 [| b6 [| b7 [| ? ?]]]]]]]]];
    try discriminate.
  inversion Hall as [| ? ? H0 Hall1]; subst.
  inversion Hall1 as [| ? ? H1 Hall2]; subst.
  inversion Hall2 as [| ? ? H2 Hall3]; subst.
  inversion Hall3 as [| ? ? H3 Hall4]; subst.
  inversion Hall4 as [| ? ? H4 Hall5]; subst.
  inversion Hall5 as [| ? ? H5 Hall6]; subst.
  inversion Hall6 as [| ? ? H6 Hall7]; subst.
  inversion Hall7 as [| ? ? H7 _]; subst.
  assert (Hlow : forall le, getUint32 view off le
                 = Ok (if le then b0 + 256 * b1 + 65536 * b2 + 16777216 * b3
                       else 16777216 * b0 + 65536 * b1 + 256 * b2 + b3)).
  { intros le. replace off with (off + Z.of_nat 0) at 1 by lia.
    eapply (getUint32_window view off 8 _ 0); [exact Hoff | reflexivity | | | |];
      rewrite Hw; reflexivity. }
  assert (Hhigh : forall le, getUint32 view (off + 4) le
                  = Ok (if le then b4 + 256 * b5 + 65536 * b6 + 16777216 * b7
                        else 16777216 * b4 + 65536 * b5 + 256 * b6 + b7)).
  { intros le. change 4 with (Z.of_nat 4) at 1.
    eapply (getUint32_window view off 8 _ 4); [exact Hoff | reflexivity | | | |];
      rewrite Hw; reflexivity. }
  assert (Hread : forall le, readUint view off 8 le
                  = Ok ((if le then b4 + 256 * b5 + 65536 * b6 + 16777216 * b7
                         else 16777216 * b4 + 65536 * b5 + 256 * b6 + b7) * 4294967296
                        + (if le then b0 + 256 * b1 + 65536 * b2 + 16777216 * b3
                           else 16777216 * b0 + 65536 * b1 + 256 * b2 + b3))).
  { intros le. unfold readUint. simpl. rewrite Hlow, Hhigh. reflexivity. }
  intros swapped. subst swapped.
  rewrite !Hread. unfold littleEndian, bigEndian. cbn [take drop fold_right fold_left].
  split; [intros _; f_equal; lia |]. split; [intros _; f_equal; lia |].
  intros _ _. split.
  - intros Heq. injection Heq as Heq.
    assert (b0 = b4 /\ b1 = b5 /\ b2 = b6 /\ b3 = b7) as (-> & -> & -> & ->) by lia.
    reflexivity.
  - intros Heq. injection Heq as -> -> -> ->. f_equal. lia.
Qed.

Lemma readUint_64_takes_low_half_first_witness :
  let view := [0x7F; 1; 2; 3; 4; 0; 0; 0; 0; 9] in
  exactNumber (littleEndian [1; 2; 3; 4; 0; 0; 0; 0])
  /\ readUint view 1 8 true = Ok (littleEndian [1; 2; 3; 4; 0; 0; 0; 0])
  /\ readUint view 1 8 true = Ok 0x04030201.
Proof.
  intros view.
  assert (Hexact : exactNumber (littleEndian [1; 2; 3; 4; 0; 0; 0; 0]))
    by (unfold exactNumber; vm_compute; split; [discriminate | reflexivity]).
  split; [exact Hexact |].
  split; [| reflexivity].
  apply (readUint_64_takes_low_half_first view 1 [1; 2; 3; 4; 0; 0; 0; 0]).
  - lia.
  - reflexivity.
  - split; [reflexivity |].
    repeat (apply List.Forall_cons; [lia |]). apply List.Forall_nil.
  - exact Hexact.
Defined.

End WordProps.

Module NameTableFacts.

Import Props ReadFacts.

Lemma fromCharCode_code c : fromCharCode (Z.of_N (N_of_ascii c)) = c.
Proof. unfold fromCharCode. rewrite N2Z.id. apply ascii_N_embedding. Qed.

Lemma code_zero c : (Z.of_N (N_of_ascii c) =? 0) = Ascii.eqb c "000".
Proof.
  destruct c as [[] [] [] [] [] [] [] []]; reflexivity.
Qed.

Lemma getStringFrom_codes name after :
  noNul name = true -> getStringFrom (codes name ++ 0 :: after) = Ok name.
Proof.
  induction name as [| c name IH]; intros Hno; [reflexivity |].
  unfold noNul in Hno. simpl in Hno. apply andb_true_iff in Hno as [Hc Hno].
  unfold codes. simpl. fold (codes name).
  rewrite code_zero. apply negb_true_iff in Hc. rewrite Hc.
  rewrite (IH Hno). step_bind. rewrite fromCharCode_code. reflexivity.
Qed.

Lemma getStringFrom_unterminated bytes :
  ~ In 0 bytes -> getStringFrom bytes = Throw RangeError.
Proof.
  induction bytes as [| b rest IH]; intros Hno; [reflexivity |].
  simpl. destruct (b =? 0) eqn:Hb.
  - apply Z.eqb_eq in Hb. subst b. exfalso. apply Hno. left. reflexivity.
  - rewrite IH; [reflexivity |]. intros Hin. apply Hno. right. exact Hin.
Qed.

End NameTableFacts.

Module NameTableProps.

Import Props ReadFacts NameTableFacts.

(** X9.  [getString] reads a name back from the bytes that spell it: placed
    anywhere in the buffer and followed by a zero byte, a name without a zero
    character is returned as it is.  There is no length limit and no bounds
    check of its own: when no zero byte follows the offset, or the offset is
    negative, the read runs off the buffer and raises [RangeError]. *)
Theorem getString_reads_name_up_to_nul (before : list Z) (name : string) (after : list Z) :
  noNul name = true ->
  getString (before ++ codes name ++ 0 :: after) (Z.of_nat (length before)) = Ok name
  /\ (forall view off, 0 <= off -> ~ In 0 (drop (Z.to_nat off) view) ->
                       getString view off = Throw RangeError)
  /\ (forall view off, off < 0 -> getString view off = Throw RangeError).
Proof.
  intros Hno. split; [| split].
  - unfold getString.
    destruct (Z.of_nat (length before) <? 0) eqn:Hneg; [apply Z.ltb_lt in Hneg; lia |].
    rewrite Nat2Z.id, drop_app_length. apply getStringFrom_codes. exact Hno.
  - intros view off Hoff Hno0. unfold getString.
    destruct (off <? 0) eqn:Hneg; [reflexivity |].
    apply getStringFrom_unterminated. exact Hno0.
  - intros view off Hoff. unfold getString.
    destruct (off <? 0) eqn:Hneg; [reflexivity | apply Z.ltb_ge in Hneg; lia].
Qed.

Lemma getString_reads_name_up_to_nul_witness :
  getString ([0] ++ codes ".text" ++ 0 :: codes ".data" ++ [0]) (Z.of_nat (length [0]))
  = Ok ".text"%string
  /\ getString (codes ".text") 0 = Throw RangeError.
Proof.
  destruct (getString_reads_name_up_to_nul [0] ".text" (codes ".data" ++ [0]) eq_refl)
    as (Hread & Hrun & _).
  split; [exact Hread |].
  apply Hrun; [lia |]. vm_compute. intuition discriminate.
Defined.

End NameTableProps.

Module TableFacts.

Import Props ReadFacts.

Lemma mapM_lookup {A B} (f : A -> result B) (l : list A) (ys : list B) :
  mapM f l = Ok ys ->
  length ys = length l
  /\ forall i y, ys !! i = Some y -> exists x, l !! i = Some x /\ f x = Ok y.
Proof.
  revert ys. induction l as [| x l IH]; intros ys H; simpl in H.
  - injection H as <-. split; [reflexivity | intros ? ? Hy; discriminate Hy].
  - destruct (f x) as [y |] eqn:Hfx; simpl in H; [| discriminate].
    destruct (mapM f l) as [ys' |] eqn:Hrest; simpl in H; [| discriminate].
    injection H as <-. destruct (IH ys' eq_refl) as [Hlen Hall].
    split; [simpl; rewrite Hlen; reflexivity |].
    intros [| i] y' Hy'; simpl in Hy'.
    + injection Hy' as <-. exists x. split; [reflexivity | exact Hfx].
    + exact (Hall i y' Hy').
Qed.

Lemma indices_lookup n i x : indices n !! i = Some x -> x = Z.of_nat i /\ Z.of_nat i < n.
Proof.
  unfold indices. rewrite list_lookup_fmap. intros H.
  destruct (seq 0 (Z.to_nat n) !! i) as [k |] eqn:Hk; [| discriminate].
  apply lookup_seq in Hk as [-> Hlt]. injection H as <-. split; [reflexivity | lia].
Qed.

Lemma length_indices n : length (indices n) = Z.to_nat n.
Proof. unfold indices. rewrite length_map, length_seq. reflexivity. Qed.

Lemma resolveNames_lookup buf idx sh sh' :
  resolveNames buf idx sh = Ok sh' ->
  length sh' = length sh
  /\ forall i s, sh' !! i = Some s ->
       exists raw strsh,
         sh !! i = Some raw /\ s = setName raw (name s)
         /\ sh !! Z.to_nat idx = Some strsh
         /\ getString buf (offset strsh + nameOff raw) = Ok (name s).
Proof.
  unfold resolveNames. destruct sh as [| s0 sh0] eqn:Hsh.
  - intros [= <-]. split; [reflexivity | intros ? ? Hs; discriminate Hs].
  - rewrite <- Hsh. destruct (sh !! Z.to_nat idx) as [strsh |] eqn:Hstr; [| discriminate].
    intros H. apply mapM_lookup in H as [Hlen Hall].
    split; [exact Hlen |]. intros i s Hs.
    destruct (Hall i s Hs) as (raw & Hraw & Hname).
    destruct (getString buf (offset strsh + nameOff raw)) as [n |] eqn:Hn;
      simpl in Hname; [| discriminate].
    injection Hname as <-. exists raw, strsh. simpl.
    split; [exact Hraw |]. split; [reflexivity |]. split; [reflexivity | exact Hn].
Qed.

End TableFacts.

Module TableProps.

Import Props ReadFacts TableFacts.

(** X10.  What a successful [parseELF] returns.  The image keeps the buffer;
    it holds exactly [phnum] program headers and [shnum] section headers, the
    entry of rank [i] being the one decoded at [phoff + i * phentsz],
    respectively [shoff + i * shentsz]; and the name of every section is the
    zero-terminated string found at its name offset inside the section that
    the header's string-table index selects. *)
Theorem parseELF_tables_and_names (buf : list Z) (img : Parsed) :
  parseELF buf = Ok img ->
  let eh := elfHeader img in
  exists is32 le,
    parseHeader buf = Ok (is32, le, eh)
    /\ view img = buf
    /\ length (programHeaders img) = Z.to_nat (phnum eh)
    /\ length (sectionHeaders img) = Z.to_nat (shnum eh)
    /\ (forall i ph, programHeaders img !! i = Some ph ->
          parseProgramHeader buf is32 le (phoff eh + Z.of_nat i * phentsz eh) = Ok ph)
    /\ (forall i s, sectionHeaders img !! i = Some s ->
          exists raw strsh,
            parseSectionHeader buf is32 le (shoff eh + Z.of_nat i * shentsz eh) = Ok raw
            /\ s = setName raw (name s)
            /\ sectionHeaders img !! Z.to_nat (shstrndx eh) = Some strsh
            /\ getString buf (offset strsh + nameOff s) = Ok (name s)).
Proof.
  unfold parseELF. intros H.
  destruct (parseHeader buf) as [[[is32 le] eh] |] eqn:Hh; simpl in H; [| discriminate].
  destruct (programTable buf is32 le eh) as [ph |] eqn:Hph; simpl in H; [| discriminate].
  destruct (sectionTable buf is32 le eh) as [sh |] eqn:Hsh; simpl in H; [| discriminate].
  destruct (resolveNames buf (shstrndx eh) sh) as [sh' |] eqn:Hnames; simpl in H;
    [| discriminate].
  injection H as <-. simpl. exists is32, le.
  apply mapM_lookup in Hph as [Hphlen Hphall].
  apply mapM_lookup in Hsh as [Hshlen Hshall].
  apply resolveNames_lookup in Hnames as [Hlen' Hnames].
  rewrite length_indices in Hphlen, Hshlen.
  split; [reflexivity |]. split; [reflexivity |]. split; [exact Hphlen |].
  split; [rewrite Hlen'; exact Hshlen |]. split.
  - intros i p Hp. destruct (Hphall i p Hp) as (x & Hx & Hparse).
    apply indices_lookup in Hx as [-> _]. exact Hparse.
  - intros i s Hs. destruct (Hnames i s Hs) as (raw & strsh & Hraw & Hset & Hstr & Hname).
    destruct (Hshall i raw Hraw) as (x & Hx & Hparse).
    apply indices_lookup in Hx as [-> _].
    assert (Hstr' : exists strsh', sh' !! Z.to_nat (shstrndx eh) = Some strsh'
                                   /\ offset strsh' = offset strsh).
    { destruct (lookup_lt_is_Some_2 sh' (Z.to_nat (shstrndx eh))) as [strsh' Hs'].
      - rewrite Hlen'. apply lookup_lt_Some in Hstr. exact Hstr.
      - exists strsh'. split; [exact Hs' |].
        destruct (Hnames _ _ Hs') as (raw' & _ & Hraw' & Hset' & _ & _).
        rewrite Hstr in Hraw'. injection Hraw' as <-. rewrite Hset'. reflexivity. }
    destruct Hstr' as (strsh' & Hs' & Hoff).
    exists raw, strsh'. split; [exact Hparse |]. split; [exact Hset |].
    split; [exact Hs' |]. rewrite Hoff.
    replace (nameOff s) with (nameOff raw) by (rewrite Hset; reflexivity). exact Hname.
Qed.

Lemma parseELF_tables_and_names_witness :
  exists img, parseELF smallElf = Ok img
    /\ length (sectionHeaders img) = Z.to_nat (shnum (elfHeader img))
    /\ exists is32 le, parseHeader smallElf = Ok (is32, le, elfHeader img).
Proof.
  destruct (parseELF smallElf) as [img |] eqn:Hparse; [| vm_compute in Hparse; discriminate].
  exists img. split; [reflexivity |].
  destruct (parseELF_tables_and_names smallElf img Hparse)
    as (is32 & le & Hh & _ & _ & Hlen & _).
  split; [exact Hlen |]. exists is32, le. exact Hh.
Defined.

End TableProps.

(* ------------------------------------------------------------------ *)
(** ** Image builder: the sections of an object file                    *)
(* ------------------------------------------------------------------ *)

Module LayoutFacts.

Import Props BuilderFacts.

Lemma ceilTo_aligned a b : 0 < b -> a mod b = 0 -> ceilTo a b = a.
Proof.
  intros Hb Ha. unfold ceilTo.
  pose proof (Z.div_mod a b ltac:(lia)) as Hdiv. rewrite Ha in Hdiv.
  replace (a + b - 1) with (a / b * b + (b - 1)) by lia.
  rewrite Z.div_add_l by lia. rewrite (Z.div_small (b - 1) b) by lia. lia.
Qed.

Lemma ceilTo_multiple a b : 0 < b -> ceilTo a b mod b = 0.
Proof. intros Hb. unfold ceilTo. apply Z.mod_mul. lia. Qed.

Lemma floorTo_aligned a b : 0 < b -> a mod b = 0 -> floorTo a b = a.
Proof.
  intros Hb Ha. unfold floorTo.
  pose proof (Z.div_mod a b ltac:(lia)) as Hdiv. rewrite Ha in Hdiv. lia.
Qed.

Section WithEngine.
Context {E : Type} {EN : Engine E}.

Lemma mapSection_laidOut buffer (st : @MapState E) sh :
  (allocated sh = true -> addr sh = 0) ->
  laidOut st -> laidOut (mapSection buffer true st sh).
Proof.
  intros Hzero Hst. pose proof Hst as (Hbase & Hlow & Hregions & Hdisjoint & Hnames).
  unfold mapSection. destruct (allocated sh) eqn:Halloc; [| exact Hst].
  pose proof (allocated_size sh Halloc) as Hsize.
  unfold targetOf. rewrite (Hzero eq_refl). simpl andb. cbv iota.
  rewrite (ceilTo_aligned (baseAddr st) PAGE) by (unfold PAGE; lia || assumption).
  pose proof (ceilTo_bounds (size sh) PAGE ltac:(unfold PAGE; lia)) as Hceil.
  pose proof (ceilTo_multiple (size sh) PAGE ltac:(unfold PAGE; lia)) as Hmult.
  assert (Hnewbase : (baseAddr st + ceilTo (size sh) PAGE) mod PAGE = 0).
  { rewrite Z.add_mod by (unfold PAGE; lia). rewrite Hbase, Hmult. reflexivity. }
  assert (Hkeep : laidOut {| ms_engine := ms_engine st;
                             baseAddr := baseAddr st + ceilTo (size sh) PAGE;
                             mappedRegions := mappedRegions st;
                             sectionAddresses := sectionAddresses st |}).
  { split; [exact Hnewbase |]. split; [simpl; lia |]. split; [| split; assumption].
    simpl. intros region Hin. destruct (Hregions region Hin) as (? & ? & ? & ? & ?).
    repeat split; try assumption. lia. }
  destruct (baseAddr st =? 0) eqn:Hb0; [exact Hkeep |].
  unfold alignedRegion.
  rewrite (floorTo_aligned (baseAddr st) PAGE) by (unfold PAGE; lia || assumption).
  rewrite (ceilTo_page_of_positive (size sh) Hsize).
  cbv zeta. cbn [ms_engine baseAddr mappedRegions sectionAddresses fst snd].
  destruct (decide ((baseAddr st, ceilTo (size sh) PAGE) ∈ mappedRegions st));
    [exact Hkeep |].
  destruct (mem_map (ms_engine st) (baseAddr st) (ceilTo (size sh) PAGE) (protOf sh))
    as [e1 |]; [| exact Hkeep].
  assert (Hnew : forall e : E, laidOut {| ms_engine := e;
                   baseAddr := baseAddr st + ceilTo (size sh) PAGE;
                   mappedRegions := {[(baseAddr st, ceilTo (size sh) PAGE)]} ∪ mappedRegions st;
                   sectionAddresses := <[name sh := baseAddr st]> (sectionAddresses st) |}).
  { intros e. split; [exact Hnewbase |]. split; [simpl; lia |]. simpl. split; [| split].
    - intros region Hin. apply elem_of_union in Hin as [Hin | Hin].
      + apply elem_of_singleton in Hin. subst region. simpl.
        repeat split; try assumption; lia.
      + destruct (Hregions region Hin) as (? & ? & ? & ? & ?).
        repeat split; try assumption. lia.
    - intros r1 r2 H1 H2 Hne [Ho1 Ho2].
      apply elem_of_union in H1 as [H1 | H1]; apply elem_of_union in H2 as [H2 | H2].
      + apply elem_of_singleton in H1, H2. congruence.
      + apply elem_of_singleton in H1. subst r1. simpl in *.
        destruct (Hregions r2 H2) as (_ & _ & _ & _ & ?). lia.
      + apply elem_of_singleton in H2. subst r2. simpl in *.
        destruct (Hregions r1 H1) as (_ & _ & _ & _ & ?). lia.
      + exact (Hdisjoint r1 r2 H1 H2 Hne (conj Ho1 Ho2)).
    - intros nm a Hn. destruct (decide (name sh = nm)) as [<- | Hne].
      + rewrite lookup_insert_eq in Hn. injection Hn as <-.
        exists (ceilTo (size sh) PAGE). apply elem_of_union. left.
        apply elem_of_singleton. reflexivity.
      + rewrite lookup_insert_ne in Hn by exact Hne.
        destruct (Hnames nm a Hn) as [sz Hsz]. exists sz. apply elem_of_union. right.
        exact Hsz. }
  destruct ((0 <? size sh) && (0 <? offset sh)); [| apply Hnew].
  destruct (bytes ← Uint8Array buffer (offset sh) (size sh); mem_write e1 (baseAddr st) bytes)
    as [e2 |]; apply Hnew.
Qed.

End WithEngine.

End LayoutFacts.

Module LayoutProps.

Import Props BuilderFacts LayoutFacts.

Section WithEngine.
Context {E : Type} {EN : Engine E}.

(** X11.  The sections of an object file (every allocated section at address
    0) are laid out one after the other from 0x10000000 on: every region the
    engine is given starts on a page boundary at or above that base, is a
    positive whole number of pages long and ends at or below the cursor; two
    different regions never overlap; and the address recorded for a section
    name is the start of a mapped region. *)
Theorem object_sections_get_disjoint_pages (buffer : list Z) (engine0 : E)
        (sh : list SectionHeader) :
  allAtZero sh ->
  let st := mapSections buffer true engine0 sh in
  (forall region, region ∈ mappedRegions st ->
     fst region mod PAGE = 0 /\ snd region mod PAGE = 0 /\ 0 < snd region
     /\ OBJECT_BASE <= fst region /\ fst region + snd region <= baseAddr st)
  /\ (forall r1 r2, r1 ∈ mappedRegions st -> r2 ∈ mappedRegions st -> r1 <> r2 ->
                    ~ rangesOverlap r1 r2)
  /\ (forall n a, sectionAddresses st !! n = Some a ->
                  exists size, (a, size) ∈ mappedRegions st).
Proof.
  intros Hzero st.
  assert (Hlaid : laidOut st).
  { subst st. unfold mapSections. apply fold_left_invariant.
    - split; [reflexivity |]. split; [simpl; lia |]. simpl.
      split; [intros ? Hin; apply elem_of_empty in Hin; destruct Hin |].
      split; [intros ? ? Hin; apply elem_of_empty in Hin; destruct Hin |].
      intros n a Hn. rewrite lookup_empty in Hn. discriminate.
    - intros s x Hin Hs. apply mapSection_laidOut; [| exact Hs].
      unfold allAtZero in Hzero. rewrite List.Forall_forall in Hzero. exact (Hzero x Hin). }
  destruct Hlaid as (_ & _ & Hregions & Hdisjoint & Hnames).
  split; [exact Hregions | split; [exact Hdisjoint | exact Hnames]].
Qed.

End WithEngine.

Lemma object_sections_get_disjoint_pages_witness :
  let st := @mapSections _ Sim.engine (view callObject) true Sim.fresh
                         (sectionHeaders callObject) in
  allAtZero (sectionHeaders callObject)
  /\ (OBJECT_BASE, PAGE) ∈ mappedRegions st
  /\ forall region, region ∈ mappedRegions st ->
        fst region mod PAGE = 0 /\ snd region mod PAGE = 0 /\ 0 < snd region
        /\ OBJECT_BASE <= fst region /\ fst region + snd region <= baseAddr st.
Proof.
  intros st.
  assert (Hzero : allAtZero (sectionHeaders callObject)).
  { unfold allAtZero. repeat (apply List.Forall_cons; [intros _; reflexivity |]).
    apply List.Forall_nil. }
  split; [exact Hzero |].
  split; [apply (bool_decide_unpack _); vm_compute; exact I |].
  pose proof (@object_sections_get_disjoint_pages _ Sim.engine (view callObject) Sim.fresh
                (sectionHeaders callObject) Hzero) as H.
  destruct H as [H _]. exact H.
Defined.

End LayoutProps.

(* ------------------------------------------------------------------ *)
(** ** Relocation resolver: the function map and unresolved symbols     *)
(* ------------------------------------------------------------------ *)

Module FunctionMapFacts.

Import Props Tables RelocationPassFacts.

(** A lookup in the map returns the address of the last entry of that
    name. *)
Lemma functionMapOf_lookup (textAddr : Z) (found : list (string * Z)) (symbolName : string) :
  functionMapOf textAddr found !! symbolName
  = match List.find (fun nv => String.eqb (fst nv) symbolName) (rev found) with
    | Some nv => Some (textAddr + snd nv)
    | None => None
    end.
Proof.
  unfold functionMapOf. induction found as [| [n v] found IH] using rev_ind.
  - simpl. apply lookup_empty.
  - rewrite fold_left_app, rev_unit. simpl.
    destruct (String.eqb n symbolName) eqn:Hn.
    + apply String.eqb_eq in Hn. subst n. apply lookup_insert_eq.
    + apply String.eqb_neq in Hn. rewrite lookup_insert_ne by exact Hn. exact IH.
Qed.

Lemma omap_rev {A B} (f : A -> option B) l : omap f (rev l) = rev (omap f l).
Proof.
  induction l as [|x r IH]; [reflexivity|]. simpl.
  rewrite omap_app, IH. simpl. destruct (f x); simpl; [reflexivity | now rewrite app_nil_r].
Qed.

Lemma find_omap {A B} (f : A -> option B) (p : B -> bool) l :
  List.find p (omap f l)
  = match List.find (fun x => match f x with Some y => p y | None => false end) l with
    | Some x => f x
    | None => None
    end.
Proof.
  induction l as [|x r IH]; [reflexivity|]. simpl.
  destruct (f x) as [y|] eqn:Hy; simpl; [|exact IH].
  destruct (p y); [now rewrite Hy | exact IH].
Qed.

(** The body of the first pass keeps of an entry what [functionSymbolAt]
    says. *)
Lemma functionEntry_kept buffer strtabData byteOffset is64bit i kept :
  functionEntry buffer strtabData byteOffset is64bit i = Ok kept ->
  functionSymbolAt buffer strtabData byteOffset is64bit i = kept.
Proof.
  unfold functionEntry, functionSymbolAt. cbv zeta.
  destruct (readRawSymbol buffer byteOffset is64bit i) as [raw|]; step_bind; [|discriminate].
  match goal with
  | |- context [mbind _ ?m] => destruct m; step_bind; [|discriminate]
  end.
  destruct (String.eqb (symbolNameAt strtabData (st_nameOffset raw)) EmptyString);
    destruct (0 <=? st_value raw); destruct (ST_TYPE (st_info raw) =? STT_FUNC);
    simpl; congruence.
Qed.

Lemma collectFunctions_table buffer symtabSection strtabSection strtabData is64bit found :
  Uint8Array buffer (offset strtabSection) (size strtabSection) = Ok strtabData ->
  collectFunctions buffer (Some symtabSection) (Some strtabSection) is64bit = Ok found ->
  found = omap (functionSymbolAt buffer strtabData (offset symtabSection) is64bit)
               (indices (loopCount (size symtabSection) (symbolSize is64bit))).
Proof.
  intros Hstr. unfold collectFunctions. rewrite Hstr.
  destruct (Uint8Array buffer (offset symtabSection) (size symtabSection)); step_bind;
    [|discriminate].
  destruct (mapM _ _) as [kept|] eqn:Hm; step_bind; [|discriminate].
  intros [= <-]. apply mapM_pairs in Hm.
  induction Hm as [|i y idxs ys Hy _ IH]; [reflexivity|].
  cbn [omap list_omap]. rewrite (functionEntry_kept _ _ _ _ _ _ Hy).
  destruct y; cbn [id]; [f_equal|]; exact IH.
Qed.

End FunctionMapFacts.

Module FunctionMapProps.

Import Props Tables FunctionMapFacts.

(** X12.  [functionMap] is filled from the symbol table in table order: the
    first pass of the handler keeps, in table order, name and value of the
    entries that are function symbols ([STT_FUNC]) with a name, and sets
    [functionMap] for each of them.  So a lookup returns the text address
    plus the value of the last function symbol of that name in the table,
    and nothing for a name no function symbol has; the empty name is never a
    key.  (Values taken in the range where Numbers are exact.) *)
Theorem function_map_keeps_last_entry (buffer : list Z)
        (symtabSection strtabSection : SectionHeader) (strtabData : list Z)
        (is64bit : bool) (textAddr : Z) (found : list (string * Z)) :
  Uint8Array buffer (offset strtabSection) (size strtabSection) = Ok strtabData ->
  collectFunctions buffer (Some symtabSection) (Some strtabSection) is64bit = Ok found ->
  exactFunctions buffer strtabData symtabSection is64bit textAddr ->
  let idxs := indices (loopCount (size symtabSection) (symbolSize is64bit)) in
  let kept := functionSymbolAt buffer strtabData (offset symtabSection) is64bit in
  found = omap kept idxs
  /\ (forall symbolName,
        functionMapOf textAddr found !! symbolName
        = match List.find (functionNamed buffer strtabData (offset symtabSection) is64bit
                                         symbolName) (rev idxs) with
          | Some i => match kept i with
                      | Some nv => Some (textAddr + snd nv)
                      | None => None
                      end
          | None => None
          end)
  /\ functionMapOf textAddr found !! EmptyString = None.
Proof.
  intros Hstr Hfound _ idxs kept.
  pose proof (collectFunctions_table _ _ _ _ _ _ Hstr Hfound) as ->.
  fold idxs kept.
  assert (Hlookup : forall symbolName,
            functionMapOf textAddr (omap kept idxs) !! symbolName
            = match List.find (functionNamed buffer strtabData (offset symtabSection) is64bit
                                             symbolName) (rev idxs) with
              | Some i => match kept i with
                          | Some nv => Some (textAddr + snd nv)
                          | None => None
                          end
              | None => None
              end).
  { intros symbolName. rewrite functionMapOf_lookup, <- omap_rev, find_omap.
    unfold functionNamed. fold kept.
    destruct (List.find _ (rev idxs)) as [i|]; [|reflexivity].
    destruct (kept i); reflexivity. }
  split; [reflexivity|]. split; [exact Hlookup|].
  rewrite Hlookup.
  destruct (List.find _ (rev idxs)) as [i|] eqn:Hfind; [|reflexivity].
  apply find_some in Hfind as [_ Hnamed]. exfalso.
  unfold functionNamed, functionSymbolAt in Hnamed.
  destruct (readRawSymbol buffer (offset symtabSection) is64bit i) as [raw|];
    [|discriminate]. cbv zeta in Hnamed.
  destruct (ST_TYPE (st_info raw) =? STT_FUNC); [|discriminate].
  destruct (String.eqb (symbolNameAt strtabData (st_nameOffset raw)) EmptyString) eqn:Hn;
    [discriminate|].
  destruct (0 <=? st_value raw); [|discriminate].
  simpl in Hnamed. congruence.
Qed.

Lemma function_map_keeps_last_entry_witness :
  let sh := sectionHeaders twiceNamedObject in
  exists found,
    collectFunctions (view twiceNamedObject) (findSection sh ".symtab")
                     (findSection sh ".strtab") true = Ok found
    /\ found = [("f"%string, 0); ("f"%string, 4)]
    /\ functionMapOf OBJECT_BASE found !! "f"%string = Some (OBJECT_BASE + 4)
    /\ functionMapOf OBJECT_BASE found !! "g"%string = None
    /\ functionMapOf OBJECT_BASE found !! EmptyString = None.
Proof.
  intros sh. eexists. split; [vm_compute; reflexivity|].
  pose proof (function_map_keeps_last_entry (view twiceNamedObject)
                (section ".symtab" 0 0 72 72) (section ".strtab" 0 0 69 3)
                [0; 102; 0] true OBJECT_BASE [("f"%string, 0); ("f"%string, 4)]) as H.
  destruct H as (Hfound & Hlookup & Hempty).
  - vm_compute. reflexivity.
  - vm_compute. reflexivity.
  - split; [unfold exactNumber; vm_compute; split; [discriminate | reflexivity]|].
    intros i nv Hi Hnv. change (loopCount _ _) with 3 in Hi.
    assert (Hcase : i = 0 \/ i = 1 \/ i = 2) by lia.
    destruct Hcase as [-> | [-> | ->]]; vm_compute in Hnv;
      [discriminate Hnv | injection Hnv as <- | injection Hnv as <-];
      unfold exactNumber; vm_compute; repeat split; (discriminate || reflexivity).
  - split; [reflexivity|]. split; [|split; [|exact Hempty]].
    + rewrite Hlookup. vm_compute. reflexivity.
    + rewrite Hlookup. vm_compute. reflexivity.
Defined.

End FunctionMapProps.

Module UnresolvedFacts.

Section WithEngine.
Context {E : Type} {EN : Engine E}.

Lemma applyRelocation_unresolved (e : E) textAddr (functionMap : gmap string Z) symbolName r :
  functionMap !! symbolName = None ->
  applyRelocation e textAddr functionMap symbolName r = e.
Proof.
  intros Hnone. unfold applyRelocation.
  destruct (String.eqb symbolName EmptyString); [reflexivity |].
  rewrite Hnone. reflexivity.
Qed.

Lemma relocationLoop_unresolved buffer byteOffset symtabSection strtabSection is64bit
      textAddr (functionMap : gmap string Z) idxs (e e' : E) :
  (forall i r symbolName,
      In i idxs -> readRelocation buffer byteOffset is64bit i = Ok r ->
      relocationSymbolName buffer symtabSection strtabSection is64bit (symbolIndex r)
      = Ok symbolName ->
      functionMap !! symbolName = None) ->
  relocationLoop buffer byteOffset symtabSection strtabSection is64bit textAddr
                 functionMap idxs e = Ok e' ->
  e' = e.
Proof.
  revert e. induction idxs as [| i rest IH]; intros e Hnone Hloop; simpl in Hloop.
  - injection Hloop as <-. reflexivity.
  - destruct (readRelocation buffer byteOffset is64bit i) as [r |] eqn:Hr;
      simpl in Hloop; [| discriminate].
    destruct (relocationSymbolName buffer symtabSection strtabSection is64bit (symbolIndex r))
      as [symbolName |] eqn:Hname; simpl in Hloop; [| discriminate].
    rewrite (applyRelocation_unresolved e textAddr functionMap symbolName r) in Hloop
      by (apply (Hnone i r symbolName); [left; reflexivity | exact Hr | exact Hname]).
    apply (IH e); [| exact Hloop].
    intros j r' n' Hin. apply Hnone. right. exact Hin.
Qed.

End WithEngine.

End UnresolvedFacts.

Module UnresolvedProps.

Import Props UnresolvedFacts.

Section WithEngine.
Context {E : Type} {EN : Engine E}.

(** X13.  The relocation pass only ever patches calls to functions of the
    function map.  With an empty map, or without a [.rela.text] section, the
    table is not even read and the image stays as it is; and a pass that runs
    to its end over a table whose entries all name symbols missing from the
    map (calls into a library, say) leaves the image as it is. *)
Theorem unresolved_relocations_leave_image (parsed : Parsed)
        (symtabSection strtabSection : option SectionHeader) (is64bit : bool)
        (textAddr : Z) (functionMap : gmap string Z) (e : E) :
  (functionMap = ∅ ->
     processRelocations parsed symtabSection strtabSection is64bit textAddr functionMap e
     = Ok e)
  /\ (findSection (sectionHeaders parsed) ".rela.text" = None ->
      processRelocations parsed symtabSection strtabSection is64bit textAddr functionMap e
      = Ok e)
  /\ (forall rela e',
        findSection (sectionHeaders parsed) ".rela.text" = Some rela ->
        (forall i r symbolName,
            0 <= i < loopCount (size rela) (relaSize is64bit) ->
            readRelocation (view parsed) (offset rela) is64bit i = Ok r ->
            relocationSymbolName (view parsed) symtabSection strtabSection is64bit
                                 (symbolIndex r) = Ok symbolName ->
            functionMap !! symbolName = None) ->
        processRelocations parsed symtabSection strtabSection is64bit textAddr functionMap e
        = Ok e' ->
        e' = e).
Proof.
  unfold processRelocations. split; [| split].
  - intros ->. destruct (findSection (sectionHeaders parsed) ".rela.text"); [| reflexivity].
    rewrite bool_decide_eq_true_2 by reflexivity. rewrite andb_false_r. reflexivity.
  - intros ->. reflexivity.
  - intros rela e' -> Hnone Hrun.
    destruct ((0 <? size rela) && negb (bool_decide (functionMap = ∅)));
      [| injection Hrun as <-; reflexivity].
    destruct (Uint8Array (view parsed) (offset rela) (size rela)); simpl in Hrun;
      [| discriminate].
    apply (relocationLoop_unresolved _ _ _ _ _ _ _ _ _ _
             (fun i r n Hin => Hnone i r n (proj1 (ReadFacts.in_indices _ i) Hin)) Hrun).
Qed.

End WithEngine.

Lemma unresolved_relocations_leave_image_witness :
  let sh := sectionHeaders Samples.externCallObject in
  let e := ms_engine (@mapSections _ Sim.engine (view Samples.externCallObject) true
                                   Sim.fresh sh) in
  let functionMap := functionMapOf OBJECT_BASE [("main"%string, 0)] in
  functionMap !! "main"%string = Some OBJECT_BASE
  /\ @processRelocations _ Sim.engine Samples.externCallObject
        (findSection sh ".symtab") (findSection sh ".strtab") true OBJECT_BASE functionMap e
     = Ok e.
Proof.
  intros sh e functionMap. split; [reflexivity |].
  destruct (@processRelocations _ Sim.engine Samples.externCallObject
              (findSection sh ".symtab") (findSection sh ".strtab") true OBJECT_BASE
              functionMap e) as [e' | err] eqn:Hrun; [| vm_compute in Hrun; discriminate].
  f_equal.
  destruct (@unresolved_relocations_leave_image _ Sim.engine Samples.externCallObject
              (findSection sh ".symtab") (findSection sh ".strtab") true OBJECT_BASE
              functionMap e) as (_ & _ & Hkeep).
  apply (Hkeep (section ".rela.text" 0 0 153 24) e'); [reflexivity | | exact Hrun].
  intros i r symbolName Hi Hr Hname.
  assert (i = 0) as -> by (change (loopCount _ _) with 1 in Hi; lia).
  vm_compute in Hr. injection Hr as <-.
  vm_compute in Hname. injection Hname as <-.
  reflexivity.
Defined.

End UnresolvedProps.

(* ------------------------------------------------------------------ *)
(** ** Execution controller: the trace and the counter                  *)
(* ------------------------------------------------------------------ *)

Module TraceFacts.

Import Props ControllerFacts.

Section WithEngine.
Context {D : Disassembler} {E : Type} {EN : Engine E}.

Lemma tracedBy_refl p (d : Debugger E) : tracedBy p d p d [].
Proof. split; [rewrite app_nil_r; reflexivity | intros H; split; [exact H | reflexivity]]. Qed.

Lemma tracedBy_trans p1 (d1 : Debugger E) p2 d2 p3 d3 new1 new2 :
  tracedBy p1 d1 p2 d2 new1 -> tracedBy p2 d2 p3 d3 new2 ->
  tracedBy p1 d1 p3 d3 (new1 ++ new2).
Proof.
  intros [Ht1 Hq1] [Ht2 Hq2]. split; [rewrite Ht2, Ht1, app_assoc; reflexivity |].
  intros Hperf. destruct (Hq1 Hperf) as [Hperf2 Ho1]. destruct (Hq2 Hperf2) as [Hperf3 Ho2].
  split; [exact Hperf3 |]. rewrite Ho2.
  destruct new2 as [| l2 new2].
  - rewrite app_nil_r. rewrite Ho1. rewrite app_nil_r in Ht2. rewrite Ht2. reflexivity.
  - destruct new1; reflexivity.
Qed.

(** A change of the page and the debugger that leaves the trace alone
    and, in performance mode, the output element too. *)
Lemma tracedBy_quiet p (d : Debugger E) p' d' :
  executionTrace d' = executionTrace d ->
  isPerformanceModeActive p' = isPerformanceModeActive p ->
  (isPerformanceModeActive p = true -> emuOutput p' = emuOutput p) ->
  tracedBy p d p' d' [].
Proof.
  intros Ht Hperf Hout. split; [rewrite app_nil_r; exact Ht |].
  intros Hp. split; [rewrite Hperf; exact Hp | exact (Hout Hp)].
Qed.

Lemma logToExecutionTrace_trace (d : Debugger E) a :
  executionTrace (logToExecutionTrace d a) = executionTrace d.
Proof.
  unfold logToExecutionTrace. destruct (decodeAt d a) as [[| insn rest] |]; reflexivity.
Qed.

Lemma codeHook_trace p (d : Debugger E) a :
  executionTrace (snd (fst (codeHook p d a))) = executionTrace d.
Proof.
  unfold codeHook. cbv zeta.
  destruct (notYetLogged _ a); destruct (decide _); simpl;
    rewrite ?logToExecutionTrace_trace; reflexivity.
Qed.

Lemma runHooks_trace addrs p (d : Debugger E) :
  executionTrace (snd (runHooks p d addrs)) = executionTrace d.
Proof.
  unfold runHooks. revert p d. induction addrs as [| a rest IH]; intros p d; [reflexivity |].
  simpl. pose proof (codeHook_trace p d a) as Hc.
  destruct (codeHook p d a) as [[p' d'] ret]. simpl in *.
  rewrite IH. exact Hc.
Qed.

Lemma runHooks_traced addrs p (d : Debugger E) :
  tracedBy p d (fst (runHooks p d addrs)) (snd (runHooks p d addrs)) [].
Proof.
  pose proof (runHooks_keeps addrs p d) as H. pose proof (runHooks_trace addrs p d) as Ht.
  destruct (runHooks p d addrs) as [p' d']. simpl in *.
  destruct H as (_ & _ & Hperf & Hout & _).
  apply tracedBy_quiet; assumption.
Qed.

Lemma stepFailed_traced p (d : Debugger E) e :
  tracedBy p d (fst (stepFailed p d e)) (snd (stepFailed p d e)) [].
Proof.
  pose proof (stepFailed_reports p d e) as H.
  assert (Ht : executionTrace (snd (stepFailed p d e)) = executionTrace d) by reflexivity.
  destruct (stepFailed p d e) as [p' d']. simpl in *.
  destruct H as (_ & _ & _ & Hperf & _ & Hout & _).
  apply tracedBy_quiet; assumption.
Qed.

Lemma logExecutedInstruction_traced p (d : Debugger E) :
  exists new, (length new <= 1)%nat
              /\ tracedBy p d (fst (logExecutedInstruction p d))
                          (snd (logExecutedInstruction p d)) new.
Proof.
  unfold logExecutedInstruction. destruct (pendingTrace d) as [pt |].
  - eexists [_]. split; [simpl; lia |]. simpl. split; [reflexivity |].
    intros Hperf. split; [exact Hperf | reflexivity].
  - exists []. split; [simpl; lia | apply tracedBy_refl].
Qed.

Lemma stepInstruction_traced p (d : Debugger E) :
  exists new, (length new <= 1)%nat
              /\ tracedBy p d (fst (stepInstruction p d)) (snd (stepInstruction p d)) new.
Proof.
  unfold stepInstruction. cbv zeta.
  set (d0 := set_isPaused d false).
  destruct (instructions ← decodeAt d0 (getCurrentPC d0); firstInsn instructions)
    as [insn | e].
  2: { exists []. split; [simpl; lia |].
       pose proof (stepFailed_traced p d0 e) as [Ht Hq]. split; [exact Ht | exact Hq]. }
  set (p1 := consoleLog p _).
  set (out := emu_start _ _ _ _ _ _).
  pose proof (runHooks_traced (fired out) p1 d0) as Hhooks.
  destruct (runHooks p1 d0 (fired out)) as [p2 d1]. simpl in Hhooks.
  assert (Hstart : tracedBy p d p2 (set_engine d1 (after out)) []).
  { destruct Hhooks as [Ht Hq]. split; [exact Ht | exact Hq]. }
  destruct (raised out) as [e |].
  - exists []. split; [simpl; lia |].
    apply (tracedBy_trans _ _ _ _ _ _ [] [] Hstart). apply stepFailed_traced.
  - set (d3 := set_currentAddress _ _).
    destruct (logExecutedInstruction_traced p2 d3) as (new & Hlen & Hlog).
    destruct (logExecutedInstruction p2 d3) as [p3 d4]. simpl in *.
    exists new. split; [exact Hlen |].
    apply (tracedBy_trans p d p2 d3 p3 _ [] new).
    + destruct Hstart as [Ht Hq]. split; [exact Ht | exact Hq].
    + destruct Hlog as [Ht Hq]. split; [exact Ht | exact Hq].
Qed.

Lemma stopExecution_traced p (d : Debugger E) :
  tracedBy p d (fst (stopExecution p d)) (snd (stopExecution p d)) [].
Proof.
  unfold stopExecution. cbv zeta. simpl. apply tracedBy_quiet.
  - reflexivity.
  - rewrite emuAppend_perf. reflexivity.
  - intros Hperf. rewrite emuAppend_quiet by exact Hperf. reflexivity.
Qed.

Lemma announce_traced p (d : Debugger E) m1 m2 :
  tracedBy p d (emuAppend (consoleLog p m1) m2) d [].
Proof.
  apply tracedBy_quiet; [reflexivity | rewrite emuAppend_perf; reflexivity |].
  intros Hperf. rewrite emuAppend_quiet by exact Hperf. reflexivity.
Qed.

(** One callback: the counter goes up by one exactly when a step was
    taken, and the step adds at most one line. *)
Lemma continueExecution_traced p (d : Debugger E) :
  let '(p', d', scheduled) := continueExecution p d in
  exists new, (length new <= if scheduled then 1 else 0)%nat
              /\ tracedBy p d p' d' new
              /\ executionCount d'
                 = (if scheduled then increment (executionCount d) else executionCount d).
Proof.
  unfold continueExecution.
  destruct (negb (isRunning d) || isPaused d).
  { exists []. split; [simpl; lia | split; [apply tracedBy_refl | reflexivity]]. }
  destruct (geNumber (executionCount d) (maxInstructions d)).
  { pose proof (stopExecution_traced
                  (emuAppend (consoleLog p LimitReachedLog) (LimitReached (maxInstructions d))) d)
      as Hstop.
    destruct (stopExecution _ d) as [p' d'] eqn:Hs. simpl in Hstop.
    exists []. split; [simpl; lia |]. split.
    - apply (tracedBy_trans _ _ _ _ _ _ [] [] (announce_traced p d _ _) Hstop).
    - unfold stopExecution in Hs. injection Hs as _ <-. reflexivity. }
  cbv zeta. destruct (isHaltInstruction d (getCurrentPC d)).
  { pose proof (stopExecution_traced
                  (emuAppend (consoleLog p HltEncountered) HltReached) d) as Hstop.
    destruct (stopExecution _ d) as [p' d'] eqn:Hs. simpl in Hstop.
    exists []. split; [simpl; lia |]. split.
    - apply (tracedBy_trans _ _ _ _ _ _ [] [] (announce_traced p d _ _) Hstop).
    - unfold stopExecution in Hs. injection Hs as _ <-. reflexivity. }
  destruct (stepInstruction_traced p d) as (new & Hlen & Hstep).
  pose proof (stepInstruction_outcome p d) as Hout. cbv zeta in Hout.
  destruct (stepInstruction p d) as [p1 d1]. simpl in Hstep.
  destruct Hout as ((_ & _ & _ & Hcount & _) & _).
  exists new. split; [exact Hlen |]. split.
  - destruct Hstep as [Ht Hq]. split; [exact Ht | exact Hq].
  - simpl. rewrite Hcount. reflexivity.
Qed.

Lemma timerLoop_traced fuel p (d : Debugger E) c :
  executionCount d = Some c ->
  let '(p', d', steps, _) := timerLoop fuel p d in
  exists new, (length new <= steps)%nat
              /\ tracedBy p d p' d' new
              /\ executionCount d' = Some (c + Z.of_nat steps).
Proof.
  revert p d c. induction fuel as [| fuel IH]; intros p d c Hc; simpl.
  - exists []. split; [simpl; lia |]. split; [apply tracedBy_refl |].
    rewrite Hc. f_equal. lia.
  - pose proof (continueExecution_traced p d) as Hstep.
    destruct (continueExecution p d) as [[p1 d1] scheduled].
    destruct Hstep as (new1 & Hlen1 & Ht1 & Hc1).
    destruct scheduled.
    + rewrite Hc in Hc1. simpl in Hc1.
      specialize (IH p1 d1 (c + 1) Hc1).
      destruct (timerLoop fuel p1 d1) as [[[p2 d2] steps] pending].
      destruct IH as (new2 & Hlen2 & Ht2 & Hc2).
      exists (new1 ++ new2). split; [rewrite length_app; lia |]. split.
      * exact (tracedBy_trans _ _ _ _ _ _ _ _ Ht1 Ht2).
      * rewrite Hc2. f_equal. lia.
    + exists new1. split; [exact Hlen1 |]. split; [exact Ht1 |].
      rewrite Hc1, Hc. f_equal. lia.
Qed.

End WithEngine.

End TraceFacts.

Module TraceProps.

Import Props ControllerFacts TraceFacts.

Section WithEngine.
Context {D : Disassembler} {E : Type} {EN : Engine E}.

(** X14.  A run started on a debugger that is not running counts what it does:
    when the callbacks have ended, or as far as they have come, the
    instruction counter equals the number of steps taken (the number the
    closing message reports), and the execution trace is the trace from before
    the run followed by at most one new line per step.  Nothing already in the
    trace is changed or removed. *)
Theorem run_counts_steps_and_extends_trace (fuel : nat) p (d : Debugger E) :
  isRunning d = false ->
  let '(p', d', steps, _) := runUntilHalt fuel p d in
  executionCount d' = Some (Z.of_nat steps)
  /\ exists new, executionTrace d' = executionTrace d ++ new /\ (length new <= steps)%nat.
Proof.
  intros Hrun. unfold runUntilHalt. rewrite Hrun.
  set (d1 := set_maxInstructions _ _). set (p1 := emuAppend _ _).
  pose proof (timerLoop_traced fuel p1 d1 0 eq_refl) as H.
  destruct (timerLoop fuel p1 d1) as [[[p' d'] steps] pending].
  destruct H as (new & Hlen & [Ht _] & Hc).
  split; [rewrite Hc; f_equal; lia |].
  exists new. split; [exact Ht | exact Hlen].
Qed.

(** X15.  In performance mode the controller writes nothing to the output
    element but the execution trace.  After a step, and after a whole run, the
    element either holds what it held before, when no line was added to the
    trace, or it holds the trace and nothing else: the messages about faults,
    halts, limits and stops are all suppressed, and the trace refresh is not.
    *)
Theorem performance_mode_leaves_only_the_trace (fuel : nat) p (d : Debugger E) :
  isPerformanceModeActive p = true ->
  (let '(p', d') := stepInstruction p d in
   (executionTrace d' = executionTrace d /\ emuOutput p' = emuOutput p)
   \/ emuOutput p' = [TraceText (executionTrace d')])
  /\ (isRunning d = false ->
      let '(p', d', _, _) := runUntilHalt fuel p d in
      (executionTrace d' = executionTrace d /\ emuOutput p' = emuOutput p)
      \/ emuOutput p' = [TraceText (executionTrace d')]).
Proof.
  intros Hperf. split.
  - destruct (stepInstruction_traced p d) as (new & _ & [Ht Hq]).
    destruct (stepInstruction p d) as [p' d']. simpl in *.
    destruct (Hq Hperf) as [_ Hout]. destruct new.
    + left. rewrite app_nil_r in Ht. split; assumption.
    + right. exact Hout.
  - intros Hrun. unfold runUntilHalt. rewrite Hrun.
    set (d1 := set_maxInstructions _ _). set (p1 := emuAppend _ _).
    pose proof (timerLoop_traced fuel p1 d1 0 eq_refl) as H.
    destruct (timerLoop fuel p1 d1) as [[[p' d'] steps] pending].
    destruct H as (new & _ & [Ht Hq] & _).
    assert (Hperf1 : isPerformanceModeActive p1 = true)
      by (subst p1; rewrite emuAppend_perf; exact Hperf).
    assert (Hout1 : emuOutput p1 = emuOutput p)
      by (subst p1; rewrite emuAppend_quiet by exact Hperf; reflexivity).
    destruct (Hq Hperf1) as [_ Hout]. destruct new.
    + left. rewrite app_nil_r in Ht. split; [exact Ht | rewrite Hout; exact Hout1].
    + right. exact Hout.
Qed.

End WithEngine.

Lemma run_counts_steps_and_extends_trace_witness :
  let '(p', d', steps, _) :=
    @runUntilHalt Sim.disassembler _ Sim.engine 100 blankPage pausingDebugger in
  executionCount d' = Some (Z.of_nat steps)
  /\ exists new, executionTrace d' = executionTrace pausingDebugger ++ new
                 /\ (length new <= steps)%nat.
Proof.
  apply (@run_counts_steps_and_extends_trace Sim.disassembler _ Sim.engine 100 blankPage
           pausingDebugger).
  reflexivity.
Defined.

Lemma performance_mode_leaves_only_the_trace_witness :
  let '(p', d') := @stepInstruction Sim.disassembler _ Sim.engine quietPage pausingDebugger in
  (executionTrace d' = executionTrace pausingDebugger /\ emuOutput p' = emuOutput quietPage)
  \/ emuOutput p' = [TraceText (executionTrace d')].
Proof.
  pose proof (@performance_mode_leaves_only_the_trace Sim.disassembler _ Sim.engine 0
                quietPage pausingDebugger eq_refl) as H.
  destruct H as [H _]. exact H.
Defined.

End TraceProps.

(* ------------------------------------------------------------------ *)
(** ** Pattern detector and the names of the compile step               *)
(* ------------------------------------------------------------------ *)

Module DetectorFacts.

Import Props ResolverFacts Linked.

Lemma scanPrologues_names textBaseAddr instructions k i f :
  scanPrologues textBaseAddr instructions k !! i = Some f ->
  fname f = ("func_" +:+ pretty (S (k + i)))%string
  /\ foffset f = faddress f - textBaseAddr.
Proof.
  revert k i. induction instructions as [| insn rest IH]; intros k i Hf; [discriminate |].
  simpl in Hf. destruct rest as [| nextInsn rest']; [discriminate |].
  destruct (isPushFramePointer insn && isMovFramePointer nextInsn).
  - destruct i as [| i]; simpl in Hf.
    + injection Hf as <-. simpl. rewrite Nat.add_0_r. split; reflexivity.
    + destruct (IH (S k) i Hf) as [Hn Ho]. split; [| exact Ho].
      replace (S k + i)%nat with (k + S i)%nat in Hn by lia. exact Hn.
  - exact (IH k i Hf).
Qed.

Lemma pairByOrder_length stored detected :
  length (pairByOrder stored detected) = Nat.min (length stored) (length detected).
Proof.
  revert detected. induction stored as [| s ss IH]; intros [| d ds]; simpl; try reflexivity.
  rewrite IH. reflexivity.
Qed.

Lemma pairByOrder_lookup stored detected i s d :
  stored !! i = Some s -> detected !! i = Some d ->
  pairByOrder stored detected !! i
  = Some {| fname := fname s; faddress := faddress d; foffset := foffset d |}.
Proof.
  revert detected i. induction stored as [| s0 ss IH]; intros [| d0 ds] i Hs Hd;
    try discriminate.
  destruct i as [| i]; simpl in *.
  - injection Hs as ->. injection Hd as ->. reflexivity.
  - exact (IH ds i Hs Hd).
Qed.

End DetectorFacts.

Module DetectorProps.

Import Props ResolverFacts Linked DetectorFacts.

Section WithDisassembler.
Context {D : Disassembler}.

(** X16.  The pattern detector never raises.  Without a [.text] section, with
    an empty one, with one that leaves the buffer or that the decoder refuses
    it returns no entry.  Otherwise its entries are exactly the addresses of
    the instructions that push the frame pointer and are followed at once by
    the move that sets it up; the entry of rank [i] (from 0) is named [func_]
    followed by [i + 1], and its offset is its address less the base address
    passed in. *)
Theorem detector_marks_each_prologue (parsed : Parsed) (textBaseAddr : Z) :
  let functions := detectFunctionsFromAssembly parsed textBaseAddr in
  (decodedText parsed textBaseAddr = None -> functions = [])
  /\ (forall instructions,
        decodedText parsed textBaseAddr = Some instructions ->
        (forall a, In a (List.map faddress functions) <-> prologueAt instructions a)
        /\ (forall i f, functions !! i = Some f ->
               fname f = ("func_" +:+ pretty (S i))%string
               /\ foffset f = faddress f - textBaseAddr)).
Proof.
  unfold detectFunctionsFromAssembly, decodedText.
  destruct (findSection (sectionHeaders parsed) ".text") as [textSection |];
    [| split; [reflexivity | discriminate]].
  destruct (size textSection =? 0); [split; [reflexivity | discriminate] |].
  destruct (Uint8Array (view parsed) (offset textSection) (size textSection)) as [bytes |];
    [| split; [reflexivity | discriminate]].
  destruct (disasm (is64 parsed) bytes textBaseAddr None) as [instructions |];
    [| split; [reflexivity | discriminate]].
  cbv zeta. split; [discriminate |].
  intros ? [= <-]. split.
  - intros a. apply scanPrologues_boundaries.
  - intros i f Hf. exact (scanPrologues_names textBaseAddr instructions 0 i f Hf).
Qed.

(** X17.  [mapStoredNamesToAddresses] attaches the names of the compile step
    to the functions detected in the linked executable by rank, not by
    address: the entry of rank [i] carries the stored name of rank [i] and the
    detected address and offset of rank [i].  Stored names beyond the detected
    functions are dropped.  When more functions are detected than names are
    stored, one entry [_start] is added, for the last detected function,
    however many detected functions are left without a name. *)
Theorem stored_names_pair_with_detected_by_rank (storedFunctions : list FuncSym)
        (linkedParsed : Parsed) (textBaseAddr : Z) :
  let detected := detectFunctionsFromAssembly linkedParsed textBaseAddr in
  let mapped := mapStoredNamesToAddresses storedFunctions linkedParsed textBaseAddr in
  (forall i stored found,
      storedFunctions !! i = Some stored -> detected !! i = Some found ->
      mapped !! i = Some {| fname := fname stored; faddress := faddress found;
                            foffset := foffset found |})
  /\ ((length detected <= length storedFunctions)%nat ->
      length mapped = length detected)
  /\ ((length storedFunctions < length detected)%nat ->
      length mapped = S (length storedFunctions)
      /\ exists found, last detected = Some found
           /\ last mapped = Some {| fname := "_start"; faddress := faddress found;
                                    foffset := foffset found |}).
Proof.
  intros detected mapped. subst mapped. unfold mapStoredNamesToAddresses.
  fold detected. cbv zeta.
  destruct (length storedFunctions <? length detected)%nat eqn:Hmore.
  - apply Nat.ltb_lt in Hmore.
    destruct (last detected) as [startFunction |] eqn:Hlast.
    2: { apply last_None in Hlast. rewrite Hlast in Hmore. simpl in Hmore. lia. }
    split; [| split].
    + intros i stored found Hs Hd. rewrite lookup_app_l.
      * exact (pairByOrder_lookup _ _ i stored found Hs Hd).
      * rewrite pairByOrder_length. apply lookup_lt_Some in Hs, Hd. lia.
    + intros Hle. lia.
    + intros _. split.
      * rewrite length_app, pairByOrder_length. simpl. lia.
      * exists startFunction. split; [reflexivity | apply last_snoc].
  - apply Nat.ltb_ge in Hmore. split; [| split].
    + intros i stored found Hs Hd. exact (pairByOrder_lookup _ _ i stored found Hs Hd).
    + intros _. rewrite pairByOrder_length. lia.
    + intros Hlt. lia.
Qed.

End WithDisassembler.

End DetectorProps.

(* ------------------------------------------------------------------ *)
(** ** The listing written and read back                                *)
(* ------------------------------------------------------------------ *)

Module DigitFacts.

Import Text Props Listing Listed TextFacts.

Local Open Scope string_scope.

Lemma allChars_app p (a b : string) :
  allChars p (a ++ b) = allChars p a && allChars p b.
Proof.
  induction a as [| x a IH]; [reflexivity |].
  rewrite append_cons. simpl. rewrite IH, andb_assoc. reflexivity.
Qed.

Lemma allChars_impl (p q : ascii -> bool) s :
  (forall c, p c = true -> q c = true) -> allChars p s = true -> allChars q s = true.
Proof.
  intros Hpq. induction s as [| x s IH]; [reflexivity |].
  simpl. intros H. apply andb_true_iff in H as [Hx Hs].
  rewrite (Hpq _ Hx), (IH Hs). reflexivity.
Qed.

Lemma allChars_repeat p n c : p c = true -> allChars p (repeatChar n c) = true.
Proof. intros Hc. induction n as [| n IH]; [reflexivity |]. simpl. rewrite Hc, IH. reflexivity. Qed.

Lemma length_repeat n c : String.length (repeatChar n c) = n.
Proof. induction n as [| n IH]; [reflexivity |]. simpl. rewrite IH. reflexivity. Qed.

Lemma append_empty (a : string) : a ++ "" = a.
Proof. induction a as [| x a IH]; [reflexivity |]. rewrite append_cons, IH. reflexivity. Qed.

Lemma hex_is_dot c : isHexDigit c = true -> isDot c = true.
Proof. destruct c as [[] [] [] [] [] [] [] []]; vm_compute; congruence. Qed.

Lemma hex_not_space c : isHexDigit c = true -> isWhiteSpace c = false.
Proof. destruct c as [[] [] [] [] [] [] [] []]; vm_compute; congruence. Qed.

Lemma space_is_dot : isDot " " = true.
Proof. reflexivity. Qed.

(** A digit is written as a hexadecimal digit and read as its value. *)
Lemma hexDigit_spec d :
  (0 <= d < 16)%Z -> isHexDigit (hexDigit d) = true /\ digitValue (hexDigit d) = Some d.
Proof.
  intros Hd.
  assert (H : In d (List.map Z.of_nat (seq 0 16))).
  { apply in_map_iff. exists (Z.to_nat d). split; [lia | apply in_seq; lia]. }
  simpl in H.
  repeat (destruct H as [<- | H]; [split; reflexivity |]). destruct H.
Qed.

(** The digits [hexLoop] writes in front of [acc] spell [n]. *)
Lemma hexLoop_spec fuel n acc :
  (0 < fuel)%nat -> (0 <= n < 16 ^ Z.of_nat fuel)%Z ->
  exists digits,
    hexLoop fuel n acc = digits ++ acc
    /\ digits <> ""
    /\ allChars isHexDigit digits = true
    /\ forall rest v, parseDigits (digits ++ rest) v
                      = parseDigits rest (v * 16 ^ Z.of_nat (String.length digits) + n)%Z.
Proof.
  revert n acc. induction fuel as [| fuel IH]; intros n acc Hfuel Hn; [lia |].
  simpl hexLoop. cbv zeta.
  assert (Hmod : (0 <= n mod 16 < 16)%Z) by (apply Z.mod_pos_bound; lia).
  destruct (hexDigit_spec _ Hmod) as [Hhex Hval].
  destruct (n / 16 =? 0)%Z eqn:Hq.
  - apply Z.eqb_eq in Hq.
    exists (String (hexDigit (n mod 16)) ""). split; [reflexivity |].
    split; [discriminate |]. split; [simpl; rewrite Hhex; reflexivity |].
    intros rest v. rewrite append_cons, append_nil. simpl. rewrite Hval.
    f_equal. pose proof (Z.div_mod n 16 ltac:(lia)). lia.
  - apply Z.eqb_neq in Hq.
    assert (Hdiv : (0 <= n / 16 < 16 ^ Z.of_nat fuel)%Z).
    { split; [apply Z.div_pos; lia |].
      apply Z.div_lt_upper_bound; [lia |].
      replace (Z.of_nat (S fuel)) with (Z.of_nat fuel + 1)%Z in Hn by lia.
      rewrite Z.pow_add_r in Hn by lia. lia. }
    assert (Hpos : (0 < fuel)%nat).
    { destruct fuel; [| lia]. simpl in Hdiv. pose proof (Z.div_pos n 16). lia. }
    destruct (IH (n / 16)%Z (String (hexDigit (n mod 16)) acc) Hpos Hdiv)
      as (digits & Heq & Hne & Hall & Hparse).
    exists (digits ++ String (hexDigit (n mod 16)) "").
    split; [rewrite Heq, append_assoc; reflexivity |].
    split; [destruct digits; [congruence | discriminate] |].
    split; [rewrite allChars_app, Hall; simpl; rewrite Hhex; reflexivity |].
    intros rest v. rewrite append_assoc, Hparse, append_cons, append_nil.
    simpl. rewrite Hval. f_equal.
    rewrite length_append. simpl String.length.
    replace (Z.of_nat (String.length digits + 1)) with (Z.of_nat (String.length digits) + 1)%Z
      by lia.
    rewrite Z.pow_add_r by lia.
    pose proof (Z.div_mod n 16 ltac:(lia)). lia.
Qed.

Lemma toString16_spec n :
  (0 <= n)%Z ->
  exists digits,
    toString16 n = digits
    /\ digits <> ""
    /\ allChars isHexDigit digits = true
    /\ parseInt16 digits = n.
Proof.
  intros Hn. unfold toString16.
  destruct (n <? 0)%Z eqn:Hneg; [apply Z.ltb_lt in Hneg; lia |].
  assert (Hfuel : (0 <= n < 16 ^ Z.of_nat (S (Z.to_nat (Z.log2 n))))%Z).
  { split; [lia |].
    pose proof (Z.log2_nonneg n) as Hlog.
    replace (Z.of_nat (S (Z.to_nat (Z.log2 n)))) with (Z.log2 n + 1)%Z by lia.
    assert (H2 : (n < 2 ^ (Z.log2 n + 1))%Z).
    { destruct (Z.eq_dec n 0) as [-> | Hnz]; [reflexivity |].
      replace (Z.log2 n + 1)%Z with (Z.succ (Z.log2 n)) by lia.
      apply Z.log2_spec. lia. }
    assert (H16 : (2 ^ (Z.log2 n + 1) <= 16 ^ (Z.log2 n + 1))%Z)
      by (apply Z.pow_le_mono_l; lia).
    lia. }
  destruct (hexLoop_spec (S (Z.to_nat (Z.log2 n))) n "" ltac:(lia) Hfuel) as (digits & Heq & Hne & Hall & Hparse).
  exists digits. rewrite Heq, append_empty.
  split; [reflexivity |]. split; [exact Hne |]. split; [exact Hall |].
  unfold parseInt16. specialize (Hparse "" 0%Z). rewrite append_empty in Hparse.
  rewrite Hparse. cbn [parseDigits]. lia.
Qed.

Lemma parseDigits_zeros k s :
  parseDigits (repeatChar k "0" ++ s) 0 = parseDigits s 0.
Proof. induction k as [| k IH]; [reflexivity |]. simpl repeatChar. rewrite append_cons. exact IH. Qed.

(** The address of a line: hexadecimal digits that read back as the
    address. *)
Lemma address_text a :
  (0 <= a)%Z ->
  padStart 8 "0" (toString16 a) <> ""
  /\ allChars isHexDigit (padStart 8 "0" (toString16 a)) = true
  /\ parseInt16 (padStart 8 "0" (toString16 a)) = a.
Proof.
  intros Ha. destruct (toString16_spec a Ha) as (digits & -> & Hne & Hall & Hparse).
  unfold padStart. split; [| split].
  - destruct (repeatChar _ _); [rewrite append_nil; exact Hne | discriminate].
  - rewrite allChars_app, Hall, allChars_repeat; reflexivity.
  - unfold parseInt16. rewrite parseDigits_zeros. exact Hparse.
Qed.

(** A byte is written as two hexadecimal digits. *)
Lemma byteText_spec b : (0 <= b < 256)%Z -> twoDigits (byteText b) = true.
Proof.
  intros Hb.
  assert (Hall : forallb (fun k => twoDigits (byteText (Z.of_nat k))) (seq 0 256) = true)
    by (vm_compute; reflexivity).
  rewrite forallb_forall in Hall.
  specialize (Hall (Z.to_nat b)). rewrite Z2Nat.id in Hall by lia.
  apply Hall. apply in_seq. lia.
Qed.

End DigitFacts.

Module LineFacts.

Import Text Props Highlight Listing Listed TextFacts DigitFacts.

Local Open Scope string_scope.

Lemma substring_whole (a : string) : substring 0 (String.length a - String.length "") a = a.
Proof.
  simpl String.length. rewrite Nat.sub_0_r.
  induction a as [| x a IH]; [reflexivity |]. simpl. rewrite IH. reflexivity.
Qed.

Lemma listingRe_matches A x y W R :
  A <> "" -> allChars isHexDigit A = true ->
  isHexDigit x = true -> isHexDigit y = true ->
  W <> "" -> allChars isWhiteSpace W = true ->
  startsVisible R = true -> oneLine R = true ->
  matchRe listingRe ("0x" ++ A ++ ": " ++ String x (String y (W ++ R))) []
          (fun _ caps => Some caps)
  = Some [A; String x (String y ""); R].
Proof.
  intros HA HhexA Hx Hy HW HwsW HR HdotR.
  unfold listingRe. rewrite !append_cons, !append_nil. cbn [matchRe].
  rewrite !Ascii.eqb_refl.
  apply rep_greedy_max; [exact HhexA | reflexivity | destruct A; [congruence | simpl; lia] |].
  rewrite Ascii.eqb_refl.
  change (String " " (String x (String y (W ++ R))))
    with (" " ++ String x (String y (W ++ R))).
  apply rep_greedy_max;
    [reflexivity | simpl; rewrite (hex_not_space _ Hx); reflexivity | simpl; lia |].
  rewrite rep_unfold. cbv zeta. rewrite (hex_is_dot _ Hx). simpl Nat.pred.
  rewrite rep_unfold. cbv zeta. rewrite (hex_is_dot _ Hy). simpl Nat.pred.
  rewrite (rep_unfold isWhiteSpace true 1 (String y (W ++ R))). cbv zeta.
  rewrite (hex_not_space _ Hy).
  rewrite rep_unfold. cbv zeta.
  assert (Hgroups :
    rep isWhiteSpace true 1 (W ++ R)
        (fun s'0 => rep isDot true 1 s'0
           (fun s'1 => Some
              ((([] ++ [substring 0
                          (String.length (A ++ String ":" (" " ++ String x (String y (W ++ R))))
                           - String.length (String ":" (" " ++ String x (String y (W ++ R)))))
                          (A ++ String ":" (" " ++ String x (String y (W ++ R))))])
                ++ [substring 0 (String.length (String x (String y (W ++ R)))
                                 - String.length (W ++ R))
                              (String x (String y (W ++ R)))])
               ++ [substring 0 (String.length s'0 - String.length s'1) s'0])%list))
    = Some [A; String x (String y ""); R]).
  { apply rep_greedy_max.
    - exact HwsW.
    - destruct R as [| c R']; [discriminate |]. exact HR.
    - destruct W; [congruence | simpl; lia].
    - rewrite <- (append_empty R) at 1.
      apply rep_greedy_max;
        [exact HdotR | reflexivity | destruct R; [discriminate | simpl; lia] |].
      rewrite substring_prefix, substring_whole.
      change (String x (String y (W ++ R))) with (String x (String y "") ++ (W ++ R)).
      rewrite substring_prefix. reflexivity. }
  rewrite Hgroups. reflexivity.
Qed.

Lemma listingRe_finds A x y W R :
  A <> "" -> allChars isHexDigit A = true ->
  isHexDigit x = true -> isHexDigit y = true ->
  W <> "" -> allChars isWhiteSpace W = true ->
  startsVisible R = true -> oneLine R = true ->
  search listingRe ("0x" ++ A ++ ": " ++ String x (String y (W ++ R)))
  = Some [A; String x (String y ""); R].
Proof.
  intros. rewrite search_unfold, listingRe_matches by assumption. reflexivity.
Qed.

(** A repetition fails when what follows it needs a colon and there is
    none. *)
Lemma rep_fails p greedy min s (k : string -> option (list string)) :
  allChars notColon s = true ->
  (forall t, allChars notColon t = true -> k t = None) ->
  rep p greedy min s k = None.
Proof.
  intros Hs Hk. revert min. induction s as [| c r IH]; intros min.
  - rewrite rep_unfold. cbv zeta. rewrite (Hk "" eq_refl).
    destruct min, greedy; reflexivity.
  - rewrite rep_unfold. cbv zeta. rewrite (Hk _ Hs).
    simpl in Hs. apply andb_true_iff in Hs as [_ Hr]. rewrite (IH Hr).
    destruct (p c), min, greedy; reflexivity.
Qed.

Lemma listingRe_needs_colon s k :
  allChars notColon s = true -> matchRe listingRe s [] k = None.
Proof.
  intros Hs. unfold listingRe. cbn [matchRe].
  destruct s as [| c0 s]; [reflexivity |]. destruct (Ascii.eqb "0" c0); [| reflexivity].
  simpl in Hs. apply andb_true_iff in Hs as [_ Hs].
  destruct s as [| c1 s]; [reflexivity |]. destruct (Ascii.eqb "x" c1); [| reflexivity].
  simpl in Hs. apply andb_true_iff in Hs as [_ Hs].
  apply rep_fails; [exact Hs |].
  intros [| c t] Ht; [reflexivity |].
  simpl in Ht. apply andb_true_iff in Ht as [Hc _].
  unfold notColon in Hc. apply negb_true_iff in Hc. rewrite Hc. reflexivity.
Qed.

Lemma search_needs_colon s : allChars notColon s = true -> search listingRe s = None.
Proof.
  induction s as [| c s IH]; intros Hs.
  - reflexivity.
  - rewrite search_unfold, listingRe_needs_colon by exact Hs.
    simpl in Hs. apply andb_true_iff in Hs as [_ Hs]. exact (IH Hs).
Qed.

Lemma dot_not_line_feed c : isDot c = true -> Ascii.eqb c "010" = false.
Proof. destruct c as [[] [] [] [] [] [] [] []]; vm_compute; congruence. Qed.

(** The first line of a text. *)
Lemma splitLines_line line rest :
  oneLine line = true -> splitLines (line ++ LF ++ rest) = line :: splitLines rest.
Proof.
  unfold oneLine. induction line as [| c line IH]; intros Hline.
  - reflexivity.
  - simpl in Hline. apply andb_true_iff in Hline as [Hc Hline].
    rewrite append_cons. simpl splitLines.
    rewrite (dot_not_line_feed _ Hc), (IH Hline). reflexivity.
Qed.

Lemma trimEnd_visible s c :
  isWhiteSpace c = false -> trimEnd (s ++ String c "") = s ++ String c "".
Proof.
  intros Hc. induction s as [| a s IH].
  - simpl. rewrite Hc. reflexivity.
  - rewrite append_cons. simpl trimEnd. rewrite IH.
    destruct (s ++ String c "") eqn:E; [destruct s; discriminate | reflexivity].
Qed.

Lemma substring_suffix (a b : string) :
  substring (String.length (a ++ b) - String.length b) (String.length b) (a ++ b) = b.
Proof.
  rewrite length_append.
  replace (String.length a + String.length b - String.length b)%nat
    with (String.length a) by lia.
  induction a as [| x a IH]; [| exact IH].
  rewrite append_nil. simpl String.length.
  induction b as [| y b IHb]; [reflexivity |]. simpl. rewrite IHb. reflexivity.
Qed.

(** The line of a label is skipped. *)
Lemma label_is_skipped name : isLabelLine ("<" ++ name ++ ">:") = true.
Proof.
  unfold isLabelLine, trim.
  assert (Htrim : trimEnd (trimStart ("<" ++ name ++ ">:")) = "<" ++ name ++ ">:").
  { rewrite append_cons, append_nil. simpl trimStart.
    change (String "<" (name ++ ">:")) with ("<" ++ name ++ ">:").
    replace ("<" ++ name ++ ">:") with (("<" ++ name ++ ">") ++ ":")
      by (rewrite !append_assoc; reflexivity).
    apply trimEnd_visible. reflexivity. }
  rewrite Htrim. apply andb_true_iff. split.
  { rewrite append_cons, append_nil. unfold startsWith. simpl.
    destruct (name ++ ">:"); reflexivity. }
  unfold endsWith.
  replace ("<" ++ name ++ ">:") with (("<" ++ name) ++ ">:")
    by (rewrite !append_assoc; reflexivity).
  rewrite substring_suffix. apply andb_true_iff. split; [| reflexivity].
  rewrite length_append. apply Nat.leb_le. lia.
Qed.

(** The line of an instruction is not. *)
Lemma address_is_no_label rest : isLabelLine ("0x" ++ rest) = false.
Proof.
  unfold isLabelLine, trim. rewrite append_cons. simpl trimStart. simpl trimEnd.
  destruct (trimEnd _); reflexivity.
Qed.

End LineFacts.

Module ListingFacts.

Import Text Props Highlight Listing Listed TextFacts DigitFacts LineFacts.

Local Open Scope string_scope.

Lemma symbolMap_names functionSymbols a name :
  namesOneLine functionSymbols ->
  symbolMap functionSymbols !! a = Some name -> oneLine name = true.
Proof.
  destruct functionSymbols as [symbols |]; simpl; [| intros _ H; rewrite lookup_empty in H; discriminate].
  assert (Hgen : forall m : gmap Z string,
             (forall a name, m !! a = Some name -> oneLine name = true) ->
             Forall (fun func => oneLine (fname func) = true) symbols ->
             fold_left (fun m func => <[faddress func := fname func]> m) symbols m !! a
             = Some name ->
             oneLine name = true).
  { induction symbols as [| func symbols IH]; intros m Hm Hall Hlook.
    - exact (Hm _ _ Hlook).
    - inversion Hall as [| ? ? Hfunc Hrest]; subst. simpl in Hlook.
      apply (IH (<[faddress func := fname func]> m)); [| exact Hrest | exact Hlook].
      intros a' name' Hin.
      destruct (decide (faddress func = a')) as [Heq | Hne].
      + subst a'. rewrite lookup_insert_eq in Hin. injection Hin as <-. exact Hfunc.
      + rewrite lookup_insert_ne in Hin by exact Hne. exact (Hm _ _ Hin). }
  intros Hall. apply Hgen; [| exact Hall].
  intros a' name' H. rewrite lookup_empty in H. discriminate.
Qed.

Section WithBytes.
Variable insn_bytes : Insn -> list Z.

Lemma annotation_oneLine functionSymbols instructions insn :
  namesOneLine functionSymbols ->
  oneLine (annotation (symbolMap functionSymbols) (symbolMap functionSymbols)
                      instructions insn) = true.
Proof.
  intros Hnames. unfold annotation.
  destruct (String.eqb (mnemonic insn) "call").
  - destruct (search callTargetRe (op_str insn)) as [[| target ?] |]; try reflexivity.
    cbv zeta.
    destruct (symbolMap functionSymbols !! parseInt16 target) as [name |] eqn:Hlook;
      [| reflexivity].
    unfold oneLine. rewrite !allChars_app.
    pose proof (symbolMap_names _ _ _ Hnames Hlook) as Hname. unfold oneLine in Hname.
    rewrite Hname. reflexivity.
  - destruct (String.eqb (mnemonic insn) "ret"); [| reflexivity].
    cbv zeta. destruct (_ && _); [reflexivity |]. destruct (_ <=? _)%Z; reflexivity.
Qed.

Lemma bytes_oneLine bytes :
  Forall (fun b => (0 <= b < 256)%Z) bytes ->
  oneLine (String.concat " " (List.map byteText bytes)) = true.
Proof.
  induction bytes as [| b bytes IH]; intros Hall; [reflexivity |].
  inversion Hall as [| ? ? Hb Hrest]; subst.
  pose proof (byteText_spec b Hb) as Htwo.
  assert (Hdots : oneLine (byteText b) = true).
  { destruct (byteText b) as [| x [| y [| ? ?]]]; try discriminate.
    simpl in Htwo. apply andb_true_iff in Htwo as [Hx Hy].
    unfold oneLine. simpl. rewrite (hex_is_dot _ Hx), (hex_is_dot _ Hy). reflexivity. }
  destruct bytes as [| b' bytes']; [exact Hdots |].
  change (String.concat " " (List.map byteText (b :: b' :: bytes')))
    with (byteText b ++ " " ++ String.concat " " (List.map byteText (b' :: bytes'))).
  unfold oneLine in *. rewrite !allChars_app, Hdots, (IH Hrest). reflexivity.
Qed.

Lemma bytes_startVisible b bytes :
  (0 <= b < 256)%Z ->
  forall rest, startsVisible (String.concat " " (List.map byteText (b :: bytes)) ++ rest) = true.
Proof.
  intros Hb rest. pose proof (byteText_spec b Hb) as Htwo.
  assert (Hhead : forall more, startsVisible (byteText b ++ more) = true).
  { intros more. destruct (byteText b) as [| x [| y [| ? ?]]]; try discriminate.
    simpl in Htwo. apply andb_true_iff in Htwo as [Hx _].
    rewrite append_cons. simpl. rewrite (hex_not_space _ Hx). reflexivity. }
  destruct bytes as [| b' bytes']; [apply Hhead |].
  change (String.concat " " (List.map byteText (b :: b' :: bytes')))
    with (byteText b ++ " " ++ String.concat " " (List.map byteText (b' :: bytes'))).
  rewrite append_assoc. apply Hhead.
Qed.

Lemma startsVisible_app a b : startsVisible a = true -> startsVisible (a ++ b) = true.
Proof. destruct a; [discriminate | intros H; exact H]. Qed.

(** The line of an instruction, as the pattern of the handler sees it:
    the address, the first byte, white space, and the text that becomes
    the instruction. *)
Lemma line_shape functionSymbols instructions insn :
  namesOneLine functionSymbols ->
  listable insn_bytes insn ->
  exists A x y W,
    instructionLine insn_bytes insn
    ++ annotation (symbolMap functionSymbols) (symbolMap functionSymbols) instructions insn
    = "0x" ++ A ++ ": "
      ++ String x (String y (W ++ i_instruction (listed insn_bytes functionSymbols
                                                         instructions insn)))
    /\ A <> "" /\ allChars isHexDigit A = true /\ parseInt16 A = address insn
    /\ isHexDigit x = true /\ isHexDigit y = true
    /\ W <> "" /\ allChars isWhiteSpace W = true /\ oneLine W = true
    /\ startsVisible (i_instruction (listed insn_bytes functionSymbols instructions insn))
       = true
    /\ oneLine (i_instruction (listed insn_bytes functionSymbols instructions insn)) = true.
Proof.
  intros Hnames (Haddr & Hne & Hbytes & Hvis & Hmn & Hop).
  destruct (address_text (address insn) ltac:(destruct Haddr; lia)) as (HA & HhexA & HparseA).
  pose proof (annotation_oneLine functionSymbols instructions insn Hnames) as Hann.
  exists (padStart 8 "0" (toString16 (address insn))).
  unfold instructionLine, listed. cbn [i_instruction].
  set (A := padStart 8 "0" (toString16 (address insn))) in *.
  set (ann := annotation _ _ _ _) in *.
  destruct (insn_bytes insn) as [| b [| b' more]] eqn:Hb; [congruence | |].
  - inversion Hbytes as [| ? ? Hb0 _]; subst.
    pose proof (byteText_spec b Hb0) as Htwo.
    simpl List.map. simpl String.concat. unfold remainingBytes.
    destruct (byteText b) as [| x [| y [| ? ?]]]; try discriminate.
    simpl in Htwo. apply andb_true_iff in Htwo as [Hx Hy].
    exists x, y, (repeatChar 22 " " ++ " ").
    split; [| repeat (split; [first [assumption | reflexivity | discriminate] |])].
    + unfold padEnd. simpl String.length. simpl Nat.sub.
      rewrite ?append_assoc, ?append_cons, ?append_nil, ?append_assoc. reflexivity.
    + split.
      * rewrite append_nil. apply startsVisible_app. exact Hvis.
      * unfold oneLine in *. rewrite !allChars_app, Hmn, Hop, Hann. reflexivity.
  - inversion Hbytes as [| ? ? Hb0 Hrest]; subst.
    inversion Hrest as [| ? ? Hb1 _]; subst.
    pose proof (byteText_spec b Hb0) as Htwo.
    pose proof (bytes_oneLine (b' :: more) Hrest) as Hdots.
    pose proof (bytes_startVisible b' more Hb1) as Hstart.
    change (String.concat " " (List.map byteText (b :: b' :: more)))
      with (byteText b ++ " " ++ String.concat " " (List.map byteText (b' :: more))).
    unfold remainingBytes.
    set (J := String.concat " " (List.map byteText (b' :: more))) in *.
    destruct (byteText b) as [| x [| y [| ? ?]]]; try discriminate.
    simpl in Htwo. apply andb_true_iff in Htwo as [Hx Hy].
    exists x, y, " ".
    split; [| repeat (split; [first [assumption | reflexivity | discriminate] |])].
    + unfold padEnd. rewrite !length_append. simpl String.length.
      replace (24 - (2 + (1 + String.length J)))%nat with (21 - String.length J)%nat by lia.
      rewrite ?append_assoc, ?append_cons, ?append_nil, ?append_assoc. reflexivity.
    + split.
      * unfold padEnd. rewrite !append_assoc. apply Hstart.
      * unfold oneLine, padEnd in *.
        rewrite !allChars_app, Hdots, Hmn, Hop, Hann, allChars_repeat by reflexivity.
        reflexivity.
Qed.

Lemma parseLine_plain acc s : allChars notColon s = true -> parseLine acc s = acc.
Proof.
  intros Hs. unfold parseLine. rewrite (search_needs_colon _ Hs).
  destruct (isLabelLine s); reflexivity.
Qed.

Lemma parseLine_instruction functionSymbols instructions insn acc :
  namesOneLine functionSymbols ->
  listable insn_bytes insn ->
  parseLine acc (instructionLine insn_bytes insn
                 ++ annotation (symbolMap functionSymbols) (symbolMap functionSymbols)
                               instructions insn)
  = (acc ++ [listed insn_bytes functionSymbols instructions insn])%list.
Proof.
  intros Hnames Hinsn.
  destruct (line_shape functionSymbols instructions insn Hnames Hinsn)
    as (A & x & y & W & -> & HA & HhexA & Hparse & Hx & Hy & HW & HwsW & _ & Hvis & Hdots).
  unfold parseLine.
  rewrite address_is_no_label, listingRe_finds by assumption.
  rewrite Hparse.
  assert (HR : forall R, startsVisible R = true -> String.eqb R "" = false)
    by (intros [| ? ?]; [discriminate | reflexivity]).
  rewrite (HR _ Hvis). reflexivity.
Qed.

Lemma line_oneLine functionSymbols instructions insn :
  namesOneLine functionSymbols ->
  listable insn_bytes insn ->
  oneLine (instructionLine insn_bytes insn
           ++ annotation (symbolMap functionSymbols) (symbolMap functionSymbols)
                         instructions insn) = true.
Proof.
  intros Hnames Hinsn.
  destruct (line_shape functionSymbols instructions insn Hnames Hinsn)
    as (A & x & y & W & -> & HA & HhexA & Hparse & Hx & Hy & HW & HwsW & HdotW & Hvis & Hdots).
  unfold oneLine in *. rewrite !allChars_app. cbn [allChars]. rewrite allChars_app.
  rewrite (allChars_impl _ _ _ hex_is_dot HhexA), (hex_is_dot _ Hx), (hex_is_dot _ Hy),
    HdotW, Hdots.
  reflexivity.
Qed.

Lemma parseLine_label acc name : parseLine acc ("<" ++ name ++ ">:") = acc.
Proof. unfold parseLine. rewrite label_is_skipped. reflexivity. Qed.

Lemma splitLines_blank rest : splitLines (LF ++ rest) = "" :: splitLines rest.
Proof. reflexivity. Qed.

Lemma header_readsAs sectionName :
  plainName sectionName = true ->
  readsAs (LF ++ "=== " ++ sectionName ++ " Section Disassembly ===" ++ LF) [].
Proof.
  intros Hname rest. apply andb_true_iff in Hname as [Hline Hcolon].
  rewrite !append_assoc, splitLines_blank.
  replace ("=== " ++ sectionName ++ " Section Disassembly ===" ++ LF ++ rest)
    with (("=== " ++ sectionName ++ " Section Disassembly ===") ++ LF ++ rest)
    by (rewrite !append_assoc; reflexivity).
  rewrite splitLines_line
    by (unfold oneLine in *; rewrite !allChars_app, Hline; reflexivity).
  simpl fold_left. change (parseLine [] "") with (@nil AsmInstruction).
  rewrite parseLine_plain; [reflexivity |].
  rewrite !allChars_app, Hcolon. reflexivity.
Qed.

Lemma step_readsAs functionSymbols instructions out acc insn :
  namesOneLine functionSymbols ->
  listable insn_bytes insn ->
  readsAs out acc ->
  readsAs (listInstruction insn_bytes (symbolMap functionSymbols) (symbolMap functionSymbols)
                           instructions out insn)
          (acc ++ [listed insn_bytes functionSymbols instructions insn])%list.
Proof.
  intros Hnames Hinsn Hout rest. unfold listInstruction. cbv zeta.
  pose proof (line_oneLine functionSymbols instructions insn Hnames Hinsn) as Hline.
  pose proof (parseLine_instruction functionSymbols instructions insn acc Hnames Hinsn)
    as Hparse.
  set (line := instructionLine insn_bytes insn ++ annotation _ _ _ _) in *.
  destruct (symbolMap functionSymbols !! address insn) as [functionName |] eqn:Hlook.
  - pose proof (symbolMap_names _ _ _ Hnames Hlook) as Hname.
    rewrite !append_assoc, Hout, splitLines_blank.
    replace ("<" ++ functionName ++ ">:" ++ LF ++ line ++ LF ++ rest)
      with (("<" ++ functionName ++ ">:") ++ LF ++ line ++ LF ++ rest)
      by (rewrite !append_assoc; reflexivity).
    rewrite splitLines_line
      by (unfold oneLine in *; rewrite !allChars_app, Hname; reflexivity).
    rewrite splitLines_line by exact Hline.
    simpl fold_left. change (parseLine acc "") with acc.
    rewrite parseLine_label, Hparse. reflexivity.
  - rewrite !append_assoc, Hout.
    rewrite splitLines_line by exact Hline.
    simpl fold_left. rewrite Hparse. reflexivity.
Qed.

Lemma loop_readsAs functionSymbols instructions insns out acc :
  namesOneLine functionSymbols ->
  Forall (listable insn_bytes) insns ->
  readsAs out acc ->
  readsAs (fold_left (listInstruction insn_bytes (symbolMap functionSymbols)
                                      (symbolMap functionSymbols) instructions) insns out)
          (acc ++ List.map (listed insn_bytes functionSymbols instructions) insns)%list.
Proof.
  intros Hnames. revert out acc.
  induction insns as [| insn insns IH]; intros out acc Hall Hout.
  - simpl. rewrite app_nil_r. exact Hout.
  - inversion Hall as [| ? ? Hinsn Hrest]; subst. simpl fold_left. simpl List.map.
    replace (acc ++ listed insn_bytes functionSymbols instructions insn
                 :: List.map (listed insn_bytes functionSymbols instructions) insns)%list
      with ((acc ++ [listed insn_bytes functionSymbols instructions insn])
              ++ List.map (listed insn_bytes functionSymbols instructions) insns)%list
      by (rewrite <- app_assoc; reflexivity).
    apply IH; [exact Hrest |]. apply step_readsAs; assumption.
Qed.

Lemma readsAs_all out acc : readsAs out acc -> parseListing out = acc.
Proof.
  intros Hout. unfold parseListing. specialize (Hout "").
  rewrite append_empty in Hout. rewrite Hout. reflexivity.
Qed.

(** What the handler reads from the listing of a section. *)
Lemma listing_read {D : Disassembler} (message : exn -> string)
      bytes is64bit baseAddr sectionName functionSymbols instructions :
  disasm is64bit bytes baseAddr None = Ok instructions ->
  plainName sectionName = true ->
  namesOneLine functionSymbols ->
  Forall (listable insn_bytes) instructions ->
  parseListing (disassembleSection insn_bytes message bytes is64bit baseAddr sectionName
                                   functionSymbols)
  = List.map (listed insn_bytes functionSymbols instructions) instructions.
Proof.
  intros Hdis Hname Hnames Hall.
  unfold disassembleSection. rewrite Hdis. cbv zeta.
  apply readsAs_all.
  apply (loop_readsAs functionSymbols instructions instructions _ [] Hnames Hall).
  apply header_readsAs. exact Hname.
Qed.

Lemma rising_ascending functionSymbols instructions insns low :
  risingFrom low insns ->
  ascendingFrom low (List.map (listed insn_bytes functionSymbols instructions) insns).
Proof.
  revert low. induction insns as [| insn insns IH]; intros low Hrise; [exact I |].
  destruct Hrise as [Hlow Hrest]. split; [exact Hlow | exact (IH _ Hrest)].
Qed.

Lemma pushes_of_listed (f : Insn -> AsmInstruction) insns :
  (forall insn, i_address (f insn) = address insn) ->
  List.map i_address (List.filter pushesFramePointer (List.map f insns))
  = List.map address (List.filter (fun insn => pushesFramePointer (f insn)) insns).
Proof.
  intros Hf. induction insns as [| insn insns IH]; [reflexivity |].
  simpl. destruct (pushesFramePointer (f insn)); simpl; rewrite IH, ?Hf; reflexivity.
Qed.

Lemma substring_middle (a p b : string) :
  substring (String.length a) (String.length p) (a ++ p ++ b) = p.
Proof.
  induction a as [| x a IH]; [| exact IH].
  rewrite append_nil. simpl String.length.
  induction p as [| y p IHp]; [destruct b; reflexivity |].
  rewrite append_cons. simpl. rewrite IHp. reflexivity.
Qed.

Lemma includes_middle (a p b : string) : p <> "" -> includes (a ++ p ++ b) p = true.
Proof.
  intros Hp. unfold includes.
  destruct (String.index 0 p (a ++ p ++ b)) eqn:Hindex; [reflexivity |].
  exfalso.
  apply (String.index_correct3 0 (String.length a) p (a ++ p ++ b) Hindex Hp);
    [lia | apply substring_middle].
Qed.

(** The line of a decoded frame-pointer push mentions it. *)
Lemma push_is_listed functionSymbols instructions insn :
  isPushFramePointer insn = true ->
  pushesFramePointer (listed insn_bytes functionSymbols instructions insn) = true.
Proof.
  unfold isPushFramePointer. intros Hpush.
  apply andb_true_iff in Hpush as [Hmn Hop]. apply String.eqb_eq in Hmn.
  unfold pushesFramePointer, asmTextOf, listed. cbn [i_instruction].
  unfold annotation. rewrite Hmn. simpl String.eqb. cbv iota.
  set (rb := remainingBytes (insn_bytes insn)).
  apply orb_true_iff in Hop as [Hop | Hop]; apply String.eqb_eq in Hop; rewrite Hop.
  - change (rb ++ "push" ++ " " ++ "rbp" ++ "") with (rb ++ "push rbp" ++ "").
    destruct (String.eqb (rb ++ "push rbp" ++ "") "") eqn:E.
    + apply String.eqb_eq in E. destruct rb; discriminate.
    + rewrite includes_middle by discriminate. reflexivity.
  - change (rb ++ "push" ++ " " ++ "ebp" ++ "") with (rb ++ "push ebp" ++ "").
    destruct (String.eqb (rb ++ "push ebp" ++ "") "") eqn:E.
    + apply String.eqb_eq in E. destruct rb; discriminate.
    + rewrite (includes_middle rb "push ebp" "") by discriminate. apply orb_true_r.
Qed.

End WithBytes.

End ListingFacts.

Module ListingProps.

Import Text Props Highlight Listing Listed TextFacts DigitFacts LineFacts ListingFacts BlockFacts.

Local Open Scope string_scope.

Section WithDisassembler.
Context {D : Disassembler}.
Variable insn_bytes : Insn -> list Z.
Variable message : exn -> string.

(** X18.  The listing that [disassembleSection] writes is read back by the
    handler instruction for instruction.  When the decoder accepts the
    section, the section name is one line without a colon, the names of the
    symbols are one line each, and every instruction has an exact address, at
    least one byte and a one-line mnemonic and operands, the lines the handler
    parses give one entry per decoded instruction, in order: the address is
    the address of the instruction (written in hexadecimal and read back), and
    the text is the line from the second byte on, that is the mnemonic, the
    operands and the annotation, preceded by the bytes after the first for an
    instruction of several bytes.  Headers, blank lines and labels give no
    entry. *)
Theorem listing_is_read_back
        (bytes : list Z) (is64bit : bool) (baseAddr : Z) (sectionName : string)
        (functionSymbols : option (list FuncSym)) (instructions : list Insn) :
  disasm is64bit bytes baseAddr None = Ok instructions ->
  plainName sectionName = true ->
  namesOneLine functionSymbols ->
  Forall (listable insn_bytes) instructions ->
  let text := disassembleSection insn_bytes message bytes is64bit baseAddr sectionName
                                 functionSymbols in
  parseListing text = List.map (listed insn_bytes functionSymbols instructions) instructions
  /\ List.map i_address (parseListing text) = List.map address instructions.
Proof.
  intros Hdis Hname Hnames Hall text.
  pose proof (listing_read insn_bytes message bytes is64bit baseAddr sectionName
                           functionSymbols instructions Hdis Hname Hnames Hall) as Hread.
  fold text in Hread.
  split; [exact Hread |].
  rewrite Hread, List.map_map. reflexivity.
Qed.

(** X19.  From the decoded code to the blocks of the highlighting.  Under the
    same conditions, and with positive, strictly ascending addresses, the
    blocks that [detectAssemblyFunctionBoundaries] finds in the listing read
    back start at the addresses of the decoded instructions whose line
    mentions [push rbp] or [push ebp], in order; every decoded [push rbp] and
    [push ebp] is one of them, whatever bytes it has. *)
Theorem decoded_pushes_open_blocks
        (bytes : list Z) (is64bit : bool) (baseAddr : Z) (sectionName : string)
        (functionSymbols : option (list FuncSym)) (instructions : list Insn) :
  disasm is64bit bytes baseAddr None = Ok instructions ->
  plainName sectionName = true ->
  namesOneLine functionSymbols ->
  Forall (listable insn_bytes) instructions ->
  risingFrom 0 instructions ->
  let text := disassembleSection insn_bytes message bytes is64bit baseAddr sectionName
                                 functionSymbols in
  let boundaries := detectAssemblyFunctionBoundaries (parseListing text) in
  List.map startAddr boundaries
  = List.map address
      (List.filter (fun insn => pushesFramePointer
                                  (listed insn_bytes functionSymbols instructions insn))
                   instructions)
  /\ forall insn, In insn instructions -> isPushFramePointer insn = true ->
                  In (address insn) (List.map startAddr boundaries).
Proof.
  intros Hdis Hname Hnames Hall Hrise text boundaries.
  pose proof (listing_read insn_bytes message bytes is64bit baseAddr sectionName
                           functionSymbols instructions Hdis Hname Hnames Hall) as Hread.
  fold text in Hread.
  assert (Hstarts : List.map startAddr boundaries
            = List.map address
                (List.filter (fun insn => pushesFramePointer
                                            (listed insn_bytes functionSymbols instructions insn))
                             instructions)).
  { subst boundaries. rewrite Hread.
    rewrite detect_blocks by (apply rising_ascending; exact Hrise).
    rewrite blocks_starts. apply pushes_of_listed. reflexivity. }
  split; [exact Hstarts |].
  intros insn Hin Hpush. rewrite Hstarts. apply in_map. apply filter_In.
  split; [exact Hin | apply push_is_listed; exact Hpush].
Qed.

End WithDisassembler.

Lemma decoded_pushes_open_blocks_witness :
  List.map startAddr
           (detectAssemblyFunctionBoundaries
              (parseListing (@disassembleSection Sim.disassembler
                               ListingSamples.sampleInsnBytes ListingSamples.sampleMessage
                               ListingSamples.sampleText true ListingSamples.sampleBase ".text"
                               ListingSamples.sampleSymbols)))
  = [0x10000001%Z].
Proof.
  pose proof (@decoded_pushes_open_blocks Sim.disassembler ListingSamples.sampleInsnBytes
                ListingSamples.sampleMessage ListingSamples.sampleText true
                ListingSamples.sampleBase ".text" ListingSamples.sampleSymbols
                ListingSamples.sampleInstructions) as H.
  destruct H as [H _].
  - reflexivity.
  - reflexivity.
  - repeat constructor.
  - repeat (constructor; [unfold listable, exactNumber; simpl;
                          repeat split; try lia; try discriminate; repeat constructor; lia |]).
    constructor.
  - simpl. lia.
  - exact H.
Defined.

Lemma listing_is_read_back_witness :
  parseListing (@disassembleSection Sim.disassembler ListingSamples.sampleInsnBytes
                                    ListingSamples.sampleMessage ListingSamples.sampleText
                                    true ListingSamples.sampleBase ".text"
                                    ListingSamples.sampleSymbols)
  = [ {| i_address := 0x10000000; i_instruction := "nop " |};
      {| i_address := 0x10000001; i_instruction := "push rbp" |};
      {| i_address := 0x10000002; i_instruction := "89 e5                 mov rbp, rsp" |};
      {| i_address := 0x10000005; i_instruction := "ret  ; â†’ exit" |} ].
Proof.
  pose proof (@listing_is_read_back Sim.disassembler ListingSamples.sampleInsnBytes
                ListingSamples.sampleMessage ListingSamples.sampleText true
                ListingSamples.sampleBase ".text" ListingSamples.sampleSymbols
                ListingSamples.sampleInstructions) as H.
  destruct H as [H _].
  - reflexivity.
  - reflexivity.
  - repeat constructor.
  - repeat (constructor; [unfold listable, exactNumber; simpl;
                          repeat split; try lia; try discriminate; repeat constructor; lia |]).
    constructor.
  - exact H.
Defined.

End ListingProps.

(* ------------------------------------------------------------------ *)
(** ** The listing on the page                                          *)
(* ------------------------------------------------------------------ *)

Module ViewFacts.

Import Text Props Highlight Listing Listed View TextFacts DigitFacts LineFacts.

Local Open Scope string_scope.

Lemma splitLines_no_line_feed s :
  Forall (fun line => allChars notLineFeed line = true) (splitLines s).
Proof.
  induction s as [| c s IH]; [repeat constructor |].
  simpl splitLines. destruct (Ascii.eqb c "010") eqn:Hc.
  - constructor; [reflexivity | exact IH].
  - destruct (splitLines s) as [| line lines].
    + repeat constructor. simpl. unfold notLineFeed. rewrite Hc. reflexivity.
    + inversion IH as [| ? ? Hline Hlines]; subst. constructor; [| exact Hlines].
      simpl. unfold notLineFeed at 1. rewrite Hc, Hline. reflexivity.
Qed.

Lemma concat_no_line_feed (lines : list string) :
  Forall (fun line => allChars notLineFeed line = true) lines ->
  allChars notLineFeed (String.concat "" lines) = true.
Proof.
  induction lines as [| line lines IH]; intros Hall; [reflexivity |].
  inversion Hall as [| ? ? Hline Hlines]; subst.
  destruct lines as [| line' lines']; [exact Hline |].
  change (String.concat "" (line :: line' :: lines'))
    with (line ++ "" ++ String.concat "" (line' :: lines')).
  rewrite !allChars_app, Hline, (IH Hlines). reflexivity.
Qed.

Lemma splitLines_single s : allChars notLineFeed s = true -> splitLines s = [s].
Proof.
  induction s as [| c s IH]; intros Hs; [reflexivity |].
  simpl in Hs. apply andb_true_iff in Hs as [Hc Hs].
  unfold notLineFeed in Hc. apply negb_true_iff in Hc.
  simpl splitLines. rewrite Hc, (IH Hs). reflexivity.
Qed.

Lemma parseLine_short line : (length (parseLine [] line) <= 1)%nat.
Proof.
  unfold parseLine. destruct (isLabelLine line); [simpl; lia |].
  destruct (search listingRe line) as [[| m1 [| m2 [| m3 [| ? ?]]]] |]; simpl; lia.
Qed.

Section WithEngine.
Context {E : Type} {EN : Engine E}.

Lemma attribute_is_kept (disasmDiv : Element) (text : string) (ev : @Event E) :
  dataOriginalText disasmDiv = Some text -> text <> "" ->
  dataOriginalText (after disasmDiv ev) = Some text.
Proof.
  intros Hattr Hne.
  assert (Hnot : String.eqb text "" = false) by (apply String.eqb_neq; exact Hne).
  destruct ev as [p disasmOutput | d]; simpl.
  - unfold showListing. destruct (isPerformanceModeActive p); exact Hattr.
  - rewrite Hattr, Hnot. reflexivity.
Qed.

Lemma attribute_survives (disasmDiv : Element) (text : string) (events : list (@Event E)) :
  dataOriginalText disasmDiv = Some text -> text <> "" ->
  dataOriginalText (fold_left after events disasmDiv) = Some text.
Proof.
  intros Hattr Hne. revert disasmDiv Hattr.
  induction events as [| ev events IH]; intros disasmDiv Hattr; [exact Hattr |].
  simpl. apply IH. apply attribute_is_kept; assumption.
Qed.

End WithEngine.

End ViewFacts.

Module MarkFacts.

Import Text Props Highlight Listing Listed View TextFacts DigitFacts LineFacts ListingFacts
       ViewFacts.

Local Open Scope string_scope.

Lemma hexColon_cons c c' r :
  hexColon (String c (String c' r))
  = (isHexDigit c && Ascii.eqb ":" c') || hexColon (String c' r).
Proof. reflexivity. Qed.

Lemma hexColon_app x y :
  hexColon (x ++ y) = hexColon x || hexColon y || (endsHex x && startsColon y).
Proof.
  induction x as [| c x IH].
  - rewrite append_nil. simpl. rewrite orb_false_r. reflexivity.
  - destruct x as [| c' x'].
    + rewrite append_cons, append_nil. destruct y as [| d y'].
      * simpl. rewrite andb_false_r. reflexivity.
      * rewrite hexColon_cons.
        change (hexColon (String c "")) with false.
        change (endsHex (String c "")) with (isHexDigit c).
        change (startsColon (String d y')) with (Ascii.eqb ":" d).
        destruct (isHexDigit c && Ascii.eqb ":" d), (hexColon (String d y')); reflexivity.
    + rewrite !append_cons, hexColon_cons. rewrite <- append_cons, IH.
      rewrite hexColon_cons.
      change (endsHex (String c (String c' x'))) with (endsHex (String c' x')).
      destruct (isHexDigit c && Ascii.eqb ":" c'), (hexColon (String c' x')),
        (hexColon y), (endsHex (String c' x') && startsColon y); reflexivity.
Qed.

Lemma colon_free_unmarked s : allChars notColon s = true -> hexColon s = false.
Proof.
  induction s as [| c s IH]; intros Hs; [reflexivity |].
  simpl in Hs. apply andb_true_iff in Hs as [_ Hs].
  destruct s as [| c' s']; [reflexivity |].
  rewrite hexColon_cons, (IH Hs).
  simpl in Hs. apply andb_true_iff in Hs as [Hc' _].
  unfold notColon in Hc'. apply negb_true_iff in Hc'. rewrite Hc', andb_false_r.
  reflexivity.
Qed.

Lemma colon_free_start s : allChars notColon s = true -> startsColon s = false.
Proof.
  destruct s as [| c s]; [reflexivity |]. simpl. intros H.
  apply andb_true_iff in H as [Hc _]. unfold notColon in Hc.
  apply negb_true_iff in Hc. exact Hc.
Qed.

Lemma hex_not_colon c : isHexDigit c = true -> notColon c = true.
Proof. destruct c as [[] [] [] [] [] [] [] []]; vm_compute; congruence. Qed.

(** A text that holds a hexadecimal digit and a colon side by side. *)
Lemma hexColon_found a h b :
  isHexDigit h = true -> hexColon (a ++ String h (String ":" b)) = true.
Proof.
  intros Hh. rewrite hexColon_app, hexColon_cons, Hh. simpl.
  rewrite orb_true_r. reflexivity.
Qed.

Lemma snoc_view (s : string) : s <> "" -> exists s0 c, s = s0 ++ String c "".
Proof.
  induction s as [| c s IH]; [congruence |]. intros _.
  destruct s as [| c' s'].
  - exists "", c. reflexivity.
  - destruct IH as (s0 & d & Heq); [discriminate |].
    exists (String c s0), d. rewrite append_cons, <- Heq. reflexivity.
Qed.

Lemma snoc_inj (x y : string) c d :
  x ++ String c "" = y ++ String d "" -> x = y /\ c = d.
Proof.
  revert y. induction x as [| a x IH]; intros [| b y] H.
  - rewrite !append_nil in H. injection H as ->. split; reflexivity.
  - rewrite append_nil, append_cons in H. injection H as -> H. destruct y; discriminate.
  - rewrite append_nil, append_cons in H. injection H as -> H. destruct x; discriminate.
  - rewrite !append_cons in H. injection H as -> H.
    destruct (IH _ H) as [-> ->]. split; reflexivity.
Qed.

(** Where a colon can stand behind a text without one. *)
Lemma first_colon (x y x' y' : string) :
  allChars notColon x = true ->
  x ++ String ":" y = x' ++ String ":" y' ->
  (x' = x /\ y' = y) \/ exists z, x' = x ++ String ":" z /\ y = z ++ String ":" y'.
Proof.
  revert x'. induction x as [| c x IH]; intros x' Hx H.
  - rewrite append_nil in H. destruct x' as [| c' x''].
    + rewrite append_nil in H. injection H as ->. left. split; reflexivity.
    + rewrite append_cons in H. injection H as <- ->. right. exists x''.
      split; reflexivity.
  - simpl in Hx. apply andb_true_iff in Hx as [Hc Hx].
    destruct x' as [| c' x''].
    + rewrite append_nil, append_cons in H. injection H as -> _.
      discriminate Hc.
    + rewrite !append_cons in H. injection H as -> H.
      destruct (IH _ Hx H) as [[-> ->] | (z & -> & ->)].
      * left. split; reflexivity.
      * right. exists z. split; [rewrite append_cons; reflexivity | reflexivity].
Qed.

(** A text that includes another holds it between two others. *)
Lemma substring_prefix_split n s :
  String.length (substring 0 n s) = n -> exists b, s = substring 0 n s ++ b.
Proof.
  revert n. induction s as [| c s IH]; intros [| n] H; simpl in *.
  - exists "". reflexivity.
  - discriminate.
  - exists (String c s). reflexivity.
  - injection H as H. destruct (IH n H) as (b & Hb). exists b.
    rewrite append_cons, <- Hb. reflexivity.
Qed.

Lemma substring_split m n s :
  String.length (substring m n s) = n -> exists a b, s = a ++ substring m n s ++ b.
Proof.
  revert m. induction s as [| c s IH]; intros m H.
  - exists "", "". destruct m, n; reflexivity.
  - destruct m as [| m].
    + destruct (substring_prefix_split n (String c s) H) as (b & Hb).
      exists "", b. rewrite append_nil. exact Hb.
    + simpl in H. destruct (IH m H) as (a & b & Hab).
      exists (String c a), b. simpl substring. rewrite append_cons, <- Hab. reflexivity.
Qed.

Lemma includes_split s p : includes s p = true -> exists a b, s = a ++ p ++ b.
Proof.
  unfold includes. destruct (String.index 0 p s) as [m |] eqn:Hindex; [| discriminate].
  intros _. pose proof (String.index_correct1 _ _ _ _ Hindex) as Hsub.
  destruct (substring_split m (String.length p) s) as (a & b & Hab).
  - rewrite Hsub. reflexivity.
  - rewrite Hsub in Hab. exists a, b. exact Hab.
Qed.

(** A text without the pair holds no mark. *)
Lemma unmarked_has_no_mark s digits :
  digits <> "" -> allChars isHexDigit digits = true ->
  hexColon s = false -> includes s ("0x" ++ digits ++ ":") = false.
Proof.
  intros Hne Hhex Hs.
  destruct (includes s ("0x" ++ digits ++ ":")) eqn:Hinc; [| reflexivity].
  exfalso. apply includes_split in Hinc as (a & b & ->).
  destruct (snoc_view digits Hne) as (d0 & h & ->).
  rewrite allChars_app in Hhex. apply andb_true_iff in Hhex as [_ Hh].
  simpl in Hh. rewrite andb_true_r in Hh.
  replace (a ++ ("0x" ++ (d0 ++ String h "") ++ ":") ++ b)
    with ((a ++ "0x" ++ d0) ++ String h (String ":" b)) in Hs
    by (rewrite ?append_assoc, ?append_cons, ?append_nil; reflexivity).
  rewrite (hexColon_found _ h b Hh) in Hs. discriminate.
Qed.

(** The mark of an address in the line of an instruction. *)
Lemma mark_in_line A T digits :
  A <> "" -> allChars isHexDigit A = true ->
  digits <> "" -> allChars isHexDigit digits = true ->
  hexColon T = false ->
  includes ("0x" ++ A ++ ":" ++ T) ("0x" ++ digits ++ ":") = true -> A = digits.
Proof.
  intros HA HhexA Hne Hhex HT Hinc.
  apply includes_split in Hinc as (a & b & Heq).
  assert (Hfree : allChars notColon ("0x" ++ A) = true).
  { rewrite allChars_app, (allChars_impl _ _ _ hex_not_colon HhexA). reflexivity. }
  assert (Heq' : ("0x" ++ A) ++ String ":" T = (a ++ "0x" ++ digits) ++ String ":" b).
  { rewrite ?append_assoc, ?append_cons, ?append_nil in *. exact Heq. }
  destruct (first_colon _ _ _ _ Hfree Heq') as [[Hx _] | (z & Hx & HTz)].
  - destruct a as [| c1 a'].
    + rewrite ?append_nil, ?append_cons in Hx. injection Hx as Hx. symmetry. exact Hx.
    + exfalso. rewrite ?append_cons, ?append_nil in Hx. injection Hx as -> Hx.
      destruct a' as [| c2 a''].
      * rewrite ?append_nil, ?append_cons in Hx. discriminate.
      * rewrite ?append_cons in Hx. injection Hx as -> Hx.
        rewrite <- Hx, !allChars_app in HhexA. simpl in HhexA.
        rewrite andb_false_r in HhexA. discriminate.
  - exfalso. destruct (snoc_view digits Hne) as (d0 & h & ->).
    rewrite allChars_app in Hhex. apply andb_true_iff in Hhex as [_ Hh].
    simpl in Hh. rewrite andb_true_r in Hh.
    destruct z as [| cz z'].
    + replace (a ++ "0x" ++ d0 ++ String h "") with ((a ++ "0x" ++ d0) ++ String h "") in Hx
        by (rewrite ?append_assoc; reflexivity).
      apply snoc_inj in Hx as [_ ->]. discriminate Hh.
    + destruct (snoc_view (String cz z') ltac:(discriminate)) as (z0 & c & Hz).
      rewrite Hz in Hx, HTz.
      replace (a ++ "0x" ++ d0 ++ String h "") with ((a ++ "0x" ++ d0) ++ String h "") in Hx
        by (rewrite ?append_assoc; reflexivity).
      replace (("0x" ++ A) ++ String ":" (z0 ++ String c ""))
        with ((("0x" ++ A) ++ String ":" z0) ++ String c "") in Hx
        by (rewrite ?append_assoc, ?append_cons; reflexivity).
      apply snoc_inj in Hx as [_ ->].
      rewrite HTz in HT.
      replace ((z0 ++ String c "") ++ String ":" b) with (z0 ++ String c (String ":" b)) in HT
        by (rewrite ?append_assoc, ?append_cons, ?append_nil; reflexivity).
      rewrite (hexColon_found _ c b Hh) in HT. discriminate.
Qed.

Lemma symbolMap_source functionSymbols a name :
  symbolMap functionSymbols !! a = Some name ->
  exists symbols func,
    functionSymbols = Some symbols /\ In func symbols /\ fname func = name.
Proof.
  destruct functionSymbols as [symbols |]; simpl;
    [| intros H; rewrite lookup_empty in H; discriminate].
  assert (Hgen : forall m : gmap Z string,
             fold_left (fun m func => <[faddress func := fname func]> m) symbols m !! a
             = Some name ->
             m !! a = Some name \/ exists func, In func symbols /\ fname func = name).
  { induction symbols as [| func symbols IH]; intros m Hlook; [left; exact Hlook |].
    simpl in Hlook. destruct (IH _ Hlook) as [Hm | (func' & Hin & Hname)].
    - destruct (decide (faddress func = a)) as [Heq | Hne].
      + subst a. rewrite lookup_insert_eq in Hm. injection Hm as Hm.
        right. exists func. split; [left; reflexivity | exact Hm].
      + rewrite lookup_insert_ne in Hm by exact Hne. left. exact Hm.
    - right. exists func'. split; [right; exact Hin | exact Hname]. }
  intros Hlook. destruct (Hgen _ Hlook) as [Hm | (func & Hin & Hname)].
  - rewrite lookup_empty in Hm. discriminate.
  - exists symbols, func. split; [reflexivity | split; assumption].
Qed.

Lemma symbolMap_unmarked functionSymbols a name :
  namesUnmarked functionSymbols ->
  symbolMap functionSymbols !! a = Some name -> hexColon name = false.
Proof.
  intros Hnames Hlook.
  destruct (symbolMap_source _ _ _ Hlook) as (symbols & func & -> & Hin & <-).
  simpl in Hnames. rewrite Forall_forall in Hnames. apply Hnames.
  apply list_elem_of_In. exact Hin.
Qed.

Lemma bytes_chars (q : ascii -> bool) bytes :
  (forall c, isHexDigit c = true -> q c = true) -> q " "%char = true ->
  Forall (fun b => (0 <= b < 256)%Z) bytes ->
  allChars q (String.concat " " (List.map byteText bytes)) = true.
Proof.
  intros Hhex Hspace. induction bytes as [| b bytes IH]; intros Hall; [reflexivity |].
  inversion Hall as [| ? ? Hb Hrest]; subst.
  pose proof (byteText_spec b Hb) as Htwo.
  assert (Hq : allChars q (byteText b) = true).
  { destruct (byteText b) as [| x [| y [| ? ?]]]; try discriminate.
    simpl in Htwo. apply andb_true_iff in Htwo as [Hx Hy].
    simpl. rewrite (Hhex _ Hx), (Hhex _ Hy). reflexivity. }
  destruct bytes as [| b' bytes']; [exact Hq |].
  change (String.concat " " (List.map byteText (b :: b' :: bytes')))
    with (byteText b ++ " " ++ String.concat " " (List.map byteText (b' :: bytes'))).
  rewrite !allChars_app, Hq, (IH Hrest). simpl. rewrite Hspace. reflexivity.
Qed.

Section WithBytes.
Variable insn_bytes : Insn -> list Z.

Lemma annotation_unmarked functionSymbols instructions insn :
  namesUnmarked functionSymbols ->
  hexColon (annotation (symbolMap functionSymbols) (symbolMap functionSymbols)
                       instructions insn) = false
  /\ startsColon (annotation (symbolMap functionSymbols) (symbolMap functionSymbols)
                             instructions insn) = false.
Proof.
  intros Hnames. unfold annotation.
  destruct (String.eqb (mnemonic insn) "call").
  - destruct (search callTargetRe (op_str insn)) as [[| target ?] |];
      try (split; reflexivity).
    cbv zeta.
    destruct (symbolMap functionSymbols !! parseInt16 target) as [name |] eqn:Hlook;
      [| split; reflexivity].
    split; [| reflexivity].
    rewrite !hexColon_app, (symbolMap_unmarked _ _ _ Hnames Hlook).
    simpl. rewrite andb_false_r. reflexivity.
  - destruct (String.eqb (mnemonic insn) "ret"); [| split; reflexivity].
    cbv zeta. destruct (_ && _); [split; reflexivity |].
    destruct (_ <=? _)%Z; split; reflexivity.
Qed.

(** The line of an instruction is its address, a colon, and a text that
    holds no mark. *)
Lemma line_tail functionSymbols instructions insn :
  namesUnmarked functionSymbols ->
  listable insn_bytes insn -> unmarked insn ->
  exists T,
    lineOf insn_bytes functionSymbols instructions insn
    = "0x" ++ padStart 8 "0" (toString16 (address insn)) ++ ":" ++ T
    /\ hexColon T = false.
Proof.
  intros Hnames (Haddr & Hne & Hbytes & Hvis & Hmn & Hop) (Hmn' & Hop').
  destruct (annotation_unmarked functionSymbols instructions insn Hnames) as [Hann Hstart].
  unfold lineOf, instructionLine.
  set (ann := annotation _ _ _ _) in *.
  set (B := padEnd 24 (String.concat " " (List.map byteText (insn_bytes insn)))).
  exists (" " ++ B ++ " " ++ mnemonic insn ++ " " ++ op_str insn ++ ann).
  split; [rewrite ?append_assoc, ?append_cons, ?append_nil; reflexivity |].
  assert (HB : hexColon B = false).
  { apply colon_free_unmarked. unfold B, padEnd.
    rewrite allChars_app, allChars_repeat by reflexivity.
    rewrite (bytes_chars notColon _ hex_not_colon eq_refl Hbytes). reflexivity. }
  assert (H1 : hexColon (op_str insn ++ ann) = false).
  { rewrite hexColon_app, Hop', Hann, Hstart, andb_false_r. reflexivity. }
  assert (H2 : hexColon (" " ++ op_str insn ++ ann) = false).
  { rewrite hexColon_app, H1. reflexivity. }
  assert (H3 : hexColon (mnemonic insn ++ " " ++ op_str insn ++ ann) = false).
  { rewrite hexColon_app, Hmn', H2, append_cons. simpl startsColon.
    rewrite andb_false_r. reflexivity. }
  assert (H4 : hexColon (" " ++ mnemonic insn ++ " " ++ op_str insn ++ ann) = false).
  { rewrite hexColon_app, H3. reflexivity. }
  assert (H5 : hexColon (B ++ " " ++ mnemonic insn ++ " " ++ op_str insn ++ ann) = false).
  { rewrite hexColon_app, HB, H4, append_cons. simpl startsColon.
    rewrite andb_false_r. reflexivity. }
  rewrite hexColon_app, H5. reflexivity.
Qed.

(** The mark of the program counter is in the lines of the instructions at
    that address, and in no other. *)
Lemma line_is_marked functionSymbols instructions insn pc :
  namesUnmarked functionSymbols ->
  listable insn_bytes insn -> unmarked insn -> (0 <= pc)%Z ->
  includes (lineOf insn_bytes functionSymbols instructions insn) (pcMark pc)
  = (address insn =? pc)%Z.
Proof.
  intros Hnames Hinsn Hun Hpc.
  destruct (line_tail functionSymbols instructions insn Hnames Hinsn Hun) as (T & -> & HT).
  destruct Hinsn as (Haddr & _).
  destruct (address_text (address insn) ltac:(destruct Haddr; lia)) as (HA & HhexA & HparseA).
  destruct (address_text pc Hpc) as (HP & HhexP & HparseP).
  unfold pcMark. destruct (address insn =? pc)%Z eqn:Heq.
  - apply Z.eqb_eq in Heq. rewrite Heq.
    replace ("0x" ++ padStart 8 "0" (toString16 pc) ++ ":" ++ T)
      with ("" ++ ("0x" ++ padStart 8 "0" (toString16 pc) ++ ":") ++ T)
      by (rewrite ?append_assoc, ?append_cons, ?append_nil; reflexivity).
    apply includes_middle. discriminate.
  - apply Z.eqb_neq in Heq.
    destruct (includes _ _) eqn:Hinc; [| reflexivity].
    exfalso. apply Heq.
    pose proof (mark_in_line _ _ _ HA HhexA HP HhexP HT Hinc) as Hsame.
    rewrite <- HparseA, <- HparseP, Hsame. reflexivity.
Qed.

Lemma label_has_no_mark functionSymbols a name pc :
  namesUnmarked functionSymbols ->
  symbolMap functionSymbols !! a = Some name -> (0 <= pc)%Z ->
  includes ("<" ++ name ++ ">:") (pcMark pc) = false.
Proof.
  intros Hnames Hlook Hpc.
  destruct (address_text pc Hpc) as (HP & HhexP & _).
  apply unmarked_has_no_mark; [exact HP | exact HhexP |].
  rewrite !hexColon_app, (symbolMap_unmarked _ _ _ Hnames Hlook).
  simpl. rewrite andb_false_r. reflexivity.
Qed.

Lemma plain_has_no_mark s pc :
  allChars notColon s = true -> (0 <= pc)%Z -> includes s (pcMark pc) = false.
Proof.
  intros Hs Hpc. destruct (address_text pc Hpc) as (HP & HhexP & _).
  apply unmarked_has_no_mark; [exact HP | exact HhexP | apply colon_free_unmarked; exact Hs].
Qed.

(** The lines of the listing. *)
Lemma header_splitsAs sectionName :
  oneLine sectionName = true ->
  splitsAs (LF ++ "=== " ++ sectionName ++ " Section Disassembly ===" ++ LF)
           [""; "=== " ++ sectionName ++ " Section Disassembly ==="].
Proof.
  intros Hline rest.
  rewrite !append_assoc, splitLines_blank.
  replace ("=== " ++ sectionName ++ " Section Disassembly ===" ++ LF ++ rest)
    with (("=== " ++ sectionName ++ " Section Disassembly ===") ++ LF ++ rest)
    by (rewrite !append_assoc; reflexivity).
  rewrite splitLines_line
    by (unfold oneLine in *; rewrite !allChars_app, Hline; reflexivity).
  reflexivity.
Qed.

Lemma step_splitsAs functionSymbols instructions out lines insn :
  namesOneLine functionSymbols ->
  listable insn_bytes insn ->
  splitsAs out lines ->
  splitsAs (listInstruction insn_bytes (symbolMap functionSymbols) (symbolMap functionSymbols)
                            instructions out insn)
           (lines ++ labelLines functionSymbols insn
                  ++ [lineOf insn_bytes functionSymbols instructions insn])%list.
Proof.
  intros Hnames Hinsn Hout rest. unfold listInstruction, labelLines. cbv zeta.
  pose proof (line_oneLine insn_bytes functionSymbols instructions insn Hnames Hinsn) as Hline.
  fold (lineOf insn_bytes functionSymbols instructions insn) in *.
  set (line := lineOf insn_bytes functionSymbols instructions insn) in *.
  destruct (symbolMap functionSymbols !! address insn) as [functionName |] eqn:Hlook.
  - pose proof (symbolMap_names _ _ _ Hnames Hlook) as Hname.
    rewrite !append_assoc, Hout, splitLines_blank.
    replace ("<" ++ functionName ++ ">:" ++ LF ++ line ++ LF ++ rest)
      with (("<" ++ functionName ++ ">:") ++ LF ++ line ++ LF ++ rest)
      by (rewrite !append_assoc; reflexivity).
    rewrite splitLines_line
      by (unfold oneLine in *; rewrite !allChars_app, Hname; reflexivity).
    rewrite splitLines_line by exact Hline.
    rewrite <- !app_assoc. reflexivity.
  - rewrite !append_assoc, Hout.
    rewrite splitLines_line by exact Hline.
    rewrite <- !app_assoc. reflexivity.
Qed.

Lemma loop_splitsAs functionSymbols instructions insns out lines :
  namesOneLine functionSymbols ->
  Forall (listable insn_bytes) insns ->
  splitsAs out lines ->
  splitsAs (fold_left (listInstruction insn_bytes (symbolMap functionSymbols)
                                       (symbolMap functionSymbols) instructions) insns out)
           (lines ++ listingLines insn_bytes functionSymbols instructions insns)%list.
Proof.
  intros Hnames. revert out lines.
  induction insns as [| insn insns IH]; intros out lines Hall Hout.
  - simpl. rewrite app_nil_r. exact Hout.
  - inversion Hall as [| ? ? Hinsn Hrest]; subst. simpl fold_left.
    unfold listingLines. simpl flat_map. fold (listingLines insn_bytes functionSymbols instructions insns).
    rewrite !app_assoc.
    apply IH; [exact Hrest |].
    rewrite <- app_assoc. apply step_splitsAs; assumption.
Qed.

Lemma listing_lines {D : Disassembler} (message : exn -> string)
      bytes is64bit baseAddr sectionName functionSymbols instructions :
  disasm is64bit bytes baseAddr None = Ok instructions ->
  oneLine sectionName = true ->
  namesOneLine functionSymbols ->
  Forall (listable insn_bytes) instructions ->
  splitLines (disassembleSection insn_bytes message bytes is64bit baseAddr sectionName
                                 functionSymbols)
  = ([""; ("=== " ++ sectionName ++ " Section Disassembly ===")%string]
       ++ listingLines insn_bytes functionSymbols instructions instructions ++ [""])%list.
Proof.
  intros Hdis Hname Hnames Hall.
  unfold disassembleSection. rewrite Hdis. cbv zeta.
  pose proof (loop_splitsAs functionSymbols instructions instructions _ _ Hnames Hall
                            (header_splitsAs sectionName Hname) "") as H.
  rewrite append_empty in H. rewrite H, <- app_assoc. reflexivity.
Qed.

(** The marked lines among the lines of the instructions. *)
Lemma marked_lines functionSymbols instructions insns pc :
  namesUnmarked functionSymbols ->
  Forall (listable insn_bytes) insns -> Forall unmarked insns -> (0 <= pc)%Z ->
  List.filter fst (List.map (fun line => (includes line (pcMark pc), line))
                            (listingLines insn_bytes functionSymbols instructions insns))
  = List.map (fun insn => (true, lineOf insn_bytes functionSymbols instructions insn))
             (List.filter (fun insn => (address insn =? pc)%Z) insns).
Proof.
  intros Hnames Hall Hun Hpc.
  induction insns as [| insn insns IH]; [reflexivity |].
  inversion Hall as [| ? ? Hinsn Hrest]; subst.
  inversion Hun as [| ? ? Hinsn' Hrest']; subst.
  unfold listingLines. simpl flat_map.
  fold (listingLines insn_bytes functionSymbols instructions insns).
  rewrite !List.map_app, !List.filter_app, (IH Hrest Hrest').
  assert (Hlabel : List.filter fst
                     (List.map (fun line => (includes line (pcMark pc), line))
                               (labelLines functionSymbols insn)) = []).
  { unfold labelLines.
    destruct (symbolMap functionSymbols !! address insn) as [name |] eqn:Hlook;
      [| reflexivity].
    cbn [List.map List.filter fst].
    rewrite (label_has_no_mark _ _ _ _ Hnames Hlook Hpc).
    rewrite (plain_has_no_mark "" pc eq_refl Hpc). reflexivity. }
  rewrite Hlabel. cbn [List.map List.filter fst app].
  rewrite (line_is_marked functionSymbols instructions insn pc Hnames Hinsn Hinsn' Hpc).
  destruct (address insn =? pc)%Z; reflexivity.
Qed.

End WithBytes.

End MarkFacts.

Module ViewProps.

Import Text Props Highlight Listing Listed View TextFacts DigitFacts LineFacts ListingFacts
       ViewFacts MarkFacts.

Local Open Scope string_scope.

Section WithEngine.
Context {E : Type} {EN : Engine E}.

(** X20.  The listing panel keeps the first listing it has highlighted.  On an
    element without the attribute, showing a listing and highlighting it
    stores the listing in [data-original-text]; nothing clears the attribute,
    so whatever is loaded and highlighted afterwards, every later
    [highlightCurrentLine] lays out the lines of that first listing, not the
    text the element holds. *)
Theorem panel_keeps_first_listing
        (p : Page) (disasmOutput : string) (disasmDiv : Element)
        (first : Debugger E) (events : list (@Event E)) (d : Debugger E) :
  isPerformanceModeActive p = false ->
  disasmOutput <> "" ->
  dataOriginalText disasmDiv = None ->
  let highlighted := highlightCurrentLine first (showListing p disasmOutput disasmDiv) in
  let later := fold_left after events highlighted in
  dataOriginalText later = Some disasmOutput
  /\ content (highlightCurrentLine d later)
     = Divs (List.map (fun line => (includes line (pcMark (getCurrentPC d)), line))
                      (splitLines disasmOutput)).
Proof.
  intros Hperf Hne Hnone highlighted later.
  assert (Hnot : String.eqb disasmOutput "" = false) by (apply String.eqb_neq; exact Hne).
  assert (Hfirst : dataOriginalText highlighted = Some disasmOutput).
  { subst highlighted. unfold highlightCurrentLine, showListing, originalTextOf.
    rewrite Hperf. simpl. rewrite Hnone. unfold textContent. simpl.
    rewrite Hnot. reflexivity. }
  assert (Hlater : dataOriginalText later = Some disasmOutput)
    by (apply attribute_survives; assumption).
  split; [exact Hlater |].
  unfold highlightCurrentLine, originalTextOf. rewrite Hlater, Hnot. reflexivity.
Qed.

(** X21.  After [highlightCurrentLine] the text content of the element has no
    line feed: the lines sit in [div]s of their own, and the text content
    strings their texts together.  A handler that reads the listing from the
    element afterwards sees one line and finds at most one instruction. *)
Theorem highlighted_listing_is_one_line (d : Debugger E) (disasmDiv : Element) :
  keptByMarkup (originalTextOf disasmDiv) = true ->
  let highlighted := highlightCurrentLine d disasmDiv in
  textContent highlighted = String.concat "" (splitLines (originalTextOf disasmDiv))
  /\ allChars notLineFeed (textContent highlighted) = true
  /\ (length (parseListing (textContent highlighted)) <= 1)%nat.
Proof.
  intros _ highlighted.
  assert (Htext : textContent highlighted
                  = String.concat "" (splitLines (originalTextOf disasmDiv))).
  { subst highlighted. unfold highlightCurrentLine, textContent. simpl.
    rewrite List.map_map. simpl. rewrite List.map_id. reflexivity. }
  assert (Hone : allChars notLineFeed (textContent highlighted) = true).
  { rewrite Htext. apply concat_no_line_feed, splitLines_no_line_feed. }
  split; [exact Htext |]. split; [exact Hone |].
  unfold parseListing. rewrite (splitLines_single _ Hone). simpl. apply parseLine_short.
Qed.

(** X22.  [highlightCurrentLine] marks the current instruction and nothing
    else.  On an element that has not been highlighted before and shows the
    listing of a decoded section (a section name that is one line without a
    colon, symbol names of one line, instructions with an exact address, at
    least one byte and a one-line mnemonic and operand text), with a program
    counter that is not negative and no colon directly after a hexadecimal
    digit in a symbol name, a mnemonic or an operand text, the element gets
    one [div] for each line of the listing and the marked ones are the lines
    of the instructions at the address of the program counter: no header,
    blank line or label, and no line of another instruction. *)
Theorem current_instruction_is_marked
        {D : Disassembler} (insn_bytes : Insn -> list Z) (message : exn -> string)
        (p : Page) (disasmDiv : Element) (d : Debugger E)
        (bytes : list Z) (wide : bool) (baseAddr : Z) (sectionName : string)
        (functionSymbols : option (list FuncSym)) (instructions : list Insn) :
  disasm wide bytes baseAddr None = Ok instructions ->
  plainName sectionName = true ->
  namesOneLine functionSymbols ->
  namesUnmarked functionSymbols ->
  Forall (listable insn_bytes) instructions ->
  Forall unmarked instructions ->
  isPerformanceModeActive p = false ->
  dataOriginalText disasmDiv = None ->
  (0 <= getCurrentPC d)%Z ->
  let text := disassembleSection insn_bytes message bytes wide baseAddr sectionName
                                 functionSymbols in
  let shown := highlightCurrentLine d (showListing p text disasmDiv) in
  exists htmlLines,
    content shown = Divs htmlLines
    /\ List.map snd htmlLines = splitLines text
    /\ List.filter fst htmlLines
       = List.map (fun insn => (true, lineOf insn_bytes functionSymbols instructions insn))
                  (List.filter (fun insn => (address insn =? getCurrentPC d)%Z) instructions).
Proof.
  intros Hdis Hname Hnames Hun Hall Hunmarked Hperf Hnone Hpc text shown.
  apply andb_true_iff in Hname as [Hline Hcolon].
  pose proof (listing_lines insn_bytes message bytes wide baseAddr sectionName
                            functionSymbols instructions Hdis Hline Hnames Hall) as Hlines.
  fold text in Hlines.
  assert (Htext : String.eqb text "" = false).
  { destruct text; [discriminate Hlines | reflexivity]. }
  assert (Horiginal : originalTextOf (showListing p text disasmDiv) = text).
  { unfold showListing. rewrite Hperf. unfold originalTextOf, textContent. simpl.
    rewrite Hnone, Htext. reflexivity. }
  exists (List.map (fun line => (includes line (pcMark (getCurrentPC d)), line))
                   (splitLines text)).
  split; [subst shown; unfold highlightCurrentLine; rewrite Horiginal; reflexivity |].
  split; [rewrite List.map_map; simpl; apply List.map_id |].
  rewrite Hlines, !List.map_app, !List.filter_app.
  rewrite (marked_lines insn_bytes functionSymbols instructions instructions _
                        Hun Hall Hunmarked Hpc).
  cbn [List.map List.filter fst].
  rewrite (plain_has_no_mark "" _ eq_refl Hpc).
  rewrite (plain_has_no_mark ("=== " ++ sectionName ++ " Section Disassembly ===") _)
    by (rewrite ?allChars_app, ?Hcolon; reflexivity || exact Hpc).
  simpl. rewrite app_nil_r. reflexivity.
Qed.

End WithEngine.

Lemma current_instruction_is_marked_witness :
  let text := @disassembleSection Sim.disassembler ListingSamples.sampleInsnBytes
                ListingSamples.sampleMessage ListingSamples.sampleText true
                ListingSamples.sampleBase ".text" ListingSamples.sampleSymbols in
  exists htmlLines,
    content (@highlightCurrentLine _ Sim.engine ViewSamples.standingDebugger
               (showListing Artifacts.blankPage text ViewSamples.freshElement))
    = Divs htmlLines
    /\ List.filter fst htmlLines
       = [(true, "0x10000001: 55                       push rbp")].
Proof.
  intros text.
  destruct (@current_instruction_is_marked _ Sim.engine Sim.disassembler
              ListingSamples.sampleInsnBytes ListingSamples.sampleMessage
              Artifacts.blankPage ViewSamples.freshElement ViewSamples.standingDebugger
              ListingSamples.sampleText true ListingSamples.sampleBase ".text"
              ListingSamples.sampleSymbols ListingSamples.sampleInstructions)
    as (htmlLines & Hcontent & _ & Hmarked).
  - reflexivity.
  - reflexivity.
  - repeat constructor.
  - repeat constructor.
  - repeat (constructor; [unfold listable, exactNumber; simpl;
                          repeat split; try lia; try discriminate; repeat constructor; lia |]).
    constructor.
  - repeat (constructor; [split; reflexivity |]). constructor.
  - reflexivity.
  - reflexivity.
  - vm_compute. discriminate.
  - exists htmlLines. split; [exact Hcontent |]. rewrite Hmarked. reflexivity.
Defined.

Lemma panel_keeps_first_listing_witness :
  content (@highlightCurrentLine _ Sim.engine Samples.narrowDebugger
             (showListing Artifacts.blankPage "second"
                (@highlightCurrentLine _ Sim.engine Samples.narrowDebugger
                   (showListing Artifacts.blankPage "first"
                      {| content := Plain ""; dataOriginalText := None |}))))
  = Divs [(false, "first")].
Proof.
  pose proof (@panel_keeps_first_listing _ Sim.engine Artifacts.blankPage "first"
                {| content := Plain ""; dataOriginalText := None |}
                Samples.narrowDebugger [@Loaded _ Artifacts.blankPage "second"]
                Samples.narrowDebugger) as H.
  destruct H as [_ H]; [reflexivity | discriminate | reflexivity |].
  exact H.
Defined.

Lemma highlighted_listing_is_one_line_witness :
  let listing := {| content := Plain ("0x00001000: 90  nop " ++ LF ++ "0x00001001: c3  ret ");
                    dataOriginalText := None |} in
  keptByMarkup (originalTextOf listing) = true
  /\ textContent (@highlightCurrentLine _ Sim.engine Samples.narrowDebugger listing)
     = "0x00001000: 90  nop 0x00001001: c3  ret "
  /\ (length (parseListing (textContent (@highlightCurrentLine _ Sim.engine Samples.narrowDebugger listing)))
      <= 1)%nat.
Proof.
  intros listing.
  pose proof (@highlighted_listing_is_one_line _ Sim.engine Samples.narrowDebugger listing
                eq_refl) as H.
  destruct H as (Htext & _ & Hshort).
  split; [reflexivity |]. split; [rewrite Htext; reflexivity | exact Hshort].
Defined.

End ViewProps.

(* ------------------------------------------------------------------ *)
(** ** The stack panel and the listing of a loaded file                 *)
(* ------------------------------------------------------------------ *)

Module PanelFacts.

Import Inspector Text Props Listing Listed Panels TextFacts DigitFacts InspectorFacts
       BuilderFacts.

Section WithEngine.
Context {E : Type} {EN : Engine E}.

(** The value of an entry of the stack in 32-bit mode. *)
Lemma narrow_item_value (d : Debugger E) (count : Z) item b0 b1 b2 b3 :
  is64bit d = false ->
  In item (getStackContents d count) ->
  mem_read (engine d) (s_address item) 4 = Ok [b0; b1; b2; b3] ->
  0 <= b0 < 256 -> 0 <= b1 < 256 -> 0 <= b2 < 256 -> 0 <= b3 < 256 ->
  s_value item = decodeInt32 [b0; b1; b2; b3].
Proof.
  intros H32 Hin Hread H0 H1 H2 H3.
  unfold getStackContents in Hin. rewrite H32 in Hin.
  destruct (stackLoop_items _ _ _ _ _ Hin) as (bytes' & Hread' & ->).
  rewrite Hread in Hread'. injection Hread' as <-.
  apply wordValue_4; assumption.
Qed.

End WithEngine.

(** A negative number is written with a minus sign in front of the digits
    of its absolute value. *)
Lemma toString16_negative v :
  v < 0 -> toString16 v = String "-" (toString16 (- v)).
Proof.
  intros Hv. unfold toString16.
  destruct (v <? 0) eqn:Hneg; [| apply Z.ltb_ge in Hneg; lia].
  destruct (- v <? 0) eqn:Hpos; [apply Z.ltb_lt in Hpos; lia | reflexivity].
Qed.

Section WithEngine.
Context {E : Type} {EN : Engine E}.

(** The section loop leaves the record of a name alone when the section has
    another name. *)
Lemma mapSection_other_name buffer isObject (st : @MapState E) sh (n : string) :
  name sh <> n ->
  sectionAddresses (mapSection buffer isObject st sh) !! n = sectionAddresses st !! n.
Proof.
  intros Hne. unfold mapSection.
  destruct (allocated sh); [| reflexivity].
  destruct (targetOf isObject (baseAddr st) sh) as [targetAddr base1].
  destruct (targetAddr =? 0); [reflexivity |].
  destruct (decide _); [reflexivity |].
  cbn [ms_engine baseAddr mappedRegions sectionAddresses].
  destruct (mem_map _ _ _ _) as [e1 |]; [| reflexivity].
  assert (Hlook : <[name sh := targetAddr]> (sectionAddresses st) !! n
                  = sectionAddresses st !! n)
    by (apply lookup_insert_ne; exact Hne).
  destruct ((0 <? size sh) && (0 <? offset sh)); [| exact Hlook].
  destruct (_ ← Uint8Array buffer (offset sh) (size sh); mem_write e1 targetAddr _);
    exact Hlook.
Qed.

Lemma mapSections_other_names buffer isObject (st : @MapState E) shs (n : string) :
  Forall (fun s => name s <> n) shs ->
  sectionAddresses (fold_left (mapSection buffer isObject) shs st) !! n
  = sectionAddresses st !! n.
Proof.
  revert st. induction shs as [| sh shs IH]; intros st Hall; [reflexivity |].
  inversion Hall as [| ? ? Hsh Hrest]; subst. simpl.
  rewrite (IH _ Hrest). apply mapSection_other_name. exact Hsh.
Qed.

Lemma mapSections_unallocated buffer isObject (st : @MapState E) shs :
  Forall (fun s => allocated s = false) shs ->
  fold_left (mapSection buffer isObject) shs st = st.
Proof.
  revert st. induction shs as [| sh shs IH]; intros st Hall; [reflexivity |].
  inversion Hall as [| ? ? Hsh Hrest]; subst. simpl.
  unfold mapSection at 2. rewrite Hsh. exact (IH _ Hrest).
Qed.

(** The base cursor of an object file never goes back, and an allocated
    section at address 0 moves it on by a page at least. *)
Lemma mapSection_cursor buffer (st : @MapState E) sh :
  baseAddr st <= baseAddr (mapSection buffer true st sh)
  /\ (allocated sh = true -> addr sh = 0 ->
      baseAddr st + PAGE <= baseAddr (mapSection buffer true st sh)).
Proof.
  unfold mapSection. destruct (allocated sh) eqn:Halloc; [| split; [lia | discriminate]].
  assert (Hsize : 0 < size sh).
  { unfold allocated in Halloc. apply andb_true_iff in Halloc as [_ H].
    apply Z.ltb_lt in H. exact H. }
  assert (Hbase : baseAddr st <= snd (targetOf true (baseAddr st) sh)
                  /\ (addr sh = 0 -> baseAddr st + PAGE
                                     <= snd (targetOf true (baseAddr st) sh))).
  { unfold targetOf. simpl andb. destruct (addr sh =? 0) eqn:Haddr.
    - cbv zeta. simpl snd.
      pose proof (ceilTo_bounds (baseAddr st) PAGE ltac:(unfold PAGE; lia)).
      pose proof (ceilTo_page_of_positive (size sh) Hsize).
      assert (PAGE <= ceilTo (size sh) PAGE) by lia.
      split; [lia | intros _; lia].
    - simpl snd. split; [lia |]. intros H0. apply Z.eqb_neq in Haddr. lia. }
  destruct (targetOf true (baseAddr st) sh) as [targetAddr base1]. simpl snd in Hbase.
  assert (Hgoal : forall st' : @MapState E, baseAddr st' = base1 ->
            baseAddr st <= baseAddr st'
            /\ (true = true -> addr sh = 0 -> baseAddr st + PAGE <= baseAddr st')).
  { intros st' ->. destruct Hbase as [H1 H2]. split; [exact H1 | intros _; exact H2]. }
  destruct (targetAddr =? 0); [apply Hgoal; reflexivity |].
  destruct (decide _); [apply Hgoal; reflexivity |].
  cbn [ms_engine baseAddr mappedRegions sectionAddresses].
  destruct (mem_map _ _ _ _) as [e1 |]; [| apply Hgoal; reflexivity].
  destruct ((0 <? size sh) && (0 <? offset sh)); [| apply Hgoal; reflexivity].
  destruct (_ ← Uint8Array buffer (offset sh) (size sh); mem_write e1 targetAddr _);
    apply Hgoal; reflexivity.
Qed.

Lemma mapSections_cursor buffer (st : @MapState E) shs :
  baseAddr st <= baseAddr (fold_left (mapSection buffer true) shs st)
  /\ (Exists (fun s => allocated s = true /\ addr s = 0) shs ->
      baseAddr st + PAGE <= baseAddr (fold_left (mapSection buffer true) shs st)).
Proof.
  revert st. induction shs as [| sh shs IH]; intros st.
  - simpl. split; [lia |]. intros H. inversion H.
  - simpl. destruct (mapSection_cursor buffer st sh) as [Hmono Hstep].
    destruct (IH (mapSection buffer true st sh)) as [Hmono' Hlater].
    split; [lia |]. intros Hex.
    inversion Hex as [? ? [Halloc Haddr] | ? ? Hrest]; subst.
    + specialize (Hstep Halloc Haddr). lia.
    + specialize (Hlater Hrest). lia.
Qed.

(** Where a section at address 0 of an object file is recorded. *)
Lemma mapSection_records buffer (st : @MapState E) sh a :
  allocated sh = true -> addr sh = 0 ->
  sectionAddresses st !! name sh = None ->
  sectionAddresses (mapSection buffer true st sh) !! name sh = Some a ->
  baseAddr st <= a.
Proof.
  intros Halloc Haddr Hnone. unfold mapSection. rewrite Halloc.
  unfold targetOf. simpl andb. rewrite Haddr. simpl (0 =? 0). cbv zeta iota.
  pose proof (ceilTo_bounds (baseAddr st) PAGE ltac:(unfold PAGE; lia)) as Hceil.
  destruct (ceilTo (baseAddr st) PAGE =? 0);
    [cbn [sectionAddresses]; rewrite Hnone; discriminate |].
  destruct (decide _); [cbn [sectionAddresses]; rewrite Hnone; discriminate |].
  cbn [ms_engine baseAddr mappedRegions sectionAddresses].
  destruct (mem_map _ _ _ _) as [e1 |];
    [| cbn [sectionAddresses]; rewrite Hnone; discriminate].
  assert (Hlook : forall st' : @MapState E,
             sectionAddresses st'
             = <[name sh := ceilTo (baseAddr st) PAGE]> (sectionAddresses st) ->
             sectionAddresses st' !! name sh = Some a -> baseAddr st <= a).
  { intros st' -> H. rewrite lookup_insert_eq in H. injection H as <-. lia. }
  destruct ((0 <? size sh) && (0 <? offset sh)); [| apply Hlook; reflexivity].
  destruct (_ ← Uint8Array buffer (offset sh) (size sh); mem_write e1 _ _);
    apply Hlook; reflexivity.
Qed.

End WithEngine.

End PanelFacts.

Module PanelProps.

Import Inspector Text Props Listing Listed Panels TextFacts DigitFacts InspectorFacts
       BuilderFacts PanelFacts.

Section WithEngine.
Context {E : Type} {EN : Engine E}.

(** X23.  The value column of the stack panel shows a word with its sign.  In
    32-bit mode the text [updateStack] writes for the value of an entry is the
    hexadecimal word when the top bit of the word is clear; when it is set,
    the value is negative and the text is the zero padding, a minus sign and
    the digits of the absolute value, 2^32 minus the word: the word
    [0xfffffff0] is shown as [0x00000-10]. *)
Theorem stack_value_shows_sign (d : Debugger E) (count : Z) item b0 b1 b2 b3 :
  is64bit d = false ->
  In item (getStackContents d count) ->
  mem_read (engine d) (s_address item) 4 = Ok [b0; b1; b2; b3] ->
  bytesOfLength 4 [b0; b1; b2; b3] ->
  let word := littleEndian [b0; b1; b2; b3] in
  let text := hexPadded (is64bit d) (s_value item) in
  (b3 < 128 -> allChars isHexDigit text = true /\ parseInt16 text = word)
  /\ (128 <= b3 ->
      exists digits,
        text = padStart 8 "0" (String "-" digits)
        /\ digits <> EmptyString
        /\ allChars isHexDigit digits = true
        /\ parseInt16 digits = 2 ^ 32 - word).
Proof.
  intros H32 Hin Hread [_ Hall] word text.
  inversion Hall as [| ? ? H0 Hall1]; subst.
  inversion Hall1 as [| ? ? H1 Hall2]; subst.
  inversion Hall2 as [| ? ? H2 Hall3]; subst.
  inversion Hall3 as [| ? ? H3 _]; subst.
  pose proof (narrow_item_value d count item b0 b1 b2 b3 H32 Hin Hread H0 H1 H2 H3) as Hvalue.
  assert (Hword : word = b0 + 256 * b1 + 65536 * b2 + 16777216 * b3)
    by (subst word; unfold littleEndian; simpl; lia).
  unfold decodeInt32, decodeUint32 in Hvalue. cbv zeta in Hvalue.
  subst text. rewrite H32. unfold hexPadded. split.
  - intros Hlow.
    destruct (Z.ltb_spec (b0 + 256 * b1 + 65536 * b2 + 16777216 * b3) 2147483648); [| lia].
    rewrite Hvalue, <- Hword.
    destruct (address_text word ltac:(lia)) as (_ & Hhex & Hparse).
    split; assumption.
  - intros Hhigh.
    destruct (Z.ltb_spec (b0 + 256 * b1 + 65536 * b2 + 16777216 * b3) 2147483648); [lia |].
    rewrite Hvalue, <- Hword.
    rewrite (toString16_negative (word - 4294967296)) by lia.
    destruct (toString16_spec (- (word - 4294967296)) ltac:(lia))
      as (digits & Hdigits & Hne & Hhex & Hparse).
    exists digits. rewrite Hdigits.
    split; [reflexivity |]. split; [exact Hne |]. split; [exact Hhex |].
    rewrite Hparse. lia.
Qed.

(** X24.  The listing of an object file and its image agree on where [.text]
    is exactly when no allocated section comes before it.  The listing of
    [.text] is based at 0x10000000.  The section loop records that address for
    [.text] when the sections before it are not allocated and the engine maps
    the page; when an allocated section at address 0 comes first, the address
    recorded for [.text], if any, lies a page or more above the base of the
    listing: the lines of the listing then show no address the code runs at.
    *)
Theorem text_listing_base_and_load_address
        (buffer : list Z) (engine0 : E) (pre post : list SectionHeader)
        (text : SectionHeader) :
  name text = ".text"%string -> allocated text = true -> addr text = 0 ->
  Forall (fun s => name s <> ".text"%string) pre ->
  Forall (fun s => name s <> ".text"%string) post ->
  let sectionHeaders := pre ++ text :: post in
  let st := mapSections buffer (isObjectFile sectionHeaders) engine0 sectionHeaders in
  disasmBaseAddr sectionHeaders text = OBJECT_BASE
  /\ (Forall (fun s => allocated s = false) pre ->
      forall e1,
        mem_map engine0 OBJECT_BASE (Z.max PAGE (ceilTo (size text) PAGE)) (protOf text)
        = Ok e1 ->
        sectionAddresses st !! ".text"%string = Some (disasmBaseAddr sectionHeaders text))
  /\ (Exists (fun s => allocated s = true /\ addr s = 0) pre ->
      forall a, sectionAddresses st !! ".text"%string = Some a ->
                disasmBaseAddr sectionHeaders text + PAGE <= a).
Proof.
  intros Hname Halloc Haddr Hpre Hpost sectionHeaders st.
  assert (Hobject : isObjectFile sectionHeaders = true).
  { unfold isObjectFile. apply existsb_exists. exists text.
    split; [subst sectionHeaders; apply in_or_app; right; left; reflexivity |].
    rewrite Halloc, Haddr. reflexivity. }
  assert (Hbase : disasmBaseAddr sectionHeaders text = OBJECT_BASE)
    by (unfold disasmBaseAddr; rewrite Hobject; reflexivity).
  assert (Hst : st = fold_left (mapSection buffer true) post
                       (mapSection buffer true
                          (fold_left (mapSection buffer true) pre
                             {| ms_engine := engine0; baseAddr := OBJECT_BASE;
                                mappedRegions := ∅; sectionAddresses := ∅ |}) text)).
  { subst st. unfold mapSections. rewrite Hobject. subst sectionHeaders.
    rewrite fold_left_app. reflexivity. }
  split; [exact Hbase |]. split.
  - intros Hunalloc e1 Hmap. rewrite Hbase, Hst.
    rewrite mapSections_other_names by exact Hpost.
    rewrite mapSections_unallocated by exact Hunalloc.
    unfold mapSection. rewrite Halloc. unfold targetOf. simpl andb. rewrite Haddr.
    simpl (0 =? 0). cbv zeta iota. cbn [baseAddr ms_engine mappedRegions sectionAddresses].
    change (ceilTo OBJECT_BASE PAGE) with OBJECT_BASE.
    change (OBJECT_BASE =? 0) with false. cbv iota.
    unfold alignedRegion. change (floorTo OBJECT_BASE PAGE) with OBJECT_BASE.
    cbn [fst snd].
    destruct (decide _) as [Hin | _]; [set_solver |].
    rewrite Hmap. rewrite Hname.
    destruct ((0 <? size text) && (0 <? offset text));
      [| cbn [sectionAddresses]; apply lookup_insert_eq].
    destruct (_ ← Uint8Array buffer (offset text) (size text); mem_write e1 _ _);
      cbn [sectionAddresses]; apply lookup_insert_eq.
  - intros Hex a Hlook. rewrite Hbase. rewrite Hst in Hlook.
    rewrite mapSections_other_names in Hlook by exact Hpost.
    set (st0 := {| ms_engine := engine0; baseAddr := OBJECT_BASE;
                   mappedRegions := ∅; sectionAddresses := ∅ |}) in *.
    destruct (mapSections_cursor buffer st0 pre) as [_ Hcursor].
    specialize (Hcursor Hex). simpl in Hcursor.
    assert (Hnone : sectionAddresses (fold_left (mapSection buffer true) pre st0)
                    !! name text = None).
    { rewrite Hname, mapSections_other_names by exact Hpre. apply lookup_empty. }
    rewrite <- Hname in Hlook.
    pose proof (mapSection_records buffer _ text a Halloc Haddr Hnone Hlook). lia.
Qed.

End WithEngine.

Lemma stack_value_shows_sign_witness :
  exists digits,
    hexPadded false (s_value PanelSamples.signedItem)
    = padStart 8 "0" (String "-" digits)
    /\ parseInt16 digits = 16.
Proof.
  destruct (@stack_value_shows_sign _ Sim.engine Samples.narrowDebugger 1
              PanelSamples.signedItem 0xF0 0xFF 0xFF 0xFF) as [_ Hhigh].
  - reflexivity.
  - left. reflexivity.
  - reflexivity.
  - split; [reflexivity | repeat constructor; lia].
  - destruct (Hhigh ltac:(lia)) as (digits & Htext & _ & _ & Hparse).
    exists digits. split; [exact Htext | exact Hparse].
Defined.

Lemma text_listing_base_and_load_address_witness :
  sectionAddresses
    (@mapSections _ Sim.engine (view Samples.externCallObject) true Sim.fresh
       ([PanelSamples.nullSection]
          ++ PanelSamples.textSection :: [PanelSamples.tableSection]))
    !! ".text"%string
  = Some 0x10000000.
Proof.
  destruct (@text_listing_base_and_load_address _ Sim.engine
              (view Samples.externCallObject) Sim.fresh
              [PanelSamples.nullSection] [PanelSamples.tableSection]
              PanelSamples.textSection) as (_ & Hfirst & _).
  - reflexivity.
  - reflexivity.
  - reflexivity.
  - repeat constructor. discriminate.
  - repeat constructor. discriminate.
  - eapply Hfirst; [repeat constructor | reflexivity].
Defined.

End PanelProps.
